(** * jsoncons: bignum, staj2 events and cursor visitor, filter views, json_decoder

    A shallow embedding of
      - [include/jsoncons/bignum.hpp]       (class [basic_bignum]),
      - [include/jsoncons/staj2_cursor.hpp] ([basic_staj2_event],
        [basic_staj2_visitor], [basic_staj2_filter_view]),
      - the [json_decoder] content handler,
    followed by the properties established about them.

    Conventions.  Machine integers are [Z] with the wrap-around written out
    ([u32], [u16]).  A digit block ([data_]) is a [list Z] whose length is the
    capacity of the block; every cell access is checked, and an access outside
    the block, undefined in C++, is reported as the fault [out_of_bounds].
    Loops whose trip count is not known on entry ([while], [do ... while])
    carry a fuel argument and report [out_of_fuel] when it is used up. *)

From Stdlib Require Import ZArith List Bool Lia String Ascii PrimFloat.
Import ListNotations.
Open Scope Z_scope.

(** ** Faults and the result monad *)

Inductive fault : Type :=
| zero_divide            (* throw std::runtime_error("Zero divide.") *)
| out_of_bounds          (* read or write outside an allocated block *)
| int_division_by_zero   (* built-in [/] or [%] with a zero divisor *)
| assertion_failed       (* JSONCONS_ASSERT throws *)
| out_of_fuel.           (* the model's loop budget is used up *)

Inductive res (A : Type) : Type :=
| Ok (a : A)
| Err (f : fault).
Arguments Ok {A} a.
Arguments Err {A} f.

Definition bind {A B : Type} (c : res A) (k : A -> res B) : res B :=
  match c with
  | Ok a => k a
  | Err f => Err f
  end.

Declare Scope res_scope.
Delimit Scope res_scope with res.
Notation "x <- c ;; k" := (bind c (fun x => k))
  (at level 61, c at next level, right associativity) : res_scope.
Notation "' p <- c ;; k" := (bind c (fun p => k))
  (at level 61, p pattern, c at next level, right associativity) : res_scope.
Open Scope res_scope.

(** ** Machine words and digit blocks *)

Definition u32 (x : Z) : Z := x mod 2 ^ 32.
Definition u16 (x : Z) : Z := x mod 2 ^ 16.
Definition b2z (b : bool) : Z := if b then 1 else 0.

Definition Zlen {A : Type} (l : list A) : Z := Z.of_nat (List.length l).

Definition in_block {A : Type} (d : list A) (i : Z) : bool :=
  (0 <=? i) && (i <? Zlen d).

Definition rd (d : list Z) (i : Z) : res Z :=
  if in_block d i then Ok (nth (Z.to_nat i) d 0) else Err out_of_bounds.

Fixpoint upd {A : Type} (d : list A) (n : nat) (v : A) : list A :=
  match d, n with
  | [], _ => []
  | _ :: t, O => v :: t
  | x :: t, S n' => x :: upd t n' v
  end.

Definition wr (d : list Z) (i : Z) (v : Z) : res (list Z) :=
  if in_block d i then Ok (upd d (Z.to_nat i) v) else Err out_of_bounds.

(* memcpy(dst + doff, src + soff, n words); n <= 0 copies nothing *)
Fixpoint copy_words (n : nat) (dst : list Z) (doff : Z) (src : list Z) (soff : Z)
  : res (list Z) :=
  match n with
  | O => Ok dst
  | S n' =>
      x <- rd src soff ;;
      dst' <- wr dst doff x ;;
      copy_words n' dst' (doff + 1) src (soff + 1)
  end.

(* memset(d + off, 0, n words) *)
Fixpoint zero_words (n : nat) (d : list Z) (off : Z) : res (list Z) :=
  match n with
  | O => Ok d
  | S n' => d' <- wr d off 0 ;; zero_words n' d' (off + 1)
  end.

(* built-in unsigned division and remainder *)
Definition udiv (a b : Z) : res Z :=
  if b =? 0 then Err int_division_by_zero else Ok (a / b).
Definition umod (a b : Z) : res Z :=
  if b =? 0 then Err int_division_by_zero else Ok (a mod b).

Module Bignum.

(** ** [basic_bignum]

    [data_] is the block the pointer [data_] designates: the two inline cells
    [values_] or a heap block of [capacity_] cells, so that [capacity()] is the
    length of the list.  [length_] is the [uint16_t] digit count. *)

Record bignum : Type := mk_bignum {
  data_ : list Z;
  neg_ : bool;
  length_ : Z
}.

Definition max_basic_type : Z := 2 ^ 32 - 1.
Definition basic_type_bits : Z := 32.
Definition basic_type_halfBits : Z := basic_type_bits / 2.
Definition word_length : Z := 2.
Definition r_mask : Z := Z.shiftl 1 basic_type_halfBits - 1.
Definition l_mask : Z := max_basic_type - r_mask.
Definition l_bit : Z := max_basic_type - Z.shiftr max_basic_type 1.

Definition capacity (b : bignum) : Z := Zlen (data_ b).
Definition length (b : bignum) : Z := length_ b.

Definition with_data (b : bignum) (d : list Z) : bignum :=
  mk_bignum d (neg_ b) (length_ b).
Definition with_neg (b : bignum) (n : bool) : bignum :=
  mk_bignum (data_ b) n (length_ b).
Definition with_length (b : bignum) (n : Z) : bignum :=
  mk_bignum (data_ b) (neg_ b) n.

(* uint16_t round_up(uint16_t i): (i/word_length + 1) * word_length *)
Definition round_up (i : Z) : Z := u16 ((i / word_length + 1) * word_length).

Section Indeterminate.

(** What C++ leaves indeterminate: the content of a fresh block
    ([new basic_type[n]], the inline cells of a fresh object) and the sign flag
    of an object whose constructor never assigns it. *)
Variable junk_word : Z.
Variable junk_flag : bool.

Definition alloc (n : Z) : list Z := repeat junk_word (Z.to_nat n).

(* basic_bignum() *)
Definition basic_bignum_default : bignum := mk_bignum [0; 0] false 0.

(* void set_length(int n) *)
Definition set_length (b : bignum) (n : Z) : bignum :=
  let len := u16 n in
  if len >? capacity b
  then mk_bignum (alloc (round_up len)) (neg_ b) len
  else with_length b len.

(* void incr_length(uint16_t len_new) *)
Definition incr_length (b : bignum) (len_new : Z) : res bignum :=
  let len_old := length_ b in
  let len := u16 len_new in
  d1 <- (if len >? capacity b
         then copy_words (Z.to_nat len_old) (alloc (round_up len)) 0 (data_ b) 0
         else Ok (data_ b)) ;;
  d2 <- (if len >? len_old
         then zero_words (Z.to_nat (len - len_old)) d1 len_old
         else Ok d1) ;;
  Ok (mk_bignum d2 (neg_ b) len).

(* void reduce(): drop the zero digits at the top, clear the sign of zero *)
Fixpoint reduce_loop (n : nat) (d : list Z) (len : Z) : res Z :=
  match n with
  | O => Ok len
  | S n' =>
      x <- rd d (len - 1) ;;
      if x =? 0 then reduce_loop n' d (len - 1) else Ok len
  end.

Definition reduce (b : bignum) : res bignum :=
  len <- reduce_loop (Z.to_nat (length_ b)) (data_ b) (length_ b) ;;
  Ok (mk_bignum (data_ b) (if len =? 0 then false else neg_ b) len).

(* void initialize(uint32_t u); [neg] is the flag as the caller left it *)
Definition initialize_u32 (neg : bool) (u : Z) : bignum :=
  mk_bignum [u; junk_word] neg (if u =? 0 then 0 else 1).

(* void initialize(uint64_t u) *)
Definition initialize_u64 (neg : bool) (u : Z) : bignum :=
  mk_bignum [Z.land u max_basic_type;
             Z.land (Z.shiftr u basic_type_bits) max_basic_type]
            neg (if u =? 0 then 0 else 2).

(* void initialize(const basic_bignum& n) *)
Definition initialize (n : bignum) : res bignum :=
  if length_ n <=? 2
  then
    d0 <- rd (data_ n) 0 ;;
    d1 <- rd (data_ n) 1 ;;
    Ok (mk_bignum [d0; d1] (neg_ n) (length_ n))
  else
    d <- copy_words (Z.to_nat (length_ n)) (alloc (round_up (length_ n))) 0 (data_ n) 0 ;;
    reduce (mk_bignum d (neg_ n) (length_ n)).

(* basic_bignum(const basic_bignum& n) *)
Definition basic_bignum_copy (n : bignum) : res bignum :=
  if length_ n <=? 2
  then
    d0 <- rd (data_ n) 0 ;;
    d1 <- rd (data_ n) 1 ;;
    Ok (mk_bignum [d0; d1] (neg_ n) (length_ n))
  else
    d <- copy_words (Z.to_nat (length_ n)) (alloc (capacity n)) 0 (data_ n) 0 ;;
    Ok (mk_bignum d (neg_ n) (length_ n)).

(* basic_bignum(int32_t i): neg_ = i < 0; u = neg_ ? -i : i *)
Definition basic_bignum_i32 (i : Z) : bignum :=
  initialize_u32 (i <? 0) (u32 (if i <? 0 then - i else i)).

(* basic_bignum(uint32_t u): neg_ is never assigned *)
Definition basic_bignum_u32 (u : Z) : bignum := initialize_u32 junk_flag u.

(* basic_bignum(const int64_t& i) *)
Definition basic_bignum_i64 (i : Z) : bignum :=
  initialize_u64 (i <? 0) ((if i <? 0 then - i else i) mod 2 ^ 64).

(* basic_bignum(const uint64_t& u): neg_ is never assigned *)
Definition basic_bignum_u64 (u : Z) : bignum := initialize_u64 junk_flag u.

(* basic_bignum operator-() const *)
Definition operator_neg (b : bignum) : res bignum :=
  v <- basic_bignum_copy b ;;
  Ok (with_neg v (negb (neg_ v))).

(* basic_bignum& operator=(const basic_bignum& y), for this != &y *)
Definition operator_assign (this y : bignum) : res bignum :=
  let t := set_length this (length y) in
  d <- copy_words (Z.to_nat (length y)) (data_ t) 0 (data_ y) 0 ;;
  Ok (mk_bignum d (neg_ y) (length_ t)).

(* int compare(const basic_bignum& y) const *)
Fixpoint compare_loop (n : nat) (a b : list Z) (i : Z) : res Z :=
  match n with
  | O => Ok 0
  | S n' =>
      x <- rd a i ;;
      y <- rd b i ;;
      if x >? y then Ok 1
      else if x <? y then Ok (-1)
      else compare_loop n' a b (i - 1)
  end.

Definition compare (this y : bignum) : res Z :=
  if negb (Bool.eqb (neg_ this) (neg_ y))
  then Ok (b2z (neg_ y) - b2z (neg_ this))
  else
    code <- (if (length this =? 0) || (length y =? 0) then Ok (length this - length y)
             else if length this <? length y then Ok (-1)
             else if length this >? length y then Ok 1
             else compare_loop (Z.to_nat (length this)) (data_ this) (data_ y)
                               (length this - 1)) ;;
    Ok (if neg_ this then - code else code).

Definition operator_lt (x y : bignum) : res bool :=
  c <- compare x y ;; Ok (c <? 0).
Definition operator_gt (x y : bignum) : res bool :=
  c <- compare x y ;; Ok (c >? 0).
Definition operator_eq (x y : bignum) : res bool :=
  c <- compare x y ;; Ok (c =? 0).

(* void DDproduct(A, B, Hi, Lo): (Hi, Lo) = A * B *)
Definition DDproduct (A B : Z) : Z * Z :=
  let hiA := Z.shiftr A basic_type_halfBits in
  let loA := Z.land A r_mask in
  let hiB := Z.shiftr B basic_type_halfBits in
  let loB := Z.land B r_mask in
  let Lo := u32 (loA * loB) in
  let Hi := u32 (hiA * hiB) in
  let mid1 := u32 (loA * hiB) in
  let mid2 := u32 (hiA * loB) in
  let old := Lo in
  let Lo := u32 (Lo + u32 (Z.shiftl mid1 basic_type_halfBits)) in
  let Hi := u32 (Hi + (b2z (Lo <? old) + Z.shiftr mid1 basic_type_halfBits)) in
  let old := Lo in
  let Lo := u32 (Lo + u32 (Z.shiftl mid2 basic_type_halfBits)) in
  let Hi := u32 (Hi + (b2z (Lo <? old) + Z.shiftr mid2 basic_type_halfBits)) in
  (Hi, Lo).

(* basic_bignum& operator+=(const basic_bignum& y), signs equal: the digit loop *)
Fixpoint add_loop (n : nat) (i carry : Z) (d yd : list Z) (ylen : Z) : res (list Z) :=
  match n with
  | O => Ok d
  | S n' =>
      if (i >=? ylen) && (carry =? 0) then Ok d
      else
        x <- rd d i ;;
        let dd := u32 (x + carry) in
        let carry := b2z (dd <? carry) in
        if i <? ylen
        then
          yi <- rd yd i ;;
          let s := u32 (dd + yi) in
          d' <- wr d i s ;;
          add_loop n' (i + 1) (if s <? dd then 1 else carry) d' yd ylen
        else
          d' <- wr d i dd ;;
          add_loop n' (i + 1) carry d' yd ylen
  end.

(* basic_bignum& operator-=(const basic_bignum& y), signs equal, |y| <= |*this| *)
Fixpoint sub_loop (n : nat) (i borrow : Z) (d yd : list Z) (ylen : Z) : res (list Z) :=
  match n with
  | O => Ok d
  | S n' =>
      if (i >=? ylen) && (borrow =? 0) then Ok d
      else
        x <- rd d i ;;
        let dd := u32 (x - borrow) in
        let borrow := b2z (dd >? x) in
        if i <? ylen
        then
          yi <- rd yd i ;;
          let s := u32 (dd - yi) in
          d' <- wr d i s ;;
          sub_loop n' (i + 1) (if s >? dd then 1 else borrow) d' yd ylen
        else
          d' <- wr d i dd ;;
          sub_loop n' (i + 1) borrow d' yd ylen
  end.

(* operator+= ([minus] = false) and operator-= ([minus] = true) call each other
   through the unary minus; [depth] bounds the nesting of these calls. *)
Fixpoint plus_minus (depth : nat) (minus : bool) (this y : bignum) : res bignum :=
  match depth with
  | O => Err out_of_fuel
  | S depth' =>
      if negb (Bool.eqb (neg_ this) (neg_ y))
      then
        (* return *this -= -y;   resp.   return *this += -y; *)
        ny <- operator_neg y ;;
        plus_minus depth' (negb minus) this ny
      else if minus
      then
        (* if ( !neg_ && y > *this || neg_ && y < *this ), with its short circuits *)
        swap <- (if negb (neg_ this) then operator_gt y this else operator_lt y this) ;;
        if swap
        then
          (* return *this = -(y - *this); *)
          x <- basic_bignum_copy y ;;
          t <- plus_minus depth' true x this ;;
          t' <- basic_bignum_copy t ;;
          nt <- operator_neg t' ;;
          operator_assign this nt
        else
          d <- sub_loop (Z.to_nat (length this)) 0 0 (data_ this) (data_ y) (length y) ;;
          reduce (with_data this d)
      else
        t <- incr_length this (Z.max (length y) (length this) + 1) ;;
        d <- add_loop (Z.to_nat (length t)) 0 0 (data_ t) (data_ y) (length y) ;;
        reduce (with_data t d)
  end.

Definition operator_add_assign (this y : bignum) : res bignum :=
  plus_minus 4 false this y.
Definition operator_sub_assign (this y : bignum) : res bignum :=
  plus_minus 4 true this y.

(* friend operator+(basic_bignum x, const basic_bignum& y) { return x += y; } *)
Definition operator_add (x y : bignum) : res bignum :=
  x' <- basic_bignum_copy x ;;
  r <- operator_add_assign x' y ;;
  basic_bignum_copy r.
(* friend operator+(basic_bignum x, int y) { return x += y; } *)
Definition operator_add_int (x : bignum) (y : Z) : res bignum :=
  operator_add x (basic_bignum_i32 y).
Definition operator_sub (x y : bignum) : res bignum :=
  x' <- basic_bignum_copy x ;;
  r <- operator_sub_assign x' y ;;
  basic_bignum_copy r.
Definition operator_sub_int (x : bignum) (y : Z) : res bignum :=
  operator_sub x (basic_bignum_i32 y).

(* basic_bignum& operator*=(unsigned y) *)
Fixpoint mul_unsigned_loop (n : nat) (i dig carry y : Z) (d : list Z)
  : res (list Z * Z) :=
  match n with
  | O => Ok (d, carry)
  | S n' =>
      let '(Hi, Lo) := DDproduct dig y in
      let s := u32 (Lo + carry) in
      d' <- wr d i s ;;
      dig' <- rd d' (i + 1) ;;
      mul_unsigned_loop n' (i + 1) dig' (u32 (Hi + b2z (s <? Lo))) y d'
  end.

Definition operator_mul_assign_unsigned (this : bignum) (y : Z) : res bignum :=
  let len0 := length this in
  dig <- rd (data_ this) 0 ;;
  t <- incr_length this (length this + 1) ;;
  '(d, carry) <- mul_unsigned_loop (Z.to_nat len0) 0 dig 0 y (data_ t) ;;
  d' <- wr d len0 carry ;;
  reduce (with_data t d').

(* basic_bignum& operator*=(int y) *)
Definition operator_mul_assign_int (this : bignum) (y : Z) : res bignum :=
  t <- operator_mul_assign_unsigned this (u32 (if y <? 0 then - y else y)) ;;
  Ok (if y <? 0 then with_neg t (negb (neg_ t)) else t).

(* basic_bignum& operator*=(basic_bignum y): the column sums of the general case *)
Fixpoint mul_inner_loop (n : nat) (jA i : Z) (xd yd : list Z) (ylen : Z)
  (sumLo sumHi carry : Z) : res (Z * Z * Z) :=
  match n with
  | O => Ok (sumLo, sumHi, carry)
  | S n' =>
      let jB := i - jA in
      if (jB >=? 0) && (jB <? ylen)
      then
        a <- rd xd jA ;;
        b <- rd yd jB ;;
        let '(Hi, Lo) := DDproduct a b in
        let sumLo_old := sumLo in
        let sumHi_old := sumHi in
        let sumLo := u32 (sumLo + Lo) in
        let sumHi := if sumLo <? sumLo_old then u32 (sumHi + 1) else sumHi in
        let sumHi := u32 (sumHi + Hi) in
        let carry := u32 (carry + b2z (sumHi <? sumHi_old)) in
        mul_inner_loop n' (jA + 1) i xd yd ylen sumLo sumHi carry
      else mul_inner_loop n' (jA + 1) i xd yd ylen sumLo sumHi carry
  end.

Fixpoint mul_outer_loop (n : nat) (i : Z) (xd : list Z) (xlen : Z) (yd : list Z)
  (ylen : Z) (sumHi carry : Z) (d : list Z) : res (list Z) :=
  match n with
  | O => Ok d
  | S n' =>
      '(sumLo, sumHi', carry') <-
        mul_inner_loop (Z.to_nat xlen) 0 i xd yd ylen sumHi carry 0 ;;
      d' <- wr d i sumLo ;;
      mul_outer_loop n' (i + 1) xd xlen yd ylen sumHi' carry' d'
  end.

Definition operator_mul_assign (this y0 : bignum) : res bignum :=
  y <- basic_bignum_copy y0 ;;
  if (length this =? 0) || (length y =? 0)
  then operator_assign this (basic_bignum_i32 0)
  else
    let difSigns := negb (Bool.eqb (neg_ this) (neg_ y)) in
    if length this + length y =? 2
    then
      a <- rd (data_ this) 0 ;;
      b <- rd (data_ y) 0 ;;
      let p := u32 (a * b) in
      d <- wr (data_ this) 0 p ;;
      q <- udiv p a ;;
      if negb (q =? b)
      then
        let t := set_length (with_data this d) 2 in
        let '(Hi, Lo) := DDproduct a b in
        d1 <- wr (data_ t) 1 Hi ;;
        d0 <- wr d1 0 Lo ;;
        Ok (mk_bignum d0 difSigns (length_ t))
      else Ok (mk_bignum d difSigns (length_ this))
    else
      t <- (if length this =? 1
            then
              digit <- rd (data_ this) 0 ;;
              t1 <- operator_assign this y ;;
              operator_mul_assign_unsigned t1 digit
            else if length y =? 1
            then
              y0' <- rd (data_ y) 0 ;;
              operator_mul_assign_unsigned this y0'
            else
              let lenProd := length this + length y in
              x <- basic_bignum_copy this ;;
              let t1 := set_length this lenProd in
              d <- mul_outer_loop (Z.to_nat lenProd) 0 (data_ x) (length x)
                     (data_ y) (length y) 0 0 (data_ t1) ;;
              Ok (with_data t1 d)) ;;
      r <- reduce t ;;
      Ok (with_neg r difSigns).

(* friend operator*(basic_bignum x, const basic_bignum& y) { return x *= y; } *)
Definition operator_mul (x y : bignum) : res bignum :=
  x' <- basic_bignum_copy x ;;
  r <- operator_mul_assign x' y ;;
  basic_bignum_copy r.
(* friend operator*(basic_bignum x, int y) { return x *= y; } *)
Definition operator_mul_int (x : bignum) (y : Z) : res bignum :=
  x' <- basic_bignum_copy x ;;
  r <- operator_mul_assign_int x' y ;;
  basic_bignum_copy r.

(* basic_bignum& operator<<=(unsigned k) *)
Fixpoint shl_digits_loop (n : nat) (i q : Z) (d : list Z) : res (list Z) :=
  match n with
  | O => Ok d
  | S n' =>
      v <- (if i <? q then Ok 0 else rd d (i - q)) ;;
      d' <- wr d i v ;;
      shl_digits_loop n' (i - 1) q d'
  end.

Fixpoint shl_bits_loop (n : nat) (i k k1 mask : Z) (d : list Z) : res (list Z) :=
  match n with
  | O => Ok d
  | S n' =>
      x <- rd d i ;;
      let x' := u32 (Z.shiftl x k) in
      v <- (if i >? 0
            then lo <- rd d (i - 1) ;; Ok (Z.lor x' (Z.land (Z.shiftr lo k1) mask))
            else Ok x') ;;
      d' <- wr d i v ;;
      shl_bits_loop n' (i - 1) k k1 mask d'
  end.

Definition operator_shl_assign (this : bignum) (k : Z) : res bignum :=
  let q := k / basic_type_bits in
  '(t, k) <- (if negb (q =? 0)
              then
                t <- incr_length this (length this + q) ;;
                d <- shl_digits_loop (Z.to_nat (length t)) (length t - 1) q (data_ t) ;;
                Ok (with_data t d, k mod basic_type_bits)
              else Ok (this, k)) ;;
  t' <- (if negb (k =? 0)
         then
           let k1 := basic_type_bits - k in
           let mask := u32 (Z.shiftl 1 k - 1) in
           t1 <- incr_length t (length t + 1) ;;
           d <- shl_bits_loop (Z.to_nat (length t1)) (length t1 - 1) k k1 mask (data_ t1) ;;
           Ok (with_data t1 d)
         else Ok t) ;;
  reduce t'.

(* basic_bignum& operator>>=(unsigned k) *)
Fixpoint shr_bits_loop (m : nat) (i n k k1 mask : Z) (d : list Z) : res (list Z) :=
  match m with
  | O => Ok d
  | S m' =>
      x <- rd d i ;;
      let x' := Z.shiftr x k in
      v <- (if i <? n
            then hi <- rd d (i + 1) ;; Ok (Z.lor x' (u32 (Z.shiftl (Z.land hi mask) k1)))
            else Ok x') ;;
      d' <- wr d i v ;;
      shr_bits_loop m' (i + 1) n k k1 mask d'
  end.

Definition shr_bits (t : bignum) (k : Z) : res bignum :=
  let n := length t - 1 in
  let k1 := basic_type_bits - k in
  let mask := u32 (Z.shiftl 1 k - 1) in
  d <- shr_bits_loop (Z.to_nat (n + 1)) 0 n k k1 mask (data_ t) ;;
  reduce (with_data t d).

Definition operator_shr_assign (this : bignum) (k : Z) : res bignum :=
  let q := k / basic_type_bits in
  if q >=? length this
  then Ok (set_length this 0)
  else if negb (q =? 0)
  then
    (* memmove(data_, data_ + q, (length() - q) words) *)
    d <- copy_words (Z.to_nat (length this - q)) (data_ this) 0 (data_ this) q ;;
    let t := set_length (with_data this d) (length this - q) in
    let k := k mod basic_type_bits in
    if k =? 0 then reduce t else shr_bits t k
  else shr_bits this k.

(* basic_type DDquotient(A, B, d): divide the double word (A, B) by d *)
Fixpoint DDquotient_hi_loop (fuel : nat) (A B qHi dHi dLo1 : Z) : res (Z * Z * Z) :=
  if (A >? dHi) || ((A =? dHi) && (B >=? dLo1))
  then
    match fuel with
    | O => Err out_of_fuel
    | S fuel' =>
        let x := u32 (B - dLo1) in
        let A' := u32 (A - (dHi + b2z (x >? B))) in
        DDquotient_hi_loop fuel' A' x (u32 (qHi + 1)) dHi dLo1
    end
  else Ok (A, B, qHi).

Fixpoint DDquotient_lo_loop (fuel : nat) (A B qLo d : Z) : res Z :=
  if negb (A =? 0) || (B >=? d)
  then
    match fuel with
    | O => Err out_of_fuel
    | S fuel' =>
        let x := u32 (B - d) in
        let A' := u32 (A - b2z (x >? B)) in
        DDquotient_lo_loop fuel' A' x (u32 (qLo + 1)) d
    end
  else Ok qLo.

Definition DDquotient (fuel : nat) (A B d : Z) : res Z :=
  let dHi := Z.shiftr d basic_type_halfBits in
  let dLo := Z.land d r_mask in
  let qHi := A / (dHi + 1) in
  let middle := u32 (qHi * dLo) in
  let left := u32 (qHi * dHi) in
  let x := u32 (B - u32 (Z.shiftl middle basic_type_halfBits)) in
  let A := u32 (A - (Z.shiftr middle basic_type_halfBits + left + b2z (x >? B))) in
  let B := x in
  let dLo1 := u32 (Z.shiftl dLo basic_type_halfBits) in
  '(A, B, qHi) <- DDquotient_hi_loop fuel A B qHi dHi dLo1 ;;
  let qLo := Z.lor (u32 (Z.shiftl A basic_type_halfBits)) (Z.shiftr B basic_type_halfBits)
             / (dHi + 1) in
  let right := u32 (qLo * dLo) in
  let middle := u32 (qLo * dHi) in
  let x := u32 (B - right) in
  let A := u32 (A - b2z (x >? B)) in
  let B := x in
  let x := u32 (B - u32 (Z.shiftl middle basic_type_halfBits)) in
  let A := u32 (A - (Z.shiftr middle basic_type_halfBits + b2z (x >? B))) in
  let B := x in
  qLo <- DDquotient_lo_loop fuel A B qLo d ;;
  Ok (u32 (u32 (Z.shiftl qHi basic_type_halfBits) + qLo)).

(* void subtractmul(a, b, n, q): a -= q * b, with a = block [ad] at offset [off] *)
Fixpoint subtractmul_sub_loop (n : nat) (i off : Z) (ad bd : list Z) (q carry : Z)
  : res (list Z * Z) :=
  match n with
  | O => Ok (ad, carry)
  | S n' =>
      bi <- rd bd i ;;
      let '(Hi, Lo) := DDproduct bi q in
      d <- rd ad (off + i) ;;
      let ai := u32 (d - Lo) in
      ad1 <- wr ad (off + i) ai ;;
      let carry := if ai >? d then u32 (carry + 1) else carry in
      d' <- rd ad1 (off + i + 1) ;;
      let ai1 := u32 (d' - u32 (Hi + carry)) in
      ad2 <- wr ad1 (off + i + 1) ai1 ;;
      subtractmul_sub_loop n' (i + 1) off ad2 bd q (b2z (ai1 >? d'))
  end.

Fixpoint subtractmul_add_loop (n : nat) (i off : Z) (ad bd : list Z) (carry : Z)
  : res (list Z) :=
  match n with
  | O => Ok ad
  | S n' =>
      x <- rd ad (off + i) ;;
      let d := u32 (x + carry) in
      let carry := b2z (d <? carry) in
      bi <- rd bd i ;;
      let ai := u32 (d + bi) in
      ad' <- wr ad (off + i) ai ;;
      subtractmul_add_loop n' (i + 1) off ad' bd (if ai <? d then 1 else carry)
  end.

Definition subtractmul (ad : list Z) (off : Z) (bd : list Z) (n q : Z)
  : res (list Z * Z) :=
  '(ad1, carry) <- subtractmul_sub_loop (Z.to_nat n) 0 off ad bd q 0 ;;
  if negb (carry =? 0)
  then
    (* q was too large *)
    ad2 <- subtractmul_add_loop (Z.to_nat n) 0 off ad1 bd 0 ;;
    ad3 <- wr ad2 (off + n) 0 ;;
    Ok (ad3, u32 (q - 1))
  else Ok (ad1, q).

(* int normalize(denom, num, x): result (denom, num, x, return value) *)
Fixpoint normalize_loop (fuel : nat) (y x : Z) : res Z :=
  if Z.land y l_bit =? 0
  then
    match fuel with
    | O => Err out_of_fuel
    | S fuel' => normalize_loop fuel' (u32 (Z.shiftl y 1)) (x + 1)
    end
  else Ok x.

Definition normalize (fuel : nat) (denom num : bignum)
  : res (bignum * bignum * Z * Z) :=
  let r := length denom - 1 in
  y <- rd (data_ denom) r ;;
  x <- normalize_loop fuel y 0 ;;
  denom1 <- operator_shl_assign denom x ;;
  num1 <- operator_shl_assign num x ;;
  dr <- rd (data_ denom1) r ;;
  second <- (if r >? 0 then dr1 <- rd (data_ denom1) (r - 1) ;; Ok (dr <? dr1)
             else Ok false) ;;
  if second
  then
    denom2 <- operator_mul_assign_unsigned denom1 max_basic_type ;;
    num2 <- operator_mul_assign_unsigned num1 max_basic_type ;;
    Ok (denom2, num2, x, 1)
  else Ok (denom1, num1, x, 0).

(* void unnormalize(rem, x, secondDone); [div_assign] is rem /= divisor *)
Definition unnormalize (div_assign : bignum -> bignum -> res bignum)
  (rem : bignum) (x secondDone : Z) : res bignum :=
  rem1 <- (if negb (secondDone =? 0)
           then div_assign rem (basic_bignum_u32 max_basic_type)
           else Ok rem) ;;
  if x >? 0 then operator_shr_assign rem1 x else reduce rem1.

(* the half-word divisor loop of divide *)
Fixpoint divide_half_loop (n : nat) (i divisor dHi : Z) (td qd : list Z)
  : res (list Z * Z) :=
  match n with
  | O => Ok (qd, dHi)
  | S n' =>
      w <- rd td i ;;
      let dividend := Z.lor (u32 (Z.shiftl dHi basic_type_halfBits))
                            (Z.shiftr w basic_type_halfBits) in
      q1 <- udiv dividend divisor ;;
      r <- umod dividend divisor ;;
      let dividend := Z.lor (u32 (Z.shiftl r basic_type_halfBits)) (Z.land w r_mask) in
      q2 <- udiv dividend divisor ;;
      dHi' <- umod dividend divisor ;;
      qd' <- wr qd i (Z.lor (u32 (Z.shiftl q1 basic_type_halfBits)) q2) ;;
      divide_half_loop n' (i - 1) divisor dHi' td qd'
  end.

(* for ( i=quot.length()-1; i >= 0; i-- ) quot.data_[i] = 0; *)
Fixpoint zero_down_loop (n : nat) (i : Z) (d : list Z) : res (list Z) :=
  match n with
  | O => Ok d
  | S n' => d' <- wr d i 0 ;; zero_down_loop n' (i - 1) d'
  end.

(* for ( int k = n; k > r; k-- ) { q = DDquotient(...); subtractmul(...); quot.data_[k-r-1] = q; } *)
Fixpoint divide_main_loop (fuel : nat) (m : nat) (k r d : Z) (rd_ dd qd : list Z)
  : res (list Z * list Z) :=
  match m with
  | O => Ok (rd_, qd)
  | S m' =>
      a <- rd rd_ k ;;
      b <- rd rd_ (k - 1) ;;
      q <- DDquotient fuel a b d ;;
      '(rd1, q') <- subtractmul rd_ (k - r - 1) dd (r + 1) q ;;
      qd' <- wr qd (k - r - 1) q' ;;
      divide_main_loop fuel m' (k - 1) r d rd1 dd qd'
  end.

(** void divide(basic_bignum denom, basic_bignum& quot, basic_bignum& rem,
                bool remDesired) const

    [quot] and [rem] are the objects the references designate on entry, the
    result is what they hold on return.  Either may be [*this] (operator/=,
    operator%=, to_string): [*this] is read on entry ([neg_], the copy [num])
    and in the half-word loop, where cell [i] is read before [quot.data_[i]] is
    written and the cells below [i] are still untouched, so that the reads see
    the digits of entry.  [depth] bounds the nesting through unnormalize. *)
Fixpoint divide (fuel : nat) (depth : nat) (this denom0 quot rem : bignum)
  (remDesired : bool) : res (bignum * bignum) :=
  match depth with
  | O => Err out_of_fuel
  | S depth' =>
      denom <- basic_bignum_copy denom0 ;;
      if length denom =? 0 then Err zero_divide
      else
        let QuotNeg := xorb (neg_ this) (neg_ denom) in
        let RemNeg := neg_ this in
        num <- basic_bignum_copy this ;;
        let num := with_neg num false in
        let denom := with_neg denom false in
        lt <- operator_lt num denom ;;
        if lt
        then
          quot1 <- operator_assign quot (basic_bignum_i32 0) ;;
          rem1 <- operator_assign rem num ;;
          Ok (quot1, with_neg rem1 RemNeg)
        else if (length denom =? 1) && (length num =? 1)
        then
          n0 <- rd (data_ num) 0 ;;
          d0 <- rd (data_ denom) 0 ;;
          q <- udiv n0 d0 ;;
          r <- umod n0 d0 ;;
          quot1 <- operator_assign quot (basic_bignum_u32 q) ;;
          rem1 <- operator_assign rem (basic_bignum_u32 r) ;;
          Ok (with_neg quot1 QuotNeg, with_neg rem1 RemNeg)
        else
          d0 <- (if length denom =? 1 then rd (data_ denom) 0 else Ok 0) ;;
          if (length denom =? 1) && (Z.land d0 l_mask =? 0)
          then
            (* Denominator fits into a half word *)
            let quot1 := set_length quot (length this) in
            '(qd, dHi) <- divide_half_loop (Z.to_nat (length this)) (length this - 1)
                            d0 0 (data_ this) (data_ quot1) ;;
            quot2 <- reduce (with_data quot1 qd) ;;
            rem1 <- operator_assign rem (basic_bignum_u32 dHi) ;;
            Ok (with_neg quot2 QuotNeg, with_neg rem1 RemNeg)
          else
            (* basic_bignum num0 = num, denom0 = denom; *)
            _ <- basic_bignum_copy num ;;
            _ <- basic_bignum_copy denom ;;
            '(denom, num, x, secondDone) <- normalize fuel denom num ;;
            let r := length denom - 1 in
            let n := length num - 1 in
            let quot1 := set_length quot (n - r) in
            qd <- zero_down_loop (Z.to_nat (length quot1)) (length quot1 - 1)
                    (data_ quot1) ;;
            let quot2 := with_data quot1 qd in
            rem1 <- operator_assign rem num ;;
            rn <- rd (data_ rem1) n ;;
            dr <- rd (data_ denom) r ;;
            '(rem2, n, quot3) <-
              (if rn >=? dr
               then
                 rem2 <- incr_length rem1 (length rem1 + 1) ;;
                 quot3 <- incr_length quot2 (length quot2 + 1) ;;
                 Ok (rem2, n + 1, quot3)
               else Ok (rem1, n, quot2)) ;;
            d <- rd (data_ denom) r ;;
            '(remd, qd) <- divide_main_loop fuel (Z.to_nat (n - r)) n r d
                             (data_ rem2) (data_ denom) (data_ quot3) ;;
            quot4 <- reduce (with_data quot3 qd) ;;
            let quot5 := with_neg quot4 QuotNeg in
            let rem3 := with_data rem2 remd in
            if remDesired
            then
              rem4 <- unnormalize
                        (fun this' divisor =>
                           '(q, _) <- divide fuel depth' this' divisor this'
                                        basic_bignum_default false ;;
                           Ok q)
                        rem3 x secondDone ;;
              Ok (quot5, with_neg rem4 RemNeg)
            else Ok (quot5, rem3)
  end.

Definition loop_fuel : nat := 4096.
Definition call_depth : nat := 4.

(* basic_bignum& operator/=(const basic_bignum& divisor) *)
Definition operator_div_assign (this divisor : bignum) : res bignum :=
  '(q, _) <- divide loop_fuel call_depth this divisor this basic_bignum_default false ;;
  Ok q.

(* basic_bignum& operator%=(const basic_bignum& divisor) *)
Definition operator_mod_assign (this divisor : bignum) : res bignum :=
  '(_, r) <- divide loop_fuel call_depth this divisor basic_bignum_default this true ;;
  Ok r.

(* friend operator/(basic_bignum x, const basic_bignum& y) { return x /= y; } *)
Definition operator_div (x y : bignum) : res bignum :=
  x' <- basic_bignum_copy x ;;
  r <- operator_div_assign x' y ;;
  basic_bignum_copy r.

(* friend operator%(basic_bignum x, const basic_bignum& y) { return x %= y; } *)
Definition operator_mod (x y : bignum) : res bignum :=
  x' <- basic_bignum_copy x ;;
  r <- operator_mod_assign x' y ;;
  basic_bignum_copy r.

(* static unsigned p10 = 1, ip10 = 0;
   while ( p10 <= UINT_MAX/10 ) { p10 *= 10; ip10++; } *)
Fixpoint p10_loop (fuel : nat) (p10 ip10 : Z) : Z * Z :=
  match fuel with
  | O => (p10, ip10)
  | S fuel' =>
      if p10 <=? max_basic_type / 10
      then p10_loop fuel' (u32 (p10 * 10)) (ip10 + 1)
      else (p10, ip10)
  end.
Definition p10 : Z := fst (p10_loop 32 1 0).
Definition ip10 : Z := snd (p10_loop 32 1 0).

Definition char_0 : Z := 48.      (* '0' *)
Definition char_minus : Z := 45.  (* '-' *)

(* for ( unsigned j=0; j < ip10; j++ )
     { data[--n] = char(r % 10 + '0'); r /= 10; if ( r + v.length() == 0 ) break; } *)
Fixpoint to_string_digits_loop (m : nat) (r vlen n : Z) (data : list Z)
  : res (list Z * Z) :=
  match m with
  | O => Ok (data, n)
  | S m' =>
      let n := n - 1 in
      data' <- wr data n (r mod 10 + char_0) ;;
      let r := r / 10 in
      if r + vlen =? 0 then Ok (data', n)
      else to_string_digits_loop m' r vlen n data'
  end.

(* do { v.divide( LP10, v, R, true ); ... } while ( v.length() ); *)
Fixpoint to_string_do_loop (fuel : nat) (v R LP10 : bignum) (n : Z) (data : list Z)
  : res (list Z * Z) :=
  match fuel with
  | O => Err out_of_fuel
  | S fuel' =>
      '(v', R') <- divide loop_fuel call_depth v LP10 v R true ;;
      r <- (if negb (length R' =? 0) then rd (data_ R') 0 else Ok 0) ;;
      '(data', n') <- to_string_digits_loop (Z.to_nat ip10) r (length v') n data ;;
      if negb (length v' =? 0)
      then to_string_do_loop fuel' v' R' LP10 n' data'
      else Ok (data', n')
  end.

(* while ( n < len ) data[i++] = data[n++]; *)
Fixpoint to_string_move_loop (m : nat) (i n : Z) (data : list Z) : res (list Z * Z) :=
  match m with
  | O => Ok (data, i)
  | S m' =>
      c <- rd data n ;;
      data' <- wr data i c ;;
      to_string_move_loop m' (i + 1) (n + 1) data'
  end.

Definition string_of_chars (l : list Z) : string :=
  string_of_list_ascii (map (fun c => ascii_of_N (Z.to_N c)) l).

(* std::string to_string() const *)
Definition to_string (this : bignum) : res string :=
  v <- basic_bignum_copy this ;;
  let len := length v * basic_type_bits / 3 + 2 in
  let data := repeat 0 (Z.to_nat len) in
  '(data, i) <-
    (if length v =? 0
     then data' <- wr data 0 char_0 ;; Ok (data', 1)
     else
       let R := basic_bignum_default in
       let LP10 := basic_bignum_u32 p10 in
       '(data1, i) <- (if neg_ v then data' <- wr data 0 char_minus ;; Ok (data', 1)
                       else Ok (data, 0)) ;;
       '(data2, n) <- to_string_do_loop (Z.to_nat len) v R LP10 len data1 ;;
       to_string_move_loop (Z.to_nat (len - n)) i n data2) ;;
  Ok (string_of_chars (firstn (Z.to_nat i) data)).

(* a C string: the characters before the terminating NUL, as (signed) char values *)
Definition char_value (a : ascii) : Z :=
  let c := Z.of_N (N_of_ascii a) in
  if c >=? 128 then c - 256 else c.

Fixpoint c_str (s : string) : list Z :=
  match s with
  | EmptyString => []
  | String a s' => if char_value a =? 0 then [] else char_value a :: c_str s'
  end.

(* isspace in the "C" locale *)
Definition isspace (c : Z) : bool :=
  (c =? 32) || ((9 <=? c) && (c <=? 13)).

Fixpoint skip_space (str : list Z) : list Z :=
  match str with
  | c :: str' => if isspace c then skip_space str' else str
  | [] => []
  end.

(* for (size_t i = 0; i < n; i++) v = (v * base) + (int)(digit i); *)
Fixpoint accumulate (base : Z) (digits : list Z) (v : bignum) : res bignum :=
  match digits with
  | [] => Ok v
  | c :: digits' =>
      p <- operator_mul_int v base ;;
      s <- operator_add_int p c ;;
      v' <- operator_assign v s ;;
      accumulate base digits' v'
  end.

(* basic_bignum(const char* str) *)
Definition basic_bignum_str (s : string) : res bignum :=
  let str := skip_space (c_str s) in
  let '(neg, str) := match str with
                     | c :: str' => if c =? char_minus then (true, str') else (false, str)
                     | [] => (false, str)
                     end in
  v <- accumulate 10 (map (fun c => c - char_0) str) (basic_bignum_i32 0) ;;
  initialize (if neg then with_neg v true else v).

(* basic_bignum(int signum, const uint8_t* str, size_t n): [str] holds the n bytes *)
Definition basic_bignum_bin (signum : Z) (str : list Z) : res bignum :=
  let neg := signum =? -1 in
  v <- accumulate 16 str (basic_bignum_i32 0) ;;
  initialize (if neg then with_neg v true else v).

(* friend basic_bignum sqrt(const basic_bignum& a) *)
Fixpoint sqrt_halve_loop (fuel : nat) (b x : bignum) : res bignum :=
  b' <- operator_shr_assign b 2 ;;
  pos <- operator_gt b' (basic_bignum_i32 0) ;;
  if pos
  then
    match fuel with
    | O => Err out_of_fuel
    | S fuel' => x' <- operator_shr_assign x 1 ;; sqrt_halve_loop fuel' b' x'
    end
  else Ok x.

Fixpoint sqrt_newton_loop (fuel : nat) (a x q : bignum) : res (bignum * bignum) :=
  t <- operator_div a x ;;
  q' <- operator_assign q t ;;
  q1 <- operator_add_int q' 1 ;;
  gt <- operator_gt x q1 ;;
  again <- (if gt then Ok true
            else qm <- operator_sub_int q' 1 ;; operator_lt x qm) ;;
  if again
  then
    match fuel with
    | O => Err out_of_fuel
    | S fuel' =>
        x1 <- operator_add_assign x q' ;;
        x2 <- operator_shr_assign x1 1 ;;
        sqrt_newton_loop fuel' a x2 q'
    end
  else Ok (x, q').

Definition sqrt (fuel : nat) (a : bignum) : res bignum :=
  x <- basic_bignum_copy a ;;
  b <- basic_bignum_copy a ;;
  let q := basic_bignum_default in
  b' <- operator_shl_assign b 1 ;;
  x' <- sqrt_halve_loop fuel b' x ;;
  '(x'', q') <- sqrt_newton_loop fuel a x' q ;;
  lt <- operator_lt x'' q' ;;
  basic_bignum_copy (if lt then x'' else q').

(* bool operator!() const and explicit operator bool() const *)
Definition operator_not (b : bignum) : bool := length b =? 0.
Definition operator_bool (b : bignum) : bool := negb (length b =? 0).

(* friend operator!=, operator<=, operator>= on two bignums *)
Definition operator_ne (x y : bignum) : res bool :=
  c <- compare x y ;; Ok (negb (c =? 0)).
Definition operator_le (x y : bignum) : res bool :=
  c <- compare x y ;; Ok (c <=? 0).
Definition operator_ge (x y : bignum) : res bool :=
  c <- compare x y ;; Ok (c >=? 0).

(* 64-bit and 32-bit patterns read as uint64_t, int64_t and int *)
Definition u64 (x : Z) : Z := x mod 2 ^ 64.
Definition s64 (x : Z) : Z :=
  let r := x mod 2 ^ 64 in if r >=? 2 ^ 63 then r - 2 ^ 64 else r.
Definition s32 (x : Z) : Z :=
  let r := x mod 2 ^ 32 in if r >=? 2 ^ 31 then r - 2 ^ 32 else r.

(* explicit operator uint64_t() const *)
Definition operator_uint64 (b : bignum) : res Z :=
  u <- (if length b >=? 1 then rd (data_ b) 0 else Ok 0) ;;
  if length b >=? 2
  then
    y <- rd (data_ b) 1 ;;
    let y := u64 (Z.shiftl y basic_type_bits) in
    Ok (u64 (u + y))
  else Ok u.

(* explicit operator int64_t() const: u read as int64_t, negated under neg_
   (the negation wraps where C++ leaves it undefined) *)
Definition operator_int64 (b : bignum) : res Z :=
  u <- operator_uint64 b ;;
  let i := s64 u in
  Ok (if neg_ b then s64 (- i) else i).

(* explicit operator unsigned() const *)
Definition operator_unsigned (b : bignum) : res Z :=
  if length b >? 0 then rd (data_ b) 0 else Ok 0.

(* explicit operator int() const *)
Definition operator_int (b : bignum) : res Z :=
  x <- (if length b >? 0 then d <- rd (data_ b) 0 ;; Ok (s32 d) else Ok 0) ;;
  Ok (if neg_ b then s32 (- x) else x).

(* friend basic_bignum abs(const basic_bignum& a) *)
Definition abs (a : bignum) : res bignum :=
  if neg_ a then operator_neg a else basic_bignum_copy a.

(* basic_bignum& operator|=(const basic_bignum& a) and operator^=: the loop
     while ( q >= qBegin ) *p-- op= *q--;
   from cell a.length() - 1 down to cell 0; [ad] is the block of [a] *)
Fixpoint bitwise_loop (op : Z -> Z -> Z) (n : nat) (i : Z) (d ad : list Z)
  : res (list Z) :=
  match n with
  | O => Ok d
  | S n' =>
      y <- rd ad i ;;
      x <- rd d i ;;
      d' <- wr d i (op x y) ;;
      bitwise_loop op n' (i - 1) d' ad
  end.

Definition bitwise_assign (op : Z -> Z -> Z) (this a : bignum) : res bignum :=
  t <- (if length this <? length a then incr_length this (length a) else Ok this) ;;
  d <- bitwise_loop op (Z.to_nat (length a)) (length a - 1) (data_ t) (data_ a) ;;
  reduce (with_data t d).

Definition operator_or_assign (this a : bignum) : res bignum :=
  bitwise_assign Z.lor this a.
Definition operator_xor_assign (this a : bignum) : res bignum :=
  bitwise_assign Z.lxor this a.

(** What a word holds after memset has cleared its first [k] bytes in memory,
    0 < k < 4: which bytes those are is the byte order of the platform. *)
Variable clear_bytes : Z -> Z -> Z.

(* memset(d + off, 0, nbytes): whole words, then the first bytes of one more *)
Fixpoint memset_bytes (fuel : nat) (d : list Z) (off nbytes : Z) : res (list Z) :=
  match fuel with
  | O => Ok d
  | S fuel' =>
      if nbytes >=? 4
      then d' <- wr d off 0 ;; memset_bytes fuel' d' (off + 1) (nbytes - 4)
      else if nbytes >? 0
      then w <- rd d off ;; wr d off (clear_bytes w nbytes)
      else Ok d
  end.

(* basic_bignum& operator&=(const basic_bignum& a): the loop
     while ( p >= pBegin ) *p-- &= *q--;
   runs over the cells below the new length; the memset that follows counts
   bytes where the cells are words *)
Definition operator_and_assign (this a : bignum) : res bignum :=
  let old_length := length this in
  let t := set_length this (Z.min (length this) (length a)) in
  d <- bitwise_loop Z.land (Z.to_nat (length t)) (length t - 1) (data_ t) (data_ a) ;;
  d' <- (if old_length >? length t
         then memset_bytes (Z.to_nat (old_length - length t)) d (length t)
                           (old_length - length t)
         else Ok d) ;;
  reduce (with_data t d').

(* basic_bignum& operator++() { *this += 1; } and operator--() { *this -= 1; } *)
Definition operator_inc (this : bignum) : res bignum :=
  operator_add_assign this (basic_bignum_i32 1).
Definition operator_dec (this : bignum) : res bignum :=
  operator_sub_assign this (basic_bignum_i32 1).

(* friend basic_bignum power(basic_bignum x, unsigned n):
     basic_bignum y = 1;
     while ( n ) { if ( n & 1 ) y *= x; x *= x; n >>= 1; }
     return y; *)
Fixpoint power_loop (fuel : nat) (x y : bignum) (n : Z) : res bignum :=
  if n =? 0 then Ok y
  else
    match fuel with
    | O => Err out_of_fuel
    | S fuel' =>
        y' <- (if negb (Z.land n 1 =? 0) then operator_mul_assign y x else Ok y) ;;
        x' <- operator_mul_assign x x ;;
        power_loop fuel' x' y' (Z.shiftr n 1)
    end.

Definition power (x : bignum) (n : Z) : res bignum :=
  x' <- basic_bignum_copy x ;;
  y <- power_loop 32 x' (basic_bignum_i32 1) n ;;
  basic_bignum_copy y.

End Indeterminate.

(** The integer a bignum denotes, and the two representation invariants. *)
Fixpoint digits_value (d : list Z) : Z :=
  match d with
  | [] => 0
  | x :: t => x + 2 ^ 32 * digits_value t
  end.

Definition magnitude (b : bignum) : Z :=
  digits_value (firstn (Z.to_nat (length_ b)) (data_ b)).

Definition value (b : bignum) : Z :=
  if neg_ b then - magnitude b else magnitude b.

(* length = 0 implies the negative flag is false *)
Definition zero_is_unsigned (b : bignum) : bool :=
  if length_ b =? 0 then negb (neg_ b) else true.

(* length > 0 implies data[length-1] is nonzero *)
Definition top_digit_nonzero (b : bignum) : bool :=
  if length_ b >? 0
  then negb (nth (Z.to_nat (length_ b - 1)) (data_ b) 0 =? 0)
  else true.

Definition canonical (b : bignum) : bool :=
  zero_is_unsigned b && top_digit_nonzero b.

(** What the C++ types give for free: a length within the block, a block of
    at least the two inline cells, and 32-bit digits below the length. *)
Definition is_digit (x : Z) : bool := (0 <=? x) && (x <? 2 ^ 32).

Definition well_formed (b : bignum) : bool :=
  (0 <=? length_ b) && (length_ b <=? capacity b) && (2 <=? capacity b) &&
  forallb is_digit (firstn (Z.to_nat (length_ b)) (data_ b)).

(** Numerals: the value of a digit sequence in a base, most significant digit
    first, and the C string of a decimal numeral. *)
Definition horner (base : Z) (digits : list Z) : Z :=
  fold_left (fun v d => v * base + d) digits 0.

Definition digit_char (d : Z) : ascii := ascii_of_N (Z.to_N (d + char_0)).

Definition decimal_string (neg : bool) (digits : list Z) : string :=
  string_of_list_ascii ((if neg then ["-"%char] else []) ++ map digit_char digits).

(** The value the spec gives the signed binary digits (sign, bytes):
    big-endian, one base-256 digit per byte. *)
Definition spec_base256 (bytes : list Z) : Z :=
  fold_left (fun v b => v * 256 + b) bytes 0.
Definition spec_binary_value (signum : Z) (bytes : list Z) : Z :=
  (if signum =? -1 then -1 else 1) * spec_base256 bytes.

End Bignum.

(** ** staj2 events ([staj2_cursor.hpp]) *)

Module staj2_event_type.
Inductive t : Type :=
| begin_array
| end_array
| begin_object
| end_object
| string_value
| byte_string_value
| null_value
| bool_value
| int64_value
| uint64_value
| half_value
| double_value.
End staj2_event_type.

(** Modelled from the spec: [semantic_tag] (declared outside [src/]), the tags
    that section 3.1, section 4.2 and the scenarios of section 8 name. *)
Module semantic_tag.
Inductive t : Type :=
| none
| big_integer
| big_decimal
| date_time
| epoch_time
| ext
| base16
| base64
| base64url
| row_major.
End semantic_tag.

(** Modelled from the spec: [conv_errc] (declared outside [src/]), the
    conversion kinds of the taxonomy of section 7. *)
Module conv_errc.
Inductive t : Type :=
| not_string
| not_string_view
| not_byte_string
| not_byte_string_view
| not_integer
| not_double
| not_bool
| not_vector.
End conv_errc.

(** A [std::error_code]: clear, a conversion error, or a code of the decoder. *)
Inductive error_code : Type :=
| ec_clear
| ec_conv (e : conv_errc.t)
| ec_other (n : Z).

Definition ec_set (ec : error_code) : bool :=
  match ec with
  | ec_clear => false
  | _ => true
  end.

(** Modelled from the spec: [ser_context] (declared outside [src/]), the
    byte/line/column provenance of section 4.4; [ser_context()] is all zero. *)
Record ser_context : Type := mk_ser_context {
  position : Z;
  line : Z;
  column : Z
}.
Definition ser_context_default : ser_context := mk_ser_context 0 0 0.

Module Staj2.

(** The union [value_] of [basic_staj2_event]; a view is modelled by the
    characters or bytes it designates.  [no_value] is the value-initialised
    union ([value_()]). *)
Inductive payload : Type :=
| no_value
| bool_payload (b : bool)
| int64_payload (v : Z)
| uint64_payload (v : Z)
| half_payload (v : Z)
| double_payload (v : float)
| string_payload (s : string)
| byte_string_payload (s : list Z).

Record basic_staj2_event : Type := mk_event {
  event_type_ : staj2_event_type.t;
  tag_ : semantic_tag.t;
  ext_tag_ : Z;
  value_ : payload;
  length_ : Z
}.

(* the constructors of basic_staj2_event, in the order of the source *)
Definition event_of_type (event_type : staj2_event_type.t) (tag : semantic_tag.t)
  : basic_staj2_event :=
  mk_event event_type tag 0 no_value 0.
Definition event_of_type_length (event_type : staj2_event_type.t) (length : Z)
  (tag : semantic_tag.t) : basic_staj2_event :=
  mk_event event_type tag 0 no_value length.
Definition event_of_null (tag : semantic_tag.t) : basic_staj2_event :=
  mk_event staj2_event_type.null_value tag 0 no_value 0.
Definition event_of_bool (value : bool) (tag : semantic_tag.t) : basic_staj2_event :=
  mk_event staj2_event_type.bool_value tag 0 (bool_payload value) 0.
Definition event_of_int64 (value : Z) (tag : semantic_tag.t) : basic_staj2_event :=
  mk_event staj2_event_type.int64_value tag 0 (int64_payload value) 0.
Definition event_of_uint64 (value : Z) (tag : semantic_tag.t) : basic_staj2_event :=
  mk_event staj2_event_type.uint64_value tag 0 (uint64_payload value) 0.
Definition event_of_half (value : Z) (tag : semantic_tag.t) : basic_staj2_event :=
  mk_event staj2_event_type.half_value tag 0 (half_payload value) 0.
Definition event_of_double (value : float) (tag : semantic_tag.t) : basic_staj2_event :=
  mk_event staj2_event_type.double_value tag 0 (double_payload value) 0.
Definition event_of_string (s : string) (event_type : staj2_event_type.t)
  (tag : semantic_tag.t) : basic_staj2_event :=
  mk_event event_type tag 0 (string_payload s) (Z.of_nat (String.length s)).
Definition event_of_byte_string (s : list Z) (event_type : staj2_event_type.t)
  (tag : semantic_tag.t) : basic_staj2_event :=
  mk_event event_type tag 0 (byte_string_payload s) (Zlen s).
Definition event_of_byte_string_ext (s : list Z) (event_type : staj2_event_type.t)
  (ext_tag : Z) : basic_staj2_event :=
  mk_event event_type semantic_tag.ext ext_tag (byte_string_payload s) (Zlen s).

Definition event_type (ev : basic_staj2_event) : staj2_event_type.t := event_type_ ev.
Definition tag (ev : basic_staj2_event) : semantic_tag.t := tag_ ev.
Definition ext_tag (ev : basic_staj2_event) : Z := ext_tag_ ev.
Definition size (ev : basic_staj2_event) : Z := length_ ev.

(* reading a member of the union; a member that was not the one stored reads
   as the value-initialised member *)
Definition bool_value_ (ev : basic_staj2_event) : bool :=
  match value_ ev with bool_payload b => b | _ => false end.
Definition int64_value_ (ev : basic_staj2_event) : Z :=
  match value_ ev with int64_payload v => v | _ => 0 end.
Definition uint64_value_ (ev : basic_staj2_event) : Z :=
  match value_ ev with uint64_payload v => v | _ => 0 end.
Definition half_value_ (ev : basic_staj2_event) : Z :=
  match value_ ev with half_payload v => v | _ => 0 end.
Definition double_value_ (ev : basic_staj2_event) : float :=
  match value_ ev with double_payload v => v | _ => 0%float end.

(* bool as_bool(std::error_code& ec) const: the value returned and ec on return *)
Definition as_bool (ev : basic_staj2_event) (ec : error_code) : bool * error_code :=
  match event_type_ ev with
  | staj2_event_type.bool_value => (bool_value_ ev, ec)
  | staj2_event_type.double_value => (negb (PrimFloat.eqb (double_value_ ev) 0%float), ec)
  | staj2_event_type.int64_value => (negb (int64_value_ ev =? 0), ec)
  | staj2_event_type.uint64_value => (negb (uint64_value_ ev =? 0), ec)
  | _ => (false, ec_conv conv_errc.not_bool)
  end.

(* template<class T> enable_if<is_bool<T>> get(std::error_code& ec) const *)
Definition get_bool (ev : basic_staj2_event) (ec : error_code) : bool * error_code :=
  as_bool ev ec.

(* template <class T> T get() const, for T = bool: the value, or the code thrown
   in a ser_error *)
Definition get_bool_throwing (ev : basic_staj2_event) : bool + error_code :=
  let '(val, ec) := get_bool ev ec_clear in
  if ec_set ec then inr ec else inl val.

(** ** Typed arrays and the visitor protocol *)

(** Modelled from the spec: [typed_array_type] and [typed_array_view]
    (typed_array_view.hpp is not under [src/]): the descriptor
    {element_kind, pointer, count} of section 3.3.  The enumerators are the
    ones the switches of the source name; [empty] is the value-initialised
    [typed_array_type()], which [is_typed_array] tests against. *)
Module typed_array_type.
Inductive t : Type :=
| empty
| uint8_value
| uint16_value
| uint32_value
| uint64_value
| int8_value
| int16_value
| int32_value
| int64_value
| half_value
| float_value
| double_value.
End typed_array_type.

(** [jsoncons::span<const T>], one constructor per element type [T] that the
    overloads of [visit_typed_array] take; the list is the viewed memory. *)
Inductive span : Type :=
| span_uint8 (v : list Z)
| span_uint16 (v : list Z)
| span_uint32 (v : list Z)
| span_uint64 (v : list Z)
| span_int8 (v : list Z)
| span_int16 (v : list Z)
| span_int32 (v : list Z)
| span_int64 (v : list Z)
| span_float (v : list float)
| span_double (v : list float).

Definition span_size (s : span) : Z :=
  match s with
  | span_uint8 v | span_uint16 v | span_uint32 v | span_uint64 v
  | span_int8 v | span_int16 v | span_int32 v | span_int64 v => Zlen v
  | span_float v | span_double v => Zlen v
  end.

Record typed_array_view : Type := mk_view {
  type_ : typed_array_type.t;
  view_data_ : span;
  size_ : Z
}.

(* typed_array_view() *)
Definition typed_array_view_default : typed_array_view :=
  mk_view typed_array_type.empty (span_uint8 []) 0.

(** Modelled from the spec: the constructors [typed_array_view(const T* data,
    std::size_t size)].  The element kind is fixed by the static type [T] of
    the pointer, the only thing the call site passes besides the size. *)
Definition typed_array_view_of (data : span) (size : Z) : typed_array_view :=
  mk_view
    match data with
    | span_uint8 _ => typed_array_type.uint8_value
    | span_uint16 _ => typed_array_type.uint16_value
    | span_uint32 _ => typed_array_type.uint32_value
    | span_uint64 _ => typed_array_type.uint64_value
    | span_int8 _ => typed_array_type.int8_value
    | span_int16 _ => typed_array_type.int16_value
    | span_int32 _ => typed_array_type.int32_value
    | span_int64 _ => typed_array_type.int64_value
    | span_float _ => typed_array_type.float_value
    | span_double _ => typed_array_type.double_value
    end
    data size.

(* data_.data(..._array_arg)[index_]: the cell, as an integer or as a double *)
Definition int_at (v : typed_array_view) (i : Z) : Z :=
  match view_data_ v with
  | span_uint8 l | span_uint16 l | span_uint32 l | span_uint64 l
  | span_int8 l | span_int16 l | span_int32 l | span_int64 l => nth (Z.to_nat i) l 0
  | _ => 0
  end.
Definition float_at (v : typed_array_view) (i : Z) : float :=
  match view_data_ v with
  | span_float l | span_double l => nth (Z.to_nat i) l 0%float
  | _ => 0%float
  end.

(** Modelled from the spec: [basic_json_visitor2] (json_visitor2.hpp is not
    under [src/]), the push interface of section 6.1.  A call names the method
    and its arguments; every method answers with a boolean.  There is one
    call for each [visit_] override of the cursor visitor that answers: the
    two forms of begin_object and of begin_array, the two forms of
    byte_string, the scalars, the typed arrays, begin_multi_dim and
    end_multi_dim.  flush() answers nothing and is [visit_flush] below; the
    cursor visitor has no override for name. *)
Inductive visitor_call : Type :=
| call_begin_object (tag : semantic_tag.t) (context : ser_context)
| call_begin_object_length (length : Z) (tag : semantic_tag.t) (context : ser_context)
| call_end_object (context : ser_context)
| call_begin_array (tag : semantic_tag.t) (context : ser_context)
| call_begin_array_length (length : Z) (tag : semantic_tag.t) (context : ser_context)
| call_end_array (context : ser_context)
| call_null_value (tag : semantic_tag.t) (context : ser_context)
| call_bool_value (value : bool) (tag : semantic_tag.t) (context : ser_context)
| call_string_value (s : string) (tag : semantic_tag.t) (context : ser_context)
| call_byte_string_value (s : list Z) (tag : semantic_tag.t) (context : ser_context)
| call_byte_string_value_ext (s : list Z) (ext_tag : Z) (context : ser_context)
| call_uint64_value (value : Z) (tag : semantic_tag.t) (context : ser_context)
| call_int64_value (value : Z) (tag : semantic_tag.t) (context : ser_context)
| call_half_value (value : Z) (tag : semantic_tag.t) (context : ser_context)
| call_double_value (value : float) (tag : semantic_tag.t) (context : ser_context)
| call_typed_array (data : span) (tag : semantic_tag.t) (context : ser_context)
| call_typed_array_half (data : list Z) (tag : semantic_tag.t) (context : ser_context)
| call_begin_multi_dim (shape : list Z) (tag : semantic_tag.t) (context : ser_context)
| call_end_multi_dim (context : ser_context).

Class basic_json_visitor2 (V : Type) : Type := {
  visit : V -> visitor_call -> V * bool
}.

(** A sink that records the calls made on it and answers [true]. *)
Definition recorder : Type := list visitor_call.
#[export] Instance recorder_visitor : basic_json_visitor2 recorder := {
  visit log c := (log ++ [c], true)
}.

(** A sink that records the calls made on it and answers [false]. *)
Record stopper : Type := mk_stopper { stopper_log : list visitor_call }.
#[export] Instance stopper_visitor : basic_json_visitor2 stopper := {
  visit s c := (mk_stopper (stopper_log s ++ [c]), false)
}.

(** Calls made one after the other on a sink for as long as it answers
    [true]: the sink after them and its last answer.  [more] is the answer
    before the first call. *)
Fixpoint feed {V : Type} `{basic_json_visitor2 V} (visitor : V) (more : bool)
  (calls : list visitor_call) : V * bool :=
  match calls with
  | [] => (visitor, more)
  | c :: calls' =>
      if more
      then let '(visitor', more') := visit visitor c in feed visitor' more' calls'
      else (visitor, more)
  end.

(** ** [basic_staj2_visitor] *)

Module staj2_cursor_state.
(* enum class staj2_cursor_state { typed_array = 1, multi_dim, shape };
   [idle] is the value-initialised staj2_cursor_state() *)
Inductive t : Type :=
| idle
| typed_array
| multi_dim
| shape.
End staj2_cursor_state.

Definition predicate : Type := basic_staj2_event -> ser_context -> bool.

Record basic_staj2_visitor : Type := mk_visitor {
  pred_ : predicate;
  event_ : basic_staj2_event;
  state_ : staj2_cursor_state.t;
  data_ : typed_array_view;
  shape_ : list Z;
  index_ : Z
}.

(* static constexpr bool accept(const basic_staj2_event&, const ser_context&) *)
Definition accept : predicate := fun _ _ => true.

(* basic_staj2_visitor() and basic_staj2_visitor(pred) *)
Definition basic_staj2_visitor_of (pred : predicate) : basic_staj2_visitor :=
  mk_visitor pred (event_of_type staj2_event_type.null_value semantic_tag.none)
             staj2_cursor_state.idle typed_array_view_default [] 0.
Definition basic_staj2_visitor_default : basic_staj2_visitor :=
  basic_staj2_visitor_of accept.

(* void reset() *)
Definition reset (v : basic_staj2_visitor) : basic_staj2_visitor :=
  mk_visitor (pred_ v) (event_of_type staj2_event_type.null_value semantic_tag.none)
             staj2_cursor_state.idle typed_array_view_default [] 0.

Definition with_event (v : basic_staj2_visitor) (ev : basic_staj2_event)
  : basic_staj2_visitor :=
  mk_visitor (pred_ v) ev (state_ v) (data_ v) (shape_ v) (index_ v).

Definition event (v : basic_staj2_visitor) : basic_staj2_event := event_ v.

(* bool in_available() const *)
Definition in_available (v : basic_staj2_visitor) : bool :=
  match state_ v with
  | staj2_cursor_state.idle => false
  | _ => true
  end.

(* bool is_typed_array() const *)
Definition is_typed_array (v : basic_staj2_visitor) : bool :=
  match type_ (data_ v) with
  | typed_array_type.empty => false
  | _ => true
  end.

(* every visit_... override: event_ = ...; return !pred_(event_, context); *)
Definition capture (v : basic_staj2_visitor) (ev : basic_staj2_event)
  (context : ser_context) : basic_staj2_visitor * bool :=
  (with_event v ev, negb (pred_ v ev context)).

Definition visit_begin_object v tag context :=
  capture v (event_of_type staj2_event_type.begin_object tag) context.
Definition visit_begin_object_length v length tag context :=
  capture v (event_of_type_length staj2_event_type.begin_object length tag) context.
Definition visit_end_object v context :=
  capture v (event_of_type staj2_event_type.end_object semantic_tag.none) context.
Definition visit_begin_array v tag context :=
  capture v (event_of_type staj2_event_type.begin_array tag) context.
Definition visit_begin_array_length v length tag context :=
  capture v (event_of_type_length staj2_event_type.begin_array length tag) context.
Definition visit_end_array v context :=
  capture v (event_of_type staj2_event_type.end_array semantic_tag.none) context.
Definition visit_null v tag context :=
  capture v (event_of_type staj2_event_type.null_value tag) context.
Definition visit_bool v value tag context :=
  capture v (event_of_bool value tag) context.
Definition visit_string v s tag context :=
  capture v (event_of_string s staj2_event_type.string_value tag) context.
Definition visit_byte_string v s tag context :=
  capture v (event_of_byte_string s staj2_event_type.byte_string_value tag) context.
Definition visit_byte_string_ext v s ext_tag context :=
  capture v (event_of_byte_string_ext s staj2_event_type.byte_string_value ext_tag) context.
Definition visit_uint64 v value tag context :=
  capture v (event_of_uint64 value tag) context.
Definition visit_int64 v value tag context :=
  capture v (event_of_int64 value tag) context.
Definition visit_half v value tag context :=
  capture v (event_of_half value tag) context.
Definition visit_double v value tag context :=
  capture v (event_of_double value tag) context.

(* the ten overloads bool visit_typed_array(const span<const T>& data, tag, context, ec):
   state_ = typed_array; data_ = typed_array_view(data.data(), data.size());
   index_ = 0; return this->begin_array(tag, context, ec); *)
Definition visit_typed_array (v : basic_staj2_visitor) (data : span)
  (tag : semantic_tag.t) (context : ser_context) : basic_staj2_visitor * bool :=
  visit_begin_array
    (mk_visitor (pred_ v) (event_ v) staj2_cursor_state.typed_array
                (typed_array_view_of data (span_size data)) (shape_ v) 0)
    tag context.

(* bool visit_typed_array(half_arg_t, const span<const uint16_t>& data, tag, context, ec):
   the body is that of the other overloads, and [data.data()] is a
   [const uint16_t*] *)
Definition visit_typed_array_half (v : basic_staj2_visitor) (data : list Z)
  (tag : semantic_tag.t) (context : ser_context) : basic_staj2_visitor * bool :=
  visit_begin_array
    (mk_visitor (pred_ v) (event_ v) staj2_cursor_state.typed_array
                (typed_array_view_of (span_uint16 data) (span_size (span_uint16 data)))
                (shape_ v) 0)
    tag context.

(* bool visit_begin_multi_dim(shape, tag, context, ec) *)
Definition visit_begin_multi_dim (v : basic_staj2_visitor) (shape : list Z)
  (tag : semantic_tag.t) (context : ser_context) : basic_staj2_visitor * bool :=
  visit_begin_array_length
    (mk_visitor (pred_ v) (event_ v) staj2_cursor_state.multi_dim (data_ v) shape (index_ v))
    2 tag context.

(* bool visit_end_multi_dim(context, ec) *)
Definition visit_end_multi_dim (v : basic_staj2_visitor) (context : ser_context)
  : basic_staj2_visitor * bool :=
  visit_end_array v context.

(* void visit_flush() override { } *)
Definition visit_flush (v : basic_staj2_visitor) : basic_staj2_visitor := v.

(* void advance_typed_array(std::error_code& ec) *)
Definition advance_typed_array (v : basic_staj2_visitor) : basic_staj2_visitor :=
  if is_typed_array v
  then
    if index_ v <? size_ (data_ v)
    then
      let v' :=
        match type_ (data_ v) with
        | typed_array_type.uint8_value | typed_array_type.uint16_value
        | typed_array_type.uint32_value | typed_array_type.uint64_value =>
            fst (visit_uint64 v (int_at (data_ v) (index_ v)) semantic_tag.none
                              ser_context_default)
        | typed_array_type.int8_value | typed_array_type.int16_value
        | typed_array_type.int32_value | typed_array_type.int64_value =>
            fst (visit_int64 v (int_at (data_ v) (index_ v)) semantic_tag.none
                             ser_context_default)
        | typed_array_type.half_value =>
            fst (visit_half v (int_at (data_ v) (index_ v)) semantic_tag.none
                            ser_context_default)
        | typed_array_type.float_value | typed_array_type.double_value =>
            fst (visit_double v (float_at (data_ v) (index_ v)) semantic_tag.none
                              ser_context_default)
        | typed_array_type.empty => v
        end in
      mk_visitor (pred_ v') (event_ v') (state_ v') (data_ v') (shape_ v') (index_ v' + 1)
    else
      let v' := fst (visit_end_array v ser_context_default) in
      mk_visitor (pred_ v') (event_ v') staj2_cursor_state.idle typed_array_view_default
                 (shape_ v') 0
  else v.

(* void advance_multi_dim(std::error_code& ec) *)
Definition advance_multi_dim (v : basic_staj2_visitor) : basic_staj2_visitor :=
  if negb (Zlen (shape_ v) =? 0)
  then
    match state_ v with
    | staj2_cursor_state.multi_dim =>
        let v' := fst (visit_begin_array_length v (Zlen (shape_ v)) semantic_tag.none
                                                ser_context_default) in
        mk_visitor (pred_ v') (event_ v') staj2_cursor_state.shape (data_ v') (shape_ v')
                   (index_ v')
    | _ =>
        if index_ v <? Zlen (shape_ v)
        then
          let v' := fst (visit_uint64 v (nth (Z.to_nat (index_ v)) (shape_ v) 0)
                                      semantic_tag.none ser_context_default) in
          mk_visitor (pred_ v') (event_ v') (state_ v') (data_ v') (shape_ v')
                     (index_ v' + 1)
        else
          let v0 := mk_visitor (pred_ v) (event_ v) staj2_cursor_state.idle (data_ v)
                               (shape_ v) (index_ v) in
          let v' := fst (visit_end_array v0 ser_context_default) in
          mk_visitor (pred_ v') (event_ v') (state_ v') (data_ v') [] 0
    end
  else v.

(* void send_available(std::error_code& ec) *)
Definition send_available (v : basic_staj2_visitor) : basic_staj2_visitor :=
  match state_ v with
  | staj2_cursor_state.typed_array => advance_typed_array v
  | staj2_cursor_state.multi_dim | staj2_cursor_state.shape => advance_multi_dim v
  | staj2_cursor_state.idle => v
  end.

(* the scalar event advance_typed_array makes of the element at [i] *)
Definition element_event (d : typed_array_view) (i : Z) : basic_staj2_event :=
  match type_ d with
  | typed_array_type.uint8_value | typed_array_type.uint16_value
  | typed_array_type.uint32_value | typed_array_type.uint64_value =>
      event_of_uint64 (int_at d i) semantic_tag.none
  | typed_array_type.int8_value | typed_array_type.int16_value
  | typed_array_type.int32_value | typed_array_type.int64_value =>
      event_of_int64 (int_at d i) semantic_tag.none
  | typed_array_type.half_value => event_of_half (int_at d i) semantic_tag.none
  | typed_array_type.float_value | typed_array_type.double_value =>
      event_of_double (float_at d i) semantic_tag.none
  | typed_array_type.empty => event_of_type staj2_event_type.null_value semantic_tag.none
  end.

(* the indices i, i + 1, ..., i + k - 1 *)
Definition indices (i : Z) (k : nat) : list Z :=
  map (fun j => i + Z.of_nat j) (seq 0 k).

(** The events a cursor surfaces while it drains an expansion: the event held
    after each of [n] calls of [send_available], and the visitor at the end. *)
Fixpoint drain (n : nat) (v : basic_staj2_visitor)
  : list basic_staj2_event * basic_staj2_visitor :=
  match n with
  | O => ([], v)
  | S n' =>
      let v' := send_available v in
      let '(events, v'') := drain n' v' in
      (event v' :: events, v'')
  end.

(** The event sequence of one typed_array call of [n] elements: the event of
    the call itself, then those of [n + 1] advances. *)
Definition expand_typed_array (v : basic_staj2_visitor) (data : span)
  (tag : semantic_tag.t) (context : ser_context)
  : list basic_staj2_event * basic_staj2_visitor :=
  let v1 := fst (visit_typed_array v data tag context) in
  let '(events, v2) := drain (Z.to_nat (span_size data) + 1) v1 in
  (event v1 :: events, v2).

Definition expand_typed_array_half (v : basic_staj2_visitor) (data : list Z)
  (tag : semantic_tag.t) (context : ser_context)
  : list basic_staj2_event * basic_staj2_visitor :=
  let v1 := fst (visit_typed_array_half v data tag context) in
  let '(events, v2) := drain (Z.to_nat (Zlen data) + 1) v1 in
  (event v1 :: events, v2).

(** The scalar events the claim assigns to the elements of a span: uint64 for
    the unsigned kinds, int64 for the signed ones, double for float and double. *)
Definition span_events (data : span) : list basic_staj2_event :=
  match data with
  | span_uint8 l | span_uint16 l | span_uint32 l | span_uint64 l =>
      map (fun x => event_of_uint64 x semantic_tag.none) l
  | span_int8 l | span_int16 l | span_int32 l | span_int64 l =>
      map (fun x => event_of_int64 x semantic_tag.none) l
  | span_float l | span_double l =>
      map (fun x => event_of_double x semantic_tag.none) l
  end.

(* the expansion state a finished typed array leaves: idle, empty view, index 0 *)
Definition cleared (v : basic_staj2_visitor) (ev : basic_staj2_event)
  : basic_staj2_visitor :=
  mk_visitor (pred_ v) ev staj2_cursor_state.idle typed_array_view_default (shape_ v) 0.

(** ** [staj2_to_saj_event] and [dump] *)

Definition string_data_ (ev : basic_staj2_event) : string :=
  match value_ ev with string_payload s => s | _ => EmptyString end.
Definition byte_string_data_ (ev : basic_staj2_event) : list Z :=
  match value_ ev with byte_string_payload s => s | _ => [] end.

(* bool staj2_to_saj_event(ev, visitor, context, ec): each case reads the event
   with the get<T> of its own kind, which returns the stored member *)
Definition event_call (ev : basic_staj2_event) (context : ser_context) : visitor_call :=
  match event_type ev with
  | staj2_event_type.begin_array => call_begin_array (tag ev) context
  | staj2_event_type.end_array => call_end_array context
  | staj2_event_type.begin_object => call_begin_object (tag ev) context
  | staj2_event_type.end_object => call_end_object context
  | staj2_event_type.string_value => call_string_value (string_data_ ev) (tag ev) context
  | staj2_event_type.byte_string_value =>
      call_byte_string_value (byte_string_data_ ev) (tag ev) context
  | staj2_event_type.null_value => call_null_value (tag ev) context
  | staj2_event_type.bool_value => call_bool_value (bool_value_ ev) (tag ev) context
  | staj2_event_type.int64_value => call_int64_value (int64_value_ ev) (tag ev) context
  | staj2_event_type.uint64_value => call_uint64_value (uint64_value_ ev) (tag ev) context
  | staj2_event_type.half_value => call_half_value (half_value_ ev) (tag ev) context
  | staj2_event_type.double_value => call_double_value (double_value_ ev) (tag ev) context
  end.

Definition staj2_to_saj_event {V : Type} `{basic_json_visitor2 V}
  (ev : basic_staj2_event) (visitor : V) (context : ser_context) : V * bool :=
  visit visitor (event_call ev context).

(* while (more && is_typed_array()) { ... } of dump; [n] bounds the trips: the
   index grows by one per trip until it reaches the size, and the trip after
   that clears the view *)
Fixpoint dump_loop {V : Type} `{basic_json_visitor2 V} (n : nat)
  (v : basic_staj2_visitor) (visitor : V) (more : bool)
  : basic_staj2_visitor * V * bool :=
  match n with
  | O => (v, visitor, more)
  | S n' =>
      if more && is_typed_array v
      then
        if index_ v <? size_ (data_ v)
        then
          let '(visitor', more') :=
            match type_ (data_ v) with
            | typed_array_type.uint8_value | typed_array_type.uint16_value
            | typed_array_type.uint32_value | typed_array_type.uint64_value =>
                visit visitor (call_uint64_value (int_at (data_ v) (index_ v))
                                                 semantic_tag.none ser_context_default)
            | typed_array_type.int8_value | typed_array_type.int16_value
            | typed_array_type.int32_value | typed_array_type.int64_value =>
                visit visitor (call_int64_value (int_at (data_ v) (index_ v))
                                                semantic_tag.none ser_context_default)
            | typed_array_type.float_value | typed_array_type.double_value =>
                visit visitor (call_double_value (float_at (data_ v) (index_ v))
                                                 semantic_tag.none ser_context_default)
            | _ => (visitor, more)   (* default: break; *)
            end in
          dump_loop n'
            (mk_visitor (pred_ v) (event_ v) (state_ v) (data_ v) (shape_ v) (index_ v + 1))
            visitor' more'
        else
          let '(visitor', more') := visit visitor (call_end_array ser_context_default) in
          dump_loop n'
            (mk_visitor (pred_ v) (event_ v) staj2_cursor_state.idle
                        typed_array_view_default (shape_ v) 0)
            visitor' more'
      else (v, visitor, more)
  end.

Definition dump_trips (v : basic_staj2_visitor) : nat :=
  Z.to_nat (size_ (data_ v) - index_ v) + 2.

(* bool dump(basic_json_visitor2<CharT>& visitor, const ser_context& context,
             std::error_code& ec) *)
Definition dump {V : Type} `{basic_json_visitor2 V} (v : basic_staj2_visitor)
  (visitor : V) (context : ser_context) : basic_staj2_visitor * V * bool :=
  if is_typed_array v
  then
    if negb (index_ v =? 0)
    then
      let '(visitor', more) := staj2_to_saj_event (event v) visitor context in
      dump_loop (dump_trips v) v visitor' more
    else
      let '(visitor', more) :=
        match type_ (data_ v) with
        | typed_array_type.uint8_value | typed_array_type.uint16_value
        | typed_array_type.uint32_value | typed_array_type.uint64_value
        | typed_array_type.int8_value | typed_array_type.int16_value
        | typed_array_type.int32_value | typed_array_type.int64_value
        | typed_array_type.float_value | typed_array_type.double_value =>
            visit visitor (call_typed_array (view_data_ (data_ v)) semantic_tag.none
                                            ser_context_default)
        | _ => (visitor, true)   (* default: break; more keeps its initial value *)
        end in
      (mk_visitor (pred_ v) (event_ v) staj2_cursor_state.idle typed_array_view_default
                  (shape_ v) (index_ v),
       visitor', more)
  else
    let '(visitor', more) := staj2_to_saj_event (event v) visitor context in
    (v, visitor', more).

(** The scalar calls the claim assigns to the elements of a span, with the
    default tag and context of the sink's methods. *)
Definition span_calls (data : span) : list visitor_call :=
  match data with
  | span_uint8 l | span_uint16 l | span_uint32 l | span_uint64 l =>
      map (fun x => call_uint64_value x semantic_tag.none ser_context_default) l
  | span_int8 l | span_int16 l | span_int32 l | span_int64 l =>
      map (fun x => call_int64_value x semantic_tag.none ser_context_default) l
  | span_float l | span_double l =>
      map (fun x => call_double_value x semantic_tag.none ser_context_default) l
  end.

(* the call the loop of dump makes for the element at [i] of one of the ten
   kinds it has a case for *)
Definition element_call (d : typed_array_view) (i : Z) : visitor_call :=
  match type_ d with
  | typed_array_type.int8_value | typed_array_type.int16_value
  | typed_array_type.int32_value | typed_array_type.int64_value =>
      call_int64_value (int_at d i) semantic_tag.none ser_context_default
  | typed_array_type.float_value | typed_array_type.double_value =>
      call_double_value (float_at d i) semantic_tag.none ser_context_default
  | _ => call_uint64_value (int_at d i) semantic_tag.none ser_context_default
  end.

(** Modelled from the spec: the public methods of [basic_json_visitor2]
    (json_visitor2.hpp is not under [src/]) hand each call to the [visit_]
    override of the same name, as [this->begin_array(tag, context, ec)] does
    in visit_typed_array.  [receive] is the cursor visitor taking a call. *)
Definition receive (v : basic_staj2_visitor) (c : visitor_call)
  : basic_staj2_visitor * bool :=
  match c with
  | call_begin_object tag context => visit_begin_object v tag context
  | call_begin_object_length length tag context =>
      visit_begin_object_length v length tag context
  | call_end_object context => visit_end_object v context
  | call_begin_array tag context => visit_begin_array v tag context
  | call_begin_array_length length tag context =>
      visit_begin_array_length v length tag context
  | call_end_array context => visit_end_array v context
  | call_null_value tag context => visit_null v tag context
  | call_bool_value value tag context => visit_bool v value tag context
  | call_string_value s tag context => visit_string v s tag context
  | call_byte_string_value s tag context => visit_byte_string v s tag context
  | call_byte_string_value_ext s ext_tag context =>
      visit_byte_string_ext v s ext_tag context
  | call_uint64_value value tag context => visit_uint64 v value tag context
  | call_int64_value value tag context => visit_int64 v value tag context
  | call_half_value value tag context => visit_half v value tag context
  | call_double_value value tag context => visit_double v value tag context
  | call_typed_array data tag context => visit_typed_array v data tag context
  | call_typed_array_half data tag context => visit_typed_array_half v data tag context
  | call_begin_multi_dim shape tag context => visit_begin_multi_dim v shape tag context
  | call_end_multi_dim context => visit_end_multi_dim v context
  end.

(** The states of a cursor visitor: the ones its constructors make, and the
    ones its public members make of a state.  The members of the class are
    private, so these are all the states there are. *)
Inductive reachable : basic_staj2_visitor -> Prop :=
| reachable_new : forall pred, reachable (basic_staj2_visitor_of pred)
| reachable_reset : forall v, reachable v -> reachable (reset v)
| reachable_receive : forall v c, reachable v -> reachable (fst (receive v c))
| reachable_flush : forall v, reachable v -> reachable (visit_flush v)
| reachable_send_available : forall v, reachable v -> reachable (send_available v)
| reachable_advance_typed_array : forall v,
    reachable v -> reachable (advance_typed_array v)
| reachable_advance_multi_dim : forall v,
    reachable v -> reachable (advance_multi_dim v)
| reachable_dump : forall (V : Type) (H : basic_json_visitor2 V) v (visitor : V) context,
    reachable v -> reachable (fst (fst (dump v visitor context))).

(* the calls whose arguments the event keeps and staj2_to_saj_event hands on:
   not the forms with a length or an ext_tag, not the typed arrays, not the
   two calls of a multi-dimensional array *)
Definition plain_call (c : visitor_call) : bool :=
  match c with
  | call_begin_object_length _ _ _ | call_begin_array_length _ _ _
  | call_byte_string_value_ext _ _ _
  | call_typed_array _ _ _ | call_typed_array_half _ _ _
  | call_begin_multi_dim _ _ _ | call_end_multi_dim _ => false
  | _ => true
  end.

(* a call with its context replaced *)
Definition with_context (c : visitor_call) (context : ser_context) : visitor_call :=
  match c with
  | call_begin_object tag _ => call_begin_object tag context
  | call_begin_object_length length tag _ => call_begin_object_length length tag context
  | call_end_object _ => call_end_object context
  | call_begin_array tag _ => call_begin_array tag context
  | call_begin_array_length length tag _ => call_begin_array_length length tag context
  | call_end_array _ => call_end_array context
  | call_null_value tag _ => call_null_value tag context
  | call_bool_value value tag _ => call_bool_value value tag context
  | call_string_value s tag _ => call_string_value s tag context
  | call_byte_string_value s tag _ => call_byte_string_value s tag context
  | call_byte_string_value_ext s ext_tag _ => call_byte_string_value_ext s ext_tag context
  | call_uint64_value value tag _ => call_uint64_value value tag context
  | call_int64_value value tag _ => call_int64_value value tag context
  | call_half_value value tag _ => call_half_value value tag context
  | call_double_value value tag _ => call_double_value value tag context
  | call_typed_array data tag _ => call_typed_array data tag context
  | call_typed_array_half data tag _ => call_typed_array_half data tag context
  | call_begin_multi_dim shape tag _ => call_begin_multi_dim shape tag context
  | call_end_multi_dim _ => call_end_multi_dim context
  end.

(** The event sequence of one begin_multi_dim call with [n] extents: the event
    of the call itself, then those of [n + 2] advances. *)
Definition expand_multi_dim (v : basic_staj2_visitor) (shape : list Z)
  (tag : semantic_tag.t) (context : ser_context)
  : list basic_staj2_event * basic_staj2_visitor :=
  let v1 := fst (visit_begin_multi_dim v shape tag context) in
  let '(events, v2) := drain (List.length shape + 2) v1 in
  (event v1 :: events, v2).

(** ** [basic_staj2_cursor] and [basic_staj2_filter_view] *)

(** The abstract class [basic_staj2_cursor]: [C] is the state of a cursor
    object.  [next] is [next()], a set code standing for the [ser_error] it
    throws; [next_ec] is [next(std::error_code&)], from the code on entry to the
    code on return. *)
Class basic_staj2_cursor (C : Type) : Type := {
  done : C -> bool;
  current : C -> basic_staj2_event;
  context : C -> ser_context;
  next : C -> C * error_code;
  next_ec : C -> error_code -> C * error_code
}.

(** A bound on the number of [next] calls a cursor takes before [done()]: the
    budget of the loops of a filter view over it. *)
Class bounded_cursor (C : Type) : Type := {
  remaining : C -> nat
}.

(* virtual void array_expected(std::error_code& ec) *)
Definition array_expected {C : Type} `{basic_staj2_cursor C} (c : C) (ec : error_code)
  : error_code :=
  match event_type (current c) with
  | staj2_event_type.begin_array | staj2_event_type.byte_string_value => ec
  | _ => ec_conv conv_errc.not_vector
  end.

(** A filter view holds a pointer to the cursor it filters: the state of the
    view is the state of that cursor, together with the predicate. *)
Record basic_staj2_filter_view (C : Type) : Type := mk_filter_view {
  cursor_ : C;
  filter_pred_ : predicate
}.
Arguments mk_filter_view {C} cursor_ filter_pred_.
Arguments cursor_ {C} _.
Arguments filter_pred_ {C} _.

Section FilterView.
Context {C : Type} `{basic_staj2_cursor C} `{bounded_cursor C}.

(* while (!done() && !pred_(current(),context())) cursor_->next(); *)
Fixpoint skip_loop (n : nat) (pred : predicate) (c : C) : C * error_code :=
  match n with
  | O => (c, ec_clear)
  | S n' =>
      if negb (done c) && negb (pred (current c) (context c))
      then
        let '(c', ec) := next c in
        if ec_set ec then (c', ec) else skip_loop n' pred c'
      else (c, ec_clear)
  end.

(* while (!done() && !pred_(current(),context()) && !ec) cursor_->next(ec); *)
Fixpoint skip_loop_ec (n : nat) (pred : predicate) (c : C) (ec : error_code)
  : C * error_code :=
  match n with
  | O => (c, ec)
  | S n' =>
      if negb (done c) && negb (pred (current c) (context c)) && negb (ec_set ec)
      then
        let '(c', ec') := next_ec c ec in
        skip_loop_ec n' pred c' ec'
      else (c, ec)
  end.

(* basic_staj2_filter_view(cursor, pred): the view, and the code thrown if any *)
Definition make_filter_view (c : C) (pred : predicate)
  : basic_staj2_filter_view C * error_code :=
  let '(c', ec) := skip_loop (remaining c) pred c in
  (mk_filter_view c' pred, ec).

(* void next() override *)
Definition filter_next (v : basic_staj2_filter_view C)
  : basic_staj2_filter_view C * error_code :=
  let '(c1, ec1) := next (cursor_ v) in
  if ec_set ec1 then (mk_filter_view c1 (filter_pred_ v), ec1)
  else
    let '(c2, ec2) := skip_loop (remaining c1) (filter_pred_ v) c1 in
    (mk_filter_view c2 (filter_pred_ v), ec2).

(* void next(std::error_code& ec) override *)
Definition filter_next_ec (v : basic_staj2_filter_view C) (ec : error_code)
  : basic_staj2_filter_view C * error_code :=
  let '(c1, ec1) := next_ec (cursor_ v) ec in
  let '(c2, ec2) := skip_loop_ec (remaining c1) (filter_pred_ v) c1 ec1 in
  (mk_filter_view c2 (filter_pred_ v), ec2).

#[export] Instance filter_view_cursor : basic_staj2_cursor (basic_staj2_filter_view C) := {
  done v := done (cursor_ v);
  current v := current (cursor_ v);
  context v := context (cursor_ v);
  next := filter_next;
  next_ec := filter_next_ec
}.

#[export] Instance filter_view_bounded : bounded_cursor (basic_staj2_filter_view C) := {
  remaining v := remaining (cursor_ v)
}.

End FilterView.

(* friend basic_staj2_filter_view operator|(basic_staj2_filter_view& cursor, pred) *)
Definition pipe {C : Type} `{basic_staj2_cursor C} `{bounded_cursor C}
  (c : C) (pred : predicate) : basic_staj2_filter_view C * error_code :=
  make_filter_view c pred.

(** The predicate of a single filter that stands for two. *)
Definition both (p q : predicate) : predicate :=
  fun ev context => p ev context && q ev context.

(** What a caller sees of a cursor: done(), current(), context(), and the
    code the last call left or threw. *)
Record observation : Type := mk_observation {
  seen_done : bool;
  seen_current : basic_staj2_event;
  seen_context : ser_context;
  seen_code : error_code
}.

(** A pull is a call of next() or of next(ec) with the code [ec] on entry. *)
Inductive pull : Type :=
| pull_next
| pull_next_ec (ec : error_code).

Definition advance {C : Type} `{basic_staj2_cursor C} (c : C) (p : pull)
  : C * error_code :=
  match p with
  | pull_next => next c
  | pull_next_ec ec => next_ec c ec
  end.

(** The observations along a sequence of pulls, the first one before any. *)
Fixpoint observe {C : Type} `{basic_staj2_cursor C} (c : C) (code : error_code)
  (pulls : list pull) : list observation :=
  mk_observation (done c) (current c) (context c) code ::
  match pulls with
  | [] => []
  | p :: pulls' => let '(c', code') := advance c p in observe c' code' pulls'
  end.

(** The bound is a bound: a call of next on a cursor that is not done, with
    no error pending, lowers it. *)
Definition cursor_law (C : Type) `{basic_staj2_cursor C} `{bounded_cursor C} : Prop :=
  forall c : C, done c = false ->
    (remaining (fst (next c)) < remaining c)%nat /\
    (remaining (fst (next_ec c ec_clear)) < remaining c)%nat.

(** Where a filter view rests: it is done, or its current event passes its
    predicate. *)
Definition at_rest {C : Type} `{basic_staj2_cursor C} (v : basic_staj2_filter_view C)
  : Prop :=
  done (cursor_ v) = true \/
  filter_pred_ v (current (cursor_ v)) (context (cursor_ v)) = true.

(** The shape the two loops of a filter view share: advance with [step] while
    the cursor is not done, the event is not accepted and no code is set. *)
Section Advance.
Context {C : Type}.
Variable is_done : C -> bool.
Variable accepted : C -> bool.
Variable step : C -> C * error_code.

Fixpoint advance_until (n : nat) (c : C) (ec : error_code) : C * error_code :=
  match n with
  | O => (c, ec)
  | S n' =>
      if negb (is_done c) && negb (accepted c) && negb (ec_set ec)
      then let '(c', ec') := step c in advance_until n' c' ec'
      else (c, ec)
  end.

(* one round of a filter: a step, then the loop, with the bound as its budget *)
Variable bound : C -> nat.
Definition filter_round (c : C) : C * error_code :=
  let '(c1, e1) := step c in advance_until (bound c1) c1 e1.

End Advance.

(* the loop conditions of a filter view, over the state of the cursor:
   pred_(current(), context()), and next(ec) entered with ec clear *)
Definition accepts {C : Type} `{basic_staj2_cursor C} (p : predicate) : C -> bool :=
  fun c => p (current c) (context c).
Definition next_clear {C : Type} `{basic_staj2_cursor C} : C -> C * error_code :=
  fun c => next_ec c ec_clear.

(** What a caller reads off a cursor that it drives with next() until
    done(), in at most [n] rounds: the current event and context of each. *)
Fixpoint walk {C : Type} `{basic_staj2_cursor C} (n : nat) (c : C)
  : list (basic_staj2_event * ser_context) :=
  match n with
  | O => []
  | S n' => if done c then [] else (current c, context c) :: walk n' (fst (next c))
  end.

(** A cursor over a finite sequence of events: the head is the current event,
    next() drops it, and the cursor is done when none is left. *)
Definition list_cursor : Type := list (basic_staj2_event * ser_context).

#[export] Instance list_cursor_cursor : basic_staj2_cursor list_cursor := {
  done c := match c with [] => true | _ => false end;
  current c := match c with
               | [] => event_of_type staj2_event_type.null_value semantic_tag.none
               | (ev, _) :: _ => ev
               end;
  context c := match c with
               | [] => ser_context_default
               | (_, ctx) :: _ => ctx
               end;
  next c := (tl c, ec_clear);
  next_ec c ec := (tl c, ec)
}.

#[export] Instance list_cursor_bounded : bounded_cursor list_cursor := {
  remaining c := List.length c
}.

End Staj2.

(** ** [json_decoder] *)

Module JsonDecoder.

(** The template parameter [Json]: what the decoder asks of the value type.
    [json_moved] is the state [std::move] leaves a value in. *)
Class json_value (Json : Type) : Type := {
  floating_point_options : Type;
  json_default : Json;                       (* Json() *)
  json_moved : Json;
  json_empty_object : Json;                  (* Json(object(object_allocator_)) *)
  json_empty_array : Json;                   (* Json(array(array_allocator_)) *)
  json_null : Json;                          (* Json::null() *)
  json_of_bool : bool -> Json;
  json_of_int64 : Z -> Json;
  json_of_uint64 : Z -> Json;
  json_of_double : float -> floating_point_options -> Json;
  json_of_string : string -> Json;
  json_of_byte_string : list Z -> Json;
  json_of_bignum : string -> Json;
  (* j.push_back(std::move(value)) *)
  json_push_back : Json -> Json -> Json;
  (* j.object_value().insert(first, last, pair maker) *)
  json_insert : Json -> list (string * Json) -> Json
}.

Inductive structure_type : Type :=
| root_t
| array_t
| object_t.

Record structure_offset : Type := mk_offset {
  offset_ : Z;
  type_ : structure_type
}.

Section Decoder.
Context {Json : Type} `{json_value Json}.

Record stack_item : Type := mk_item {
  name_ : string;
  value_ : Json
}.
(* stack_item(key_storage_type&& name) and stack_item(Json&& value) *)
Definition item_of_name (name : string) : stack_item := mk_item name json_default.
Definition item_of_value (value : Json) : stack_item := mk_item EmptyString value.

Record json_decoder : Type := mk_decoder {
  result_ : Json;
  stack_ : list stack_item;
  stack_offsets_ : list structure_offset;
  is_valid_ : bool
}.

(* json_decoder(const json_allocator_type&) *)
Definition json_decoder_new : json_decoder := mk_decoder json_default [] [] false.

(* bool is_valid() const *)
Definition is_valid (d : json_decoder) : bool := is_valid_ d.

(* Json get_result(): the value returned and the decoder afterwards *)
Definition get_result (d : json_decoder) : Json * json_decoder :=
  (result_ d, mk_decoder json_moved (stack_ d) (stack_offsets_ d) false).

(* v.back() of a std::vector *)
Definition back {A : Type} (v : list A) : res A :=
  match rev v with
  | x :: _ => Ok x
  | [] => Err out_of_bounds
  end.

(* v.back().value_ = value *)
Definition set_back_value (v : list stack_item) (value : Json) : res (list stack_item) :=
  match rev v with
  | x :: r => Ok (rev (mk_item (name_ x) value :: r))
  | [] => Err out_of_bounds
  end.

(* switch (stack_offsets_.back().type_)
     { case object_t: stack_.back().value_ = value; break;
       default: stack_.push_back(value); break; } *)
Definition put_value (d : json_decoder) (value : Json) : res json_decoder :=
  top <- back (stack_offsets_ d) ;;
  match type_ top with
  | object_t =>
      st <- set_back_value (stack_ d) value ;;
      Ok (mk_decoder (result_ d) st (stack_offsets_ d) (is_valid_ d))
  | _ =>
      Ok (mk_decoder (result_ d) (stack_ d ++ [item_of_value value]) (stack_offsets_ d)
                     (is_valid_ d))
  end.

(* void push_object() and void push_array() *)
Definition push_structure (d : json_decoder) (value : Json) (t : structure_type)
  : res json_decoder :=
  d' <- put_value d value ;;
  Ok (mk_decoder (result_ d') (stack_ d')
                 (stack_offsets_ d' ++ [mk_offset (Zlen (stack_ d') - 1) t])
                 (is_valid_ d')).
Definition push_object (d : json_decoder) : res json_decoder :=
  push_structure d json_empty_object object_t.
Definition push_array (d : json_decoder) : res json_decoder :=
  push_structure d json_empty_array array_t.

(* void pop_object() and void pop_array():
   stack_.erase(stack_.begin()+stack_offsets_.back().offset_+1, stack_.end());
   stack_offsets_.pop_back(); *)
Definition pop_structure (d : json_decoder) : res json_decoder :=
  top <- back (stack_offsets_ d) ;;
  if (0 <=? offset_ top + 1) && (offset_ top + 1 <=? Zlen (stack_ d))
  then Ok (mk_decoder (result_ d) (firstn (Z.to_nat (offset_ top + 1)) (stack_ d))
                      (removelast (stack_offsets_ d)) (is_valid_ d))
  else Err out_of_bounds.
Definition pop_object := pop_structure.
Definition pop_array := pop_structure.

(* void end_structure() *)
Definition end_structure (d : json_decoder) : res json_decoder :=
  if negb (Zlen (stack_offsets_ d) >? 0) then Err assertion_failed
  else
    top <- back (stack_offsets_ d) ;;
    let structure_index := offset_ top in
    if negb (Zlen (stack_ d) >? structure_index) then Err assertion_failed
    else
      let n := Z.to_nat structure_index in
      match skipn n (stack_ d) with
      | [] => Err out_of_bounds
      | item :: members =>
          let j :=
            match type_ top with
            | object_t =>
                json_insert (value_ item) (map (fun it => (name_ it, value_ it)) members)
            | _ =>
                fold_left (fun j it => json_push_back j (value_ it)) members (value_ item)
            end in
          Ok (mk_decoder (result_ d)
                (firstn n (stack_ d) ++ mk_item (name_ item) j ::
                   map (fun it => mk_item (match type_ top with
                                           | object_t => EmptyString
                                           | _ => name_ it
                                           end) json_moved) members)
                (stack_offsets_ d) (is_valid_ d))
      end.

(* bool do_begin_document() override *)
Definition do_begin_document (d : json_decoder) : json_decoder :=
  mk_decoder (result_ d) [] [mk_offset 0 root_t] false.

(* bool do_end_document() override *)
Definition do_end_document (d : json_decoder) : json_decoder :=
  match stack_ d with
  | [root] => mk_decoder (value_ root) [] (stack_offsets_ d) true
  | _ => d
  end.

Definition do_begin_object (d : json_decoder) : res json_decoder := push_object d.
Definition do_end_object (d : json_decoder) : res json_decoder :=
  d' <- end_structure d ;; pop_object d'.
Definition do_begin_array (d : json_decoder) : res json_decoder := push_array d.
Definition do_end_array (d : json_decoder) : res json_decoder :=
  d' <- end_structure d ;; pop_array d'.

(* bool do_name(const string_view_type& name, const serializing_context&) *)
Definition do_name (d : json_decoder) (name : string) : json_decoder :=
  mk_decoder (result_ d) (stack_ d ++ [item_of_name name]) (stack_offsets_ d) (is_valid_ d).

Definition do_string_value d (val : string) := put_value d (json_of_string val).
Definition do_byte_string_value d (data : list Z) := put_value d (json_of_byte_string data).
Definition do_bignum_value d (value : string) := put_value d (json_of_bignum value).
Definition do_int64_value d (value : Z) := put_value d (json_of_int64 value).
Definition do_uint64_value d (value : Z) := put_value d (json_of_uint64 value).
Definition do_double_value d (value : float) (fmt : floating_point_options) :=
  put_value d (json_of_double value fmt).
Definition do_bool d (value : bool) := put_value d (json_of_bool value).
Definition do_null_value d := put_value d json_null.

(** The calls a parser or a user makes on a decoder. *)
Inductive call : Type :=
| begin_document
| end_document
| begin_object
| end_object
| begin_array
| end_array
| name (s : string)
| string_value (s : string)
| byte_string_value (s : list Z)
| bignum_value (s : string)
| int64_value (v : Z)
| uint64_value (v : Z)
| double_value (v : float) (fmt : floating_point_options)
| bool_value (b : bool)
| null_value
| retrieve.    (* get_result() *)

Definition step (d : json_decoder) (c : call) : res json_decoder :=
  match c with
  | begin_document => Ok (do_begin_document d)
  | end_document => Ok (do_end_document d)
  | begin_object => do_begin_object d
  | end_object => do_end_object d
  | begin_array => do_begin_array d
  | end_array => do_end_array d
  | name s => Ok (do_name d s)
  | string_value s => do_string_value d s
  | byte_string_value s => do_byte_string_value d s
  | bignum_value s => do_bignum_value d s
  | int64_value v => do_int64_value d v
  | uint64_value v => do_uint64_value d v
  | double_value v fmt => do_double_value d v fmt
  | bool_value b => do_bool d b
  | null_value => do_null_value d
  | retrieve => Ok (snd (get_result d))
  end.

Fixpoint run (d : json_decoder) (calls : list call) : res json_decoder :=
  match calls with
  | [] => Ok d
  | c :: calls' => d' <- step d c ;; run d' calls'
  end.

(* none of the calls is one that [stop] singles out *)
Definition unstopped (stop : call -> bool) (calls : list call) : bool :=
  forallb (fun c => negb (stop c)) calls.

(** The test of do_end_document, [stack_.size() == 1]: some do_end_document
    found exactly one item on the stack, whatever the item is, and no call
    that [stop] singles out came after it. *)
Definition ended_since (stop : call -> bool) (calls : list call) : Prop :=
  exists pre post d,
    calls = pre ++ end_document :: post /\
    run json_decoder_new pre = Ok d /\
    List.length (stack_ d) = 1%nat /\
    unstopped stop post = true.

(* the last retrieval, as the claim has it *)
Definition is_retrieval (c : call) : bool :=
  match c with
  | retrieve => true
  | _ => false
  end.

(* the calls that clear is_valid_ in the source *)
Definition clears_valid (c : call) : bool :=
  match c with
  | retrieve | begin_document => true
  | _ => false
  end.

(** The do_end_document that follows the calls [pre] finds [root] alone on
    the stack. *)
Definition finds_root (pre : list call) (root : stack_item) : Prop :=
  exists d, run json_decoder_new pre = Ok d /\ stack_ d = [root].

(** No do_end_document among the calls [post], which follow [pre] and a
    do_end_document, finds a single item on the stack. *)
Definition last_to_find (pre post : list call) : Prop :=
  forall p1 p2 root,
    post = p1 ++ end_document :: p2 ->
    ~ finds_root (pre ++ end_document :: p1) root.

(** "A single completed root value on the internal stack", as the claim has
    it: the one item is a value, and no array or object is open above the
    root. *)
Definition completed_root (d : json_decoder) : Prop :=
  exists value,
    stack_ d = [item_of_value value] /\ stack_offsets_ d = [mk_offset 0 root_t].

(** "A document has ended with a single completed root value on the stack
    since ...", as the claim has it. *)
Definition completed_since (stop : call -> bool) (calls : list call) : Prop :=
  exists pre post d,
    calls = pre ++ end_document :: post /\
    run json_decoder_new pre = Ok d /\
    completed_root d /\
    unstopped stop post = true.

(** A document as a parser reports it: a scalar is one call, an array is
    begin_array, its items and end_array, an object is begin_object, each
    member as its name followed by its value, and end_object. *)
Unset Elimination Schemes.
Inductive document : Type :=
| doc_null
| doc_bool (b : bool)
| doc_int64 (v : Z)
| doc_uint64 (v : Z)
| doc_double (v : float) (fmt : floating_point_options)
| doc_string (s : string)
| doc_byte_string (s : list Z)
| doc_bignum (s : string)
| doc_array (items : list document)
| doc_object (members : list (string * document)).
Set Elimination Schemes.

Fixpoint events_of (doc : document) : list call :=
  match doc with
  | doc_null => [null_value]
  | doc_bool b => [bool_value b]
  | doc_int64 v => [int64_value v]
  | doc_uint64 v => [uint64_value v]
  | doc_double v fmt => [double_value v fmt]
  | doc_string s => [string_value s]
  | doc_byte_string s => [byte_string_value s]
  | doc_bignum s => [bignum_value s]
  | doc_array items => begin_array :: flat_map events_of items ++ [end_array]
  | doc_object members =>
      begin_object
        :: flat_map (fun m => name (fst m) :: events_of (snd m)) members
        ++ [end_object]
  end.

(** The value of a document, made with the operations of [Json] that the
    decoder has: the constructors for scalars, push_back of each item onto an
    empty array, one insert of the members into an empty object. *)
Fixpoint build (doc : document) : Json :=
  match doc with
  | doc_null => json_null
  | doc_bool b => json_of_bool b
  | doc_int64 v => json_of_int64 v
  | doc_uint64 v => json_of_uint64 v
  | doc_double v fmt => json_of_double v fmt
  | doc_string s => json_of_string s
  | doc_byte_string s => json_of_byte_string s
  | doc_bignum s => json_of_bignum s
  | doc_array items =>
      fold_left (fun j v => json_push_back j v) (map build items) json_empty_array
  | doc_object members =>
      json_insert json_empty_object (map (fun m => (fst m, build (snd m))) members)
  end.

End Decoder.

Arguments stack_item Json : clear implicits.
Arguments json_decoder Json : clear implicits.
Arguments call Json {_}.
Arguments document Json {_}.

(** A value type to run the decoder on: trees of scalars, arrays and objects. *)
Unset Elimination Schemes.
Inductive tree : Type :=
| tree_null
| tree_moved
| tree_bool (b : bool)
| tree_int64 (v : Z)
| tree_uint64 (v : Z)
| tree_double (v : float)
| tree_string (s : string)
| tree_byte_string (s : list Z)
| tree_bignum (s : string)
| tree_array (items : list tree)
| tree_object (members : list (string * tree)).
Set Elimination Schemes.

#[export] Instance tree_value : json_value tree := {
  floating_point_options := unit;
  json_default := tree_object [];
  json_moved := tree_moved;
  json_empty_object := tree_object [];
  json_empty_array := tree_array [];
  json_null := tree_null;
  json_of_bool := tree_bool;
  json_of_int64 := tree_int64;
  json_of_uint64 := tree_uint64;
  json_of_double v _ := tree_double v;
  json_of_string := tree_string;
  json_of_byte_string := tree_byte_string;
  json_of_bignum := tree_bignum;
  json_push_back j v := match j with
                        | tree_array items => tree_array (items ++ [v])
                        | _ => j
                        end;
  json_insert j members := match j with
                           | tree_object ms => tree_object (ms ++ members)
                           | _ => j
                           end
}.

End JsonDecoder.

(** * Properties *)

(** ** Bignum *)

Module BignumFacts.
Import Bignum.

Section Facts.
Variable junk_word : Z.
Variable junk_flag : bool.

Local Abbreviation of_i32 := (basic_bignum_i32 junk_word).
Local Abbreviation of_i64 := basic_bignum_i64.
Local Abbreviation of_u64 := (basic_bignum_u64 junk_flag).

(** [reduce] is how the class canonicalises: whenever it returns, both
    invariants hold of what it returns. *)
Lemma reduce_loop_spec : forall n d len len',
  reduce_loop n d len = Ok len' ->
  (Z.of_nat n = len -> len' = 0 \/ (0 < len' /\ nth (Z.to_nat (len' - 1)) d 0 <> 0)).
Proof.
  induction n as [|n IH]; intros d len len' Hr Hn; simpl in Hr.
  - simpl in Hn. inversion Hr. left. lia.
  - unfold rd in Hr. destruct (in_block d (len - 1)); simpl in Hr; [|discriminate].
    destruct (nth (Z.to_nat (len - 1)) d 0 =? 0) eqn:E.
    + apply (IH d (len - 1) len' Hr). lia.
    + inversion Hr; subst. right. apply Z.eqb_neq in E. split; [lia|exact E].
Qed.

Lemma reduce_canonical : forall b b',
  0 <= length_ b -> reduce b = Ok b' -> canonical b' = true.
Proof.
  intros b b' Hlen Hr. unfold reduce in Hr.
  destruct (reduce_loop (Z.to_nat (length_ b)) (data_ b) (length_ b)) as [len|f] eqn:E;
    simpl in Hr; [|discriminate].
  inversion Hr; subst; clear Hr.
  apply reduce_loop_spec in E; [|lia].
  unfold canonical, zero_is_unsigned, top_digit_nonzero; simpl.
  destruct E as [E|[E1 E2]].
  - subst. reflexivity.
  - replace (len =? 0) with false by (symmetry; apply Z.eqb_neq; lia).
    replace (len >? 0) with true by (symmetry; apply Z.gtb_lt; lia).
    simpl. apply negb_true_iff. apply Z.eqb_neq. exact E2.
Qed.

(** C1. basic_bignum(int signum, const uint8_t* str, size_t n) accumulates
    v = v*16 + str[i]: from the bytes (1, 0) with a positive sign it builds 16,
    where the big-endian base-256 value of the claim is 256. *)
Theorem binary_digits_accumulate_base16 :
  (exists b, basic_bignum_bin junk_word 1 [1; 0] = Ok b /\ value b = 16) /\
  spec_binary_value 1 [1; 0] = 256.
Proof.
  split; [|reflexivity].
  eexists. split; [vm_compute; reflexivity|reflexivity].
Qed.

(** C2. basic_bignum(const int64_t&) and basic_bignum(const uint64_t&) give every
    nonzero value two digits: built from 1 the bignum has length 2 and a zero
    top digit.  The unary minus of zero, and -1 shifted right by 32 bits, have
    length 0 and a set negative flag.  Each breaks a representation
    invariant. *)
Theorem constructors_break_invariants :
  length_ (of_i64 1) = 2 /\ rd (data_ (of_i64 1)) (length_ (of_i64 1) - 1) = Ok 0 /\
  top_digit_nonzero (of_i64 1) = false /\
  top_digit_nonzero (of_u64 1) = false /\
  (exists z, operator_neg junk_word (of_i32 0) = Ok z /\
             length_ z = 0 /\ neg_ z = true /\ zero_is_unsigned z = false) /\
  (exists z, operator_shr_assign junk_word (of_i32 (-1)) 32 = Ok z /\
             length_ z = 0 /\ neg_ z = true /\ zero_is_unsigned z = false).
Proof.
  repeat split; try reflexivity.
  - eexists. split; [vm_compute; reflexivity|]. repeat split; reflexivity.
  - eexists. split; [vm_compute; reflexivity|]. repeat split; reflexivity.
Qed.

(** C3. For a = b = 8589934595 = 2*2^32 + 3 the remainder a % b is not
    computed: the nested division of unnormalize reaches set_length(-1), which
    makes the length 65535 over a block of round_up(65535) = 0 cells, and the
    loop that clears the quotient writes outside it.  For a = 2^64 and
    b = 2^32 + 1 the quotient returned is 0 and the remainder is a itself. *)
Theorem division_leaves_block_and_misdivides :
  operator_mod junk_word junk_flag (of_i64 8589934595) (of_i64 8589934595)
    = Err out_of_bounds /\
  (exists a q r,
      basic_bignum_str junk_word "18446744073709551616" = Ok a /\
      value a = 2 ^ 64 /\ canonical a = true /\
      operator_div junk_word junk_flag a (of_i64 4294967297) = Ok q /\
      operator_mod junk_word junk_flag a (of_i64 4294967297) = Ok r /\
      value q = 0 /\ value r = 2 ^ 64).
Proof.
  split; [vm_compute; reflexivity|].
  eexists. eexists. eexists.
  split; [vm_compute; reflexivity|].
  split; [reflexivity|].
  split; [reflexivity|].
  split; [vm_compute; reflexivity|].
  split; [vm_compute; reflexivity|].
  split; reflexivity.
Qed.

(** C4. The bignum built from the 64-bit integer 1 prints as "1", and the
    bignum parsed from "1" does not compare equal to it: the first has two
    digits (1, 0), the second one. *)
Theorem to_string_round_trip_fails_on_int64 :
  to_string junk_word junk_flag (of_i64 1) = Ok "1"%string /\
  (exists y, basic_bignum_str junk_word "1" = Ok y /\
             operator_eq (of_i64 1) y = Ok false /\
             value y = value (of_i64 1)).
Proof.
  split; [vm_compute; reflexivity|].
  eexists. split; [vm_compute; reflexivity|].
  split; [vm_compute; reflexivity|reflexivity].
Qed.

(** Zero itself is rendered as "0". *)
Lemma to_string_zero : to_string junk_word junk_flag (of_i32 0) = Ok "0"%string.
Proof. vm_compute. reflexivity. Qed.

(** Division and modulo by a zero divisor throw "Zero divide.", for every
    dividend, whatever [quot] and [rem] designate. *)
Lemma divide_by_zero_throws : forall fuel depth this denom quot rem remDesired,
  length_ denom = 0 -> 2 <= capacity denom ->
  divide junk_word junk_flag fuel (S depth) this denom quot rem remDesired
    = Err zero_divide.
Proof.
  intros fuel depth this denom quot rem remDesired Hlen Hcap.
  simpl. unfold basic_bignum_copy. rewrite Hlen. simpl.
  unfold rd, in_block. unfold capacity in Hcap.
  replace (0 <? Zlen (data_ denom)) with true by (symmetry; apply Z.ltb_lt; lia).
  replace (1 <? Zlen (data_ denom)) with true by (symmetry; apply Z.ltb_lt; lia).
  reflexivity.
Qed.

Lemma operator_div_assign_zero : forall this,
  operator_div_assign junk_word junk_flag this (of_i32 0) = Err zero_divide.
Proof. intros. reflexivity. Qed.

Lemma operator_mod_assign_zero : forall this,
  operator_mod_assign junk_word junk_flag this (of_i32 0) = Err zero_divide.
Proof. intros. reflexivity. Qed.

(** The loop of normalize never ends on a zero top digit: every budget is
    used up. *)
Lemma normalize_loop_zero : forall fuel x, normalize_loop fuel 0 x = Err out_of_fuel.
Proof.
  induction fuel as [|fuel IH]; intros x; [reflexivity|].
  cbn [normalize_loop]. change (Z.land 0 l_bit =? 0) with true. cbv iota.
  change (u32 (Z.shiftl 0 1)) with 0. apply IH.
Qed.

(** Hence a division of two values built from 64-bit integers, 6 by 3, does
    not return: the divisor has the digits (3, 0). *)
Lemma division_of_int64_values_diverges : forall fuel depth quot rem remDesired,
  divide junk_word junk_flag fuel (S depth) (of_i64 6) (of_i64 3) quot rem remDesired
    = Err out_of_fuel.
Proof.
  intros fuel depth quot rem remDesired.
  cbn [divide]. change (basic_bignum_copy junk_word (of_i64 3))
    with (Ok (mk_bignum [3; 0] false 2)).
  change (basic_bignum_copy junk_word (of_i64 6)) with (Ok (mk_bignum [6; 0] false 2)).
  cbn [bind length length_ Z.eqb neg_ xorb with_neg data_].
  change (operator_lt (mk_bignum [6; 0] false 2) (mk_bignum [3; 0] false 2))
    with (Ok false : res bool).
  cbn [bind Z.eqb andb basic_bignum_copy length_ Z.leb Z.compare Pos.compare
       Pos.compare_cont rd in_block data_ neg_].
  unfold basic_bignum_copy. cbn [length_ Z.leb Z.compare Pos.compare Pos.compare_cont].
  cbn. unfold normalize. cbn [length length_ data_ Z.sub Z.add Z.opp Z.pos_sub].
  change (rd [3; 0] 1) with (Ok 0 : res Z). cbn [bind].
  rewrite normalize_loop_zero. reflexivity.
Qed.

(** C7. sqrt is not total: sqrt(0) divides a by x = 0 in the first test of its
    second loop and throws "Zero divide.", whatever the loop budget. *)
Theorem sqrt_of_zero_throws : forall fuel,
  sqrt junk_word junk_flag fuel (of_i32 0) = Err zero_divide.
Proof.
  intros fuel. destruct fuel; vm_compute; reflexivity.
Qed.

End Facts.

End BignumFacts.

(** ** staj2 events and the cursor visitor *)

Module Staj2Facts.
Import Staj2.

(** get<bool> on the kinds as_bool has a case for. *)
Lemma get_bool_of_bool : forall b tag ec,
  get_bool (event_of_bool b tag) ec = (b, ec).
Proof. reflexivity. Qed.

Lemma get_bool_of_int64 : forall v tag ec,
  get_bool (event_of_int64 v tag) ec = (negb (v =? 0), ec).
Proof. reflexivity. Qed.

Lemma get_bool_of_uint64 : forall v tag ec,
  get_bool (event_of_uint64 v tag) ec = (negb (v =? 0), ec).
Proof. reflexivity. Qed.

Lemma get_bool_of_double : forall v tag ec,
  get_bool (event_of_double v tag) ec = (negb (PrimFloat.eqb v 0%float), ec).
Proof. reflexivity. Qed.

(** get<bool> on the kinds that are no numbers: not_bool. *)
Lemma get_bool_not_bool : forall ev ec,
  match event_type ev with
  | staj2_event_type.string_value | staj2_event_type.byte_string_value
  | staj2_event_type.null_value
  | staj2_event_type.begin_array | staj2_event_type.end_array
  | staj2_event_type.begin_object | staj2_event_type.end_object => True
  | _ => False
  end ->
  get_bool ev ec = (false, ec_conv conv_errc.not_bool).
Proof.
  intros ev ec. unfold get_bool, as_bool, event_type.
  destruct (event_type_ ev); intros Hk; try reflexivity; destruct Hk.
Qed.

(** C9. as_bool has no case for half_value: get<bool> on a half event, here the
    half-float 1.0 (bits 0x3C00), returns false and sets not_bool, and the
    throwing overload throws it; so does every other half event. *)
Theorem get_bool_of_half_is_not_bool :
  get_bool (event_of_half 15360 semantic_tag.none) ec_clear
    = (false, ec_conv conv_errc.not_bool) /\
  get_bool_throwing (event_of_half 15360 semantic_tag.none)
    = inr (ec_conv conv_errc.not_bool) /\
  (forall v tag ec, get_bool (event_of_half v tag) ec = (false, ec_conv conv_errc.not_bool)).
Proof. repeat split. Qed.

(** *** Typed-array expansion *)

Lemma indices_succ : forall i k, indices i (S k) = i :: indices (i + 1) k.
Proof.
  intros i k. unfold indices. cbn [seq map]. f_equal; [lia|].
  rewrite <- seq_shift, map_map. apply map_ext. intros j. lia.
Qed.

Lemma map_nth_indices : forall (A B : Type) (f : A -> B) (d : A) (l : list A),
  map (fun i => f (nth (Z.to_nat i) l d)) (indices 0 (List.length l)) = map f l.
Proof.
  intros A B f d l. unfold indices. rewrite map_map. induction l as [|x l IH].
  - reflexivity.
  - cbn [List.length seq map]. f_equal.
    rewrite <- seq_shift, map_map. rewrite <- IH. apply map_ext. intros j.
    replace (Z.to_nat (0 + Z.of_nat (S j))) with (S (Z.to_nat (0 + Z.of_nat j))) by lia.
    reflexivity.
Qed.

(* one advance inside the array: the element's event, the index moved on *)
Lemma advance_in_array : forall v,
  is_typed_array v = true -> index_ v < size_ (data_ v) ->
  advance_typed_array v
  = mk_visitor (pred_ v) (element_event (data_ v) (index_ v)) (state_ v) (data_ v)
               (shape_ v) (index_ v + 1).
Proof.
  intros v Hta Hlt. unfold advance_typed_array. rewrite Hta.
  replace (index_ v <? size_ (data_ v)) with true by (symmetry; apply Z.ltb_lt; lia).
  unfold is_typed_array in Hta. unfold element_event.
  destruct (type_ (data_ v)); try reflexivity. discriminate Hta.
Qed.

(* the advance at the end of the array: end_array, and the state cleared *)
Lemma advance_at_end : forall v,
  is_typed_array v = true -> size_ (data_ v) <= index_ v ->
  advance_typed_array v
  = cleared v (event_of_type staj2_event_type.end_array semantic_tag.none).
Proof.
  intros v Hta Hge. unfold advance_typed_array. rewrite Hta.
  replace (index_ v <? size_ (data_ v)) with false by (symmetry; apply Z.ltb_ge; lia).
  reflexivity.
Qed.

(** Draining a visitor that stands at index [i] of a view with [k] elements
    left: their [k] events in order, then end_array, and the state cleared. *)
Lemma drain_typed_array : forall k v,
  state_ v = staj2_cursor_state.typed_array ->
  is_typed_array v = true ->
  size_ (data_ v) = index_ v + Z.of_nat k ->
  drain (k + 1) v
  = (map (element_event (data_ v)) (indices (index_ v) k)
       ++ [event_of_type staj2_event_type.end_array semantic_tag.none],
     cleared v (event_of_type staj2_event_type.end_array semantic_tag.none)).
Proof.
  induction k as [|k IH]; intros v Hst Hta Hsize.
  - cbn [Nat.add drain]. unfold send_available. rewrite Hst.
    rewrite advance_at_end by (try exact Hta; lia). reflexivity.
  - cbn [Nat.add drain]. unfold send_available at 1 2. rewrite Hst.
    rewrite advance_in_array by (try exact Hta; lia).
    rewrite IH; [|exact Hst|exact Hta|cbn [index_ data_ size_]; lia].
    rewrite indices_succ. reflexivity.
Qed.

Lemma span_events_indices : forall data,
  map (element_event (typed_array_view_of data (span_size data)))
      (indices 0 (Z.to_nat (span_size data)))
  = span_events data.
Proof.
  intros data. unfold element_event.
  destruct data as [l|l|l|l|l|l|l|l|l|l]; cbn [typed_array_view_of type_ span_size];
    unfold Zlen; rewrite Nat2Z.id; unfold int_at, float_at;
    cbn [view_data_ typed_array_view_of span_events];
    first [ apply (map_nth_indices Z _ (fun x => event_of_uint64 x semantic_tag.none))
          | apply (map_nth_indices Z _ (fun x => event_of_int64 x semantic_tag.none))
          | apply (map_nth_indices float _ (fun x => event_of_double x semantic_tag.none)) ].
Qed.

(** What the code does for the ten overloads that take a span: one
    begin_array with the tag of the call, one scalar event per element, of the
    family of the element type and in element order, one end_array, and the
    expansion state cleared. *)
Lemma typed_array_expansion : forall v data tag context,
  expand_typed_array v data tag context
  = (event_of_type staj2_event_type.begin_array tag
       :: span_events data
       ++ [event_of_type staj2_event_type.end_array semantic_tag.none],
     cleared v (event_of_type staj2_event_type.end_array semantic_tag.none)).
Proof.
  intros v data tag context. unfold expand_typed_array.
  rewrite drain_typed_array.
  - cbn [fst visit_typed_array visit_begin_array capture with_event data_ index_
           event event_ pred_ shape_].
    rewrite span_events_indices. reflexivity.
  - reflexivity.
  - destruct data; reflexivity.
  - cbn. unfold span_size, Zlen. destruct data; lia.
Qed.

(** C5. A typed_array call that carries half-floats is expanded into uint64
    events, for the two half-floats 1.0 and 2.0 and for every other content:
    the overload passes [data.data()], a [const uint16_t*], to typed_array_view
    without [half_arg], as the uint16 overload does. *)
Theorem half_typed_array_expands_to_uint64 :
  fst (expand_typed_array_half basic_staj2_visitor_default [15360; 16384]
         semantic_tag.none ser_context_default)
  = [event_of_type staj2_event_type.begin_array semantic_tag.none;
     event_of_uint64 15360 semantic_tag.none;
     event_of_uint64 16384 semantic_tag.none;
     event_of_type staj2_event_type.end_array semantic_tag.none] /\
  (forall v data tag context,
      expand_typed_array_half v data tag context
      = (event_of_type staj2_event_type.begin_array tag
           :: map (fun x => event_of_uint64 x semantic_tag.none) data
           ++ [event_of_type staj2_event_type.end_array semantic_tag.none],
         cleared v (event_of_type staj2_event_type.end_array semantic_tag.none))).
Proof.
  split; [reflexivity|].
  intros v data tag context.
  change (expand_typed_array_half v data tag context)
    with (expand_typed_array v (span_uint16 data) tag context).
  apply typed_array_expansion.
Qed.

Lemma map_nth_indices_from : forall (A B : Type) (f : A -> B) (d : A) (l : list A) (i : nat),
  map (fun j => f (nth (Z.to_nat j) l d)) (indices (Z.of_nat i) (List.length l - i))
  = map f (skipn i l).
Proof.
  intros A B f d l. induction l as [|x l IH]; intros i.
  - destruct i; reflexivity.
  - destruct i as [|i].
    + apply (map_nth_indices A B f d (x :: l)).
    + cbn [skipn List.length Nat.sub]. rewrite <- IH.
      unfold indices. rewrite !map_map. apply map_ext. intros j.
      replace (Z.to_nat (Z.of_nat (S i) + Z.of_nat j))
        with (S (Z.to_nat (Z.of_nat i + Z.of_nat j))) by lia.
      reflexivity.
Qed.

Lemma span_calls_indices : forall data (i : nat),
  map (element_call (typed_array_view_of data (span_size data)))
      (indices (Z.of_nat i) (Z.to_nat (span_size data) - i))
  = skipn i (span_calls data).
Proof.
  intros data i. unfold element_call.
  destruct data as [l|l|l|l|l|l|l|l|l|l]; cbn [typed_array_view_of type_ span_size];
    unfold Zlen; rewrite Nat2Z.id; unfold int_at, float_at;
    cbn [view_data_ typed_array_view_of span_calls]; rewrite skipn_map;
    first [ apply (map_nth_indices_from Z _
                     (fun x => call_uint64_value x semantic_tag.none ser_context_default))
          | apply (map_nth_indices_from Z _
                     (fun x => call_int64_value x semantic_tag.none ser_context_default))
          | apply (map_nth_indices_from float _
                     (fun x => call_double_value x semantic_tag.none ser_context_default)) ].
Qed.

(** *** dump into a sink *)

Lemma feed_stopped : forall (V : Type) (H : basic_json_visitor2 V) (sink : V) calls,
  feed sink false calls = (sink, false).
Proof. intros V H sink calls. destruct calls; reflexivity. Qed.

Lemma feed_app : forall (V : Type) (H : basic_json_visitor2 V) l1 l2 (sink : V) more,
  feed sink more (l1 ++ l2)
  = feed (fst (feed sink more l1)) (snd (feed sink more l1)) l2.
Proof.
  intros V H. induction l1 as [|c l1 IH]; intros l2 sink more.
  - reflexivity.
  - cbn [app feed]. destruct more.
    + destruct (visit sink c) as [sink' more']. apply IH.
    + cbn [fst snd]. rewrite feed_stopped. reflexivity.
Qed.

Lemma span_view_is_typed_array : forall pr ev st data sh i,
  is_typed_array (mk_visitor pr ev st (typed_array_view_of data (span_size data)) sh i)
  = true.
Proof. intros pr ev st data sh i. destruct data; reflexivity. Qed.

(* the switch in the loop of dump makes the call of the element's kind *)
Lemma element_visit : forall (V : Type) (H : basic_json_visitor2 V) data i (sink : V) more,
  match type_ (typed_array_view_of data (span_size data)) with
  | typed_array_type.uint8_value | typed_array_type.uint16_value
  | typed_array_type.uint32_value | typed_array_type.uint64_value =>
      visit sink (call_uint64_value
                    (int_at (typed_array_view_of data (span_size data)) i)
                    semantic_tag.none ser_context_default)
  | typed_array_type.int8_value | typed_array_type.int16_value
  | typed_array_type.int32_value | typed_array_type.int64_value =>
      visit sink (call_int64_value
                    (int_at (typed_array_view_of data (span_size data)) i)
                    semantic_tag.none ser_context_default)
  | typed_array_type.float_value | typed_array_type.double_value =>
      visit sink (call_double_value
                    (float_at (typed_array_view_of data (span_size data)) i)
                    semantic_tag.none ser_context_default)
  | _ => (sink, more)
  end
  = visit sink (element_call (typed_array_view_of data (span_size data)) i).
Proof. intros V H data i sink more. destruct data; reflexivity. Qed.

(** The loop of dump: the elements from [i] on and end_array go to the sink
    for as long as it answers true.  The view is cleared when end_array has
    been sent, and stays when the sink has stopped the loop before. *)
Lemma dump_loop_fed : forall (V : Type) (H : basic_json_visitor2 V) k pr data ev st sh i
    (sink : V) more,
  Z.to_nat (span_size data - i) = k ->
  let view := typed_array_view_of data (span_size data) in
  let r := dump_loop (k + 2) (mk_visitor pr ev st view sh i) sink more in
  let elements := map (element_call view) (indices i k) in
  (snd (fst r), snd r) = feed sink more (elements ++ [call_end_array ser_context_default]) /\
  (snd (feed sink more elements) = true ->
   fst (fst r) = mk_visitor pr ev staj2_cursor_state.idle typed_array_view_default sh 0) /\
  (snd (feed sink more elements) = false -> data_ (fst (fst r)) = view).
Proof.
  intros V H. induction k as [|k IH]; intros pr data ev st sh i sink more Hk view r elements;
    subst r elements view.
  - cbn [Nat.add dump_loop indices seq map app feed].
    rewrite span_view_is_typed_array. destruct more; cbn [andb].
    + cbn [index_ data_ size_ typed_array_view_of].
      replace (i <? span_size data) with false by (symmetry; apply Z.ltb_ge; lia).
      cbn [pred_ event_ shape_].
      destruct (visit sink (call_end_array ser_context_default)) as [sink' more'].
      replace (more' && is_typed_array
                 (mk_visitor pr ev staj2_cursor_state.idle typed_array_view_default sh 0))
        with false by (destruct more'; reflexivity).
      cbn [fst snd]. repeat split. discriminate.
    + cbn [fst snd]. repeat split. discriminate.
  - rewrite indices_succ. cbn [Nat.add dump_loop map app feed].
    rewrite span_view_is_typed_array. destruct more; cbn [andb].
    + cbn [index_ data_ pred_ event_ state_ shape_].
      replace (i <? size_ (typed_array_view_of data (span_size data))) with true
        by (symmetry; apply Z.ltb_lt; cbn [size_ typed_array_view_of]; lia).
      rewrite (element_visit V H data i sink true).
      destruct (visit sink (element_call (typed_array_view_of data (span_size data)) i))
        as [sink' more'].
      apply (IH pr data ev st sh (i + 1) sink' more'). lia.
    + cbn [fst snd data_]. repeat split. discriminate.
Qed.

(** What dump does with a typed-array view and any sink.  Just entered
    (index 0), it makes one bulk typed_array call with the whole span and
    clears the view, whatever the sink answers.  Past [i] elements it sends
    the current event again, then one scalar call per remaining element and
    end_array, for as long as the sink answers true; the view is cleared when
    end_array has been sent, and stays when the sink has stopped dump before
    that. *)
Lemma dump_to_sink : forall (V : Type) (H : basic_json_visitor2 V) pr data ev st sh
    (sink : V) context,
  let view := typed_array_view_of data (span_size data) in
  let after := mk_visitor pr ev staj2_cursor_state.idle typed_array_view_default sh 0 in
  dump (mk_visitor pr ev st view sh 0) sink context
    = (after,
       fst (visit sink (call_typed_array data semantic_tag.none ser_context_default)),
       snd (visit sink (call_typed_array data semantic_tag.none ser_context_default))) /\
  (forall i : nat, (0 < i)%nat ->
   let r := dump (mk_visitor pr ev st view sh (Z.of_nat i)) sink context in
   let sent := event_call ev context :: skipn i (span_calls data) in
   (snd (fst r), snd r) = feed sink true (sent ++ [call_end_array ser_context_default]) /\
   (snd (feed sink true sent) = true -> fst (fst r) = after) /\
   (snd (feed sink true sent) = false -> data_ (fst (fst r)) = view)).
Proof.
  intros V H pr data ev st sh sink context view after. subst view after. split.
  - unfold dump.
    destruct (visit sink (call_typed_array data semantic_tag.none ser_context_default))
      as [sink' more'] eqn:Hv.
    destruct data; cbn [is_typed_array data_ type_ typed_array_view_of index_ Z.eqb negb
                        view_data_ pred_ event_ shape_ fst snd];
      rewrite Hv; reflexivity.
  - intros i Hi r sent. subst r sent. unfold dump.
    rewrite span_view_is_typed_array. cbn [index_].
    replace (negb (Z.of_nat i =? 0)) with true
      by (symmetry; apply negb_true_iff; apply Z.eqb_neq; lia).
    unfold staj2_to_saj_event, event. cbn [event_].
    unfold dump_trips. cbn [data_ index_ size_ typed_array_view_of].
    assert (Hsz : 0 <= span_size data) by (unfold span_size, Zlen; destruct data; lia).
    cbn [app feed].
    destruct (visit sink (event_call ev context)) as [sink' more'].
    rewrite <- (span_calls_indices data i).
    replace (Z.to_nat (span_size data) - i)%nat
      with (Z.to_nat (span_size data - Z.of_nat i)) by lia.
    apply (dump_loop_fed V H (Z.to_nat (span_size data - Z.of_nat i))
             pr data ev st sh (Z.of_nat i) sink' more'). reflexivity.
Qed.

(** *** The views a cursor visitor holds *)

(** No member makes a view of kind half_value, for which dump has no case:
    a view is the empty one, or the one that a typed_array call made of its
    span, and the half overload of visit_typed_array makes a uint16 view. *)
Lemma advance_typed_array_view : forall v,
  (data_ v = typed_array_view_default \/
   exists data, data_ v = typed_array_view_of data (span_size data)) /\ 0 <= index_ v ->
  (data_ (advance_typed_array v) = typed_array_view_default \/
   exists data, data_ (advance_typed_array v) = typed_array_view_of data (span_size data)) /\
  0 <= index_ (advance_typed_array v).
Proof.
  intros v [Hd Hi]. unfold advance_typed_array.
  destruct (is_typed_array v); [|split; assumption].
  destruct (index_ v <? size_ (data_ v)).
  - destruct (type_ (data_ v)); cbn [data_ index_ fst visit_uint64 visit_int64 visit_half
                                      visit_double capture with_event];
      (split; [exact Hd|lia]).
  - cbn [data_ index_]. split; [left; reflexivity|lia].
Qed.

Lemma advance_multi_dim_view : forall v,
  (data_ v = typed_array_view_default \/
   exists data, data_ v = typed_array_view_of data (span_size data)) /\ 0 <= index_ v ->
  (data_ (advance_multi_dim v) = typed_array_view_default \/
   exists data, data_ (advance_multi_dim v) = typed_array_view_of data (span_size data)) /\
  0 <= index_ (advance_multi_dim v).
Proof.
  intros v [Hd Hi]. unfold advance_multi_dim.
  destruct (negb (Zlen (shape_ v) =? 0)); [|split; assumption].
  destruct (state_ v); try destruct (index_ v <? Zlen (shape_ v));
    cbn [data_ index_ fst visit_begin_array_length visit_uint64 visit_end_array capture
         with_event];
    (split; [exact Hd|lia]).
Qed.

Lemma dump_loop_view : forall (V : Type) (H : basic_json_visitor2 V) n v (sink : V) more,
  (data_ v = typed_array_view_default \/
   exists data, data_ v = typed_array_view_of data (span_size data)) /\ 0 <= index_ v ->
  (data_ (fst (fst (dump_loop n v sink more))) = typed_array_view_default \/
   exists data, data_ (fst (fst (dump_loop n v sink more)))
                = typed_array_view_of data (span_size data)) /\
  0 <= index_ (fst (fst (dump_loop n v sink more))).
Proof.
  intros V H. induction n as [|n IH]; intros v sink more [Hd Hi].
  - split; assumption.
  - cbn [dump_loop]. destruct (more && is_typed_array v); [|split; assumption].
    destruct (index_ v <? size_ (data_ v)).
    + match goal with
      | |- context [let '(a, b) := ?e in _] => destruct e as [sink' more']
      end.
      apply IH. cbn [data_ index_]. split; [exact Hd|lia].
    + destruct (visit sink (call_end_array ser_context_default)) as [sink' more'].
      apply IH. cbn [data_ index_]. split; [left; reflexivity|lia].
Qed.

Lemma reachable_view : forall v,
  reachable v ->
  (data_ v = typed_array_view_default \/
   exists data, data_ v = typed_array_view_of data (span_size data)) /\ 0 <= index_ v.
Proof.
  intros v Hr. induction Hr as [pred|v Hr IH|v c Hr IH|v Hr IH|v Hr IH|v Hr IH|v Hr IH
                                |V H v sink context Hr IH].
  - split; [left; reflexivity|cbn; lia].
  - split; [left; reflexivity|cbn; lia].
  - destruct c; try exact IH.
    + split; [right; exists data; reflexivity|cbn; lia].
    + split; [right; exists (span_uint16 data); reflexivity|cbn; lia].
  - exact IH.
  - unfold send_available. destruct (state_ v);
      first [exact IH|apply advance_typed_array_view; exact IH
            |apply advance_multi_dim_view; exact IH].
  - apply advance_typed_array_view. exact IH.
  - apply advance_multi_dim_view. exact IH.
  - unfold dump. destruct (is_typed_array v).
    + destruct (negb (index_ v =? 0)).
      * destruct (staj2_to_saj_event (event v) sink context) as [sink' more'].
        apply dump_loop_view. exact IH.
      * match goal with
        | |- context [let '(a, b) := ?e in _] => destruct e as [sink' more']
        end.
        cbn [fst data_ index_]. split; [left; reflexivity|apply IH].
    + destruct (staj2_to_saj_event (event v) sink context) as [sink' more'].
      exact IH.
Qed.

(** C6, amended. Whatever typed-array view a cursor visitor holds, dump
    forwards the rest of it to the sink for as long as the sink answers true.
    Just entered (index 0), it makes exactly one bulk typed_array call with
    the whole span.  Mid-stream it sends the current event again, then one
    scalar call per remaining element and end_array, and stops after the
    first call that the sink answers false.  The view is always one that a
    typed_array call made of its span, of one of the ten kinds dump has a
    case for: a half-float array is held, and forwarded, as a uint16 view. *)
Theorem dump_forwards_while_the_sink_accepts : forall v,
  reachable v -> is_typed_array v = true ->
  exists data,
    data_ v = typed_array_view_of data (span_size data) /\ 0 <= index_ v /\
    forall (V : Type) (H : basic_json_visitor2 V) (sink : V) context,
      let r := dump v sink context in
      (index_ v = 0 ->
       (snd (fst r), snd r)
       = visit sink (call_typed_array data semantic_tag.none ser_context_default)) /\
      (index_ v <> 0 ->
       (snd (fst r), snd r)
       = feed sink true
           (event_call (event v) context
              :: skipn (Z.to_nat (index_ v)) (span_calls data)
              ++ [call_end_array ser_context_default])).
Proof.
  intros v Hr Hta.
  destruct (reachable_view v Hr) as [[Hd|[data Hd]] Hi].
  - unfold is_typed_array in Hta. rewrite Hd in Hta. discriminate Hta.
  - exists data. split; [exact Hd|]. split; [exact Hi|].
    intros V H sink context r. unfold r. clear r.
    destruct v as [pr ev st d sh i]. cbn [data_ index_ event event_] in *. subst d.
    destruct (dump_to_sink V H pr data ev st sh sink context) as [H0 Hmid].
    split.
    + intros E. subst i. rewrite H0. cbn [fst snd].
      destruct (visit sink _); reflexivity.
    + intros Hne.
      destruct (Hmid (Z.to_nat i) ltac:(lia)) as (Hsent & _).
      rewrite Z2Nat.id in Hsent by lia. exact Hsent.
Qed.

Lemma dump_forwards_while_the_sink_accepts_witness :
  let v := send_available
             (fst (receive basic_staj2_visitor_default
                     (call_typed_array (span_uint8 [7; 8; 9]) semantic_tag.none
                                       ser_context_default))) in
  (reachable v /\ is_typed_array v = true) /\
  exists data,
    data_ v = typed_array_view_of data (span_size data) /\ 0 <= index_ v /\
    forall (V : Type) (H : basic_json_visitor2 V) (sink : V) context,
      let r := dump v sink context in
      (index_ v = 0 ->
       (snd (fst r), snd r)
       = visit sink (call_typed_array data semantic_tag.none ser_context_default)) /\
      (index_ v <> 0 ->
       (snd (fst r), snd r)
       = feed sink true
           (event_call (event v) context
              :: skipn (Z.to_nat (index_ v)) (span_calls data)
              ++ [call_end_array ser_context_default])).
Proof.
  intros v.
  assert (Hr : reachable v).
  { apply reachable_send_available, reachable_receive, reachable_new. }
  exact (conj (conj Hr eq_refl) (dump_forwards_while_the_sink_accepts v Hr eq_refl)).
Defined.

(** C6 as stated fails for a sink that stops: a visitor that holds the uint8
    array 7, 8, 9 and has surfaced its first element sends that element again
    when it is dumped; a sink that answers false gets nothing after it, where
    the claim has the two remaining elements and end_array follow, and a sink
    that answers true gets them. *)
Lemma dump_stops_with_the_sink :
  let v := send_available
             (fst (receive basic_staj2_visitor_default
                     (call_typed_array (span_uint8 [7; 8; 9]) semantic_tag.none
                                       ser_context_default))) in
  let c x := call_uint64_value x semantic_tag.none ser_context_default in
  reachable v /\ is_typed_array v = true /\ index_ v = 1 /\
  dump v (mk_stopper []) ser_context_default = (v, mk_stopper [c 7], false) /\
  snd (fst (dump v ([] : recorder) ser_context_default))
  = [c 7; c 8; c 9; call_end_array ser_context_default].
Proof.
  intros v c. split.
  - apply reachable_send_available, reachable_receive, reachable_new.
  - repeat split.
Qed.

End Staj2Facts.

(** ** Filter views *)

Module FilterFacts.
Import Staj2.

Lemma ec_set_false : forall ec, ec_set ec = false -> ec = ec_clear.
Proof. intros [| |]; simpl; intros Hs; [reflexivity|discriminate|discriminate]. Qed.

(** *** The loop shape [advance_until] *)

Section AdvanceFacts.
Context {C : Type}.
Variable is_done : C -> bool.
Variable step : C -> C * error_code.
Variable bound : C -> nat.
Hypothesis step_lowers :
  forall c, is_done c = false -> (bound (fst (step c)) < bound c)%nat.

Local Abbreviation until := (advance_until is_done).

Lemma bound_zero_done : forall c, bound c = 0%nat -> is_done c = true.
Proof.
  intros c Hb. destruct (is_done c) eqn:Hd; [reflexivity|].
  apply step_lowers in Hd. lia.
Qed.


Lemma until_halted : forall acc n c ec,
  is_done c = true \/ acc c = true -> until acc step n c ec = (c, ec).
Proof.
  intros acc [|n] c ec Hh; simpl; [reflexivity|].
  destruct Hh as [Hh|Hh]; rewrite Hh; simpl; [reflexivity|].
  rewrite andb_false_r. reflexivity.
Qed.

(** With the bound as budget the loop runs to its end, and more budget
    changes nothing. *)
Lemma until_fuel : forall acc n m c ec,
  (bound c <= n)%nat -> (bound c <= m)%nat ->
  until acc step n c ec = until acc step m c ec.
Proof.
  intros acc n. induction n as [|n IH]; intros m c ec Hn Hm.
  - assert (Hd : is_done c = true) by (apply bound_zero_done; lia).
    rewrite !until_halted by (left; exact Hd). reflexivity.
  - destruct m as [|m].
    + assert (Hd : is_done c = true) by (apply bound_zero_done; lia).
      rewrite !until_halted by (left; exact Hd). reflexivity.
    + simpl.
      destruct (negb (is_done c) && negb (acc c) && negb (ec_set ec)) eqn:Hc;
        [|reflexivity].
      assert (Hd : is_done c = false).
      { destruct (is_done c); [discriminate Hc|reflexivity]. }
      pose proof (step_lowers c Hd) as Hl.
      destruct (step c) as [c' ec']; simpl in Hl.
      apply IH; lia.
Qed.

(** The loop never raises the bound. *)
Lemma until_bound : forall acc n c ec,
  (bound (fst (until acc step n c ec)) <= bound c)%nat.
Proof.
  intros acc n. induction n as [|n IH]; intros c ec; simpl; [lia|].
  destruct (negb (is_done c) && negb (acc c) && negb (ec_set ec)) eqn:Hc;
    [|simpl; lia].
  assert (Hd : is_done c = false).
  { destruct (is_done c); [discriminate Hc|reflexivity]. }
  pose proof (step_lowers c Hd) as Hl.
  destruct (step c) as [c' ec']; simpl in Hl.
  specialize (IH c' ec'). lia.
Qed.

(** With the bound as budget the loop ends where its condition fails. *)
Lemma until_stops : forall acc n c ec,
  (bound c <= n)%nat ->
  let r := until acc step n c ec in
  is_done (fst r) = true \/ acc (fst r) = true \/ ec_set (snd r) = true.
Proof.
  intros acc n. induction n as [|n IH]; intros c ec Hn; simpl.
  - left. apply bound_zero_done. lia.
  - destruct (negb (is_done c) && negb (acc c) && negb (ec_set ec)) eqn:Hc.
    + assert (Hd : is_done c = false).
      { destruct (is_done c); [discriminate Hc|reflexivity]. }
      pose proof (step_lowers c Hd) as Hl.
      destruct (step c) as [c' ec']; simpl in Hl.
      apply IH. lia.
    + simpl. destruct (is_done c); [left; reflexivity|].
      destruct (acc c); [right; left; reflexivity|].
      destruct (ec_set ec); [right; right; reflexivity|discriminate Hc].
Qed.

Section Two.
Variables p q : C -> bool.
Let pq : C -> bool := fun c => p c && q c.

(** Looking for an event that passes both predicates is looking for one that
    passes the first, and going on from there. *)
Lemma until_split : forall n c ec,
  (bound c <= n)%nat ->
  until pq step n c ec
  = let r := until p step n c ec in until pq step (bound (fst r)) (fst r) (snd r).
Proof.
  intros n. induction n as [|n IH]; intros c ec Hn.
  - simpl. symmetry. apply until_halted. left. apply bound_zero_done. lia.
  - cbn [advance_until].
    destruct (negb (is_done c) && negb (p c) && negb (ec_set ec)) eqn:Hc.
    + assert (Hd : is_done c = false).
      { destruct (is_done c); [discriminate Hc|reflexivity]. }
      assert (Hp : p c = false).
      { destruct (p c); [rewrite Hd in Hc; discriminate Hc|reflexivity]. }
      assert (He : ec_set ec = false).
      { destruct (ec_set ec); [rewrite andb_false_r in Hc; discriminate Hc|reflexivity]. }
      unfold pq at 1. rewrite Hd, Hp, He. simpl.
      pose proof (step_lowers c Hd) as Hl.
      destruct (step c) as [c' ec']; simpl in Hl.
      apply IH. lia.
    + simpl.
      change (until pq step (S n) c ec = until pq step (bound c) c ec).
      apply until_fuel; lia.
Qed.

(* one round of the inner filter: a step, then the first loop *)
Local Abbreviation inner_step := (filter_round is_done p step bound).

Lemma inner_step_lowers : forall c,
  is_done c = false -> (bound (fst (inner_step c)) < bound c)%nat.
Proof.
  intros c Hd. unfold filter_round.
  pose proof (step_lowers c Hd) as Hl.
  destruct (step c) as [c1 e1]; simpl in Hl.
  pose proof (until_bound p (bound c1) c1 e1). lia.
Qed.

(** The second filter laid over the first looks for what the single filter
    looks for, from any place the first filter can rest at. *)
Lemma until_composed : forall n c ec,
  (bound c <= n)%nat ->
  is_done c = true \/ p c = true \/ ec_set ec = true ->
  until q inner_step n c ec = until pq step n c ec.
Proof.
  intros n. induction n as [|n IH]; intros c ec Hn Hrest; [reflexivity|].
  cbn [advance_until].
  destruct (is_done c) eqn:Hd; [reflexivity|].
  destruct (ec_set ec) eqn:He; [rewrite !andb_false_r; reflexivity|].
  destruct Hrest as [Hr|[Hp|Hr]]; try discriminate Hr.
  unfold pq at 1. rewrite Hp. simpl.
  destruct (q c) eqn:Hq; [reflexivity|]. simpl.
  unfold filter_round.
  pose proof (step_lowers c Hd) as Hl.
  destruct (step c) as [c1 e1] eqn:Hs; simpl in Hl.
  pose proof (until_stops p (bound c1) c1 e1 (le_n _)) as Hstop.
  pose proof (until_bound p (bound c1) c1 e1) as Hb.
  rewrite (until_split n c1 e1) by lia.
  rewrite (until_fuel p n (bound c1) c1 e1) by lia.
  destruct (until p step (bound c1) c1 e1) as [c2 e2]; simpl in *.
  rewrite IH by (try lia; exact Hstop).
  apply until_fuel; lia.
Qed.

(** After a first step [(c1, e1)], the two filters in a row and the single
    one come to rest at the same place with the same code. *)
Lemma composed_round : forall c1 e1,
  (let r := until p step (bound c1) c1 e1 in
   until q inner_step (bound (fst r)) (fst r) (snd r))
  = until pq step (bound c1) c1 e1.
Proof.
  intros c1 e1.
  pose proof (until_stops p (bound c1) c1 e1 (le_n _)) as Hstop.
  rewrite (until_split (bound c1) c1 e1) by lia.
  destruct (until p step (bound c1) c1 e1) as [c2 e2]; simpl in *.
  apply until_composed; [lia|exact Hstop].
Qed.

End Two.
End AdvanceFacts.

(** A loop over wrapped states follows the loop over the states. *)
Lemma advance_until_wrapped :
  forall (C V : Type) (wrap : C -> V)
         (is_done : C -> bool) (acc : C -> bool) (step : C -> C * error_code)
         (is_done' : V -> bool) (acc' : V -> bool) (step' : V -> V * error_code),
  (forall c, is_done' (wrap c) = is_done c) ->
  (forall c, acc' (wrap c) = acc c) ->
  (forall c, step' (wrap c) = (wrap (fst (step c)), snd (step c))) ->
  forall n c ec,
  advance_until is_done' acc' step' n (wrap c) ec
  = (wrap (fst (advance_until is_done acc step n c ec)),
     snd (advance_until is_done acc step n c ec)).
Proof.
  intros C V wrap is_done acc step is_done' acc' step' Hd Ha Hs n.
  induction n as [|n IH]; intros c ec; simpl; [reflexivity|].
  rewrite Hd, Ha.
  destruct (negb (is_done c) && negb (acc c) && negb (ec_set ec)); [|reflexivity].
  rewrite Hs. destruct (step c) as [c' ec']; simpl. apply IH.
Qed.

(** *** The loops of the source are instances of that shape *)

Section Loops.
Context {C : Type} `{HC : basic_staj2_cursor C} `{HB : bounded_cursor C}.

Lemma skip_loop_until : forall n p c,
  skip_loop n p c = advance_until done (accepts p) next n c ec_clear.
Proof.
  induction n as [|n IH]; intros p c; simpl; [reflexivity|].
  rewrite andb_true_r. unfold accepts at 1.
  destruct (negb (done c) && negb (p (current c) (context c))); [|reflexivity].
  destruct (next c) as [c' ec]. destruct (ec_set ec) eqn:He.
  - symmetry. destruct n; simpl; [reflexivity|].
    rewrite He. rewrite !andb_false_r. reflexivity.
  - apply ec_set_false in He. subst ec. apply IH.
Qed.

Lemma skip_loop_ec_until : forall n p c ec,
  skip_loop_ec n p c ec = advance_until done (accepts p) next_clear n c ec.
Proof.
  induction n as [|n IH]; intros p c ec; simpl; [reflexivity|].
  unfold accepts at 1.
  destruct (negb (done c) && negb (p (current c) (context c)) && negb (ec_set ec)) eqn:Hc;
    [|reflexivity].
  assert (He : ec = ec_clear).
  { apply ec_set_false. destruct (ec_set ec); [|reflexivity].
    rewrite andb_false_r in Hc. discriminate Hc. }
  subst ec. unfold next_clear at 1.
  destruct (next_ec c ec_clear) as [c' ec']. apply IH.
Qed.

Lemma make_filter_view_until : forall c p,
  make_filter_view c p
  = (mk_filter_view (fst (advance_until done (accepts p) next (remaining c) c ec_clear)) p,
     snd (advance_until done (accepts p) next (remaining c) c ec_clear)).
Proof.
  intros c p. unfold make_filter_view. rewrite skip_loop_until.
  destruct (advance_until done (accepts p) next (remaining c) c ec_clear). reflexivity.
Qed.

Lemma filter_next_round : forall c p,
  filter_next (mk_filter_view c p)
  = (mk_filter_view (fst (filter_round done (accepts p) next remaining c)) p,
     snd (filter_round done (accepts p) next remaining c)).
Proof.
  intros c p. unfold filter_next, filter_round. simpl.
  destruct (next c) as [c1 e1]. destruct (ec_set e1) eqn:He.
  - destruct (remaining c1); simpl; [reflexivity|].
    rewrite He. rewrite !andb_false_r. reflexivity.
  - apply ec_set_false in He. subst e1. rewrite skip_loop_until.
    destruct (advance_until done (accepts p) next (remaining c1) c1 ec_clear).
    reflexivity.
Qed.

Lemma filter_next_ec_first : forall c p ec,
  filter_next_ec (mk_filter_view c p) ec
  = let r := next_ec c ec in
    let r2 := advance_until done (accepts p) next_clear (remaining (fst r)) (fst r) (snd r) in
    (mk_filter_view (fst r2) p, snd r2).
Proof.
  intros c p ec. unfold filter_next_ec. simpl.
  destruct (next_ec c ec) as [c1 e1]. simpl. rewrite skip_loop_ec_until.
  destruct (advance_until done (accepts p) next_clear (remaining c1) c1 e1). reflexivity.
Qed.

Lemma filter_next_ec_round : forall c p,
  filter_next_ec (mk_filter_view c p) ec_clear
  = (mk_filter_view (fst (filter_round done (accepts p) next_clear remaining c)) p,
     snd (filter_round done (accepts p) next_clear remaining c)).
Proof.
  intros c p. rewrite filter_next_ec_first. unfold filter_round.
  change (next_clear c) with (next_ec c ec_clear).
  destruct (next_ec c ec_clear) as [c1 e1]. reflexivity.
Qed.

End Loops.

(** *** Two filters in a row and the single filter *)

Section Composition.
Context {C : Type} `{HC : basic_staj2_cursor C} `{HB : bounded_cursor C}.
Hypothesis law : cursor_law C.
Variables p q : predicate.

Local Abbreviation wrap c := (mk_filter_view c p).


Lemma next_clear_lowers : forall c : C,
  done c = false -> (remaining (fst (next_clear c)) < remaining c)%nat.
Proof. intros c Hd. apply (law c Hd). Qed.

Lemma accepts_both : forall c : C,
  accepts (both p q) c = accepts p c && accepts q c.
Proof. reflexivity. Qed.


Lemma outer_loop_ec : forall n c ec,
  advance_until done (accepts q) next_clear n (wrap c) ec
  = (wrap (fst (advance_until done (accepts q)
                  (filter_round done (accepts p) next_clear remaining) n c ec)),
     snd (advance_until done (accepts q)
            (filter_round done (accepts p) next_clear remaining) n c ec)).
Proof.
  intros n c ec.
  apply (advance_until_wrapped C (basic_staj2_filter_view C) (fun c0 => wrap c0)
           done (accepts q) (filter_round done (accepts p) next_clear remaining)
           done (accepts q) next_clear).
  - reflexivity.
  - reflexivity.
  - intros c0. apply filter_next_ec_round.
Qed.



Lemma round_composed_ec : forall c : C,
  filter_round done (accepts q) next_clear remaining (wrap c)
  = (wrap (fst (filter_round done (accepts (both p q)) next_clear remaining c)),
     snd (filter_round done (accepts (both p q)) next_clear remaining c)).
Proof.
  intros c. unfold filter_round.
  change (@next_clear (basic_staj2_filter_view C) _ (wrap c))
    with (filter_next_ec (wrap c) ec_clear).
  rewrite filter_next_ec_round. unfold filter_round.
  destruct (next_clear c) as [c1 e1].
  pose proof (composed_round done next_clear remaining next_clear_lowers
                (accepts p) (accepts q) c1 e1) as Hr.
  cbv zeta in Hr.
  change (fun c0 : C => accepts p c0 && accepts q c0) with (accepts (both p q)) in Hr.
  destruct (advance_until done (accepts p) next_clear (remaining c1) c1 e1) as [c2 e2].
  cbn [fst snd] in *.
  change (@remaining (basic_staj2_filter_view C) _ (mk_filter_view c2 p))
    with (remaining c2).
  rewrite outer_loop_ec. rewrite Hr. reflexivity.
Qed.



End Composition.


Lemma list_cursor_law : cursor_law list_cursor.
Proof.
  intros [|x c] Hd; [discriminate Hd|]. simpl. split; lia.
Qed.


End FilterFacts.

(** ** json_decoder *)

Module JsonDecoderFacts.
Import JsonDecoder.

Section Validity.
Context {Json : Type} `{HJ : json_value Json}.

Lemma put_value_valid : forall (d d' : json_decoder Json) v,
  put_value d v = Ok d' -> is_valid d' = is_valid d.
Proof.
  intros d d' v Hp. unfold put_value in Hp.
  destruct (back (stack_offsets_ d)) as [top|f]; simpl in Hp; [|discriminate].
  destruct (type_ top).
  - inversion Hp. reflexivity.
  - inversion Hp. reflexivity.
  - destruct (set_back_value (stack_ d) v); simpl in Hp; [|discriminate].
    inversion Hp. reflexivity.
Qed.

Lemma push_structure_valid : forall (d d' : json_decoder Json) v t,
  push_structure d v t = Ok d' -> is_valid d' = is_valid d.
Proof.
  intros d d' v t Hp. unfold push_structure in Hp.
  destruct (put_value d v) as [d1|f] eqn:E; simpl in Hp; [|discriminate].
  inversion Hp. simpl. apply (put_value_valid _ _ _ E).
Qed.

Lemma pop_structure_valid : forall (d d' : json_decoder Json),
  pop_structure d = Ok d' -> is_valid d' = is_valid d.
Proof.
  intros d d' Hp. unfold pop_structure in Hp.
  destruct (back (stack_offsets_ d)) as [top|f]; simpl in Hp; [|discriminate].
  destruct ((0 <=? offset_ top + 1) && (offset_ top + 1 <=? Zlen (stack_ d)));
    [|discriminate].
  inversion Hp. reflexivity.
Qed.

Lemma end_structure_valid : forall (d d' : json_decoder Json),
  end_structure d = Ok d' -> is_valid d' = is_valid d.
Proof.
  intros d d' Hp. unfold end_structure in Hp.
  destruct (negb (Zlen (stack_offsets_ d) >? 0)); [discriminate|].
  destruct (back (stack_offsets_ d)) as [top|f]; simpl in Hp; [|discriminate].
  destruct (negb (Zlen (stack_ d) >? offset_ top)); [discriminate|].
  destruct (skipn (Z.to_nat (offset_ top)) (stack_ d)); [discriminate|].
  inversion Hp. reflexivity.
Qed.

Lemma end_then_pop_valid : forall (d d' : json_decoder Json),
  (d1 <- end_structure d ;; pop_structure d1) = Ok d' -> is_valid d' = is_valid d.
Proof.
  intros d d' Hp.
  destruct (end_structure d) as [d1|f] eqn:E; simpl in Hp; [|discriminate].
  rewrite (pop_structure_valid _ _ Hp). apply (end_structure_valid _ _ E).
Qed.

(** What one call does to is_valid(). *)
Lemma step_valid : forall (d d' : json_decoder Json) c,
  step d c = Ok d' ->
  is_valid d' =
  match c with
  | end_document =>
      match stack_ d with
      | [_] => true
      | _ => is_valid d
      end
  | begin_document | retrieve => false
  | _ => is_valid d
  end.
Proof.
  intros d d' c Hs. destruct c; simpl in Hs;
    try (inversion Hs; reflexivity);
    try (apply (put_value_valid _ _ _ Hs));
    try (apply (push_structure_valid _ _ _ _ Hs));
    try (apply (end_then_pop_valid _ _ Hs)).
  inversion Hs. unfold do_end_document.
  destruct (stack_ d) as [|x [|y l]]; reflexivity.
Qed.

(** is_valid() after a run from any decoder [d0]: it was valid and nothing
    cleared it, or some end_document found a single item and nothing cleared
    it since. *)
Lemma run_valid : forall calls (d0 d : json_decoder Json),
  run d0 calls = Ok d ->
  (is_valid d = true <->
   (is_valid d0 = true /\ unstopped clears_valid calls = true) \/
   (exists pre post dm,
       calls = pre ++ end_document :: post /\
       run d0 pre = Ok dm /\
       List.length (stack_ dm) = 1%nat /\
       unstopped clears_valid post = true)).
Proof.
  induction calls as [|c cs IH]; intros d0 d Hrun.
  - simpl in Hrun. inversion Hrun; subst d. split.
    + intros Hv. left. split; [exact Hv|reflexivity].
    + intros [[Hv _]|(pre & post & dm & Hsplit & _)]; [exact Hv|].
      destruct pre; discriminate Hsplit.
  - simpl in Hrun. destruct (step d0 c) as [d1|f] eqn:Hstep; simpl in Hrun;
      [|discriminate].
    specialize (IH d1 d Hrun). pose proof (step_valid d0 d1 c Hstep) as Hsv.
    rewrite IH. clear IH. split.
    + intros [[Hv1 Hcs]|(pre & post & dm & Hsplit & Hpre & Hlen & Hpost)].
      * rewrite Hv1 in Hsv.
        destruct (clears_valid c) eqn:Hc.
        { destruct c; simpl in Hc; try discriminate Hc; discriminate Hsv. }
        destruct c; simpl in Hc; try discriminate Hc;
          try (left; split; [symmetry; exact Hsv|simpl; exact Hcs]).
        destruct (stack_ d0) as [|x [|y l]] eqn:Hst.
        -- left. split; [symmetry; exact Hsv|simpl; exact Hcs].
        -- right. exists [], cs, d0. repeat split; [rewrite Hst; reflexivity|exact Hcs].
        -- left. split; [symmetry; exact Hsv|simpl; exact Hcs].
      * right. exists (c :: pre), post, dm. subst cs. repeat split.
        -- simpl. rewrite Hstep. simpl. exact Hpre.
        -- exact Hlen.
        -- exact Hpost.
    + intros [[Hv0 Hcs]|(pre & post & dm & Hsplit & Hpre & Hlen & Hpost)].
      * simpl in Hcs. apply andb_true_iff in Hcs. destruct Hcs as [Hc Hcs].
        apply negb_true_iff in Hc. left. split; [|exact Hcs].
        rewrite Hsv. destruct c; simpl in Hc; try discriminate Hc; try exact Hv0.
        destruct (stack_ d0) as [|x [|y l]]; [exact Hv0|reflexivity|exact Hv0].
      * destruct pre as [|c' pre].
        -- simpl in Hsplit. inversion Hsplit; subst c post.
           simpl in Hpre. inversion Hpre; subst dm.
           left. split; [|exact Hpost]. rewrite Hsv.
           destruct (stack_ d0) as [|x [|y l]]; [discriminate Hlen|reflexivity|discriminate Hlen].
        -- simpl in Hsplit. inversion Hsplit; subst c' cs.
           simpl in Hpre. rewrite Hstep in Hpre. simpl in Hpre.
           right. exists pre, post, dm. repeat split; assumption.
Qed.

Lemma put_value_result : forall (d d' : json_decoder Json) v,
  put_value d v = Ok d' -> result_ d' = result_ d.
Proof.
  intros d d' v Hp. unfold put_value in Hp.
  destruct (back (stack_offsets_ d)) as [top|f]; simpl in Hp; [|discriminate].
  destruct (type_ top); try (inversion Hp; reflexivity).
  destruct (set_back_value (stack_ d) v); simpl in Hp; [|discriminate].
  inversion Hp. reflexivity.
Qed.

Lemma push_structure_result : forall (d d' : json_decoder Json) v t,
  push_structure d v t = Ok d' -> result_ d' = result_ d.
Proof.
  intros d d' v t Hp. unfold push_structure in Hp.
  destruct (put_value d v) as [d1|f] eqn:E; simpl in Hp; [|discriminate].
  inversion Hp. simpl. apply (put_value_result _ _ _ E).
Qed.

Lemma end_then_pop_result : forall (d d' : json_decoder Json),
  (d1 <- end_structure d ;; pop_structure d1) = Ok d' -> result_ d' = result_ d.
Proof.
  intros d d' Hp.
  destruct (end_structure d) as [d1|f] eqn:E; simpl in Hp; [|discriminate].
  assert (H1 : result_ d1 = result_ d).
  { unfold end_structure in E.
    destruct (negb (Zlen (stack_offsets_ d) >? 0)); [discriminate|].
    destruct (back (stack_offsets_ d)) as [top|f]; simpl in E; [|discriminate].
    destruct (negb (Zlen (stack_ d) >? offset_ top)); [discriminate|].
    destruct (skipn (Z.to_nat (offset_ top)) (stack_ d)); [discriminate|].
    inversion E. reflexivity. }
  rewrite <- H1. unfold pop_structure in Hp.
  destruct (back (stack_offsets_ d1)) as [top|f]; simpl in Hp; [|discriminate].
  destruct ((0 <=? offset_ top + 1) && (offset_ top + 1 <=? Zlen (stack_ d1)));
    [|discriminate].
  inversion Hp. reflexivity.
Qed.

(** What one call does to the result: only do_end_document on a stack of one
    item and get_result() change it. *)
Lemma step_result : forall (d d' : json_decoder Json) c,
  step d c = Ok d' ->
  result_ d' =
  match c with
  | end_document =>
      match stack_ d with
      | [root] => value_ root
      | _ => result_ d
      end
  | retrieve => json_moved
  | _ => result_ d
  end.
Proof.
  intros d d' c Hs. destruct c; simpl in Hs;
    try (inversion Hs; reflexivity);
    try (apply (put_value_result _ _ _ Hs));
    try (apply (push_structure_result _ _ _ _ Hs));
    try (apply (end_then_pop_result _ _ Hs)).
  inversion Hs. unfold do_end_document.
  destruct (stack_ d) as [|x [|y l]]; reflexivity.
Qed.

Lemma run_concat : forall (l1 l2 : list (call Json)) (d0 : json_decoder Json),
  run d0 (l1 ++ l2) = (d1 <- run d0 l1 ;; run d1 l2).
Proof.
  induction l1 as [|c l1 IH]; intros l2 d0.
  - reflexivity.
  - cbn [app run]. destruct (step d0 c) as [d1|f]; cbn [bind]; [apply IH|reflexivity].
Qed.

Lemma snoc_split : forall (A : Type) (l p1 p2 : list A) (c e : A),
  l ++ [c] = p1 ++ e :: p2 ->
  (p2 = [] /\ l = p1 /\ c = e) \/
  (exists p2', p2 = p2' ++ [c] /\ l = p1 ++ e :: p2').
Proof.
  intros A l p1 p2 c e. induction p2 as [|x p2 _] using rev_ind; intros Heq.
  - apply app_inj_tail in Heq. destruct Heq as [Hl Hc]. left. repeat split; assumption.
  - right. exists p2.
    change (p1 ++ e :: p2 ++ [x]) with (p1 ++ (e :: p2) ++ [x]) in Heq.
    rewrite app_assoc in Heq. apply app_inj_tail in Heq. destruct Heq as [Hl Hc].
    subst x. split; [reflexivity|exact Hl].
Qed.

(* a call that is no do_end_document comes after the last one to find a root *)
Lemma last_to_find_snoc : forall (pre post : list (call Json)) c,
  c <> end_document -> last_to_find pre post -> last_to_find pre (post ++ [c]).
Proof.
  intros pre post c Hc Hlast p1 p2 root Heq.
  destruct (snoc_split _ post p1 p2 c end_document Heq) as [(_ & _ & E)|(p2' & _ & E)].
  - contradiction.
  - apply (Hlast p1 p2' root E).
Qed.

(** The result held while is_valid() is true after a run of a new decoder:
    the item that the last do_end_document to find a single item took from
    the stack; nothing has cleared the flag since. *)
Lemma run_last_root : forall calls (d : json_decoder Json),
  run json_decoder_new calls = Ok d ->
  is_valid d = true ->
  exists pre post root,
    calls = pre ++ end_document :: post /\
    finds_root pre root /\ last_to_find pre post /\
    unstopped clears_valid post = true /\
    result_ d = value_ root.
Proof.
  induction calls as [|c cs IH] using rev_ind; intros d Hrun Hv.
  - inversion Hrun; subst d. discriminate Hv.
  - rewrite run_concat in Hrun.
    destruct (run json_decoder_new cs) as [d1|f] eqn:Hcs; cbn [bind] in Hrun;
      [|discriminate].
    cbn [run] in Hrun.
    destruct (step d1 c) as [d2|f] eqn:Hstep; cbn [bind] in Hrun; [|discriminate].
    inversion Hrun; subst d2. clear Hrun.
    pose proof (step_valid d1 d c Hstep) as Hsv.
    pose proof (step_result d1 d c Hstep) as Hsr.
    assert (Hkeep : c <> end_document -> clears_valid c = false ->
                    is_valid d = is_valid d1 -> result_ d = result_ d1 ->
                    exists pre post root,
                      cs ++ [c] = pre ++ end_document :: post /\
                      finds_root pre root /\ last_to_find pre post /\
                      unstopped clears_valid post = true /\
                      result_ d = value_ root).
    { intros Hc Hclr Hv1 Hr1.
      destruct (IH d1 eq_refl ltac:(congruence))
        as (pre & post & root & Hsplit & Hroot & Hlast & Hpost & Hres).
      exists pre, (post ++ [c]), root. split; [|split; [|split; [|split]]].
      - rewrite Hsplit, <- app_assoc. reflexivity.
      - exact Hroot.
      - apply last_to_find_snoc; assumption.
      - unfold unstopped in *. rewrite forallb_app, Hpost. cbn [forallb].
        rewrite Hclr. reflexivity.
      - congruence. }
    destruct c;
      try (apply Hkeep; [discriminate|reflexivity|exact Hsv|exact Hsr]);
      try (rewrite Hv in Hsv; discriminate Hsv).
    (* do_end_document *)
    destruct (stack_ d1) as [|root [|y l]] eqn:Hst.
    + destruct (IH d1 eq_refl ltac:(congruence))
        as (pre & post & root & Hsplit & Hroot & Hlast & Hpost & Hres).
      exists pre, (post ++ [end_document]), root. split; [|split; [|split; [|split]]].
      * rewrite Hsplit, <- app_assoc. reflexivity.
      * exact Hroot.
      * intros p1 p2 root' Heq [dm [Hdm Hone]].
        destruct (snoc_split _ post p1 p2 _ _ Heq) as [(_ & E & _)|(p2' & _ & E)].
        -- subst p1. rewrite <- Hsplit, Hcs in Hdm. inversion Hdm; subst dm.
           rewrite Hst in Hone. discriminate Hone.
        -- apply (Hlast p1 p2' root' E). exists dm. split; assumption.
      * unfold unstopped in *. rewrite forallb_app, Hpost. reflexivity.
      * congruence.
    + exists cs, [], root. split; [reflexivity|]. split; [exists d1; split; assumption|].
      split; [|split; [reflexivity|exact Hsr]].
      intros p1 p2 root' Heq. destruct p1; discriminate Heq.
    + destruct (IH d1 eq_refl ltac:(congruence))
        as (pre & post & root' & Hsplit & Hroot & Hlast & Hpost & Hres).
      exists pre, (post ++ [end_document]), root'. split; [|split; [|split; [|split]]].
      * rewrite Hsplit, <- app_assoc. reflexivity.
      * exact Hroot.
      * intros p1 p2 root'' Heq [dm [Hdm Hone]].
        destruct (snoc_split _ post p1 p2 _ _ Heq) as [(_ & E & _)|(p2' & _ & E)].
        -- subst p1. rewrite <- Hsplit, Hcs in Hdm. inversion Hdm; subst dm.
           rewrite Hst in Hone. discriminate Hone.
        -- apply (Hlast p1 p2' root'' E). exists dm. split; assumption.
      * unfold unstopped in *. rewrite forallb_app, Hpost. reflexivity.
      * congruence.
Qed.

(** C10, amended. is_valid() is true exactly when some do_end_document found
    exactly one item on the stack, completed or not, and neither get_result()
    nor do_begin_document() was called since; get_result() then returns the
    value of the item that the last such do_end_document found, and clears
    is_valid(). *)
Theorem is_valid_iff_ended_and_not_cleared :
  forall (calls : list (call Json)) (d : json_decoder Json),
  run json_decoder_new calls = Ok d ->
  (is_valid d = true <-> ended_since clears_valid calls) /\
  (is_valid d = true ->
   exists pre post root,
     calls = pre ++ end_document :: post /\
     finds_root pre root /\ last_to_find pre post /\
     unstopped clears_valid post = true /\
     fst (get_result d) = value_ root) /\
  is_valid (snd (get_result d)) = false.
Proof.
  intros calls d Hrun. split; [|split].
  - rewrite (run_valid calls json_decoder_new d Hrun). unfold ended_since. split.
    + intros [[Hv _]|Hex]; [discriminate Hv|exact Hex].
    + intros Hex. right. exact Hex.
  - intros Hv. exact (run_last_root calls d Hrun Hv).
  - reflexivity.
Qed.

End Validity.

Lemma is_valid_iff_ended_and_not_cleared_witness :
  let calls : list (call tree) :=
    [begin_document; int64_value 7; end_document;
     begin_document; begin_array; int64_value 1; string_value "a"; end_array;
     end_document] in
  exists d,
    run json_decoder_new calls = Ok d /\
    fst (get_result d) = tree_array [tree_int64 1; tree_string "a"] /\
    ((is_valid d = true <-> ended_since clears_valid calls) /\
     (is_valid d = true ->
      exists pre post root,
        calls = pre ++ end_document :: post /\
        finds_root pre root /\ last_to_find pre post /\
        unstopped clears_valid post = true /\
        fst (get_result d) = value_ root) /\
     is_valid (snd (get_result d)) = false).
Proof.
  intros calls. eexists. split; [|split].
  - reflexivity.
  - reflexivity.
  - apply (is_valid_iff_ended_and_not_cleared calls). reflexivity.
Defined.

(** C10 as stated fails twice.  After
      begin_document, int64 1, end_document, begin_document
    a document has ended with a single completed root value on the stack and
    no get_result() has followed, yet is_valid() is false: do_begin_document
    clears the flag.  After
      begin_document, begin_array, end_document
    no document has ended with a completed root value, the array is still
    open, yet is_valid() is true and get_result() returns the empty array:
    do_end_document only counts the items on the stack. *)
Lemma is_valid_differs_from_the_claim :
  (let calls : list (call tree) :=
     [begin_document; int64_value 1; end_document; begin_document] in
   ~ (forall d, run json_decoder_new calls = Ok d ->
                (is_valid d = true <-> completed_since is_retrieval calls))) /\
  (let calls : list (call tree) := [begin_document; begin_array; end_document] in
   (exists d, run json_decoder_new calls = Ok d /\ is_valid d = true /\
              fst (get_result d) = tree_array []) /\
   ~ (forall d, run json_decoder_new calls = Ok d ->
                (is_valid d = true <-> completed_since is_retrieval calls))).
Proof.
  split.
  - intros calls Hclaim.
    specialize (Hclaim (mk_decoder (tree_int64 1) [] [mk_offset 0 root_t] false)
                       eq_refl).
    destruct Hclaim as [_ Hback].
    assert (Hv : is_valid (mk_decoder (tree_int64 1) [] [mk_offset 0 root_t] false)
                 = true).
    { apply Hback.
      exists [begin_document; int64_value 1], [begin_document],
             (mk_decoder (tree_object []) [item_of_value (tree_int64 1)]
                         [mk_offset 0 root_t] false).
      split; [reflexivity|]. split; [reflexivity|]. split; [|reflexivity].
      exists (tree_int64 1). split; reflexivity. }
    discriminate Hv.
  - intros calls. split.
    + eexists. split; [reflexivity|]. split; reflexivity.
    + intros Hclaim.
      specialize (Hclaim _ eq_refl). destruct Hclaim as [Hfwd _].
      destruct (Hfwd eq_refl) as (pre & post & d & Hsplit & Hpre & (value & _ & Hoff) & _).
      unfold calls in Hsplit.
      destruct pre as [|c1 [|c2 [|c3 pre]]]; try discriminate Hsplit.
      * inversion Hsplit; subst. cbn in Hpre. inversion Hpre; subst d.
        discriminate Hoff.
      * inversion Hsplit. destruct pre; discriminate.
Qed.

End JsonDecoderFacts.

(** * Further properties *)

Module BignumMore.
Import Bignum.

Section Blocks.

Lemma rd_in : forall d i, 0 <= i < Zlen d -> rd d i = Ok (nth (Z.to_nat i) d 0).
Proof.
  intros d i Hi. unfold rd, in_block.
  replace (0 <=? i) with true by (symmetry; apply Z.leb_le; lia).
  replace (i <? Zlen d) with true by (symmetry; apply Z.ltb_lt; lia).
  reflexivity.
Qed.

Lemma wr_in : forall d i v, 0 <= i < Zlen d -> wr d i v = Ok (upd d (Z.to_nat i) v).
Proof.
  intros d i v Hi. unfold wr, in_block.
  replace (0 <=? i) with true by (symmetry; apply Z.leb_le; lia).
  replace (i <? Zlen d) with true by (symmetry; apply Z.ltb_lt; lia).
  reflexivity.
Qed.

Lemma upd_length : forall (A : Type) (d : list A) n v, List.length (upd d n v) = List.length d.
Proof.
  intros A d. induction d as [|x d IH]; intros n v; [reflexivity|].
  destruct n; simpl; [reflexivity|]. rewrite IH. reflexivity.
Qed.

Lemma Zlen_upd : forall (A : Type) (d : list A) n v, Zlen (upd d n v) = Zlen d.
Proof. intros. unfold Zlen. rewrite upd_length. reflexivity. Qed.

Lemma nth_upd : forall (A : Type) (d : list A) n m v a,
  nth m (upd d n v) a = if Nat.eqb m n then (if Nat.ltb n (List.length d) then v else a)
                        else nth m d a.
Proof.
  intros A d. induction d as [|x d IH]; intros n m v a.
  - simpl. destruct (Nat.eqb m n); destruct m; reflexivity.
  - destruct n, m; simpl; try reflexivity.
    rewrite IH. destruct (Nat.eqb m n); [|reflexivity].
    reflexivity.
Qed.

Lemma firstn_upd_above : forall (A : Type) (d : list A) n k v,
  (k <= n)%nat -> firstn k (upd d n v) = firstn k d.
Proof.
  intros A d. induction d as [|x d IH]; intros n k v Hk; [reflexivity|].
  destruct n.
  - assert (k = 0)%nat by lia. subst. reflexivity.
  - destruct k; [reflexivity|]. simpl. rewrite IH by lia. reflexivity.
Qed.

Lemma skipn_upd_below : forall (A : Type) (d : list A) n k v,
  (n < k)%nat -> skipn k (upd d n v) = skipn k d.
Proof.
  intros A d. induction d as [|x d IH]; intros n k v Hk; [reflexivity|].
  destruct k; [lia|]. destruct n; simpl; [reflexivity|]. apply IH. lia.
Qed.

Lemma upd_split : forall (A : Type) (d : list A) n v,
  (n < List.length d)%nat -> upd d n v = firstn n d ++ v :: skipn (S n) d.
Proof.
  intros A d. induction d as [|x d IH]; intros n v Hn; [simpl in Hn; lia|].
  destruct n; [reflexivity|]. simpl. rewrite IH by (simpl in Hn; lia). reflexivity.
Qed.

End Blocks.

(** digits_value *)

Lemma dv_app : forall l1 l2,
  digits_value (l1 ++ l2) = digits_value l1 + 2 ^ (32 * Zlen l1) * digits_value l2.
Proof.
  induction l1 as [|x l1 IH]; intros l2.
  - cbn [app digits_value]. unfold Zlen. cbn [List.length Z.of_nat].
    rewrite Z.mul_0_r. change (2 ^ 0) with 1. lia.
  - cbn [app digits_value]. rewrite IH.
    replace (Zlen (x :: l1)) with (Zlen l1 + 1)
      by (unfold Zlen; cbn [List.length]; rewrite Nat2Z.inj_succ; lia).
    replace (32 * (Zlen l1 + 1)) with (32 + 32 * Zlen l1) by lia.
    rewrite Z.pow_add_r by (unfold Zlen; lia). ring.
Qed.

Lemma firstn_succ_nth : forall (A : Type) (d : list A) k a,
  (k < List.length d)%nat -> firstn (S k) d = firstn k d ++ [nth k d a].
Proof.
  intros A d. induction d as [|x d IH]; intros k a Hk; [simpl in Hk; lia|].
  destruct k; [reflexivity|]. simpl. f_equal. apply IH. simpl in Hk. lia.
Qed.

Lemma dv_firstn_succ : forall d k,
  digits_value (firstn (S k) d)
  = digits_value (firstn k d) + 2 ^ (32 * Z.of_nat k) * nth k d 0.
Proof.
  intros d k. destruct (Nat.lt_ge_cases k (List.length d)) as [Hlt|Hge].
  - rewrite (firstn_succ_nth Z d k 0 Hlt). rewrite dv_app.
    unfold Zlen. rewrite length_firstn. rewrite Nat.min_l by lia.
    simpl digits_value. lia.
  - rewrite !firstn_all2 by lia. rewrite nth_overflow by lia. lia.
Qed.

Lemma dv_firstn_zero : forall d k m,
  (k <= m)%nat -> (forall i, (k <= i < m)%nat -> nth i d 0 = 0) ->
  digits_value (firstn m d) = digits_value (firstn k d).
Proof.
  intros d k m Hkm. induction m as [|m IH]; intros Hz.
  - assert (k = 0)%nat by lia. subst. reflexivity.
  - destruct (Nat.eq_dec k (S m)) as [->|Hne]; [reflexivity|].
    rewrite dv_firstn_succ. rewrite Hz by lia. rewrite IH; [lia|lia|].
    intros i Hi. apply Hz. lia.
Qed.

(** reduce *)

Lemma reduce_loop_total : forall n d len,
  Z.of_nat n = len -> len <= Zlen d ->
  exists len', reduce_loop n d len = Ok len' /\ 0 <= len' <= len /\
    (forall i, len' <= i < len -> nth (Z.to_nat i) d 0 = 0) /\
    (len' = 0 \/ nth (Z.to_nat (len' - 1)) d 0 <> 0).
Proof.
  induction n as [|n IH]; intros d len Hn Hlen.
  - exists 0. simpl. subst len. repeat split; lia.
  - cbn [reduce_loop]. rewrite rd_in by lia. cbn [bind].
    destruct (nth (Z.to_nat (len - 1)) d 0 =? 0) eqn:E.
    + destruct (IH d (len - 1)) as (len' & Hr & Hb & Hz & Htop); [lia|lia|].
      exists len'. split; [exact Hr|]. split; [lia|]. split; [|exact Htop].
      intros i Hi. destruct (Z.eq_dec i (len - 1)) as [->|Hne].
      * apply Z.eqb_eq. exact E.
      * apply Hz. lia.
    + exists len. split; [reflexivity|]. split; [lia|]. split; [intros i Hi; lia|].
      right. apply Z.eqb_neq. exact E.
Qed.

Lemma reduce_total : forall b,
  0 <= length_ b <= capacity b ->
  exists b', reduce b = Ok b' /\ canonical b' = true /\ value b' = value b /\
             data_ b' = data_ b /\ length_ b' <= length_ b.
Proof.
  intros b Hlen. unfold reduce.
  destruct (reduce_loop_total (Z.to_nat (length_ b)) (data_ b) (length_ b))
    as (len' & Hr & Hb & Hz & Htop); [lia|unfold capacity in Hlen; lia|].
  rewrite Hr. cbn [bind]. eexists. split; [reflexivity|].
  assert (Hmag : digits_value (firstn (Z.to_nat len') (data_ b))
                 = digits_value (firstn (Z.to_nat (length_ b)) (data_ b))).
  { symmetry. apply dv_firstn_zero; [lia|].
    intros i Hi. rewrite <- (Nat2Z.id i). apply Hz. lia. }
  split; [|split; [|split; [reflexivity|exact (proj2 Hb)]]].
  - unfold canonical, zero_is_unsigned, top_digit_nonzero. cbn [length_ neg_ data_].
    destruct Htop as [->|Htop]; [reflexivity|].
    destruct (len' =? 0) eqn:E0; [apply Z.eqb_eq in E0; subst; reflexivity|].
    apply Z.eqb_neq in E0.
    replace (len' >? 0) with true by (symmetry; apply Z.gtb_lt; lia).
    simpl. apply negb_true_iff. apply Z.eqb_neq. exact Htop.
  - unfold value, magnitude. cbn [length_ neg_ data_]. rewrite Hmag.
    destruct (len' =? 0) eqn:E0; [|reflexivity].
    apply Z.eqb_eq in E0. subst len'. simpl in Hmag. rewrite <- Hmag.
    destruct (neg_ b); reflexivity.
Qed.

End BignumMore.

Module BignumArith.
Import Bignum.
Import BignumMore.

Lemma u32_small : forall x, 0 <= x < 2 ^ 32 -> u32 x = x.
Proof. intros x Hx. unfold u32. apply Z.mod_small. exact Hx. Qed.

Lemma u32_range : forall x, 0 <= u32 x < 2 ^ 32.
Proof. intros x. unfold u32. apply Z.mod_pos_bound. lia. Qed.

(* the carry test of the source: after s = x + y (mod 2^32), s < x tells the wrap *)
Lemma add_carry : forall x y,
  0 <= x < 2 ^ 32 -> 0 <= y < 2 ^ 32 ->
  x + y = u32 (x + y) + 2 ^ 32 * b2z (u32 (x + y) <? x).
Proof.
  intros x y Hx Hy. unfold u32.
  destruct (Z_lt_ge_dec (x + y) (2 ^ 32)) as [Hlt|Hge].
  - rewrite Z.mod_small by lia.
    replace (x + y <? x) with false by (symmetry; apply Z.ltb_ge; lia).
    simpl. lia.
  - assert (Hm : (x + y) mod 2 ^ 32 = x + y - 2 ^ 32).
    { symmetry. apply Z.mod_unique with (q := 1); lia. }
    rewrite Hm.
    replace (x + y - 2 ^ 32 <? x) with true by (symmetry; apply Z.ltb_lt; lia).
    simpl. lia.
Qed.

Lemma half_split : forall A,
  0 <= A < 2 ^ 32 ->
  A = Z.shiftr A basic_type_halfBits * 2 ^ 16 + Z.land A r_mask /\
  0 <= Z.shiftr A basic_type_halfBits < 2 ^ 16 /\
  0 <= Z.land A r_mask < 2 ^ 16.
Proof.
  intros A HA. change basic_type_halfBits with 16. change r_mask with (Z.ones 16).
  rewrite Z.shiftr_div_pow2 by lia. rewrite Z.land_ones by lia.
  pose proof (Z.div_mod A (2 ^ 16)). pose proof (Z.mod_pos_bound A (2 ^ 16)).
  assert (0 <= A / 2 ^ 16 < 2 ^ 16).
  { split; [apply Z.div_pos; lia|]. apply Z.div_lt_upper_bound; lia. }
  lia.
Qed.

Lemma shl_half : forall m,
  0 <= m < 2 ^ 32 ->
  m * 2 ^ 16 = Z.shiftr m basic_type_halfBits * 2 ^ 32
               + u32 (Z.shiftl m basic_type_halfBits) /\
  0 <= Z.shiftr m basic_type_halfBits < 2 ^ 16.
Proof.
  intros m Hm. change basic_type_halfBits with 16.
  rewrite Z.shiftr_div_pow2 by lia. rewrite Z.shiftl_mul_pow2 by lia. unfold u32.
  assert (0 <= m / 2 ^ 16 < 2 ^ 16).
  { split; [apply Z.div_pos; lia|]. apply Z.div_lt_upper_bound; lia. }
  split; [|assumption].
  assert (Hm2 : (m * 2 ^ 16) mod 2 ^ 32 = (m mod 2 ^ 16) * 2 ^ 16).
  { change (2 ^ 32) with (2 ^ 16 * 2 ^ 16).
    rewrite Z.mul_mod_distr_r by lia. reflexivity. }
  rewrite Hm2. pose proof (Z.div_mod m (2 ^ 16)). lia.
Qed.

(** DDproduct multiplies two digits into a double digit. *)
Lemma DDproduct_value : forall A B,
  0 <= A < 2 ^ 32 -> 0 <= B < 2 ^ 32 ->
  fst (DDproduct A B) * 2 ^ 32 + snd (DDproduct A B) = A * B /\
  0 <= fst (DDproduct A B) < 2 ^ 32 /\ 0 <= snd (DDproduct A B) < 2 ^ 32.
Proof.
  intros A B HA HB. unfold DDproduct.
  destruct (half_split A HA) as (EA & HhA & HlA).
  destruct (half_split B HB) as (EB & HhB & HlB).
  set (hiA := Z.shiftr A basic_type_halfBits) in *.
  set (loA := Z.land A r_mask) in *.
  set (hiB := Z.shiftr B basic_type_halfBits) in *.
  set (loB := Z.land B r_mask) in *.
  assert (Hll : 0 <= loA * loB < 2 ^ 32) by nia.
  assert (Hhh : 0 <= hiA * hiB < 2 ^ 32) by nia.
  assert (Hlh : 0 <= loA * hiB < 2 ^ 32) by nia.
  assert (Hhl : 0 <= hiA * loB < 2 ^ 32) by nia.
  rewrite (u32_small (loA * loB)) by exact Hll.
  rewrite (u32_small (hiA * hiB)) by exact Hhh.
  rewrite (u32_small (loA * hiB)) by exact Hlh.
  rewrite (u32_small (hiA * loB)) by exact Hhl.
  destruct (shl_half (loA * hiB) Hlh) as (E1 & Hm1).
  destruct (shl_half (hiA * loB) Hhl) as (E2 & Hm2).
  set (m1h := Z.shiftr (loA * hiB) basic_type_halfBits) in *.
  set (m2h := Z.shiftr (hiA * loB) basic_type_halfBits) in *.
  set (s1 := u32 (Z.shiftl (loA * hiB) basic_type_halfBits)) in *.
  set (s2 := u32 (Z.shiftl (hiA * loB) basic_type_halfBits)) in *.
  assert (Hs1 : 0 <= s1 < 2 ^ 32) by apply u32_range.
  assert (Hs2 : 0 <= s2 < 2 ^ 32) by apply u32_range.
  pose proof (add_carry (loA * loB) s1 Hll Hs1) as C1.
  set (Lo1 := u32 (loA * loB + s1)) in *.
  assert (HLo1 : 0 <= Lo1 < 2 ^ 32) by apply u32_range.
  pose proof (add_carry Lo1 s2 HLo1 Hs2) as C2.
  set (Lo2 := u32 (Lo1 + s2)) in *.
  assert (HLo2 : 0 <= Lo2 < 2 ^ 32) by apply u32_range.
  set (c1 := b2z (Lo1 <? loA * loB)) in *.
  set (c2 := b2z (Lo2 <? Lo1)) in *.
  assert (Hc1 : 0 <= c1 <= 1) by (unfold c1, b2z; destruct (Lo1 <? loA * loB); lia).
  assert (Hc2 : 0 <= c2 <= 1) by (unfold c2, b2z; destruct (Lo2 <? Lo1); lia).
  cbn [fst snd].
  assert (Hprod : A * B = (hiA * hiB + m1h + m2h + c1 + c2) * 2 ^ 32 + Lo2).
  { rewrite EA at 1. rewrite EB at 1.
    replace ((hiA * 2 ^ 16 + loA) * (hiB * 2 ^ 16 + loB))
      with (hiA * hiB * 2 ^ 32 + (loA * hiB) * 2 ^ 16 + (hiA * loB) * 2 ^ 16 + loA * loB)
      by (change (2 ^ 32) with (2 ^ 16 * 2 ^ 16); ring).
    lia. }
  assert (HAB : 0 <= A * B < 2 ^ 32 * 2 ^ 32) by nia.
  assert (Hsum : 0 <= hiA * hiB + m1h + m2h + c1 + c2 < 2 ^ 32) by lia.
  rewrite (u32_small (hiA * hiB + (c1 + m1h))) by lia.
  rewrite (u32_small (hiA * hiB + (c1 + m1h) + (c2 + m2h))) by lia.
  lia.
Qed.

End BignumArith.

Module BignumOrder.
Import Bignum.
Import BignumMore BignumArith.

Lemma is_digit_range : forall x, is_digit x = true <-> 0 <= x < 2 ^ 32.
Proof.
  intros x. unfold is_digit. rewrite andb_true_iff, Z.leb_le, Z.ltb_lt. reflexivity.
Qed.

Lemma digits_firstn_succ : forall d k,
  (k < List.length d)%nat ->
  forallb is_digit (firstn (S k) d) = true ->
  forallb is_digit (firstn k d) = true /\ 0 <= nth k d 0 < 2 ^ 32.
Proof.
  intros d k Hk Hd. rewrite (firstn_succ_nth Z d k 0 Hk) in Hd.
  rewrite forallb_app in Hd. apply andb_true_iff in Hd. destruct Hd as [H1 H2].
  split; [exact H1|]. simpl in H2. rewrite andb_true_r in H2.
  apply is_digit_range. exact H2.
Qed.

Lemma digits_firstn_le : forall d k m,
  (k <= m)%nat -> forallb is_digit (firstn m d) = true ->
  forallb is_digit (firstn k d) = true.
Proof.
  intros d k m Hkm Hd. rewrite forallb_forall in *. intros x Hx. apply Hd.
  rewrite <- (firstn_skipn k (firstn m d)). rewrite firstn_firstn.
  rewrite Nat.min_l by lia. apply in_or_app. left. exact Hx.
Qed.

Lemma dv_range : forall l,
  forallb is_digit l = true -> 0 <= digits_value l < 2 ^ (32 * Zlen l).
Proof.
  induction l as [|x l IH]; intros Hd.
  - simpl. unfold Zlen. simpl. lia.
  - cbn [forallb] in Hd. apply andb_true_iff in Hd. destruct Hd as [Hx Hl].
    apply is_digit_range in Hx. specialize (IH Hl). cbn [digits_value].
    replace (Zlen (x :: l)) with (Zlen l + 1)
      by (unfold Zlen; cbn [List.length]; rewrite Nat2Z.inj_succ; lia).
    replace (32 * (Zlen l + 1)) with (32 + 32 * Zlen l) by lia.
    rewrite Z.pow_add_r by (unfold Zlen; lia).
    set (P := 2 ^ (32 * Zlen l)) in *. nia.
Qed.

Lemma dv_firstn_range : forall d k,
  (k <= List.length d)%nat -> forallb is_digit (firstn k d) = true ->
  0 <= digits_value (firstn k d) < 2 ^ (32 * Z.of_nat k).
Proof.
  intros d k Hk Hd. pose proof (dv_range _ Hd) as H. unfold Zlen in H.
  rewrite length_firstn in H. rewrite Nat.min_l in H by lia. exact H.
Qed.

Lemma compare_loop_antisym : forall n a b i c,
  compare_loop n a b i = Ok c -> compare_loop n b a i = Ok (- c).
Proof.
  induction n as [|n IH]; intros a b i c Hc; simpl in *.
  - inversion Hc. reflexivity.
  - destruct (rd a i) as [x|]; simpl in Hc; [|discriminate].
    destruct (rd b i) as [y|]; simpl in Hc; [|discriminate]. simpl.
    rewrite !Z.gtb_ltb in *.
    destruct (Z.ltb_spec y x), (Z.ltb_spec x y); try lia;
      try (inversion Hc; subst; reflexivity).
    apply IH. exact Hc.
Qed.

(* the magnitudes of two bignums with the same sign flag, as compare orders them *)
Lemma compare_code_antisym : forall x y code,
  (if (length x =? 0) || (length y =? 0) then Ok (length x - length y)
   else if length x <? length y then Ok (-1)
   else if length x >? length y then Ok 1
   else compare_loop (Z.to_nat (length x)) (data_ x) (data_ y) (length x - 1)) = Ok code ->
  (if (length y =? 0) || (length x =? 0) then Ok (length y - length x)
   else if length y <? length x then Ok (-1)
   else if length y >? length x then Ok 1
   else compare_loop (Z.to_nat (length y)) (data_ y) (data_ x) (length y - 1))
  = Ok (- code).
Proof.
  intros x y code Hc.
  rewrite (orb_comm (length y =? 0) (length x =? 0)).
  destruct ((length x =? 0) || (length y =? 0)).
  - inversion Hc; subst. f_equal. lia.
  - rewrite !Z.gtb_ltb in *.
    destruct (Z.ltb_spec (length x) (length y)), (Z.ltb_spec (length y) (length x));
      try lia; try (inversion Hc; subst; reflexivity).
    assert (Heq : length y = length x) by lia. rewrite Heq.
    apply compare_loop_antisym. exact Hc.
Qed.

(** X3. The order is antisymmetric: whatever compare answers for (x, y), it
    answers the opposite for (y, x), so that x < y is y > x, x > y is y < x
    and x == y is y == x, on any two bignums. *)
Theorem compare_antisymmetric : forall x y c,
  compare x y = Ok c ->
  compare y x = Ok (- c) /\
  operator_gt y x = operator_lt x y /\
  operator_lt y x = operator_gt x y /\
  operator_eq y x = operator_eq x y.
Proof.
  intros x y c Hc.
  assert (Hyx : compare y x = Ok (- c)).
  { unfold compare in *.
    destruct (neg_ x) eqn:Nx, (neg_ y) eqn:Ny; cbn [Bool.eqb negb b2z] in *;
      try (inversion Hc; subst; reflexivity).
    - match type of Hc with (bind ?e _ = _) => destruct e as [code|] eqn:Ec end;
        cbn [bind] in Hc; [|discriminate].
      rewrite (compare_code_antisym x y code Ec). cbn [bind].
      inversion Hc; subst. reflexivity.
    - match type of Hc with (bind ?e _ = _) => destruct e as [code|] eqn:Ec end;
        cbn [bind] in Hc; [|discriminate].
      rewrite (compare_code_antisym x y code Ec). cbn [bind].
      inversion Hc; subst. reflexivity. }
  split; [exact Hyx|].
  unfold operator_gt, operator_lt, operator_eq. rewrite Hc, Hyx. cbn [bind].
  rewrite !Z.gtb_ltb.
  repeat split; f_equal.
  - destruct (Z.ltb_spec 0 (- c)), (Z.ltb_spec c 0); lia.
  - destruct (Z.ltb_spec (- c) 0), (Z.ltb_spec 0 c); lia.
  - destruct (Z.eqb_spec (- c) 0), (Z.eqb_spec c 0); lia.
Qed.

Lemma compare_antisymmetric_witness :
  let x := mk_bignum [5; 1] true 2 in
  let y := mk_bignum [9; 7; 0; 0] true 2 in
  compare x y = Ok 1 /\
  compare y x = Ok (- 1) /\
  operator_gt y x = operator_lt x y /\
  operator_lt y x = operator_gt x y /\
  operator_eq y x = operator_eq x y.
Proof.
  intros x y. exact (conj eq_refl (compare_antisymmetric x y 1 eq_refl)).
Defined.

End BignumOrder.

Module BignumOrder2.
Import Bignum.
Import BignumMore BignumArith BignumOrder.

Lemma well_formed_facts : forall b,
  well_formed b = true ->
  0 <= length_ b <= Zlen (data_ b) /\ 2 <= Zlen (data_ b) /\
  forallb is_digit (firstn (Z.to_nat (length_ b)) (data_ b)) = true.
Proof.
  intros b Hw. unfold well_formed, capacity in Hw.
  repeat (apply andb_true_iff in Hw; destruct Hw as [Hw ?]).
  repeat match goal with
         | H : (_ <=? _) = true |- _ => apply Z.leb_le in H
         end.
  repeat split; try lia. assumption.
Qed.

Lemma compare_loop_sgn : forall k a b,
  (k <= List.length a)%nat -> (k <= List.length b)%nat ->
  forallb is_digit (firstn k a) = true -> forallb is_digit (firstn k b) = true ->
  exists c, compare_loop k a b (Z.of_nat k - 1) = Ok c /\
            Z.sgn c = Z.sgn (digits_value (firstn k a) - digits_value (firstn k b)).
Proof.
  induction k as [|k IH]; intros a b Ha Hb Da Db.
  - exists 0. split; reflexivity.
  - cbn [compare_loop].
    rewrite !rd_in by (unfold Zlen; lia).
    replace (Z.to_nat (Z.of_nat (S k) - 1)) with k by lia. cbn [bind].
    destruct (digits_firstn_succ a k Ha Da) as [Da' Hx].
    destruct (digits_firstn_succ b k Hb Db) as [Db' Hy].
    rewrite !dv_firstn_succ.
    pose proof (dv_firstn_range a k ltac:(lia) Da') as Ra.
    pose proof (dv_firstn_range b k ltac:(lia) Db') as Rb.
    set (P := 2 ^ (32 * Z.of_nat k)) in *.
    set (x := nth k a 0) in *. set (y := nth k b 0) in *.
    set (da := digits_value (firstn k a)) in *.
    set (db := digits_value (firstn k b)) in *.
    rewrite Z.gtb_ltb.
    destruct (Z.ltb_spec y x) as [Hgt|Hle].
    + exists 1. split; [reflexivity|].
      assert (0 < da + P * x - (db + P * y)) by nia.
      rewrite (Z.sgn_pos (da + P * x - (db + P * y))) by lia. reflexivity.
    + destruct (Z.ltb_spec x y) as [Hlt|Hge].
      * exists (-1). split; [reflexivity|].
        assert (da + P * x - (db + P * y) < 0) by nia.
        rewrite (Z.sgn_neg (da + P * x - (db + P * y))) by lia. reflexivity.
      * assert (x = y) by lia.
        destruct (IH a b ltac:(lia) ltac:(lia) Da' Db') as (c & Hc & Hs).
        exists c. replace (Z.of_nat (S k) - 1 - 1) with (Z.of_nat k - 1) by lia.
        split; [exact Hc|]. rewrite Hs. f_equal. fold da db. nia.
Qed.

Lemma magnitude_bounds : forall b,
  well_formed b = true -> canonical b = true ->
  (length_ b = 0 /\ magnitude b = 0 /\ neg_ b = false) \/
  (0 < length_ b /\ 2 ^ (32 * (length_ b - 1)) <= magnitude b < 2 ^ (32 * length_ b)).
Proof.
  intros b Hw Hc. destruct (well_formed_facts b Hw) as (Hlen & Hcap & Hd).
  unfold canonical, zero_is_unsigned, top_digit_nonzero in Hc.
  apply andb_true_iff in Hc. destruct Hc as [Hz Ht].
  destruct (Z.eqb_spec (length_ b) 0) as [E0|N0].
  - left. unfold magnitude. rewrite E0. simpl.
    destruct (neg_ b); [discriminate Hz|]. repeat split.
  - right. replace (length_ b >? 0) with true in Ht by (symmetry; apply Z.gtb_lt; lia).
    apply negb_true_iff in Ht. apply Z.eqb_neq in Ht.
    split; [lia|]. unfold magnitude.
    remember (Z.to_nat (length_ b - 1)) as k.
    replace (Z.to_nat (length_ b)) with (S k) in * by lia.
    assert (Hk : (k < List.length (data_ b))%nat) by (unfold Zlen in Hlen; lia).
    destruct (digits_firstn_succ (data_ b) k Hk Hd) as [Hd' Hx].
    rewrite dv_firstn_succ.
    pose proof (dv_firstn_range (data_ b) k ltac:(lia) Hd') as R.
    replace (32 * (length_ b - 1)) with (32 * Z.of_nat k) by lia.
    replace (32 * length_ b) with (32 + 32 * Z.of_nat k) by lia.
    rewrite Z.pow_add_r by lia.
    set (P := 2 ^ (32 * Z.of_nat k)) in *. nia.
Qed.

(** On well-formed canonical operands the comparison operators decide the
    order of the integers denoted. *)
Lemma comparison_of_values : forall x y,
  well_formed x = true -> well_formed y = true ->
  canonical x = true -> canonical y = true ->
  operator_lt x y = Ok (value x <? value y) /\
  operator_gt x y = Ok (value x >? value y) /\
  operator_eq x y = Ok (value x =? value y) /\
  operator_ne x y = Ok (negb (value x =? value y)) /\
  operator_le x y = Ok (value x <=? value y) /\
  operator_ge x y = Ok (value x >=? value y).
Proof.
  intros x y Wx Wy Cx Cy.
  assert (Hcmp : exists c, compare x y = Ok c /\ Z.sgn c = Z.sgn (value x - value y)).
  { destruct (well_formed_facts x Wx) as (Lx & _ & Dx).
    destruct (well_formed_facts y Wy) as (Ly & _ & Dy).
    pose proof (magnitude_bounds x Wx Cx) as Mx.
    pose proof (magnitude_bounds y Wy Cy) as My.
    unfold compare, value. unfold length.
    assert (Hmag : exists code,
      (if (length_ x =? 0) || (length_ y =? 0) then Ok (length_ x - length_ y)
       else if length_ x <? length_ y then Ok (-1)
       else if length_ x >? length_ y then Ok 1
       else compare_loop (Z.to_nat (length_ x)) (data_ x) (data_ y) (length_ x - 1))
      = Ok code /\ Z.sgn code = Z.sgn (magnitude x - magnitude y)).
    { destruct (Z.eqb_spec (length_ x) 0) as [Ex|Nx].
      - cbn [orb]. eexists. split; [reflexivity|].
        destruct Mx as [(_ & Mx & _)|Mx]; [|lia]. rewrite Mx, Ex.
        destruct My as [(Ey & My & _)|(Py & My & _)].
        + rewrite My, Ey. reflexivity.
        + assert (0 < 2 ^ (32 * (length_ y - 1))) by (apply Z.pow_pos_nonneg; lia).
          rewrite !Z.sgn_neg by lia. reflexivity.
      - destruct Mx as [Mx|(Px & Mx1 & Mx2)]; [lia|].
        destruct (Z.eqb_spec (length_ y) 0) as [Ey|Ny].
        + cbn [orb]. eexists. split; [reflexivity|].
          destruct My as [(_ & My & _)|My]; [|lia]. rewrite My, Ey.
          assert (0 < 2 ^ (32 * (length_ x - 1))) by (apply Z.pow_pos_nonneg; lia).
          rewrite !Z.sgn_pos by lia. reflexivity.
        + destruct My as [My|(Py & My1 & My2)]; [lia|]. cbn [orb].
          rewrite Z.gtb_ltb.
          destruct (Z.ltb_spec (length_ x) (length_ y)) as [Hlt|Hge].
          * eexists. split; [reflexivity|].
            assert (2 ^ (32 * length_ x) <= 2 ^ (32 * (length_ y - 1)))
              by (apply Z.pow_le_mono_r; lia).
            rewrite (Z.sgn_neg (magnitude x - magnitude y)) by lia. reflexivity.
          * destruct (Z.ltb_spec (length_ y) (length_ x)) as [Hgt|Hle].
            -- eexists. split; [reflexivity|].
               assert (2 ^ (32 * length_ y) <= 2 ^ (32 * (length_ x - 1)))
                 by (apply Z.pow_le_mono_r; lia).
               rewrite (Z.sgn_pos (magnitude x - magnitude y)) by lia. reflexivity.
            -- assert (Heq : length_ y = length_ x) by lia.
               unfold magnitude. rewrite Heq in *.
               replace (length_ x - 1) with (Z.of_nat (Z.to_nat (length_ x)) - 1) by lia.
               apply compare_loop_sgn; try assumption; unfold Zlen in *; lia. }
    destruct Hmag as (code & Hcode & Hsgn).
    destruct (neg_ x) eqn:Nx, (neg_ y) eqn:Ny; cbn [Bool.eqb negb b2z].
    - rewrite Hcode. cbn [bind]. eexists. split; [reflexivity|].
      rewrite Z.sgn_opp, Hsgn. rewrite <- Z.sgn_opp. f_equal. lia.
    - eexists. split; [reflexivity|].
      destruct Mx as [(_ & _ & Mx)|(Px & Mx1 & _)]; [congruence|].
      assert (0 < 2 ^ (32 * (length_ x - 1))) by (apply Z.pow_pos_nonneg; lia).
      assert (0 <= magnitude y) by (destruct My as [(_ & My & _)|(Py & My1 & _)];
        [lia|assert (0 < 2 ^ (32 * (length_ y - 1))) by (apply Z.pow_pos_nonneg; lia); lia]).
      rewrite (Z.sgn_neg (- magnitude x - magnitude y)) by lia. reflexivity.
    - eexists. split; [reflexivity|].
      destruct My as [(_ & _ & My)|(Py & My1 & _)]; [congruence|].
      assert (0 < 2 ^ (32 * (length_ y - 1))) by (apply Z.pow_pos_nonneg; lia).
      assert (0 <= magnitude x) by (destruct Mx as [(_ & Mx & _)|(Px & Mx1 & _)];
        [lia|assert (0 < 2 ^ (32 * (length_ x - 1))) by (apply Z.pow_pos_nonneg; lia); lia]).
      rewrite (Z.sgn_pos (magnitude x - - magnitude y)) by lia. reflexivity.
    - rewrite Hcode. cbn [bind]. eexists. split; [reflexivity|]. exact Hsgn. }
  destruct Hcmp as (c & Hc & Hs).
  unfold operator_lt, operator_gt, operator_eq, operator_ne, operator_le, operator_ge.
  rewrite Hc. cbn [bind]. rewrite !Z.gtb_ltb, !Z.geb_leb.
  assert (Hcases : (c < 0 /\ value x < value y) \/ (c = 0 /\ value x = value y) \/
                   (0 < c /\ value y < value x)).
  { destruct (Z.sgn_spec c) as [(H1 & H2)|[(H1 & H2)|(H1 & H2)]];
    destruct (Z.sgn_spec (value x - value y)) as [(H3 & H4)|[(H3 & H4)|(H3 & H4)]]; lia. }
  repeat split; f_equal.
  - destruct (Z.ltb_spec c 0), (Z.ltb_spec (value x) (value y)); lia.
  - destruct (Z.ltb_spec 0 c), (Z.ltb_spec (value y) (value x)); lia.
  - destruct (Z.eqb_spec c 0), (Z.eqb_spec (value x) (value y)); lia.
  - destruct (Z.eqb_spec c 0), (Z.eqb_spec (value x) (value y)); simpl; lia.
  - destruct (Z.leb_spec c 0), (Z.leb_spec (value x) (value y)); lia.
  - destruct (Z.leb_spec 0 c), (Z.leb_spec (value y) (value x)); lia.
Qed.

End BignumOrder2.

Module BignumConv.
Import Bignum.
Import BignumMore BignumArith BignumOrder BignumOrder2.
Section Facts.
Variable junk_word : Z.
Variable junk_flag : bool.

Lemma land_max : forall x, 0 <= x -> Z.land x max_basic_type = x mod 2 ^ 32.
Proof.
  intros x Hx. change max_basic_type with (Z.ones 32). apply Z.land_ones. lia.
Qed.

Lemma initialize_u64_read : forall neg u,
  0 <= u < 2 ^ 64 -> operator_uint64 (initialize_u64 neg u) = Ok u.
Proof.
  intros neg u Hu. unfold operator_uint64, initialize_u64, length.
  cbn [length_ data_]. destruct (Z.eqb_spec u 0) as [->|Hne]; [reflexivity|].
  cbn [Z.geb Z.compare Pos.compare Pos.compare_cont].
  change (2 >=? 1) with true. change (2 >=? 2) with true. cbv iota.
  change basic_type_bits with 32.
  unfold rd. cbn [in_block Zlen List.length Z.of_nat Z.leb Z.ltb Z.compare andb nth
                  Z.to_nat Pos.to_nat Pos.iter_op Nat.add bind Pos.compare
                  Pos.compare_cont Pos.of_succ_nat Pos.succ].
  rewrite Z.shiftr_div_pow2 by lia.
  assert (Hq : 0 <= u / 2 ^ 32 < 2 ^ 32).
  { split; [apply Z.div_pos; lia|]. apply Z.div_lt_upper_bound; lia. }
  rewrite !land_max by lia.
  rewrite (Z.mod_small (u / 2 ^ 32)) by lia.
  rewrite Z.shiftl_mul_pow2 by lia. unfold u64.
  rewrite (Z.mod_small (u / 2 ^ 32 * 2 ^ 32)) by lia.
  pose proof (Z.div_mod u (2 ^ 32) ltac:(lia)).
  pose proof (Z.mod_pos_bound u (2 ^ 32) ltac:(lia)).
  rewrite Z.mod_small by lia. f_equal. lia.
Qed.

(** X5. An integer put into a bignum by a constructor and read back by the
    conversion of the same type is the same integer: every uint64_t and
    unsigned, every int64_t and int but the least one. *)
Theorem integer_round_trip :
  (forall u, 0 <= u < 2 ^ 64 -> operator_uint64 (basic_bignum_u64 junk_flag u) = Ok u) /\
  (forall i, - 2 ^ 63 < i < 2 ^ 63 -> operator_int64 (basic_bignum_i64 i) = Ok i) /\
  (forall u, 0 <= u < 2 ^ 32 ->
     operator_unsigned (basic_bignum_u32 junk_word junk_flag u) = Ok u) /\
  (forall i, - 2 ^ 31 < i < 2 ^ 31 -> operator_int (basic_bignum_i32 junk_word i) = Ok i).
Proof.
  split; [|split; [|split]].
  - intros u Hu. apply initialize_u64_read. exact Hu.
  - intros i Hi. unfold operator_int64, basic_bignum_i64.
    destruct (Z.ltb_spec i 0) as [Hneg|Hpos].
    + rewrite (Z.mod_small (- i)) by lia.
      rewrite initialize_u64_read by lia. cbn [bind neg_ initialize_u64].
      f_equal. unfold s64. rewrite (Z.mod_small (- i)) by lia.
      replace (- i >=? 2 ^ 63) with false by (symmetry; rewrite Z.geb_leb; apply Z.leb_gt; lia).
      rewrite Z.opp_involutive.
      assert (Hm : i mod 2 ^ 64 = i + 2 ^ 64).
      { symmetry. apply Z.mod_unique with (q := -1); lia. }
      rewrite Hm.
      replace (i + 2 ^ 64 >=? 2 ^ 63) with true by (symmetry; rewrite Z.geb_leb; apply Z.leb_le; lia).
      lia.
    + rewrite (Z.mod_small i) by lia.
      rewrite initialize_u64_read by lia. cbn [bind neg_ initialize_u64].
      f_equal. unfold s64. rewrite (Z.mod_small i) by lia.
      replace (i >=? 2 ^ 63) with false by (symmetry; rewrite Z.geb_leb; apply Z.leb_gt; lia).
      reflexivity.
  - intros u Hu. unfold operator_unsigned, basic_bignum_u32, initialize_u32, length.
    cbn [length_ data_]. destruct (Z.eqb_spec u 0) as [->|Hne]; reflexivity.
  - intros i Hi. unfold operator_int, basic_bignum_i32, initialize_u32, length.
    cbn [length_ data_ neg_].
    destruct (Z.ltb_spec i 0) as [Hneg|Hpos].
    + rewrite (u32_small (- i)) by lia.
      replace (- i =? 0) with false by (symmetry; apply Z.eqb_neq; lia).
      change (1 >? 0) with true. cbv iota.
      change (rd [- i; junk_word] 0) with (Ok (- i) : res Z). cbn [bind].
      f_equal. unfold s32. rewrite (Z.mod_small (- i)) by lia.
      replace (- i >=? 2 ^ 31) with false by (symmetry; rewrite Z.geb_leb; apply Z.leb_gt; lia).
      rewrite Z.opp_involutive.
      assert (Hm : i mod 2 ^ 32 = i + 2 ^ 32).
      { symmetry. apply Z.mod_unique with (q := -1); lia. }
      rewrite Hm.
      replace (i + 2 ^ 32 >=? 2 ^ 31) with true by (symmetry; rewrite Z.geb_leb; apply Z.leb_le; lia).
      lia.
    + rewrite (u32_small i) by lia.
      destruct (Z.eqb_spec i 0) as [->|Hne]; [reflexivity|].
      change (1 >? 0) with true. cbv iota.
      change (rd [i; junk_word] 0) with (Ok i : res Z). cbn [bind].
      f_equal. unfold s32. rewrite (Z.mod_small i) by lia.
      replace (i >=? 2 ^ 31) with false by (symmetry; rewrite Z.geb_leb; apply Z.leb_gt; lia).
      reflexivity.
Qed.

End Facts.

Lemma integer_round_trip_witness :
  operator_uint64 (basic_bignum_u64 true 18446744073709551615)
    = Ok 18446744073709551615 /\
  operator_int64 (basic_bignum_i64 (-9223372036854775807))
    = Ok (-9223372036854775807) /\
  operator_unsigned (basic_bignum_u32 7 false 4294967295) = Ok 4294967295 /\
  operator_int (basic_bignum_i32 7 (-2147483647)) = Ok (-2147483647).
Proof.
  destruct (integer_round_trip 7 true) as (H1 & H2 & _).
  destruct (integer_round_trip 7 false) as (_ & _ & H3 & H4).
  split; [apply H1; lia|]. split; [apply H2; lia|].
  split; [apply H3; lia|apply H4; lia].
Defined.

End BignumConv.

Module BignumBlocks.
Import Bignum.
Import BignumMore BignumArith BignumOrder BignumOrder2.

Lemma firstn_succ_skipn : forall (A : Type) (l : list A) k n a,
  (k < List.length l)%nat ->
  firstn (S n) (skipn k l) = nth k l a :: firstn n (skipn (S k) l).
Proof.
  intros A l. induction l as [|x l IH]; intros k n a Hk; [simpl in Hk; lia|].
  destruct k; [reflexivity|]. cbn [skipn nth]. apply IH. simpl in Hk. lia.
Qed.

Lemma firstn_succ_upd : forall (A : Type) (d : list A) k v,
  (k < List.length d)%nat -> firstn (S k) (upd d k v) = firstn k d ++ [v].
Proof.
  intros A d. induction d as [|x d IH]; intros k v Hk; [simpl in Hk; lia|].
  destruct k; [reflexivity|]. cbn [upd firstn app]. f_equal. apply IH. simpl in Hk. lia.
Qed.

Lemma copy_words_spec : forall n dst src k,
  (k + n <= List.length dst)%nat -> (k + n <= List.length src)%nat ->
  copy_words n dst (Z.of_nat k) src (Z.of_nat k)
  = Ok (firstn k dst ++ firstn n (skipn k src) ++ skipn (k + n) dst).
Proof.
  induction n as [|n IH]; intros dst src k Hd Hs.
  - cbn [copy_words firstn app]. rewrite Nat.add_0_r. rewrite firstn_skipn. reflexivity.
  - cbn [copy_words]. rewrite rd_in by (unfold Zlen; lia). cbn [bind].
    rewrite wr_in by (unfold Zlen; lia). cbn [bind]. rewrite Nat2Z.id.
    replace (Z.of_nat k + 1) with (Z.of_nat (S k)) by lia.
    rewrite IH by (rewrite ?upd_length; lia).
    rewrite firstn_succ_upd by lia.
    rewrite skipn_upd_below by lia.
    rewrite (firstn_succ_skipn Z src k n 0) by lia.
    rewrite <- app_assoc. cbn [app]. replace (S k + n)%nat with (k + S n)%nat by lia.
    reflexivity.
Qed.

Lemma copy_words_front : forall n dst src,
  (n <= List.length dst)%nat -> (n <= List.length src)%nat ->
  copy_words n dst 0 src 0 = Ok (firstn n src ++ skipn n dst).
Proof.
  intros n dst src Hd Hs.
  apply (copy_words_spec n dst src 0%nat); lia.
Qed.

Lemma zero_words_spec : forall n d k,
  (k + n <= List.length d)%nat ->
  zero_words n d (Z.of_nat k) = Ok (firstn k d ++ repeat 0 n ++ skipn (k + n) d).
Proof.
  induction n as [|n IH]; intros d k Hd.
  - cbn [zero_words repeat app]. rewrite Nat.add_0_r, firstn_skipn. reflexivity.
  - cbn [zero_words]. rewrite wr_in by (unfold Zlen; lia). cbn [bind]. rewrite Nat2Z.id.
    replace (Z.of_nat k + 1) with (Z.of_nat (S k)) by lia.
    rewrite IH by (rewrite ?upd_length; lia).
    rewrite firstn_succ_upd by lia. rewrite skipn_upd_below by lia.
    rewrite <- app_assoc. cbn [app repeat].
    replace (S k + n)%nat with (k + S n)%nat by lia. reflexivity.
Qed.

Lemma forallb_repeat_zero : forall n, forallb is_digit (repeat 0 n) = true.
Proof. induction n; [reflexivity|]. simpl. exact IHn. Qed.

Lemma dv_repeat_zero : forall n, digits_value (repeat 0 n) = 0.
Proof. induction n; [reflexivity|]. cbn [repeat digits_value]. rewrite IHn. reflexivity. Qed.

Lemma firstn_app_exact : forall (A : Type) (l1 l2 : list A) n,
  n = List.length l1 -> firstn n (l1 ++ l2) = l1.
Proof.
  intros A l1 l2 n ->. rewrite firstn_app, Nat.sub_diag, firstn_all. cbn [firstn].
  apply app_nil_r.
Qed.

Section Junk.
Variable junk_word : Z.

Lemma alloc_length : forall n, 0 <= n -> Zlen (alloc junk_word n) = n.
Proof. intros n Hn. unfold alloc, Zlen. rewrite repeat_length. lia. Qed.

Lemma round_up_bounds : forall len,
  0 <= len <= 65533 -> len < round_up len <= 65534 /\ 2 <= round_up len.
Proof.
  intros len Hlen. unfold round_up, u16, word_length.
  pose proof (Z.div_mod len 2 ltac:(lia)). pose proof (Z.mod_pos_bound len 2 ltac:(lia)).
  rewrite Z.mod_small by lia. lia.
Qed.

(** The digits of a bignum: the cells below its length. *)
Local Abbreviation digits_of b := (firstn (Z.to_nat (length_ b)) (data_ b)).

Lemma well_formed_intro : forall b,
  0 <= length_ b <= Zlen (data_ b) -> 2 <= Zlen (data_ b) ->
  forallb is_digit (digits_of b) = true -> well_formed b = true.
Proof.
  intros b Hl Hc Hd. unfold well_formed, capacity. rewrite Hd.
  replace (0 <=? length_ b) with true by (symmetry; apply Z.leb_le; lia).
  replace (length_ b <=? Zlen (data_ b)) with true by (symmetry; apply Z.leb_le; lia).
  replace (2 <=? Zlen (data_ b)) with true by (symmetry; apply Z.leb_le; lia).
  reflexivity.
Qed.

Lemma copy_spec : forall n,
  well_formed n = true ->
  exists c, basic_bignum_copy junk_word n = Ok c /\
    length_ c = length_ n /\ neg_ c = neg_ n /\ digits_of c = digits_of n /\
    well_formed c = true.
Proof.
  intros n Hw. destruct (well_formed_facts n Hw) as (Hl & Hc & Hd).
  unfold basic_bignum_copy.
  destruct (Z.leb_spec (length_ n) 2) as [Hle|Hgt].
  - rewrite !rd_in by lia. cbn [bind]. eexists. split; [reflexivity|].
    cbn [length_ neg_ data_]. split; [reflexivity|]. split; [reflexivity|].
    assert (Hdig : firstn (Z.to_nat (length_ n))
                     [nth (Z.to_nat 0) (data_ n) 0; nth (Z.to_nat 1) (data_ n) 0]
                   = firstn (Z.to_nat (length_ n)) (data_ n)).
    { destruct (data_ n) as [|a [|b l]]; unfold Zlen in Hc; simpl in Hc; try lia.
      assert (Hcases : Z.to_nat (length_ n) = 0%nat \/ Z.to_nat (length_ n) = 1%nat \/
                       Z.to_nat (length_ n) = 2%nat) by lia.
      destruct Hcases as [->|[->| ->]]; reflexivity. }
    split; [exact Hdig|].
    apply well_formed_intro; cbn [length_ data_].
    + unfold Zlen. simpl. lia.
    + unfold Zlen. simpl. lia.
    + rewrite Hdig. exact Hd.
  - unfold capacity. rewrite copy_words_front.
    + cbn [bind]. eexists. split; [reflexivity|]. cbn [length_ neg_ data_].
      split; [reflexivity|]. split; [reflexivity|].
      assert (Hdig : firstn (Z.to_nat (length_ n))
                (firstn (Z.to_nat (length_ n)) (data_ n) ++
                 skipn (Z.to_nat (length_ n)) (alloc junk_word (Zlen (data_ n))))
              = firstn (Z.to_nat (length_ n)) (data_ n)).
      { apply firstn_app_exact. rewrite length_firstn. unfold Zlen in Hl. lia. }
      split; [exact Hdig|].
      apply well_formed_intro; cbn [length_ data_].
      * unfold Zlen. rewrite length_app, length_firstn, length_skipn.
        unfold alloc. rewrite repeat_length. unfold Zlen in *. lia.
      * unfold Zlen. rewrite length_app, length_firstn, length_skipn.
        unfold alloc. rewrite repeat_length. unfold Zlen in *. lia.
      * rewrite Hdig. exact Hd.
    + unfold alloc. rewrite repeat_length. unfold Zlen in *. lia.
    + unfold Zlen in *. lia.
Qed.

Lemma copy_value : forall n c,
  length_ c = length_ n -> neg_ c = neg_ n -> digits_of c = digits_of n ->
  value c = value n /\ magnitude c = magnitude n /\
  top_digit_nonzero c = top_digit_nonzero n /\ canonical c = canonical n.
Proof.
  intros n c Hl Hn Hd.
  assert (Hm : magnitude c = magnitude n) by (unfold magnitude; rewrite Hd; reflexivity).
  assert (Ht : top_digit_nonzero c = top_digit_nonzero n).
  { unfold top_digit_nonzero. rewrite Hl.
    destruct (Z.gtb_spec (length_ n) 0) as [Hpos|]; [|reflexivity].
    assert (Hnth : forall b, 0 < length_ b ->
              nth (Z.to_nat (length_ b - 1)) (data_ b) 0
              = nth (Z.to_nat (length_ b - 1)) (digits_of b) 0).
    { intros b Hb. symmetry.
      rewrite nth_firstn. replace (Z.to_nat (length_ b - 1) <? Z.to_nat (length_ b))%nat
        with true by (symmetry; apply Nat.ltb_lt; lia). reflexivity. }
    rewrite <- Hl at 1. rewrite (Hnth c) by lia. rewrite (Hnth n) by lia.
    rewrite Hd, Hl. reflexivity. }
  repeat split.
  - unfold value. rewrite Hm, Hn. reflexivity.
  - exact Hm.
  - exact Ht.
  - unfold canonical, zero_is_unsigned. rewrite Ht, Hl, Hn. reflexivity.
Qed.

End Junk.

End BignumBlocks.

Module BignumAssign.
Import Bignum.
Import BignumMore BignumArith BignumOrder BignumOrder2 BignumBlocks.
Section Junk.
Variable junk_word : Z.

Local Abbreviation digits_of b := (firstn (Z.to_nat (length_ b)) (data_ b)).

Lemma u16_small : forall x, 0 <= x <= 65535 -> u16 x = x.
Proof. intros x Hx. unfold u16. apply Z.mod_small. lia. Qed.

Lemma zero_words_at : forall n d k,
  0 <= k -> (Z.to_nat k + n <= List.length d)%nat ->
  zero_words n d k
  = Ok (firstn (Z.to_nat k) d ++ repeat 0 n ++ skipn (Z.to_nat k + n) d).
Proof.
  intros n d k Hk Hd. rewrite <- (Z2Nat.id k) at 1 by lia.
  apply zero_words_spec. exact Hd.
Qed.

Lemma incr_length_spec : forall b len_new,
  well_formed b = true -> length_ b <= len_new <= 65533 ->
  exists b', incr_length junk_word b len_new = Ok b' /\
    length_ b' = len_new /\ neg_ b' = neg_ b /\
    digits_of b' = digits_of b ++ repeat 0 (Z.to_nat (len_new - length_ b)) /\
    well_formed b' = true.
Proof.
  intros b len_new Hw Hn. destruct (well_formed_facts b Hw) as (Hl & Hc & Hd).
  unfold incr_length. rewrite u16_small by lia. unfold capacity.
  assert (Hdig : forall rest,
            firstn (Z.to_nat len_new)
              (firstn (Z.to_nat (length_ b)) (data_ b)
                 ++ repeat 0 (Z.to_nat (len_new - length_ b)) ++ rest)
            = firstn (Z.to_nat (length_ b)) (data_ b)
                ++ repeat 0 (Z.to_nat (len_new - length_ b))).
  { intros rest. rewrite app_assoc. apply firstn_app_exact.
    rewrite length_app, length_firstn, repeat_length. unfold Zlen in Hl. lia. }
  assert (Hdigits : forallb is_digit
            (firstn (Z.to_nat (length_ b)) (data_ b)
               ++ repeat 0 (Z.to_nat (len_new - length_ b))) = true).
  { rewrite forallb_app, Hd, forallb_repeat_zero. reflexivity. }
  assert (Hfa : forall rest,
            firstn (Z.to_nat (length_ b)) (firstn (Z.to_nat (length_ b)) (data_ b) ++ rest)
            = firstn (Z.to_nat (length_ b)) (data_ b)).
  { intros rest. apply firstn_app_exact. rewrite length_firstn. unfold Zlen in Hl. lia. }
  destruct (Z.gtb_spec len_new (Zlen (data_ b))) as [Hbig|Hfit].
  - destruct (round_up_bounds len_new ltac:(lia)) as (Hr1 & Hr2).
    rewrite copy_words_front;
      [|unfold alloc; rewrite repeat_length; lia|unfold Zlen in Hl; lia].
    cbn [bind].
    replace (len_new >? length_ b) with true by (symmetry; apply Z.gtb_lt; lia).
    rewrite zero_words_at; [|lia|].
    + cbn [bind]. eexists. split; [reflexivity|]. cbn [length_ neg_ data_].
      split; [reflexivity|]. split; [reflexivity|].
      rewrite Hfa. rewrite Hdig. split; [reflexivity|].
      apply well_formed_intro; cbn [length_ data_].
      * unfold Zlen. rewrite !length_app, length_firstn, repeat_length, length_skipn,
          length_app, length_firstn, length_skipn. unfold alloc. rewrite repeat_length.
        unfold Zlen in *. lia.
      * unfold Zlen. rewrite !length_app, length_firstn, repeat_length, length_skipn,
          length_app, length_firstn, length_skipn. unfold alloc. rewrite repeat_length.
        unfold Zlen in *. lia.
      * rewrite Hdig. exact Hdigits.
    + rewrite length_app, length_firstn, length_skipn. unfold alloc.
      rewrite repeat_length. unfold Zlen in *. lia.
  - cbn [bind]. destruct (Z.gtb_spec len_new (length_ b)) as [Hgrow|Hsame].
    + rewrite zero_words_at by (unfold Zlen in *; lia).
      cbn [bind]. eexists. split; [reflexivity|]. cbn [length_ neg_ data_].
      split; [reflexivity|]. split; [reflexivity|].
      rewrite Hdig. split; [reflexivity|].
      apply well_formed_intro; cbn [length_ data_].
      * unfold Zlen. rewrite !length_app, length_firstn, repeat_length, length_skipn.
        unfold Zlen in *. lia.
      * unfold Zlen. rewrite !length_app, length_firstn, repeat_length, length_skipn.
        unfold Zlen in *. lia.
      * rewrite Hdig. exact Hdigits.
    + assert (len_new = length_ b) by lia. subst len_new.
      eexists. split; [reflexivity|]. cbn [length_ neg_ data_].
      split; [reflexivity|]. split; [reflexivity|].
      rewrite Z.sub_diag. cbn [Z.to_nat repeat]. rewrite app_nil_r.
      split; [reflexivity|]. exact Hw.
Qed.

Lemma assign_spec : forall this y,
  2 <= capacity this -> well_formed y = true -> length_ y <= 65533 ->
  exists r, operator_assign junk_word this y = Ok r /\
    length_ r = length_ y /\ neg_ r = neg_ y /\ digits_of r = digits_of y /\
    well_formed r = true.
Proof.
  intros this y Hcap Hw Hn. destruct (well_formed_facts y Hw) as (Hl & Hc & Hd).
  unfold operator_assign, set_length, length. rewrite u16_small by lia.
  unfold capacity in *.
  destruct (Z.gtb_spec (length_ y) (Zlen (data_ this))) as [Hbig|Hfit].
  - destruct (round_up_bounds (length_ y) ltac:(lia)) as (Hr1 & Hr2).
    cbn [data_ length_].
    rewrite copy_words_front;
      [|unfold alloc; rewrite repeat_length; lia|unfold Zlen in Hl; lia].
    cbn [bind]. eexists. split; [reflexivity|]. cbn [length_ neg_ data_].
    split; [reflexivity|]. split; [reflexivity|].
    rewrite firstn_app_exact by (rewrite length_firstn; unfold Zlen in Hl; lia).
    split; [reflexivity|].
    apply well_formed_intro; cbn [length_ data_].
    + unfold Zlen. rewrite length_app, length_firstn, length_skipn. unfold alloc.
      rewrite repeat_length. unfold Zlen in *. lia.
    + unfold Zlen. rewrite length_app, length_firstn, length_skipn. unfold alloc.
      rewrite repeat_length. unfold Zlen in *. lia.
    + rewrite firstn_app_exact by (rewrite length_firstn; unfold Zlen in Hl; lia).
      exact Hd.
  - unfold with_length. cbn [data_ length_].
    rewrite copy_words_front by (unfold Zlen in *; lia).
    cbn [bind]. eexists. split; [reflexivity|]. cbn [length_ neg_ data_].
    split; [reflexivity|]. split; [reflexivity|].
    rewrite firstn_app_exact by (rewrite length_firstn; unfold Zlen in Hl; lia).
    split; [reflexivity|].
    apply well_formed_intro; cbn [length_ data_].
    + unfold Zlen. rewrite length_app, length_firstn, length_skipn.
      unfold Zlen in *. lia.
    + unfold Zlen. rewrite length_app, length_firstn, length_skipn.
      unfold Zlen in *. lia.
    + rewrite firstn_app_exact by (rewrite length_firstn; unfold Zlen in Hl; lia).
      exact Hd.
Qed.

Lemma reduce_spec : forall b,
  well_formed b = true ->
  exists b', reduce b = Ok b' /\ canonical b' = true /\ value b' = value b /\
    well_formed b' = true /\ length_ b' <= length_ b /\
    (neg_ b = false -> neg_ b' = false).
Proof.
  intros b Hw. destruct (well_formed_facts b Hw) as (Hl & Hc & Hd).
  destruct (reduce_total b) as (b' & Hr & Hcan & Hv & Hdata & Hlen);
    [unfold capacity; lia|].
  exists b'. split; [exact Hr|]. split; [exact Hcan|]. split; [exact Hv|].
  assert (Hlen0 : 0 <= length_ b').
  { unfold reduce in Hr.
    destruct (reduce_loop_total (Z.to_nat (length_ b)) (data_ b) (length_ b))
      as (len' & Hr' & Hb & _); [lia|lia|].
    rewrite Hr' in Hr. cbn [bind] in Hr. inversion Hr. cbn [length_]. lia. }
  split; [|split; [exact Hlen|]].
  - apply well_formed_intro; rewrite ?Hdata; try lia.
    apply (digits_firstn_le (data_ b) _ (Z.to_nat (length_ b))); [lia|exact Hd].
  - intros Hneg. unfold reduce in Hr.
    destruct (reduce_loop (Z.to_nat (length_ b)) (data_ b) (length_ b));
      cbn [bind] in Hr; [|discriminate].
    inversion Hr. cbn [neg_]. rewrite Hneg. destruct (a =? 0); reflexivity.
Qed.

Lemma initialize_spec : forall n,
  well_formed n = true -> length_ n <= 65533 ->
  exists r, initialize junk_word n = Ok r /\ value r = value n /\
    well_formed r = true /\ length_ r <= length_ n /\
    (top_digit_nonzero n = true -> top_digit_nonzero r = true).
Proof.
  intros n Hw Hn. destruct (well_formed_facts n Hw) as (Hl & Hc & Hd).
  unfold initialize.
  destruct (Z.leb_spec (length_ n) 2) as [Hle|Hgt].
  - destruct (copy_spec junk_word n Hw) as (c & Hcopy & Hcl & Hcn & Hcd & Hcw).
    unfold basic_bignum_copy in Hcopy.
    replace (length_ n <=? 2) with true in Hcopy by (symmetry; apply Z.leb_le; lia).
    rewrite Hcopy. exists c. split; [reflexivity|].
    destruct (copy_value n c Hcl Hcn Hcd) as (Hv & _ & Ht & _).
    split; [exact Hv|]. split; [exact Hcw|]. split; [lia|].
    rewrite Ht. auto.
  - destruct (round_up_bounds (length_ n) ltac:(lia)) as (Hr1 & Hr2).
    rewrite copy_words_front;
      [|unfold alloc; rewrite repeat_length; lia|unfold Zlen in Hl; lia].
    cbn [bind].
    set (c := mk_bignum (firstn (Z.to_nat (length_ n)) (data_ n) ++
                         skipn (Z.to_nat (length_ n)) (alloc junk_word (round_up (length_ n))))
                        (neg_ n) (length_ n)).
    assert (Hcd : digits_of c = digits_of n).
    { unfold c. cbn [length_ data_]. apply firstn_app_exact.
      rewrite length_firstn. unfold Zlen in Hl. lia. }
    assert (Hcw : well_formed c = true).
    { apply well_formed_intro.
      - unfold c. cbn [length_ data_]. unfold Zlen.
        rewrite length_app, length_firstn, length_skipn. unfold alloc.
        rewrite repeat_length. unfold Zlen in *. lia.
      - unfold c. cbn [length_ data_]. unfold Zlen.
        rewrite length_app, length_firstn, length_skipn. unfold alloc.
        rewrite repeat_length. unfold Zlen in *. lia.
      - rewrite Hcd. exact Hd. }
    destruct (reduce_spec c Hcw) as (r & Hr & Hcan & Hv & Hrw & Hrl & _).
    exists r. split; [exact Hr|].
    destruct (copy_value n c eq_refl eq_refl Hcd) as (Hv' & _).
    split; [congruence|]. split; [exact Hrw|]. split; [exact Hrl|].
    intros _. unfold canonical in Hcan. apply andb_true_iff in Hcan. apply Hcan.
Qed.

Lemma neg_spec : forall b,
  well_formed b = true ->
  exists r, operator_neg junk_word b = Ok r /\
    length_ r = length_ b /\ neg_ r = negb (neg_ b) /\ digits_of r = digits_of b /\
    well_formed r = true /\ value r = - value b.
Proof.
  intros b Hw. destruct (copy_spec junk_word b Hw) as (c & Hcopy & Hcl & Hcn & Hcd & Hcw).
  unfold operator_neg. rewrite Hcopy. cbn [bind]. eexists. split; [reflexivity|].
  unfold with_neg. cbn [length_ neg_ data_]. rewrite Hcn.
  split; [exact Hcl|]. split; [reflexivity|]. split; [exact Hcd|].
  split.
  - destruct (well_formed_facts c Hcw) as (Hl & Hc & Hd).
    apply well_formed_intro; cbn [length_ data_]; try lia. exact Hd.
  - unfold value, magnitude. cbn [length_ neg_ data_]. rewrite Hcd.
    destruct (neg_ b); cbn [negb]; lia.
Qed.

End Junk.
End BignumAssign.

Module BignumLoops.
Import Bignum.
Import BignumMore BignumArith BignumOrder BignumOrder2 BignumBlocks BignumAssign.

(* the value of the [n] cells of [d] from cell [k] on *)
Local Abbreviation win d k n := (digits_value (firstn n (skipn k d))).

Lemma win_succ : forall d k n,
  (k < List.length d)%nat ->
  win d k (S n) = nth k d 0 + 2 ^ 32 * win d (S k) n.
Proof.
  intros d k n Hk. rewrite (firstn_succ_skipn Z d k n 0 Hk). reflexivity.
Qed.

Lemma win_beyond : forall d k n, (List.length d <= k)%nat -> win d k n = 0.
Proof.
  intros d k n Hk. rewrite skipn_all2 by lia. rewrite firstn_nil. reflexivity.
Qed.

Lemma pow32_succ : forall n : nat, 2 ^ (32 * Z.of_nat (S n)) = 2 ^ 32 * 2 ^ (32 * Z.of_nat n).
Proof.
  intros n. replace (32 * Z.of_nat (S n)) with (32 + 32 * Z.of_nat n) by lia.
  rewrite Z.pow_add_r by lia. reflexivity.
Qed.

Lemma nth_from_prefix : forall (d d' : list Z) k v,
  firstn (S k) d' = firstn k d ++ [v] -> (k < List.length d)%nat -> nth k d' 0 = v.
Proof.
  intros d d' k v Hp Hk.
  assert (H : nth k (firstn (S k) d') 0 = v).
  { rewrite Hp. rewrite app_nth2 by (rewrite length_firstn; lia).
    rewrite length_firstn. replace (k - Nat.min k (List.length d))%nat with 0%nat by lia.
    reflexivity. }
  rewrite nth_firstn in H.
  replace (k <? S k)%nat with true in H by (symmetry; apply Nat.ltb_lt; lia).
  exact H.
Qed.

Lemma digits_window_succ : forall d k n,
  (k < List.length d)%nat ->
  forallb is_digit (firstn (S n) (skipn k d)) = true ->
  0 <= nth k d 0 < 2 ^ 32 /\ forallb is_digit (firstn n (skipn (S k) d)) = true.
Proof.
  intros d k n Hk Hd. rewrite (firstn_succ_skipn Z d k n 0 Hk) in Hd.
  cbn [forallb] in Hd. apply andb_true_iff in Hd. destruct Hd as [H1 H2].
  split; [apply is_digit_range; exact H1|exact H2].
Qed.

Lemma prefix_shrink : forall (A : Type) (d d' : list A) k,
  firstn (S k) d' = firstn (S k) d -> firstn k d' = firstn k d.
Proof.
  intros A d d' k H.
  assert (H1 : firstn k (firstn (S k) d') = firstn k (firstn (S k) d)) by (rewrite H; reflexivity).
  rewrite !firstn_firstn in H1. rewrite !Nat.min_l in H1 by lia. exact H1.
Qed.

(** operator*=(unsigned): the digit loop *)
Lemma mul_loop_spec : forall n k dig carry y d,
  (k + n < List.length d)%nat -> 0 <= y < 2 ^ 32 -> 0 <= carry < 2 ^ 32 ->
  forallb is_digit (firstn (S n) (skipn k d)) = true ->
  ((1 <= n)%nat -> dig = nth k d 0) ->
  exists d' carry', mul_unsigned_loop n (Z.of_nat k) dig carry y d = Ok (d', carry') /\
    List.length d' = List.length d /\ firstn k d' = firstn k d /\
    skipn (k + n) d' = skipn (k + n) d /\
    forallb is_digit (firstn n (skipn k d')) = true /\ 0 <= carry' < 2 ^ 32 /\
    win d' k n + 2 ^ (32 * Z.of_nat n) * carry' = y * win d k n + carry.
Proof.
  induction n as [|n IH]; intros k dig carry y d Hlen Hy Hcarry Hd Hdig.
  - exists d, carry. cbn [mul_unsigned_loop firstn digits_value forallb].
    rewrite Nat.add_0_r. repeat split; try lia.
  - cbn [mul_unsigned_loop].
    destruct (digits_window_succ d k (S n) ltac:(lia) Hd) as (Hx & Hd').
    rewrite (Hdig ltac:(lia)).
    destruct (DDproduct_value (nth k d 0) y Hx Hy) as (Hprod & HHi & HLo).
    destruct (DDproduct (nth k d 0) y) as [Hi Lo]. cbn [fst snd] in *.
    pose proof (add_carry Lo carry HLo Hcarry) as Hc.
    set (s := u32 (Lo + carry)) in *.
    assert (Hs : 0 <= s < 2 ^ 32) by apply u32_range.
    rewrite wr_in by (unfold Zlen; lia). cbn [bind]. rewrite Nat2Z.id.
    rewrite rd_in by (rewrite Zlen_upd; unfold Zlen; lia). cbn [bind].
    replace (Z.to_nat (Z.of_nat k + 1)) with (S k) by lia.
    rewrite nth_upd. replace (Nat.eqb (S k) k) with false
      by (symmetry; apply Nat.eqb_neq; lia).
    assert (Hb : 0 <= b2z (s <? Lo) <= 1) by (unfold b2z; destruct (s <? Lo); lia).
    assert (Hsum : 0 <= Hi + b2z (s <? Lo) < 2 ^ 32) by nia.
    rewrite (u32_small (Hi + b2z (s <? Lo))) by exact Hsum.
    replace (Z.of_nat k + 1) with (Z.of_nat (S k)) by lia.
    destruct (IH (S k) (nth (S k) d 0) (Hi + b2z (s <? Lo)) y (upd d k s))
      as (d' & carry' & Hrun & Hl' & Hpre & Hsuf & Hdg & Hc' & Hval).
    + rewrite upd_length. lia.
    + exact Hy.
    + exact Hsum.
    + rewrite skipn_upd_below by lia. exact Hd'.
    + intros _. rewrite nth_upd.
      replace (Nat.eqb (S k) k) with false by (symmetry; apply Nat.eqb_neq; lia).
      reflexivity.
    + exists d', carry'. rewrite Hrun. split; [reflexivity|].
      rewrite upd_length in Hl'. split; [exact Hl'|].
      rewrite firstn_succ_upd in Hpre by lia.
      assert (Hnk : nth k d' 0 = s) by (apply (nth_from_prefix d d' k s Hpre); lia).
      assert (Hpre' : firstn k d' = firstn k d).
      { assert (H1 : firstn k (firstn (S k) d') = firstn k (firstn k d ++ [s]))
          by (rewrite Hpre; reflexivity).
        rewrite firstn_firstn, Nat.min_l in H1 by lia.
        rewrite firstn_app_exact in H1 by (rewrite length_firstn; lia). exact H1. }
      split; [exact Hpre'|].
      rewrite skipn_upd_below in Hsuf by lia.
      replace (k + S n)%nat with (S k + n)%nat by lia. split; [exact Hsuf|].
      split.
      * rewrite (firstn_succ_skipn Z d' k n 0) by lia. cbn [forallb].
        rewrite Hdg, Hnk. rewrite andb_true_r. apply is_digit_range. exact Hs.
      * split; [exact Hc'|].
        rewrite (win_succ d' k n) by lia. rewrite (win_succ d k n) by lia.
        rewrite skipn_upd_below in Hval by lia.
        rewrite pow32_succ, Hnk. nia.
Qed.

(** operator+=: the digit loop *)
Lemma add_loop_spec : forall n k carry d yd ylen,
  (k + n <= List.length d)%nat -> 0 <= ylen <= Zlen yd -> (carry = 0 \/ carry = 1) ->
  forallb is_digit (firstn n (skipn k d)) = true ->
  forallb is_digit (firstn (Z.to_nat ylen) yd) = true ->
  exists d' c', add_loop n (Z.of_nat k) carry d yd ylen = Ok d' /\
    List.length d' = List.length d /\ firstn k d' = firstn k d /\
    skipn (k + n) d' = skipn (k + n) d /\
    forallb is_digit (firstn n (skipn k d')) = true /\ (c' = 0 \/ c' = 1) /\
    win d' k n + 2 ^ (32 * Z.of_nat n) * c'
      = win d k n + win (firstn (Z.to_nat ylen) yd) k n + carry /\
    ((1 <= n)%nat -> ylen <= Z.of_nat (k + n - 1) -> nth (k + n - 1) d 0 = 0 -> c' = 0).
Proof.
  induction n as [|n IH]; intros k carry d yd ylen Hlen Hylen Hcarry Hd Hyd.
  - exists d, carry. cbn [add_loop firstn digits_value forallb].
    rewrite Nat.add_0_r. repeat split; try lia.
  - cbn [add_loop].
    set (Y := firstn (Z.to_nat ylen) yd) in *.
    assert (HYlen : List.length Y = Z.to_nat ylen).
    { unfold Y. rewrite length_firstn. unfold Zlen in Hylen. lia. }
    rewrite Z.geb_leb.
    destruct (Z.leb_spec ylen (Z.of_nat k)) as [Hge|Hlt];
      [destruct (Z.eqb_spec carry 0) as [Hc0|Hc1]|]; cbn [andb].
    + (* past y and no carry: the loop ends *)
      exists d, 0. split; [reflexivity|]. split; [reflexivity|]. split; [reflexivity|].
      split; [reflexivity|]. split; [exact Hd|]. split; [left; reflexivity|].
      split; [|intros; reflexivity].
      rewrite (win_beyond Y k) by lia. lia.
    + (* past y, a carry to propagate *)
      assert (carry = 1) by lia. subst carry.
      assert (Hk : (k < List.length d)%nat) by lia.
      destruct (digits_window_succ d k n Hk Hd) as (Hx & Hd').
      rewrite rd_in by (unfold Zlen; lia). cbn [bind]. rewrite Nat2Z.id.
      replace (Z.of_nat k <? ylen) with false by (symmetry; apply Z.ltb_ge; lia).
      pose proof (add_carry 1 (nth k d 0) ltac:(lia) Hx) as Hc.
      rewrite (Z.add_comm 1) in Hc.
      set (dd := u32 (nth k d 0 + 1)) in *.
      assert (Hdd : 0 <= dd < 2 ^ 32) by apply u32_range.
      rewrite wr_in by (unfold Zlen; lia). cbn [bind]. rewrite Nat2Z.id.
      replace (Z.of_nat k + 1) with (Z.of_nat (S k)) by lia.
      assert (Hb : b2z (dd <? 1) = 0 \/ b2z (dd <? 1) = 1)
        by (unfold b2z; destruct (dd <? 1); lia).
      destruct (IH (S k) (b2z (dd <? 1)) (upd d k dd) yd ylen)
        as (d' & c' & Hrun & Hl' & Hpre & Hsuf & Hdg & Hc' & Hval & Hlast).
      * rewrite upd_length. lia.
      * exact Hylen.
      * exact Hb.
      * rewrite skipn_upd_below by lia. exact Hd'.
      * exact Hyd.
      * exists d', c'. fold Y in Hval. rewrite Hrun. split; [reflexivity|].
        rewrite upd_length in Hl'. split; [exact Hl'|].
        rewrite firstn_succ_upd in Hpre by lia.
        assert (Hnk : nth k d' 0 = dd) by (apply (nth_from_prefix d d' k dd Hpre); lia).
        assert (Hpre' : firstn k d' = firstn k d).
        { assert (H1 : firstn k (firstn (S k) d') = firstn k (firstn k d ++ [dd]))
            by (rewrite Hpre; reflexivity).
          rewrite firstn_firstn, Nat.min_l in H1 by lia.
          rewrite firstn_app_exact in H1 by (rewrite length_firstn; lia). exact H1. }
        split; [exact Hpre'|].
        rewrite skipn_upd_below in Hsuf by lia.
        replace (k + S n)%nat with (S k + n)%nat by lia. split; [exact Hsuf|].
        split.
        { rewrite (firstn_succ_skipn Z d' k n 0) by lia. cbn [forallb].
          rewrite Hdg, Hnk. rewrite andb_true_r. apply is_digit_range. exact Hdd. }
        split; [exact Hc'|].
        rewrite skipn_upd_below in Hval by lia.
        rewrite (win_beyond Y (S k)) in Hval by lia.
        split.
        { rewrite (win_succ d' k n) by lia. rewrite (win_succ d k n) by lia.
          rewrite (win_beyond Y k) by lia.
          rewrite pow32_succ, Hnk. nia. }
        intros _ Hy0 Hz.
        destruct n as [|n].
        { (* the last cell: it is zero and takes the carry *)
          replace (S k + 0 - 1)%nat with k in Hz by lia.
          cbn [firstn digits_value] in Hval. change (2 ^ (32 * Z.of_nat 0)) with 1 in Hval.
          unfold dd in Hval. rewrite Hz in Hval. change (u32 (0 + 1)) with 1 in Hval.
          change (b2z (1 <? 1)) with 0 in Hval. lia. }
        apply Hlast; [lia|lia|].
        rewrite nth_upd.
        replace (Nat.eqb (S k + S n - 1) k) with false
          by (symmetry; apply Nat.eqb_neq; lia).
        exact Hz.
    + (* a cell of y to add *)
      assert (Hk : (k < List.length d)%nat) by lia.
      destruct (digits_window_succ d k n Hk Hd) as (Hx & Hd').
      rewrite rd_in by (unfold Zlen; lia). cbn [bind]. rewrite Nat2Z.id.
      replace (Z.of_nat k <? ylen) with true by (symmetry; apply Z.ltb_lt; lia).
      pose proof (add_carry carry (nth k d 0) ltac:(lia) Hx) as Hc.
      rewrite (Z.add_comm carry) in Hc.
      set (dd := u32 (nth k d 0 + carry)) in *.
      assert (Hdd : 0 <= dd < 2 ^ 32) by apply u32_range.
      assert (HkY : (k < List.length Y)%nat) by lia.
      assert (HyiY : nth k Y 0 = nth k yd 0).
      { unfold Y. rewrite nth_firstn.
        replace (k <? Z.to_nat ylen)%nat with true by (symmetry; apply Nat.ltb_lt; lia).
        reflexivity. }
      assert (Hyi : 0 <= nth k yd 0 < 2 ^ 32).
      { rewrite <- HyiY. apply is_digit_range. rewrite forallb_forall in Hyd.
        apply Hyd. apply nth_In. exact HkY. }
      rewrite (rd_in yd) by (unfold Zlen in *; lia). cbn [bind]. rewrite Nat2Z.id.
      pose proof (add_carry dd (nth k yd 0) Hdd Hyi) as Hc2.
      set (s := u32 (dd + nth k yd 0)) in *.
      assert (Hs : 0 <= s < 2 ^ 32) by apply u32_range.
      rewrite wr_in by (unfold Zlen; lia). cbn [bind]. rewrite Nat2Z.id.
      replace (Z.of_nat k + 1) with (Z.of_nat (S k)) by lia.
      assert (Hb1 : b2z (dd <? carry) = 0 \/ b2z (dd <? carry) = 1)
        by (unfold b2z; destruct (dd <? carry); lia).
      assert (Hb2 : b2z (s <? dd) = 0 \/ b2z (s <? dd) = 1)
        by (unfold b2z; destruct (s <? dd); lia).
      assert (Hcarry2 : (if s <? dd then 1 else b2z (dd <? carry))
                        = b2z (dd <? carry) + b2z (s <? dd)).
      { destruct (s <? dd); [change (b2z true) with 1 in *|change (b2z false) with 0 in *];
          lia. }
      rewrite Hcarry2.
      destruct (IH (S k) (b2z (dd <? carry) + b2z (s <? dd)) (upd d k s) yd ylen)
        as (d' & c' & Hrun & Hl' & Hpre & Hsuf & Hdg & Hc' & Hval & Hlast).
      * rewrite upd_length. lia.
      * exact Hylen.
      * lia.
      * rewrite skipn_upd_below by lia. exact Hd'.
      * exact Hyd.
      * exists d', c'. fold Y in Hval. rewrite Hrun. split; [reflexivity|].
        rewrite upd_length in Hl'. split; [exact Hl'|].
        rewrite firstn_succ_upd in Hpre by lia.
        assert (Hnk : nth k d' 0 = s) by (apply (nth_from_prefix d d' k s Hpre); lia).
        assert (Hpre' : firstn k d' = firstn k d).
        { assert (H1 : firstn k (firstn (S k) d') = firstn k (firstn k d ++ [s]))
            by (rewrite Hpre; reflexivity).
          rewrite firstn_firstn, Nat.min_l in H1 by lia.
          rewrite firstn_app_exact in H1 by (rewrite length_firstn; lia). exact H1. }
        split; [exact Hpre'|].
        rewrite skipn_upd_below in Hsuf by lia.
        replace (k + S n)%nat with (S k + n)%nat by lia. split; [exact Hsuf|].
        split.
        { rewrite (firstn_succ_skipn Z d' k n 0) by lia. cbn [forallb].
          rewrite Hdg, Hnk. rewrite andb_true_r. apply is_digit_range. exact Hs. }
        split; [exact Hc'|].
        rewrite skipn_upd_below in Hval by lia.
        split.
        { rewrite (win_succ d' k n) by lia. rewrite (win_succ d k n) by lia.
          rewrite (win_succ Y k n) by lia.
          rewrite pow32_succ, Hnk, HyiY. nia. }
        intros _ Hy0 Hz.
        destruct n as [|n]; [lia|].
        apply Hlast; [lia|lia|].
        rewrite nth_upd.
        replace (Nat.eqb (S k + S n - 1) k) with false
          by (symmetry; apply Nat.eqb_neq; lia).
        exact Hz.
Qed.

End BignumLoops.

Module BignumOps.
Import Bignum.
Import BignumMore BignumArith BignumOrder BignumOrder2 BignumBlocks BignumAssign BignumLoops.
Section Junk.
Variable junk_word : Z.

Local Abbreviation digits_of b := (firstn (Z.to_nat (length_ b)) (data_ b)).

Lemma value_of_magnitude : forall b,
  value b = if neg_ b then - magnitude b else magnitude b.
Proof. reflexivity. Qed.

Lemma firstn_prefix_app : forall (A : Type) (d l1 l2 : list A) n k,
  firstn n d = l1 ++ l2 -> k = List.length l1 -> firstn k d = l1.
Proof.
  intros A d l1 l2 n k H ->.
  assert (Hn : (List.length l1 <= n)%nat).
  { assert (Hlen : List.length (firstn n d) = List.length (l1 ++ l2)) by (rewrite H; reflexivity).
    rewrite length_firstn, length_app in Hlen. lia. }
  assert (H1 : firstn (List.length l1) (firstn n d) = firstn (List.length l1) (l1 ++ l2))
    by (rewrite H; reflexivity).
  rewrite firstn_firstn, Nat.min_l in H1 by lia.
  rewrite firstn_app_exact in H1 by reflexivity. exact H1.
Qed.

(** operator*=(unsigned) multiplies the value by the digit. *)
Lemma mul_assign_unsigned_spec : forall this y,
  well_formed this = true -> length_ this <= 65532 -> 0 <= y < 2 ^ 32 ->
  exists r, operator_mul_assign_unsigned junk_word this y = Ok r /\
    value r = value this * y /\ well_formed r = true /\ canonical r = true /\
    length_ r <= length_ this + 1 /\ (neg_ this = false -> neg_ r = false).
Proof.
  intros this y Hw Hn Hy. destruct (well_formed_facts this Hw) as (Hl & Hc & Hd).
  unfold operator_mul_assign_unsigned, length.
  rewrite rd_in by lia. cbn [bind].
  destruct (incr_length_spec junk_word this (length_ this + 1) Hw ltac:(lia))
    as (t & Ht & Htl & Htn & Htd & Htw).
  rewrite Ht. cbn [bind].
  destruct (well_formed_facts t Htw) as (Hl' & Hc' & Hd').
  replace (length_ this + 1 - length_ this) with 1 in Htd by lia.
  cbn [Z.to_nat Pos.to_nat Pos.iter_op repeat] in Htd.
  rewrite Htl in *.
  replace (Z.to_nat (length_ this + 1)) with (S (Z.to_nat (length_ this))) in * by lia.
  set (n := Z.to_nat (length_ this)) in *.
  assert (Hpre : firstn n (data_ t) = firstn n (data_ this)).
  { apply (firstn_prefix_app Z (data_ t) _ [0] (S n) n Htd).
    rewrite length_firstn. unfold Zlen in Hl. lia. }
  destruct (mul_loop_spec n 0 (nth (Z.to_nat 0) (data_ this) 0) 0 y (data_ t))
    as (d' & carry' & Hrun & Hlen' & _ & Hsuf & Hdg & Hcarry & Hval).
  - unfold Zlen in Hl'. lia.
  - exact Hy.
  - lia.
  - cbn [skipn]. exact Hd'.
  - intros Hn1. cbn [Z.to_nat].
    assert (H0 : nth 0 (firstn n (data_ t)) 0 = nth 0 (firstn n (data_ this)) 0)
      by (rewrite Hpre; reflexivity).
    rewrite !nth_firstn in H0.
    replace (0 <? n)%nat with true in H0 by (symmetry; apply Nat.ltb_lt; lia).
    symmetry. exact H0.
  - change (Z.of_nat 0) with 0 in Hrun. rewrite Hrun. cbn [bind].
    rewrite wr_in by (unfold Zlen in *; lia). cbn [bind].
    cbn [skipn] in Hval, Hdg. rewrite Hpre in Hval.
    set (res := with_data t (upd d' (Z.to_nat (length_ this)) carry')).
    fold n. fold n in res.
    assert (Hresd : firstn (S n) (data_ res) = firstn n d' ++ [carry']).
    { unfold res, with_data. cbn [data_]. apply firstn_succ_upd. unfold Zlen in *. lia. }
    assert (Hresw : well_formed res = true).
    { apply well_formed_intro; unfold res, with_data; cbn [data_ length_].
      - rewrite Zlen_upd. unfold Zlen in *. lia.
      - rewrite Zlen_upd. unfold Zlen in *. lia.
      - rewrite Htl. replace (Z.to_nat (length_ this + 1)) with (S n) by lia.
        unfold res, with_data in Hresd. cbn [data_] in Hresd. rewrite Hresd.
        rewrite forallb_app, Hdg. cbn [forallb]. rewrite andb_true_r.
        apply is_digit_range. exact Hcarry. }
    destruct (reduce_spec res Hresw) as (r & Hr & Hcan & Hv & Hrw & Hrl & Hrn).
    exists r. split; [exact Hr|]. split.
    + rewrite Hv. unfold value, magnitude.
      replace (length_ res) with (length_ this + 1) by (unfold res, with_data; cbn; lia).
      replace (Z.to_nat (length_ this + 1)) with (S n) by lia.
      rewrite Hresd, dv_app. unfold Zlen. rewrite length_firstn.
      rewrite Nat.min_l by (unfold Zlen in *; lia).
      cbn [digits_value]. replace (neg_ res) with (neg_ this)
        by (unfold res, with_data; cbn [neg_]; congruence).
      fold n.
      destruct (neg_ this); nia.
    + split; [exact Hrw|]. split; [exact Hcan|]. split.
      * replace (length_ res) with (length_ this + 1) in Hrl
          by (unfold res, with_data; cbn; lia). exact Hrl.
      * intros Hneg. apply Hrn. unfold res, with_data. cbn [neg_]. congruence.
Qed.

(** operator*=(int) *)
Lemma mul_assign_int_spec : forall this y,
  well_formed this = true -> length_ this <= 65532 -> - 2 ^ 31 < y < 2 ^ 31 ->
  exists r, operator_mul_assign_int junk_word this y = Ok r /\
    value r = value this * y /\ well_formed r = true /\
    length_ r <= length_ this + 1 /\ top_digit_nonzero r = true /\
    (neg_ this = false -> 0 <= y -> neg_ r = false).
Proof.
  intros this y Hw Hn Hy. unfold operator_mul_assign_int.
  destruct (Z.ltb_spec y 0) as [Hneg|Hpos].
  - rewrite (u32_small (- y)) by lia.
    destruct (mul_assign_unsigned_spec this (- y) Hw Hn ltac:(lia))
      as (t & Ht & Hv & Htw & Hcan & Hl & _).
    rewrite Ht. cbn [bind]. eexists. split; [reflexivity|].
    destruct (well_formed_facts t Htw) as (Hl' & Hc' & Hd').
    unfold canonical in Hcan. apply andb_true_iff in Hcan. destruct Hcan as [_ Htop].
    split; [|split; [|split; [exact Hl|split; [exact Htop|intros; lia]]]].
    + unfold value, magnitude, with_neg in *. cbn [neg_ length_ data_].
      destruct (neg_ t); cbn [negb]; lia.
    + apply well_formed_intro; unfold with_neg; cbn [length_ data_]; try lia. exact Hd'.
  - rewrite (u32_small y) by lia.
    destruct (mul_assign_unsigned_spec this y Hw Hn ltac:(lia))
      as (t & Ht & Hv & Htw & Hcan & Hl & Hneg).
    rewrite Ht. cbn [bind]. exists t. split; [reflexivity|].
    unfold canonical in Hcan. apply andb_true_iff in Hcan. destruct Hcan as [_ Htop].
    split; [exact Hv|]. split; [exact Htw|]. split; [exact Hl|]. split; [exact Htop|].
    intros H0 _. apply Hneg. exact H0.
Qed.

(** friend operator*(basic_bignum x, int y) *)
Lemma mul_int_spec : forall x y,
  well_formed x = true -> length_ x <= 65532 -> - 2 ^ 31 < y < 2 ^ 31 ->
  exists r, operator_mul_int junk_word x y = Ok r /\
    value r = value x * y /\ well_formed r = true /\
    length_ r <= length_ x + 1 /\ top_digit_nonzero r = true /\
    (neg_ x = false -> 0 <= y -> neg_ r = false).
Proof.
  intros x y Hw Hn Hy. unfold operator_mul_int.
  destruct (copy_spec junk_word x Hw) as (c & Hcopy & Hcl & Hcn & Hcd & Hcw).
  rewrite Hcopy. cbn [bind].
  destruct (mul_assign_int_spec c y Hcw ltac:(lia) Hy)
    as (t & Ht & Hv & Htw & Hl & Htop & Hneg).
  rewrite Ht. cbn [bind].
  destruct (copy_spec junk_word t Htw) as (r & Hcopy2 & Hrl & Hrn & Hrd & Hrw).
  exists r. split; [exact Hcopy2|].
  destruct (copy_value x c Hcl Hcn Hcd) as (Hvc & _).
  destruct (copy_value t r Hrl Hrn Hrd) as (Hvr & _ & Htr & _).
  split; [congruence|]. split; [exact Hrw|]. split; [lia|]. split; [congruence|].
  intros H0 Hy0. rewrite Hrn. apply Hneg; [congruence|exact Hy0].
Qed.

Lemma nth_last_zero : forall (D L : list Z) n z,
  firstn n D = L ++ repeat 0 z -> (1 <= z)%nat -> n = (List.length L + z)%nat ->
  nth (n - 1) D 0 = 0.
Proof.
  intros D L n z H Hz Hn.
  assert (H1 : nth (n - 1) (firstn n D) 0 = nth (n - 1) (L ++ repeat 0 z) 0)
    by (rewrite H; reflexivity).
  rewrite nth_firstn in H1.
  replace (n - 1 <? n)%nat with true in H1 by (symmetry; apply Nat.ltb_lt; lia).
  rewrite H1. rewrite app_nth2 by lia. apply nth_repeat.
Qed.

(** operator+= on operands of the same sign adds the magnitudes. *)
Lemma add_assign_same_sign : forall depth this y,
  well_formed this = true -> well_formed y = true ->
  length_ this <= 65532 -> length_ y <= 65532 -> neg_ this = neg_ y ->
  exists r, plus_minus junk_word (S depth) false this y = Ok r /\
    value r = value this + value y /\ well_formed r = true /\ canonical r = true /\
    length_ r <= Z.max (length_ this) (length_ y) + 1 /\
    (neg_ this = false -> neg_ r = false).
Proof.
  intros depth this y Hw Hwy Hn Hny Hsign.
  destruct (well_formed_facts this Hw) as (Hl & Hc & Hd).
  destruct (well_formed_facts y Hwy) as (Hly & Hcy & Hdy).
  cbn [plus_minus]. rewrite Hsign. rewrite Bool.eqb_reflx. cbn [negb]. unfold length.
  set (m := Z.max (length_ y) (length_ this)).
  destruct (incr_length_spec junk_word this (m + 1) Hw ltac:(lia))
    as (t & Ht & Htl & Htn & Htd & Htw).
  rewrite Ht. cbn [bind].
  destruct (well_formed_facts t Htw) as (Hl' & Hc' & Hd').
  rewrite Htl in *.
  set (n := Z.to_nat (m + 1)) in *.
  destruct (add_loop_spec n 0 0 (data_ t) (data_ y) (length_ y))
    as (d' & c' & Hrun & Hlen' & _ & _ & Hdg & Hc01 & Hval & Hlast).
  - unfold Zlen in Hl'. lia.
  - lia.
  - left. reflexivity.
  - cbn [skipn]. exact Hd'.
  - exact Hdy.
  - change (Z.of_nat 0) with 0 in Hrun. rewrite Hrun. cbn [bind].
    cbn [skipn] in Hval, Hdg.
    assert (Hc0 : c' = 0).
    { apply Hlast; [lia|lia|].
      apply (nth_last_zero (data_ t) (digits_of this) (0 + n)
               (Z.to_nat (m + 1 - length_ this)) Htd); [lia|].
      rewrite length_firstn. unfold Zlen in Hl. lia. }
    subst c'. rewrite Z.mul_0_r, Z.add_0_r in Hval.
    rewrite Htd, dv_app, dv_repeat_zero in Hval.
    rewrite (firstn_all2 (n := n) (firstn (Z.to_nat (length_ y)) (data_ y))) in Hval
      by (rewrite length_firstn; lia).
    set (res := with_data t d').
    assert (Hresw : well_formed res = true).
    { apply well_formed_intro; unfold res, with_data; cbn [data_ length_].
      - unfold Zlen in *. lia.
      - unfold Zlen in *. lia.
      - rewrite Htl. exact Hdg. }
    destruct (reduce_spec res Hresw) as (r & Hr & Hcan & Hv & Hrw & Hrl & Hrn).
    exists r. split; [exact Hr|]. split.
    + rewrite Hv. unfold value, magnitude.
      replace (length_ res) with (m + 1) by (unfold res, with_data; cbn; lia).
      replace (data_ res) with d' by reflexivity. fold n. rewrite Hval.
      replace (neg_ res) with (neg_ this)
        by (unfold res, with_data; cbn [neg_]; congruence).
      rewrite <- Hsign. destruct (neg_ this); lia.
    + split; [exact Hrw|]. split; [exact Hcan|]. split.
      * replace (length_ res) with (m + 1) in Hrl
          by (unfold res, with_data; cbn; lia). unfold m in Hrl. lia.
      * intros Hneg. apply Hrn. unfold res, with_data. cbn [neg_]. congruence.
Qed.

(** friend operator+(basic_bignum x, const basic_bignum& y), same signs *)
Lemma add_same_sign : forall x y,
  well_formed x = true -> well_formed y = true ->
  length_ x <= 65532 -> length_ y <= 65532 -> neg_ x = neg_ y ->
  exists r, operator_add junk_word x y = Ok r /\
    value r = value x + value y /\ well_formed r = true /\ canonical r = true /\
    length_ r <= Z.max (length_ x) (length_ y) + 1 /\
    (neg_ x = false -> neg_ r = false).
Proof.
  intros x y Hw Hwy Hn Hny Hsign. unfold operator_add, operator_add_assign.
  destruct (copy_spec junk_word x Hw) as (c & Hcopy & Hcl & Hcn & Hcd & Hcw).
  rewrite Hcopy. cbn [bind].
  destruct (add_assign_same_sign 3 c y Hcw Hwy ltac:(lia) Hny ltac:(congruence))
    as (t & Ht & Hv & Htw & Hcan & Hl & Hneg).
  rewrite Ht. cbn [bind].
  destruct (copy_spec junk_word t Htw) as (r & Hcopy2 & Hrl & Hrn & Hrd & Hrw).
  exists r. split; [exact Hcopy2|].
  destruct (copy_value x c Hcl Hcn Hcd) as (Hvc & _).
  destruct (copy_value t r Hrl Hrn Hrd) as (Hvr & _ & _ & Hcr).
  split; [congruence|]. split; [exact Hrw|]. split; [congruence|]. split; [lia|].
  intros H0. rewrite Hrn. apply Hneg. congruence.
Qed.

End Junk.
End BignumOps.

Module BignumParse.
Import Bignum.
Import BignumMore BignumArith BignumOrder BignumOrder2 BignumBlocks BignumAssign BignumLoops BignumOps.
Section Junk.
Variable junk_word : Z.

Local Abbreviation digits_of b := (firstn (Z.to_nat (length_ b)) (data_ b)).

Lemma canonical_of_top : forall b,
  neg_ b = false -> top_digit_nonzero b = true -> canonical b = true.
Proof.
  intros b Hn Ht. unfold canonical, zero_is_unsigned. rewrite Hn, Ht.
  destruct (length_ b =? 0); reflexivity.
Qed.

Lemma magnitude_nonneg : forall b, well_formed b = true -> 0 <= magnitude b.
Proof.
  intros b Hw. destruct (well_formed_facts b Hw) as (_ & _ & Hd).
  unfold magnitude. apply (dv_range _ Hd).
Qed.

Lemma length_from_value : forall b m,
  well_formed b = true -> canonical b = true -> 0 <= m ->
  magnitude b < 2 ^ (32 * m) -> length_ b <= m.
Proof.
  intros b m Hw Hc Hm Hv.
  destruct (magnitude_bounds b Hw Hc) as [(H0 & _)|(Hpos & Hlo & _)]; [lia|].
  destruct (Z_le_gt_dec (length_ b) m) as [Hle|Hgt]; [exact Hle|].
  assert (2 ^ (32 * m) <= 2 ^ (32 * (length_ b - 1))) by (apply Z.pow_le_mono_r; lia).
  lia.
Qed.

Lemma small_int_facts : forall c,
  0 <= c < 2 ^ 31 ->
  well_formed (basic_bignum_i32 junk_word c) = true /\
  neg_ (basic_bignum_i32 junk_word c) = false /\
  value (basic_bignum_i32 junk_word c) = c /\
  length_ (basic_bignum_i32 junk_word c) <= 1 /\
  canonical (basic_bignum_i32 junk_word c) = true.
Proof.
  intros c Hc. unfold basic_bignum_i32, initialize_u32.
  replace (c <? 0) with false by (symmetry; apply Z.ltb_ge; lia).
  rewrite (u32_small c) by lia.
  destruct (Z.eqb_spec c 0) as [->|Hne].
  - repeat split; try reflexivity. cbn. lia.
  - split; [|split; [reflexivity|split; [|split]]].
    + apply well_formed_intro; cbn [length_ data_].
      * unfold Zlen. cbn. lia.
      * unfold Zlen. cbn. lia.
      * change (Z.to_nat 1) with 1%nat. cbn [firstn forallb].
        rewrite andb_true_r. apply is_digit_range. lia.
    + unfold value, magnitude. cbn [neg_ length_ data_].
      change (Z.to_nat 1) with 1%nat. cbn [firstn digits_value]. lia.
    + cbn [length_]. lia.
    + unfold canonical, zero_is_unsigned, top_digit_nonzero. cbn [neg_ length_ data_].
      change (1 =? 0) with false. change (1 >? 0) with true. cbv iota.
      change (Z.to_nat (1 - 1)) with 0%nat. cbn [nth negb andb].
      apply negb_true_iff. apply Z.eqb_neq. exact Hne.
Qed.

Lemma accumulate_spec : forall base B m digits v u,
  0 < base < 2 ^ 31 -> base <= B -> B <= 2 ^ 31 -> 0 <= m <= 65000 ->
  Forall (fun c => 0 <= c < B) digits ->
  well_formed v = true -> canonical v = true -> neg_ v = false ->
  1 <= u -> value v <= u - 1 -> u * B ^ Zlen digits <= 2 ^ (32 * m) ->
  exists r, accumulate junk_word base digits v = Ok r /\
    value r = fold_left (fun a d => a * base + d) digits (value v) /\
    well_formed r = true /\ canonical r = true /\ neg_ r = false /\ length_ r <= m.
Proof.
  intros base B m digits. induction digits as [|c digits IH];
    intros v u Hbase HB HB2 Hm Hdig Hw Hcan Hneg Hu Hv Hbound.
  - exists v. cbn [accumulate fold_left]. repeat split; try assumption.
    apply length_from_value; try assumption; [lia|].
    unfold value in Hv. rewrite Hneg in Hv.
    change (Zlen (@nil Z)) with 0 in Hbound. rewrite Z.pow_0_r in Hbound.
    set (T := 2 ^ (32 * m)) in *. lia.
  - cbn [accumulate fold_left]. inversion Hdig as [|c' l' Hc Hrest]; subst.
    assert (Hmag : magnitude v = value v) by (unfold value; rewrite Hneg; reflexivity).
    assert (Hv0 : 0 <= value v).
    { rewrite <- Hmag. apply magnitude_nonneg. exact Hw. }
    assert (HBpos : 1 <= B ^ Zlen digits).
    { assert (0 < B ^ Zlen digits); [apply Z.pow_pos_nonneg; unfold Zlen; lia|lia]. }
    assert (Hstep : Zlen (c :: digits) = Zlen digits + 1)
      by (unfold Zlen; cbn [List.length]; rewrite Nat2Z.inj_succ; lia).
    rewrite Hstep in Hbound. rewrite Z.pow_add_r in Hbound by (unfold Zlen; lia).
    rewrite Z.pow_1_r in Hbound.
    set (T := 2 ^ (32 * m)) in *.
    assert (Hubig : u * B <= T) by nia.
    assert (Hlenv : length_ v <= m).
    { apply length_from_value; try assumption; [lia|]. rewrite Hmag. fold T. nia. }
    destruct (mul_int_spec junk_word v base Hw ltac:(lia) ltac:(lia))
      as (p & Hp & Hpv & Hpw & Hpl & Hpt & Hpn).
    rewrite Hp. cbn [bind].
    specialize (Hpn Hneg ltac:(lia)).
    destruct (small_int_facts c ltac:(lia)) as (Hcw & Hcn & Hcv & Hcl & Hcc).
    unfold operator_add_int.
    destruct (add_same_sign junk_word p (basic_bignum_i32 junk_word c) Hpw Hcw
                ltac:(lia) ltac:(lia) ltac:(congruence))
      as (s & Hs & Hsv & Hsw & Hsc & Hsl & Hsn).
    rewrite Hs. cbn [bind]. specialize (Hsn Hpn).
    destruct (well_formed_facts v Hw) as (Hl & Hcap & _).
    destruct (assign_spec junk_word v s ltac:(unfold capacity; lia) Hsw ltac:(lia))
      as (v' & Hv' & Hvl & Hvn & Hvd & Hvw).
    rewrite Hv'. cbn [bind].
    destruct (copy_value s v' Hvl Hvn Hvd) as (Hvv & _ & _ & Hvc).
    destruct (IH v' (u * B)) as (r & Hr & Hrv & Hrw & Hrc & Hrn & Hrl); try assumption.
    + congruence.
    + congruence.
    + nia.
    + rewrite Hvv, Hsv, Hpv, Hcv. nia.
    + lia.
    + exists r. split; [exact Hr|]. split; [|repeat split; assumption].
      rewrite Hrv, Hvv, Hsv, Hpv, Hcv. reflexivity.
Qed.

End Junk.
End BignumParse.

Module BignumCtor.
Import Bignum.
Import BignumMore BignumArith BignumOrder BignumOrder2 BignumBlocks BignumAssign BignumLoops BignumOps BignumParse.
Section Junk.
Variable junk_word : Z.

Lemma pow_bound : forall B N m,
  0 < B <= 256 -> 0 <= N -> 8 * N <= 32 * m -> B ^ N <= 2 ^ (32 * m).
Proof.
  intros B N m HB HN Hm.
  apply Z.le_trans with (256 ^ N); [apply Z.pow_le_mono_l; lia|].
  change 256 with (2 ^ 8). rewrite <- Z.pow_mul_r by lia.
  apply Z.pow_le_mono_r; lia.
Qed.

Lemma zero_start :
  well_formed (basic_bignum_i32 junk_word 0) = true /\
  canonical (basic_bignum_i32 junk_word 0) = true /\
  neg_ (basic_bignum_i32 junk_word 0) = false /\
  value (basic_bignum_i32 junk_word 0) = 0.
Proof. repeat split. Qed.

(* what the two constructors share: the accumulation from 0 and initialize *)
Lemma accumulate_initialize : forall base B digits (neg : bool),
  0 < base < 2 ^ 31 -> base <= B -> B <= 256 ->
  Forall (fun c => 0 <= c < B) digits -> Zlen digits <= 260000 ->
  exists b,
    (v <- accumulate junk_word base digits (basic_bignum_i32 junk_word 0) ;;
     initialize junk_word (if neg then with_neg v true else v)) = Ok b /\
    value b = (if neg then - horner base digits else horner base digits) /\
    well_formed b = true.
Proof.
  intros base B digits neg Hbase HB HB2 Hdig Hlen.
  destruct zero_start as (Hzw & Hzc & Hzn & Hzv).
  assert (Hm : exists m, 0 <= m <= 65000 /\ 8 * 260000 <= 32 * m) by (exists 65000; lia).
  destruct Hm as (m & Hm1 & Hm2).
  assert (Hbound : 1 * B ^ Zlen digits <= 2 ^ (32 * m)).
  { rewrite Z.mul_1_l. apply pow_bound; [lia|unfold Zlen; lia|lia]. }
  destruct (accumulate_spec junk_word base B m digits (basic_bignum_i32 junk_word 0) 1
              Hbase HB ltac:(lia) ltac:(lia) Hdig Hzw Hzc Hzn ltac:(lia)
              ltac:(rewrite Hzv; lia) Hbound)
    as (r & Hr & Hrv & Hrw & Hrc & Hrn & Hrl).
  clear Hbound. rewrite Hr. cbn [bind]. rewrite Hzv in Hrv. fold (horner base digits) in Hrv.
  destruct (well_formed_facts r Hrw) as (Hl & Hc & Hd).
  assert (Hnw : well_formed (if neg then with_neg r true else r) = true).
  { destruct neg; [|exact Hrw].
    apply well_formed_intro; unfold with_neg; cbn [length_ data_]; try lia. exact Hd. }
  destruct (initialize_spec junk_word (if neg then with_neg r true else r) Hnw)
    as (b & Hb & Hbv & Hbw & _).
  { destruct neg; unfold with_neg; cbn [length_]; lia. }
  exists b. split; [exact Hb|]. split; [|exact Hbw].
  rewrite Hbv. destruct neg; [|exact Hrv].
  unfold value, magnitude, with_neg in *. cbn [neg_ length_ data_].
  rewrite Hrn in Hrv. lia.
Qed.

(** X8. basic_bignum(int signum, const uint8_t* str, size_t n) succeeds on
    up to 260000 bytes and reads them as digits in base 16, most significant
    first: the value is their Horner sum in base 16, negated when signum is
    -1; the bignum is well formed. *)
Theorem binary_constructor_value : forall signum bytes,
  Forall (fun c => 0 <= c < 256) bytes -> Zlen bytes <= 260000 ->
  exists b, basic_bignum_bin junk_word signum bytes = Ok b /\
    value b = (if signum =? -1 then -1 else 1) * horner 16 bytes /\
    well_formed b = true.
Proof.
  intros signum bytes Hb Hlen. unfold basic_bignum_bin.
  destruct (accumulate_initialize 16 256 bytes (signum =? -1) ltac:(lia) ltac:(lia)
              ltac:(lia) Hb Hlen) as (b & Hrun & Hv & Hw).
  exists b. split; [exact Hrun|]. split; [|exact Hw].
  rewrite Hv. destruct (signum =? -1); lia.
Qed.

Lemma char_value_digit : forall d, 0 <= d <= 9 -> char_value (digit_char d) = d + 48.
Proof.
  intros d Hd. unfold char_value, digit_char, char_0.
  rewrite N_ascii_embedding by lia.
  rewrite Z2N.id by lia.
  replace (d + 48 >=? 128) with false by (symmetry; rewrite Z.geb_leb; apply Z.leb_gt; lia).
  reflexivity.
Qed.

Lemma c_str_digits : forall digits,
  Forall (fun d => 0 <= d <= 9) digits ->
  c_str (string_of_list_ascii (map digit_char digits)) = map (fun d => d + 48) digits.
Proof.
  induction digits as [|d digits IH]; intros Hd; [reflexivity|].
  inversion Hd as [|d' l' Hd1 Hd2]; subst.
  cbn [map string_of_list_ascii c_str]. rewrite char_value_digit by exact Hd1.
  replace (d + 48 =? 0) with false by (symmetry; apply Z.eqb_neq; lia).
  rewrite IH by exact Hd2. reflexivity.
Qed.

Lemma skip_space_digits : forall digits,
  Forall (fun d => 0 <= d <= 9) digits ->
  skip_space (map (fun d => d + 48) digits) = map (fun d => d + 48) digits.
Proof.
  intros [|d digits] Hd; [reflexivity|].
  inversion Hd as [|d' l' Hd1 Hd2]; subst. cbn [map skip_space].
  unfold isspace.
  replace (d + 48 =? 32) with false by (symmetry; apply Z.eqb_neq; lia).
  replace (d + 48 <=? 13) with false by (symmetry; apply Z.leb_gt; lia).
  rewrite andb_false_r. reflexivity.
Qed.

Lemma unshift_digits : forall digits,
  map (fun c => c - char_0) (map (fun d => d + 48) digits) = digits.
Proof.
  intros digits. rewrite map_map. rewrite <- (map_id digits) at 2.
  apply map_ext. intros d. unfold char_0. lia.
Qed.

(** basic_bignum(const char* str) on a decimal numeral. *)
Lemma decimal_constructor_spec : forall (neg : bool) digits,
  Forall (fun d => 0 <= d <= 9) digits -> Zlen digits <= 260000 ->
  exists b, basic_bignum_str junk_word (decimal_string neg digits) = Ok b /\
    value b = (if neg then - horner 10 digits else horner 10 digits) /\
    well_formed b = true.
Proof.
  intros neg digits Hd Hlen.
  assert (Hd' : Forall (fun c => 0 <= c < 10) digits).
  { apply Forall_impl with (2 := Hd). intros; lia. }
  unfold basic_bignum_str, decimal_string.
  destruct neg.
  - cbn [app string_of_list_ascii c_str].
    change (char_value "-" =? 0) with false. cbv iota.
    change (char_value "-") with 45. rewrite c_str_digits by exact Hd.
    cbn [skip_space]. change (isspace 45) with false. cbv iota.
    change (45 =? char_minus) with true. cbv iota.
    rewrite unshift_digits.
    apply (accumulate_initialize 10 10 digits true); try lia; assumption.
  - cbn [app]. rewrite c_str_digits by exact Hd. rewrite skip_space_digits by exact Hd.
    destruct digits as [|d digits].
    + cbn [map].
      apply (accumulate_initialize 10 10 [] false); try lia; assumption.
    + inversion Hd as [|d' l' Hd1 Hd2]; subst.
      cbn [map]. replace (d + 48 =? char_minus) with false
        by (symmetry; apply Z.eqb_neq; unfold char_minus; lia).
      change (d + 48 :: map (fun d0 => d0 + 48) digits)
        with (map (fun d0 => d0 + 48) (d :: digits)).
      rewrite unshift_digits.
      apply (accumulate_initialize 10 10 (d :: digits) false); try lia; assumption.
Qed.

(** X9. basic_bignum(const char* str) reads a decimal numeral of up to
    260000 digits, with or without a leading minus sign: it succeeds, the
    value is the number written, and the bignum is well formed. *)
Theorem decimal_constructor_value : forall (neg : bool) digits,
  Forall (fun d => 0 <= d <= 9) digits -> Zlen digits <= 260000 ->
  exists b, basic_bignum_str junk_word (decimal_string neg digits) = Ok b /\
    value b = (if neg then - horner 10 digits else horner 10 digits) /\
    well_formed b = true.
Proof. exact decimal_constructor_spec. Qed.

End Junk.

Lemma binary_constructor_value_witness :
  let bytes := [1; 0; 255; 16] in
  (Forall (fun c => 0 <= c < 256) bytes /\ Zlen bytes <= 260000) /\
  exists b, basic_bignum_bin 0 (-1) bytes = Ok b /\
    value b = (if -1 =? -1 then -1 else 1) * horner 16 bytes /\
    well_formed b = true.
Proof.
  intros bytes.
  assert (Hb : Forall (fun c => 0 <= c < 256) bytes) by (repeat constructor; lia).
  assert (Hn : Zlen bytes <= 260000) by (vm_compute; discriminate).
  exact (conj (conj Hb Hn) (binary_constructor_value 0 (-1) bytes Hb Hn)).
Defined.

Lemma decimal_constructor_value_witness :
  let digits := [1; 8; 4; 4; 6; 7; 4; 4; 0; 7; 3; 7; 0; 9; 5; 5; 1; 6; 1; 6] in
  (Forall (fun d => 0 <= d <= 9) digits /\ Zlen digits <= 260000) /\
  exists b, basic_bignum_str 0 (decimal_string true digits) = Ok b /\
    value b = (if true then - horner 10 digits else horner 10 digits) /\
    well_formed b = true.
Proof.
  intros digits.
  assert (Hd : Forall (fun d => 0 <= d <= 9) digits) by (repeat constructor; lia).
  assert (Hn : Zlen digits <= 260000) by (vm_compute; discriminate).
  exact (conj (conj Hd Hn) (decimal_constructor_value 0 true digits Hd Hn)).
Defined.

End BignumCtor.

Module BignumSub.
Import Bignum.
Import BignumMore BignumArith BignumOrder BignumOrder2 BignumBlocks BignumAssign BignumLoops BignumOps BignumParse.

Local Abbreviation win d k n := (digits_value (firstn n (skipn k d))).
Local Abbreviation digits_of b := (firstn (Z.to_nat (length_ b)) (data_ b)).

Lemma sub_borrow : forall x y,
  0 <= x < 2 ^ 32 -> 0 <= y < 2 ^ 32 ->
  x - y = u32 (x - y) - 2 ^ 32 * b2z (u32 (x - y) >? x).
Proof.
  intros x y Hx Hy. unfold u32. rewrite Z.gtb_ltb.
  destruct (Z_le_gt_dec y x) as [Hle|Hgt].
  - rewrite Z.mod_small by lia.
    replace (x <? x - y) with false by (symmetry; apply Z.ltb_ge; lia).
    simpl. lia.
  - assert (Hm : (x - y) mod 2 ^ 32 = x - y + 2 ^ 32).
    { symmetry. apply Z.mod_unique with (q := -1); lia. }
    rewrite Hm.
    replace (x <? x - y + 2 ^ 32) with true by (symmetry; apply Z.ltb_lt; lia).
    simpl. lia.
Qed.

(** operator-=: the digit loop *)
Lemma sub_loop_spec : forall n k borrow d yd ylen,
  (k + n <= List.length d)%nat -> 0 <= ylen <= Zlen yd -> (borrow = 0 \/ borrow = 1) ->
  forallb is_digit (firstn n (skipn k d)) = true ->
  forallb is_digit (firstn (Z.to_nat ylen) yd) = true ->
  exists d' b', sub_loop n (Z.of_nat k) borrow d yd ylen = Ok d' /\
    List.length d' = List.length d /\ firstn k d' = firstn k d /\
    skipn (k + n) d' = skipn (k + n) d /\
    forallb is_digit (firstn n (skipn k d')) = true /\ (b' = 0 \/ b' = 1) /\
    win d' k n - 2 ^ (32 * Z.of_nat n) * b'
      = win d k n - win (firstn (Z.to_nat ylen) yd) k n - borrow.
Proof.
  induction n as [|n IH]; intros k borrow d yd ylen Hlen Hylen Hborrow Hd Hyd.
  - exists d, borrow. cbn [sub_loop firstn digits_value forallb].
    rewrite Nat.add_0_r. repeat split; try lia.
  - cbn [sub_loop].
    set (Y := firstn (Z.to_nat ylen) yd) in *.
    assert (HYlen : List.length Y = Z.to_nat ylen).
    { unfold Y. rewrite length_firstn. unfold Zlen in Hylen. lia. }
    rewrite Z.geb_leb.
    destruct (Z.leb_spec ylen (Z.of_nat k)) as [Hge|Hlt];
      [destruct (Z.eqb_spec borrow 0) as [Hc0|Hc1]|]; cbn [andb].
    + exists d, 0. split; [reflexivity|]. split; [reflexivity|]. split; [reflexivity|].
      split; [reflexivity|]. split; [exact Hd|]. split; [left; reflexivity|].
      rewrite (win_beyond Y k) by lia. lia.
    + assert (borrow = 1) by lia. subst borrow.
      assert (Hk : (k < List.length d)%nat) by lia.
      destruct (digits_window_succ d k n Hk Hd) as (Hx & Hd').
      rewrite rd_in by (unfold Zlen; lia). cbn [bind]. rewrite Nat2Z.id.
      replace (Z.of_nat k <? ylen) with false by (symmetry; apply Z.ltb_ge; lia).
      pose proof (sub_borrow (nth k d 0) 1 Hx ltac:(lia)) as Hc.
      set (dd := u32 (nth k d 0 - 1)) in *.
      assert (Hdd : 0 <= dd < 2 ^ 32) by apply u32_range.
      rewrite wr_in by (unfold Zlen; lia). cbn [bind]. rewrite Nat2Z.id.
      replace (Z.of_nat k + 1) with (Z.of_nat (S k)) by lia.
      assert (Hb : b2z (dd >? nth k d 0) = 0 \/ b2z (dd >? nth k d 0) = 1)
        by (unfold b2z; destruct (dd >? nth k d 0); lia).
      destruct (IH (S k) (b2z (dd >? nth k d 0)) (upd d k dd) yd ylen)
        as (d' & b' & Hrun & Hl' & Hpre & Hsuf & Hdg & Hb' & Hval).
      * rewrite upd_length. lia.
      * exact Hylen.
      * exact Hb.
      * rewrite skipn_upd_below by lia. exact Hd'.
      * exact Hyd.
      * exists d', b'. fold Y in Hval. rewrite Hrun. split; [reflexivity|].
        rewrite upd_length in Hl'. split; [exact Hl'|].
        rewrite firstn_succ_upd in Hpre by lia.
        assert (Hnk : nth k d' 0 = dd) by (apply (nth_from_prefix d d' k dd Hpre); lia).
        assert (Hpre' : firstn k d' = firstn k d).
        { assert (H1 : firstn k (firstn (S k) d') = firstn k (firstn k d ++ [dd]))
            by (rewrite Hpre; reflexivity).
          rewrite firstn_firstn, Nat.min_l in H1 by lia.
          rewrite firstn_app_exact in H1 by (rewrite length_firstn; lia). exact H1. }
        split; [exact Hpre'|].
        rewrite skipn_upd_below in Hsuf by lia.
        replace (k + S n)%nat with (S k + n)%nat by lia. split; [exact Hsuf|].
        split.
        { rewrite (firstn_succ_skipn Z d' k n 0) by lia. cbn [forallb].
          rewrite Hdg, Hnk. rewrite andb_true_r. apply is_digit_range. exact Hdd. }
        split; [exact Hb'|].
        rewrite skipn_upd_below in Hval by lia.
        rewrite (win_beyond Y (S k)) in Hval by lia.
        rewrite (win_succ d' k n) by lia. rewrite (win_succ d k n) by lia.
        rewrite (win_beyond Y k) by lia.
        rewrite pow32_succ, Hnk. nia.
    + assert (Hk : (k < List.length d)%nat) by lia.
      destruct (digits_window_succ d k n Hk Hd) as (Hx & Hd').
      rewrite rd_in by (unfold Zlen; lia). cbn [bind]. rewrite Nat2Z.id.
      replace (Z.of_nat k <? ylen) with true by (symmetry; apply Z.ltb_lt; lia).
      pose proof (sub_borrow (nth k d 0) borrow Hx ltac:(lia)) as Hc.
      set (dd := u32 (nth k d 0 - borrow)) in *.
      assert (Hdd : 0 <= dd < 2 ^ 32) by apply u32_range.
      assert (HkY : (k < List.length Y)%nat) by lia.
      assert (HyiY : nth k Y 0 = nth k yd 0).
      { unfold Y. rewrite nth_firstn.
        replace (k <? Z.to_nat ylen)%nat with true by (symmetry; apply Nat.ltb_lt; lia).
        reflexivity. }
      assert (Hyi : 0 <= nth k yd 0 < 2 ^ 32).
      { rewrite <- HyiY. apply is_digit_range. rewrite forallb_forall in Hyd.
        apply Hyd. apply nth_In. exact HkY. }
      rewrite (rd_in yd) by (unfold Zlen in *; lia). cbn [bind]. rewrite Nat2Z.id.
      pose proof (sub_borrow dd (nth k yd 0) Hdd Hyi) as Hc2.
      set (s := u32 (dd - nth k yd 0)) in *.
      assert (Hs : 0 <= s < 2 ^ 32) by apply u32_range.
      rewrite wr_in by (unfold Zlen; lia). cbn [bind]. rewrite Nat2Z.id.
      replace (Z.of_nat k + 1) with (Z.of_nat (S k)) by lia.
      assert (Hb1 : b2z (dd >? nth k d 0) = 0 \/ b2z (dd >? nth k d 0) = 1)
        by (unfold b2z; destruct (dd >? nth k d 0); lia).
      assert (Hb2 : b2z (s >? dd) = 0 \/ b2z (s >? dd) = 1)
        by (unfold b2z; destruct (s >? dd); lia).
      assert (Hborrow2 : (if s >? dd then 1 else b2z (dd >? nth k d 0))
                         = b2z (dd >? nth k d 0) + b2z (s >? dd)).
      { destruct (s >? dd); [change (b2z true) with 1 in *|change (b2z false) with 0 in *];
          lia. }
      rewrite Hborrow2.
      destruct (IH (S k) (b2z (dd >? nth k d 0) + b2z (s >? dd)) (upd d k s) yd ylen)
        as (d' & b' & Hrun & Hl' & Hpre & Hsuf & Hdg & Hb' & Hval).
      * rewrite upd_length. lia.
      * exact Hylen.
      * lia.
      * rewrite skipn_upd_below by lia. exact Hd'.
      * exact Hyd.
      * exists d', b'. fold Y in Hval. rewrite Hrun. split; [reflexivity|].
        rewrite upd_length in Hl'. split; [exact Hl'|].
        rewrite firstn_succ_upd in Hpre by lia.
        assert (Hnk : nth k d' 0 = s) by (apply (nth_from_prefix d d' k s Hpre); lia).
        assert (Hpre' : firstn k d' = firstn k d).
        { assert (H1 : firstn k (firstn (S k) d') = firstn k (firstn k d ++ [s]))
            by (rewrite Hpre; reflexivity).
          rewrite firstn_firstn, Nat.min_l in H1 by lia.
          rewrite firstn_app_exact in H1 by (rewrite length_firstn; lia). exact H1. }
        split; [exact Hpre'|].
        rewrite skipn_upd_below in Hsuf by lia.
        replace (k + S n)%nat with (S k + n)%nat by lia. split; [exact Hsuf|].
        split.
        { rewrite (firstn_succ_skipn Z d' k n 0) by lia. cbn [forallb].
          rewrite Hdg, Hnk. rewrite andb_true_r. apply is_digit_range. exact Hs. }
        split; [exact Hb'|].
        rewrite skipn_upd_below in Hval by lia.
        rewrite (win_succ d' k n) by lia. rewrite (win_succ d k n) by lia.
        rewrite (win_succ Y k n) by lia.
        rewrite pow32_succ, Hnk, HyiY. nia.
Qed.

End BignumSub.

Module BignumSigned.
Import Bignum.
Import BignumMore BignumArith BignumOrder BignumOrder2 BignumBlocks BignumAssign BignumLoops BignumOps BignumParse BignumSub.
Section Junk.
Variable junk_word : Z.

Local Abbreviation win d k n := (digits_value (firstn n (skipn k d))).
Local Abbreviation digits_of b := (firstn (Z.to_nat (length_ b)) (data_ b)).

Lemma magnitude_bounds_top : forall b,
  well_formed b = true -> top_digit_nonzero b = true ->
  (length_ b = 0 /\ magnitude b = 0) \/
  (0 < length_ b /\ 2 ^ (32 * (length_ b - 1)) <= magnitude b < 2 ^ (32 * length_ b)).
Proof.
  intros b Hw Ht.
  set (b0 := mk_bignum (data_ b) false (length_ b)).
  assert (Hw0 : well_formed b0 = true) by exact Hw.
  assert (Hc0 : canonical b0 = true).
  { unfold canonical, zero_is_unsigned. cbn [length_ neg_ b0].
    change (top_digit_nonzero b0) with (top_digit_nonzero b). rewrite Ht.
    destruct (length_ b =? 0); reflexivity. }
  destruct (magnitude_bounds b0 Hw0 Hc0) as [(H1 & H2 & _)|H]; [left|right]; auto.
Qed.

Lemma sgn_of_order : forall code a b,
  (code <? 0) = (a <? b) -> (0 <? code) = (b <? a) -> Z.sgn code = Z.sgn (a - b).
Proof.
  intros code a b H1 H2.
  destruct (Z.ltb_spec code 0), (Z.ltb_spec a b); try discriminate;
  destruct (Z.ltb_spec 0 code), (Z.ltb_spec b a); try discriminate;
  destruct (Z.sgn_spec code) as [(A1 & A2)|[(A1 & A2)|(A1 & A2)]];
  destruct (Z.sgn_spec (a - b)) as [(A3 & A4)|[(A3 & A4)|(A3 & A4)]]; lia.
Qed.

Lemma order_of_sgn : forall c a b,
  Z.sgn c = Z.sgn (a - b) -> (c <? 0) = (a <? b) /\ (0 <? c) = (b <? a).
Proof.
  intros c a b Hs.
  destruct (Z.sgn_spec c) as [(A1 & A2)|[(A1 & A2)|(A1 & A2)]];
  destruct (Z.sgn_spec (a - b)) as [(A3 & A4)|[(A3 & A4)|(A3 & A4)]]; try lia;
  split;
  destruct (Z.ltb_spec c 0), (Z.ltb_spec a b), (Z.ltb_spec 0 c), (Z.ltb_spec b a);
  try reflexivity; lia.
Qed.

Lemma compare_same_flag : forall x y,
  well_formed x = true -> well_formed y = true ->
  top_digit_nonzero x = true -> top_digit_nonzero y = true -> neg_ x = neg_ y ->
  exists c, compare x y = Ok c /\
    Z.sgn c = Z.sgn (if neg_ x then magnitude y - magnitude x
                     else magnitude x - magnitude y).
Proof.
  intros x y Wx Wy Tx Ty Hflag.
  set (x0 := mk_bignum (data_ x) false (length_ x)).
  set (y0 := mk_bignum (data_ y) false (length_ y)).
  assert (Cx : canonical x0 = true).
  { unfold canonical, zero_is_unsigned. cbn [length_ neg_ x0].
    change (top_digit_nonzero x0) with (top_digit_nonzero x). rewrite Tx.
    destruct (length_ x =? 0); reflexivity. }
  assert (Cy : canonical y0 = true).
  { unfold canonical, zero_is_unsigned. cbn [length_ neg_ y0].
    change (top_digit_nonzero y0) with (top_digit_nonzero y). rewrite Ty.
    destruct (length_ y =? 0); reflexivity. }
  destruct (comparison_of_values x0 y0 Wx Wy Cx Cy) as (Hlt & Hgt & Heq & _).
  unfold operator_lt, operator_gt, operator_eq in *.
  assert (Hcode : compare x0 y0
                  = (code <- (if (length x =? 0) || (length y =? 0)
                              then Ok (length x - length y)
                              else if length x <? length y then Ok (-1)
                              else if length x >? length y then Ok 1
                              else compare_loop (Z.to_nat (length x)) (data_ x) (data_ y)
                                     (length x - 1)) ;; Ok code)) by reflexivity.
  assert (Hxy : compare x y
                = (code <- (if (length x =? 0) || (length y =? 0)
                            then Ok (length x - length y)
                            else if length x <? length y then Ok (-1)
                            else if length x >? length y then Ok 1
                            else compare_loop (Z.to_nat (length x)) (data_ x) (data_ y)
                                   (length x - 1)) ;;
                   Ok (if neg_ x then - code else code))).
  { unfold compare. rewrite Hflag. rewrite Bool.eqb_reflx. reflexivity. }
  rewrite Hxy. rewrite Hcode in Hlt, Hgt, Heq.
  destruct (if (length x =? 0) || (length y =? 0) then Ok (length x - length y)
            else if length x <? length y then Ok (-1)
            else if length x >? length y then Ok 1
            else compare_loop (Z.to_nat (length x)) (data_ x) (data_ y) (length x - 1))
    as [code|f]; cbn [bind] in *; [|discriminate].
  eexists. split; [reflexivity|].
  assert (Hvx : value x0 = magnitude x) by reflexivity.
  assert (Hvy : value y0 = magnitude y) by reflexivity.
  rewrite Hvx, Hvy in *.
  inversion Hlt as [Hlt']. inversion Hgt as [Hgt'].
  rewrite Z.gtb_ltb in Hgt'. rewrite Z.gtb_ltb in Hgt'.
  pose proof (sgn_of_order code (magnitude x) (magnitude y) Hlt' Hgt') as Hs.
  destruct (neg_ x); [|exact Hs].
  rewrite Z.sgn_opp, Hs, <- Z.sgn_opp. f_equal. lia.
Qed.

(* the test of operator-=: !neg_ && y > *this || neg_ && y < *this *)
Lemma swap_test : forall this y,
  well_formed this = true -> well_formed y = true ->
  top_digit_nonzero this = true -> top_digit_nonzero y = true -> neg_ this = neg_ y ->
  (if negb (neg_ this) then operator_gt y this else operator_lt y this)
  = Ok (magnitude this <? magnitude y).
Proof.
  intros this y Wt Wy Tt Ty Hflag.
  destruct (compare_same_flag y this Wy Wt Ty Tt (eq_sym Hflag)) as (c & Hc & Hs).
  unfold operator_gt, operator_lt. rewrite Hc. cbn [bind]. rewrite <- Hflag in Hs.
  rewrite Z.gtb_ltb.
  destruct (neg_ this); cbn [negb]; f_equal.
  - destruct (order_of_sgn c (magnitude this) (magnitude y) Hs) as (H1 & H2). exact H1.
  - destruct (order_of_sgn c (magnitude y) (magnitude this) Hs) as (H1 & H2). exact H2.
Qed.

Lemma shorter_of_smaller : forall this y,
  well_formed this = true -> well_formed y = true ->
  top_digit_nonzero this = true -> top_digit_nonzero y = true ->
  magnitude y <= magnitude this -> length_ y <= length_ this.
Proof.
  intros this y Wt Wy Tt Ty Hm.
  destruct (magnitude_bounds_top this Wt Tt) as [(L0 & M0)|(Lp & Mlo & Mhi)];
  destruct (magnitude_bounds_top y Wy Ty) as [(L0' & M0')|(Lp' & Mlo' & Mhi')]; try lia.
  destruct (Z_le_gt_dec (length_ y) (length_ this)) as [Hle|Hgt]; [exact Hle|].
  assert (2 ^ (32 * length_ this) <= 2 ^ (32 * (length_ y - 1)))
    by (apply Z.pow_le_mono_r; lia).
  lia.
Qed.

Lemma top_of_digits : forall n c,
  length_ c = length_ n -> digits_of c = digits_of n ->
  top_digit_nonzero c = top_digit_nonzero n.
Proof.
  intros n c Hl Hd.
  set (c0 := mk_bignum (data_ c) (neg_ n) (length_ c)).
  destruct (copy_value n c0 Hl eq_refl Hd) as (_ & _ & Ht & _). exact Ht.
Qed.

(* one unfolding of the mutual recursion of operator+= and operator-= *)
Lemma plus_minus_step : forall depth' minus this y,
  plus_minus junk_word (S depth') minus this y
  = if negb (Bool.eqb (neg_ this) (neg_ y))
    then ny <- operator_neg junk_word y ;; plus_minus junk_word depth' (negb minus) this ny
    else if minus
    then
      swap <- (if negb (neg_ this) then operator_gt y this else operator_lt y this) ;;
      if swap
      then
        x <- basic_bignum_copy junk_word y ;;
        t <- plus_minus junk_word depth' true x this ;;
        t' <- basic_bignum_copy junk_word t ;;
        nt <- operator_neg junk_word t' ;;
        operator_assign junk_word this nt
      else
        d <- sub_loop (Z.to_nat (length this)) 0 0 (data_ this) (data_ y) (length y) ;;
        reduce (with_data this d)
    else
      t <- incr_length junk_word this (Z.max (length y) (length this) + 1) ;;
      d <- add_loop (Z.to_nat (length t)) 0 0 (data_ t) (data_ y) (length y) ;;
      reduce (with_data t d).
Proof. reflexivity. Qed.

(** operator-= on operands of the same sign, the left one not the smaller *)
Lemma sub_assign_no_swap : forall depth this y,
  well_formed this = true -> well_formed y = true ->
  top_digit_nonzero this = true -> top_digit_nonzero y = true ->
  neg_ this = neg_ y -> magnitude y <= magnitude this ->
  exists r, plus_minus junk_word (S depth) true this y = Ok r /\
    value r = value this - value y /\ well_formed r = true /\ canonical r = true /\
    length_ r <= length_ this.
Proof.
  intros depth this y Wt Wy Tt Ty Hflag Hm.
  destruct (well_formed_facts this Wt) as (Hl & Hc & Hd).
  destruct (well_formed_facts y Wy) as (Hly & Hcy & Hdy).
  pose proof (shorter_of_smaller this y Wt Wy Tt Ty Hm) as Hshort.
  rewrite plus_minus_step.
    replace (Bool.eqb (neg_ this) (neg_ y)) with true
      by (rewrite Hflag; symmetry; apply Bool.eqb_reflx).
    cbn [negb].
  rewrite (swap_test this y Wt Wy Tt Ty Hflag).
  replace (magnitude this <? magnitude y) with false by (symmetry; apply Z.ltb_ge; lia).
  cbn [bind]. unfold length.
  set (n := Z.to_nat (length_ this)) in *.
  destruct (sub_loop_spec n 0 0 (data_ this) (data_ y) (length_ y))
    as (d' & b' & Hrun & Hlen' & _ & _ & Hdg & Hb01 & Hval).
  - unfold Zlen in Hl. lia.
  - lia.
  - left. reflexivity.
  - cbn [skipn]. exact Hd.
  - exact Hdy.
  - change (Z.of_nat 0) with 0 in Hrun. rewrite Hrun. cbn [bind].
    cbn [skipn] in Hval, Hdg.
    rewrite (firstn_all2 (n := n) (firstn (Z.to_nat (length_ y)) (data_ y))) in Hval
      by (rewrite length_firstn; lia).
    change (digits_value (firstn n (data_ this))) with (magnitude this) in Hval.
    change (digits_value (firstn (Z.to_nat (length_ y)) (data_ y))) with (magnitude y) in Hval.
    assert (Hrange : 0 <= digits_value (firstn n d') < 2 ^ (32 * Z.of_nat n)).
    { apply dv_firstn_range; [unfold Zlen in Hl; lia|exact Hdg]. }
    assert (Hb0 : b' = 0) by (destruct Hb01; [assumption|nia]).
    subst b'. rewrite Z.mul_0_r, Z.sub_0_r, Z.sub_0_r in Hval.
    set (res := with_data this d').
    assert (Hresw : well_formed res = true).
    { apply well_formed_intro; unfold res, with_data; cbn [data_ length_].
      - unfold Zlen in *. lia.
      - unfold Zlen in *. lia.
      - exact Hdg. }
    destruct (reduce_spec res Hresw) as (r & Hr & Hcan & Hv & Hrw & Hrl & _).
    exists r. split; [exact Hr|]. split.
    + rewrite Hv. unfold value.
      change (magnitude res) with (digits_value (firstn n d')). rewrite Hval.
      change (neg_ res) with (neg_ this). rewrite <- Hflag.
      destruct (neg_ this); lia.
    + split; [exact Hrw|]. split; [exact Hcan|]. exact Hrl.
Qed.

Lemma with_neg_facts : forall b f,
  well_formed b = true ->
  well_formed (with_neg b f) = true /\
  top_digit_nonzero (with_neg b f) = top_digit_nonzero b /\
  magnitude (with_neg b f) = magnitude b.
Proof. intros b f Hw. repeat split. exact Hw. Qed.

(** operator-= on operands of the same sign *)
Lemma sub_assign_same_sign : forall depth this y,
  well_formed this = true -> well_formed y = true ->
  top_digit_nonzero this = true -> top_digit_nonzero y = true ->
  length_ this <= 65532 -> length_ y <= 65532 ->
  neg_ this = neg_ y ->
  exists r, plus_minus junk_word (S (S depth)) true this y = Ok r /\
    value r = value this - value y /\ well_formed r = true /\ canonical r = true /\
    length_ r <= Z.max (length_ this) (length_ y).
Proof.
  intros depth this y Wt Wy Tt Ty Ht Hy Hflag.
  destruct (Z_le_gt_dec (magnitude y) (magnitude this)) as [Hle|Hgt].
  - destruct (sub_assign_no_swap (S depth) this y Wt Wy Tt Ty Hflag Hle)
      as (r & Hr & Hv & Hw & Hc & Hlen).
    exists r. repeat split; try assumption. lia.
  - rewrite plus_minus_step.
    replace (Bool.eqb (neg_ this) (neg_ y)) with true
      by (rewrite Hflag; symmetry; apply Bool.eqb_reflx).
    cbn [negb].
    rewrite (swap_test this y Wt Wy Tt Ty Hflag).
    replace (magnitude this <? magnitude y) with true by (symmetry; apply Z.ltb_lt; lia).
    cbn [bind].
    destruct (copy_spec junk_word y Wy) as (x & Hx & Hxl & Hxn & Hxd & Hxw).
    rewrite Hx. cbn [bind].
    destruct (copy_value y x Hxl Hxn Hxd) as (Hxv & Hxm & Hxt & _).
    destruct (sub_assign_no_swap depth x this Hxw Wt ltac:(congruence) Tt
                ltac:(congruence) ltac:(lia))
      as (t & Hrun & Htv & Htw & Htc & Htl).
    rewrite Hrun. cbn [bind].
    destruct (copy_spec junk_word t Htw) as (t' & Ht' & Htl' & Htn' & Htd' & Htw').
    rewrite Ht'. cbn [bind].
    destruct (copy_value t t' Htl' Htn' Htd') as (Htv' & Htm' & Htt' & Htc').
    destruct (neg_spec junk_word t' Htw') as (nt & Hnt & Hntl & Hntn & Hntd & Hntw & Hntv).
    rewrite Hnt. cbn [bind].
    destruct (well_formed_facts this Wt) as (Hl & Hcap & _).
    destruct (assign_spec junk_word this nt ltac:(unfold capacity; lia) Hntw ltac:(lia))
      as (r & Hr & Hrl & Hrn & Hrd & Hrw).
    exists r. split; [exact Hr|].
    destruct (copy_value nt r Hrl Hrn Hrd) as (Hrv & Hrm & Hrt & Hrc).
    split; [rewrite Hrv, Hntv, Htv', Htv, Hxv; lia|]. split; [exact Hrw|].
    split; [|lia].
    (* the difference is not zero, so that its negation is canonical *)
    rewrite Hrc. unfold canonical in Htc |- *. apply andb_true_iff in Htc.
    destruct Htc as [Htz Htt].
    assert (Hnz : length_ t <> 0).
    { intros H0. assert (Hm0 : magnitude t = 0) by (unfold magnitude; rewrite H0; reflexivity).
      unfold value in Htv. rewrite Hm0, Hxm, Hxn, <- Hflag in Htv.
      destruct (neg_ t), (neg_ this); lia. }
    assert (Htop : top_digit_nonzero nt = true).
    { rewrite (top_of_digits t' nt Hntl Hntd). rewrite Htt'. exact Htt. }
    rewrite Htop. unfold zero_is_unsigned. rewrite Hntl, Htl'.
    replace (length_ t =? 0) with false by (symmetry; apply Z.eqb_neq; exact Hnz).
    reflexivity.
Qed.

End Junk.
End BignumSigned.

Module BignumAddSub.
Import Bignum.
Import BignumMore BignumArith BignumOrder BignumOrder2 BignumBlocks BignumAssign BignumLoops BignumOps BignumParse BignumSub BignumSigned.
Section Junk.
Variable junk_word : Z.

Local Abbreviation digits_of b := (firstn (Z.to_nat (length_ b)) (data_ b)).

Lemma top_of_canonical : forall b, canonical b = true -> top_digit_nonzero b = true.
Proof. intros b H. unfold canonical in H. apply andb_true_iff in H. apply H. Qed.

(** operator+= and operator-=, whatever the signs *)
Lemma plus_minus_spec : forall depth (minus : bool) this y,
  well_formed this = true -> well_formed y = true ->
  top_digit_nonzero this = true -> top_digit_nonzero y = true ->
  length_ this <= 65532 -> length_ y <= 65532 ->
  exists r, plus_minus junk_word (S (S (S depth))) minus this y = Ok r /\
    value r = (if minus then value this - value y else value this + value y) /\
    well_formed r = true /\ canonical r = true /\
    length_ r <= Z.max (length_ this) (length_ y) + 1.
Proof.
  intros depth minus this y Wt Wy Tt Ty Ht Hy.
  destruct (Bool.bool_dec (neg_ this) (neg_ y)) as [Hflag|Hdiff].
  - destruct minus.
    + destruct (sub_assign_same_sign junk_word (S depth) this y Wt Wy Tt Ty Ht Hy Hflag)
        as (r & Hr & Hv & Hw & Hc & Hl).
      exists r. repeat split; try assumption. lia.
    + destruct (add_assign_same_sign junk_word (S (S depth)) this y Wt Wy Ht Hy Hflag)
        as (r & Hr & Hv & Hw & Hc & Hl & _).
      exists r. repeat split; assumption.
  - rewrite plus_minus_step.
    replace (Bool.eqb (neg_ this) (neg_ y)) with false
      by (symmetry; apply Bool.eqb_false_iff; exact Hdiff).
    cbn [negb].
    destruct (neg_spec junk_word y Wy) as (ny & Hny & Hnl & Hnn & Hnd & Hnw & Hnv).
    rewrite Hny. cbn [bind].
    assert (Hflag : neg_ this = neg_ ny).
    { rewrite Hnn. destruct (neg_ this), (neg_ y); try reflexivity; congruence. }
    assert (Tny : top_digit_nonzero ny = true).
    { rewrite (top_of_digits y ny Hnl Hnd). exact Ty. }
    destruct minus; cbn [negb].
    + destruct (add_assign_same_sign junk_word (S depth) this ny Wt Hnw Ht
                  ltac:(lia) Hflag) as (r & Hr & Hv & Hw & Hc & Hl & _).
      exists r. split; [exact Hr|]. split; [rewrite Hv, Hnv; lia|].
      split; [exact Hw|]. split; [exact Hc|]. lia.
    + destruct (sub_assign_same_sign junk_word depth this ny Wt Hnw Tt Tny Ht
                  ltac:(lia) Hflag) as (r & Hr & Hv & Hw & Hc & Hl).
      exists r. split; [exact Hr|]. split; [rewrite Hv, Hnv; lia|].
      split; [exact Hw|]. split; [exact Hc|]. lia.
Qed.

(** operator+ and operator-, whatever the signs *)
Lemma add_sub_spec : forall x y,
  well_formed x = true -> well_formed y = true ->
  canonical x = true -> canonical y = true ->
  length_ x <= 65532 -> length_ y <= 65532 ->
  (exists r, operator_add junk_word x y = Ok r /\ value r = value x + value y /\
             well_formed r = true /\ canonical r = true) /\
  (exists r, operator_sub junk_word x y = Ok r /\ value r = value x - value y /\
             well_formed r = true /\ canonical r = true).
Proof.
  intros x y Wx Wy Cx Cy Hx Hy.
  pose proof (top_of_canonical x Cx) as Tx. pose proof (top_of_canonical y Cy) as Ty.
  destruct (copy_spec junk_word x Wx) as (c & Hcopy & Hcl & Hcn & Hcd & Hcw).
  destruct (copy_value x c Hcl Hcn Hcd) as (Hvc & _ & Htc & _).
  split.
  - unfold operator_add, operator_add_assign. rewrite Hcopy. cbn [bind].
    destruct (plus_minus_spec 1 false c y Hcw Wy ltac:(congruence) Ty ltac:(lia) Hy)
      as (t & Ht & Hv & Htw & Hcan & _).
    rewrite Ht. cbn [bind].
    destruct (copy_spec junk_word t Htw) as (r & Hcopy2 & Hrl & Hrn & Hrd & Hrw).
    destruct (copy_value t r Hrl Hrn Hrd) as (Hvr & _ & _ & Hcr).
    exists r. split; [exact Hcopy2|]. split; [congruence|]. split; [exact Hrw|]. congruence.
  - unfold operator_sub, operator_sub_assign. rewrite Hcopy. cbn [bind].
    destruct (plus_minus_spec 1 true c y Hcw Wy ltac:(congruence) Ty ltac:(lia) Hy)
      as (t & Ht & Hv & Htw & Hcan & _).
    rewrite Ht. cbn [bind].
    destruct (copy_spec junk_word t Htw) as (r & Hcopy2 & Hrl & Hrn & Hrd & Hrw).
    destruct (copy_value t r Hrl Hrn Hrd) as (Hvr & _ & _ & Hcr).
    exists r. split; [exact Hcopy2|]. split; [congruence|]. split; [exact Hrw|]. congruence.
Qed.

End Junk.

End BignumAddSub.

Module BignumShift.
Import Bignum.
Import BignumMore BignumArith BignumOrder BignumOrder2 BignumBlocks BignumAssign BignumLoops BignumOps BignumParse.

Local Abbreviation win d k n := (digits_value (firstn n (skipn k d))).
Local Abbreviation digits_of b := (firstn (Z.to_nat (length_ b)) (data_ b)).

(** *** Bits *)

Lemma land_shifted_low : forall a b k,
  0 <= k -> 0 <= b < 2 ^ k -> Z.land (a * 2 ^ k) b = 0.
Proof.
  intros a b k Hk Hb. apply Z.bits_inj'. intros n Hn.
  rewrite Z.land_spec, Z.bits_0. rewrite <- Z.shiftl_mul_pow2 by lia.
  destruct (Z.lt_ge_cases n k) as [Hlt|Hge].
  - rewrite Z.shiftl_spec_low by lia. reflexivity.
  - rewrite <- (Z.mod_small b (2 ^ k)) by lia.
    rewrite Z.mod_pow2_bits_high by lia. apply andb_false_r.
Qed.

Lemma lor_shifted_low : forall a b k,
  0 <= k -> 0 <= b < 2 ^ k -> Z.lor (a * 2 ^ k) b = a * 2 ^ k + b.
Proof.
  intros a b k Hk Hb. pose proof (Z.add_lor_land (a * 2 ^ k) b) as H.
  rewrite land_shifted_low in H by assumption. lia.
Qed.

(* 2^k and 2^(32-k) as a factorisation of 2^32 *)
Lemma pow_split : forall k, 0 <= k <= 32 ->
  2 ^ k * 2 ^ (32 - k) = 2 ^ 32 /\ 0 < 2 ^ k /\ 0 < 2 ^ (32 - k).
Proof.
  intros k Hk. rewrite <- Z.pow_add_r by lia.
  replace (k + (32 - k)) with 32 by lia.
  split; [reflexivity|]. split; apply Z.pow_pos_nonneg; lia.
Qed.

(* x << k in 32 bits: the top k bits leave *)
Lemma shl_digit : forall x k,
  0 <= x < 2 ^ 32 -> 0 <= k <= 32 ->
  u32 (Z.shiftl x k) = (x mod 2 ^ (32 - k)) * 2 ^ k /\
  x * 2 ^ k = 2 ^ 32 * (x / 2 ^ (32 - k)) + u32 (Z.shiftl x k) /\
  0 <= x / 2 ^ (32 - k) < 2 ^ k.
Proof.
  intros x k Hx Hk. destruct (pow_split k Hk) as (Hpq & Hp & Hq).
  rewrite Z.shiftl_mul_pow2 by lia. unfold u32.
  assert (Hm : (x * 2 ^ k) mod 2 ^ 32 = (x mod 2 ^ (32 - k)) * 2 ^ k).
  { rewrite <- Hpq. rewrite (Z.mul_comm (2 ^ k)).
    rewrite Z.mul_mod_distr_r by lia. reflexivity. }
  rewrite Hm. split; [reflexivity|].
  pose proof (Z.div_mod x (2 ^ (32 - k)) ltac:(lia)) as Hdm.
  split.
  - rewrite Hdm at 1. rewrite <- Hpq. ring.
  - split; [apply Z.div_pos; lia|]. apply Z.div_lt_upper_bound; [lia|].
    rewrite Z.mul_comm, Hpq. lia.
Qed.

(* the mask (1 << k) - 1 *)
Lemma mask_ones : forall k, 0 <= k < 32 -> u32 (Z.shiftl 1 k - 1) = Z.ones k.
Proof.
  intros k Hk. rewrite Z.shiftl_mul_pow2 by lia. rewrite Z.mul_1_l.
  rewrite Z.ones_equiv. unfold u32.
  assert (0 < 2 ^ k <= 2 ^ 31).
  { split; [apply Z.pow_pos_nonneg; lia|]. apply Z.pow_le_mono_r; lia. }
  rewrite Z.mod_small; lia.
Qed.

(** *** operator<<=: whole digits *)

Lemma nth_skipn_eq : forall (A : Type) n (a b : list A) j x,
  skipn n a = skipn n b -> nth (n + j) a x = nth (n + j) b x.
Proof.
  intros A n a b j x H. rewrite <- !nth_skipn. rewrite H. reflexivity.
Qed.

Lemma skipn_succ_eq : forall (A : Type) n (a b : list A),
  skipn n a = skipn n b -> skipn (S n) a = skipn (S n) b.
Proof.
  intros A n a b H.
  replace (S n) with (1 + n)%nat by lia.
  rewrite <- !skipn_skipn. rewrite H. reflexivity.
Qed.

Lemma firstn_succ_from : forall (d d' : list Z) n v (l : list Z),
  (n < List.length d)%nat -> List.length d' = List.length d ->
  skipn n d' = skipn n (upd d n v) -> firstn n d' = firstn n l ->
  (n < List.length l)%nat -> nth n l 0 = v ->
  firstn (S n) d' = firstn (S n) l.
Proof.
  intros d d' n v l Hn Hlen Hsk Hfi Hl Hv.
  rewrite (firstn_succ_nth Z d' n 0) by lia.
  rewrite (firstn_succ_nth Z l n 0) by lia.
  rewrite Hfi. f_equal. f_equal.
  pose proof (nth_skipn_eq Z n d' (upd d n v) 0%nat 0 Hsk) as Hnth.
  rewrite Nat.add_0_r in Hnth. rewrite Hnth, nth_upd, Nat.eqb_refl.
  replace (n <? List.length d)%nat with true by (symmetry; apply Nat.ltb_lt; lia).
  symmetry. exact Hv.
Qed.

Lemma shl_digits_spec : forall n q d,
  (n <= List.length d)%nat -> (1 <= q)%nat ->
  exists d', shl_digits_loop n (Z.of_nat n - 1) (Z.of_nat q) d = Ok d' /\
    List.length d' = List.length d /\ skipn n d' = skipn n d /\
    firstn n d' = firstn n (repeat 0 q ++ d).
Proof.
  induction n as [|n IH]; intros q d Hn Hq.
  - exists d. repeat split; reflexivity.
  - cbn [shl_digits_loop]. replace (Z.of_nat (S n) - 1) with (Z.of_nat n) by lia.
    set (v := nth n (repeat 0 q ++ d) 0).
    assert (Hv : (if Z.of_nat n <? Z.of_nat q then Ok 0
                  else rd d (Z.of_nat n - Z.of_nat q)) = Ok v).
    { unfold v. destruct (Z.ltb_spec (Z.of_nat n) (Z.of_nat q)) as [Hlt|Hge].
      - rewrite app_nth1 by (rewrite repeat_length; lia).
        rewrite nth_repeat. reflexivity.
      - rewrite rd_in by (unfold Zlen; lia).
        rewrite app_nth2 by (rewrite repeat_length; lia).
        rewrite repeat_length. do 2 f_equal. lia. }
    rewrite Hv. cbn [bind]. rewrite wr_in by (unfold Zlen; lia). cbn [bind].
    rewrite Nat2Z.id.
    destruct (IH q (upd d n v)) as (d' & Hr & Hlen & Hsk & Hfi);
      [rewrite upd_length; lia|lia|].
    exists d'. split; [exact Hr|]. rewrite upd_length in Hlen.
    split; [exact Hlen|]. split.
    + rewrite (skipn_succ_eq Z n d' (upd d n v) Hsk). apply skipn_upd_below. lia.
    + assert (Hsame : firstn n (repeat 0 q ++ upd d n v) = firstn n (repeat 0 q ++ d)).
      { rewrite !firstn_app. rewrite repeat_length. f_equal.
        apply firstn_upd_above. lia. }
      apply (firstn_succ_from d d' n v).
      * lia.
      * exact Hlen.
      * exact Hsk.
      * rewrite Hfi. exact Hsame.
      * rewrite length_app, repeat_length. lia.
      * reflexivity.
Qed.

(** *** operator<<=: the bits within a digit *)

(* what index [n - 1] pushes out at the top *)
Local Abbreviation pushed_out d n k :=
  (match n with
   | O => 0
   | S m => nth m d 0 / 2 ^ (32 - k)
   end).

Lemma nth_after_loop : forall (d d' : list Z) n v,
  (n < List.length d)%nat -> skipn n d' = skipn n (upd d n v) -> nth n d' 0 = v.
Proof.
  intros d d' n v Hn Hsk.
  pose proof (nth_skipn_eq Z n d' (upd d n v) 0%nat 0 Hsk) as Hnth.
  rewrite Nat.add_0_r in Hnth. rewrite Hnth, nth_upd, Nat.eqb_refl.
  replace (n <? List.length d)%nat with true by (symmetry; apply Nat.ltb_lt; lia).
  reflexivity.
Qed.

Lemma shl_bits_spec : forall n d k,
  0 < k < 32 -> (n <= List.length d)%nat ->
  forallb is_digit (firstn n d) = true ->
  exists d', shl_bits_loop n (Z.of_nat n - 1) k (32 - k) (Z.ones k) d = Ok d' /\
    List.length d' = List.length d /\ skipn n d' = skipn n d /\
    forallb is_digit (firstn n d') = true /\
    digits_value (firstn n d') + 2 ^ (32 * Z.of_nat n) * pushed_out d n k
      = 2 ^ k * digits_value (firstn n d).
Proof.
  intros n d k Hk. revert d.
  destruct (pow_split k ltac:(lia)) as (Hpq & Hp & Hq).
  induction n as [|n IH]; intros d Hn Hd.
  - exists d. cbn [shl_bits_loop firstn digits_value forallb].
    repeat split; try reflexivity. lia.
  - cbn [shl_bits_loop]. replace (Z.of_nat (S n) - 1) with (Z.of_nat n) by lia.
    destruct (digits_firstn_succ d n ltac:(lia) Hd) as (Hd0 & Hx).
    rewrite rd_in by (unfold Zlen; lia). cbn [bind]. rewrite Nat2Z.id.
    set (x := nth n d 0) in *.
    destruct (shl_digit x k Hx ltac:(lia)) as (Hshl & Hsplit & Hout).
    (* the digit written *)
    set (v := u32 (Z.shiftl x k) + pushed_out d n k).
    assert (Hpush : 0 <= pushed_out d n k < 2 ^ k).
    { destruct n as [|m]; [lia|].
      destruct (digits_firstn_succ d m ltac:(lia) Hd0) as (_ & Hlo).
      split; [apply Z.div_pos; lia|]. apply Z.div_lt_upper_bound; [lia|].
      rewrite Z.mul_comm, Hpq. lia. }
    assert (Hv : (if Z.of_nat n >? 0
                  then lo <- rd d (Z.of_nat n - 1) ;;
                       Ok (Z.lor (u32 (Z.shiftl x k))
                                 (Z.land (Z.shiftr lo (32 - k)) (Z.ones k)))
                  else Ok (u32 (Z.shiftl x k))) = Ok v).
    { unfold v. destruct n as [|m].
      - cbn [Z.of_nat Z.gtb Z.compare]. f_equal. lia.
      - replace (Z.of_nat (S m) >? 0) with true by (symmetry; apply Z.gtb_lt; lia).
        rewrite rd_in by (unfold Zlen; lia). cbn [bind]. f_equal.
        replace (Z.to_nat (Z.of_nat (S m) - 1)) with m by lia.
        rewrite Z.shiftr_div_pow2 by lia. rewrite Z.land_ones by lia.
        rewrite (Z.mod_small (nth m d 0 / 2 ^ (32 - k))) by exact Hpush.
        rewrite Hshl. apply lor_shifted_low; [lia|exact Hpush]. }
    rewrite Hv. cbn [bind]. rewrite wr_in by (unfold Zlen; lia). cbn [bind].
    rewrite Nat2Z.id.
    destruct (IH (upd d n v)) as (d' & Hr & Hlen & Hsk & Hdig & Hval).
    { rewrite upd_length. lia. }
    { rewrite firstn_upd_above by lia. exact Hd0. }
    exists d'. split; [exact Hr|]. rewrite upd_length in Hlen.
    pose proof (nth_after_loop d d' n v ltac:(lia) Hsk) as Hnth.
    assert (Hvr : 0 <= v < 2 ^ 32).
    { unfold v. rewrite Hshl.
      pose proof (Z.mod_pos_bound x (2 ^ (32 - k)) ltac:(lia)). nia. }
    split; [exact Hlen|]. split; [|split].
    + rewrite (skipn_succ_eq Z n d' (upd d n v) Hsk). apply skipn_upd_below. lia.
    + rewrite (firstn_succ_nth Z d' n 0) by lia. rewrite forallb_app, Hdig, Hnth.
      cbn [forallb]. rewrite andb_true_r. apply is_digit_range. exact Hvr.
    + rewrite dv_firstn_succ, Hnth. rewrite (dv_firstn_succ d n). fold x.
      rewrite firstn_upd_above in Hval by lia.
      assert (Hpo : pushed_out (upd d n v) n k = pushed_out d n k).
      { destruct n as [|m]; [reflexivity|].
        rewrite nth_upd. replace (m =? S m)%nat with false
          by (symmetry; apply Nat.eqb_neq; lia). reflexivity. }
      rewrite Hpo in Hval. fold x.
      rewrite pow32_succ. unfold v. nia.
Qed.

(** *** operator>>= *)

Lemma shr_bits_spec : forall m i d k,
  0 <= k < 32 -> (i + m <= List.length d)%nat ->
  forallb is_digit (firstn m (skipn i d)) = true ->
  exists d', shr_bits_loop m (Z.of_nat i) (Z.of_nat (i + m) - 1) k (32 - k) (Z.ones k) d
             = Ok d' /\
    List.length d' = List.length d /\ firstn i d' = firstn i d /\
    skipn (i + m) d' = skipn (i + m) d /\
    forallb is_digit (firstn m (skipn i d')) = true /\
    win d' i m = win d i m / 2 ^ k.
Proof.
  intros m i d k Hk. revert i d.
  destruct (pow_split k ltac:(lia)) as (Hpq & Hp & Hq).
  induction m as [|m IH]; intros i d Hn Hd.
  - exists d. cbn [shr_bits_loop firstn digits_value forallb].
    rewrite Nat.add_0_r. repeat split; try reflexivity.
  - cbn [shr_bits_loop].
    destruct (digits_window_succ d i m ltac:(lia) Hd) as (Hx & Hd1).
    rewrite rd_in by (unfold Zlen; lia). cbn [bind]. rewrite Nat2Z.id.
    set (x := nth i d 0) in *.
    set (U := win d (S i) m).
    set (v := x / 2 ^ k + (U mod 2 ^ k) * 2 ^ (32 - k)).
    assert (Hxk : 0 <= x / 2 ^ k < 2 ^ (32 - k)).
    { split; [apply Z.div_pos; lia|]. apply Z.div_lt_upper_bound; [lia|].
      rewrite Hpq. lia. }
    assert (HUk : 0 <= U mod 2 ^ k < 2 ^ k) by (apply Z.mod_pos_bound; lia).
    assert (Hv : (if Z.of_nat i <? Z.of_nat (i + S m) - 1
                  then hi <- rd d (Z.of_nat i + 1) ;;
                       Ok (Z.lor (Z.shiftr x k)
                                 (u32 (Z.shiftl (Z.land hi (Z.ones k)) (32 - k))))
                  else Ok (Z.shiftr x k)) = Ok v).
    { unfold v. rewrite Z.shiftr_div_pow2 by lia. destruct m as [|m'].
      - replace (Z.of_nat i <? Z.of_nat (i + 1) - 1) with false
          by (symmetry; apply Z.ltb_ge; lia).
        unfold U. cbn [firstn digits_value]. rewrite Z.mod_0_l by lia. f_equal. lia.
      - replace (Z.of_nat i <? Z.of_nat (i + S (S m')) - 1) with true
          by (symmetry; apply Z.ltb_lt; lia).
        rewrite rd_in by (unfold Zlen; lia). cbn [bind]. f_equal.
        replace (Z.to_nat (Z.of_nat i + 1)) with (S i) by lia.
        destruct (digits_window_succ d (S i) m' ltac:(lia) Hd1) as (Hhi & _).
        assert (HU : U mod 2 ^ k = nth (S i) d 0 mod 2 ^ k).
        { unfold U. rewrite win_succ by lia.
          replace (nth (S i) d 0 + 2 ^ 32 * win d (S (S i)) m')
            with (nth (S i) d 0 + (2 ^ (32 - k) * win d (S (S i)) m') * 2 ^ k)
            by (rewrite <- Hpq; ring).
          apply Z.mod_add. lia. }
        rewrite Z.land_ones by lia. rewrite <- HU.
        rewrite Z.shiftl_mul_pow2 by lia.
        rewrite u32_small by nia.
        rewrite Z.lor_comm. rewrite lor_shifted_low by lia. lia. }
    rewrite Hv. cbn [bind]. rewrite wr_in by (unfold Zlen; lia). cbn [bind].
    rewrite Nat2Z.id.
    replace (Z.of_nat i + 1) with (Z.of_nat (S i)) by lia.
    replace (Z.of_nat (i + S m) - 1) with (Z.of_nat (S i + m) - 1) by lia.
    destruct (IH (S i) (upd d i v)) as (d' & Hr & Hlen & Hfi & Hsk & Hdig & Hval).
    { rewrite upd_length. lia. }
    { rewrite skipn_upd_below by lia. exact Hd1. }
    exists d'. split; [exact Hr|]. rewrite upd_length in Hlen.
    rewrite skipn_upd_below in Hval by lia. fold U in Hval.
    rewrite firstn_succ_upd in Hfi by lia.
    pose proof (nth_from_prefix d d' i v Hfi ltac:(lia)) as Hnth.
    assert (Hvr : 0 <= v < 2 ^ 32) by (unfold v; nia).
    split; [exact Hlen|]. split; [|split; [|split]].
    + apply (firstn_prefix_app Z d' (firstn i d) [v] (S i) i Hfi).
      rewrite length_firstn. lia.
    + replace (i + S m)%nat with (S i + m)%nat by lia.
      rewrite Hsk. apply skipn_upd_below. lia.
    + rewrite (firstn_succ_skipn Z d' i m 0) by lia. cbn [forallb].
      rewrite Hdig, Hnth, andb_true_r. apply is_digit_range. exact Hvr.
    + rewrite win_succ by lia. rewrite Hnth, Hval.
      rewrite (win_succ d i m) by lia. fold x. fold U.
      pose proof (Z.div_mod U (2 ^ k) ltac:(lia)) as HdU.
      assert (Hdiv : (x + 2 ^ 32 * U) / 2 ^ k = x / 2 ^ k + 2 ^ (32 - k) * U).
      { rewrite <- Hpq. rewrite <- Z.mul_assoc.
        rewrite (Z.mul_comm (2 ^ k)). rewrite Z.div_add by lia. ring. }
      rewrite Hdiv. unfold v. rewrite <- Hpq.
      rewrite HdU at 3. ring.
Qed.

Lemma copy_words_from : forall n dst src i q,
  (i + n <= List.length dst)%nat -> (i + q + n <= List.length src)%nat ->
  copy_words n dst (Z.of_nat i) src (Z.of_nat (i + q))
  = Ok (firstn i dst ++ firstn n (skipn (i + q) src) ++ skipn (i + n) dst).
Proof.
  induction n as [|n IH]; intros dst src i q Hd Hs.
  - cbn [copy_words firstn app]. rewrite Nat.add_0_r. rewrite firstn_skipn. reflexivity.
  - cbn [copy_words]. rewrite rd_in by (unfold Zlen; lia). cbn [bind].
    rewrite wr_in by (unfold Zlen; lia). cbn [bind]. rewrite !Nat2Z.id.
    replace (Z.of_nat i + 1) with (Z.of_nat (S i)) by lia.
    replace (Z.of_nat (i + q) + 1) with (Z.of_nat (S i + q)) by lia.
    rewrite IH by (rewrite ?upd_length; lia).
    rewrite firstn_succ_upd by lia.
    rewrite skipn_upd_below by lia.
    rewrite (firstn_succ_skipn Z src (i + q) n 0) by lia.
    rewrite <- app_assoc. cbn [app]. replace (S i + n)%nat with (i + S n)%nat by lia.
    reflexivity.
Qed.

Lemma dv_firstn_split : forall d q n,
  digits_value (firstn (q + n) d)
  = digits_value (firstn q d) + 2 ^ (32 * Z.of_nat q) * win d q n.
Proof.
  intros d q n.
  assert (H : firstn (q + n) d = firstn q d ++ firstn n (skipn q d)).
  { rewrite <- (firstn_skipn q d) at 1. rewrite firstn_app, length_firstn.
    destruct (Nat.le_gt_cases q (List.length d)) as [Hle|Hgt].
    - rewrite Nat.min_l by lia. rewrite firstn_firstn.
      rewrite Nat.min_r by lia. f_equal. f_equal. lia.
    - rewrite Nat.min_r by lia.
      rewrite (skipn_all2 d) by lia. rewrite !firstn_nil, !app_nil_r.
      rewrite firstn_firstn. f_equal. lia. }
  rewrite H, dv_app.
  destruct (Nat.le_gt_cases q (List.length d)) as [Hle|Hgt].
  - unfold Zlen. rewrite length_firstn, Nat.min_l by lia. reflexivity.
  - rewrite (skipn_all2 d) by lia. rewrite firstn_nil. cbn [digits_value]. lia.
Qed.

Section Junk.
Variable junk_word : Z.

Lemma firstn_digits_of : forall b n,
  (n <= Z.to_nat (length_ b))%nat -> firstn n (data_ b) = firstn n (digits_of b).
Proof.
  intros b n Hn. rewrite firstn_firstn. rewrite Nat.min_l by lia. reflexivity.
Qed.

Lemma shl_whole_digits : forall this q,
  well_formed this = true -> 1 <= q -> length_ this + q <= 65533 ->
  exists t, (t0 <- incr_length junk_word this (length this + q) ;;
             d <- shl_digits_loop (Z.to_nat (length t0)) (length t0 - 1) q (data_ t0) ;;
             Ok (with_data t0 d)) = Ok t /\
    well_formed t = true /\ neg_ t = neg_ this /\ length_ t = length_ this + q /\
    magnitude t = 2 ^ (32 * q) * magnitude this.
Proof.
  intros this q Hw Hq Hn. destruct (well_formed_facts this Hw) as (Hl & Hc & Hd).
  unfold length.
  destruct (incr_length_spec junk_word this (length_ this + q) Hw ltac:(lia))
    as (t0 & Ht0 & Htl & Htn & Htd & Htw).
  rewrite Ht0. cbn [bind].
  destruct (well_formed_facts t0 Htw) as (Hl0 & Hc0 & Hd0).
  set (n := Z.to_nat (length_ t0)).
  destruct (shl_digits_spec n (Z.to_nat q) (data_ t0)) as (d' & Hr & Hlen & Hsk & Hfi).
  { unfold n, Zlen in *. lia. }
  { lia. }
  replace (length_ t0 - 1) with (Z.of_nat n - 1) by (unfold n; lia).
  rewrite Z2Nat.id in Hr by lia.
  rewrite Hr. cbn [bind]. eexists. split; [reflexivity|].
  unfold with_data. cbn [length_ neg_ data_].
  assert (Hdig : firstn n d' = repeat 0 (Z.to_nat q) ++ digits_of this).
  { rewrite Hfi. rewrite firstn_app, repeat_length.
    rewrite firstn_all2 by (rewrite repeat_length; unfold n; lia). f_equal.
    rewrite (firstn_digits_of t0) by (unfold n; lia). rewrite Htd.
    apply firstn_app_exact. rewrite length_firstn. unfold n, Zlen in *. lia. }
  split; [|split; [exact Htn|split; [exact Htl|]]].
  - apply well_formed_intro; cbn [length_ data_].
    + unfold Zlen in *. lia.
    + unfold Zlen in *. lia.
    + fold n. rewrite Hdig, forallb_app, forallb_repeat_zero. exact Hd.
  - unfold magnitude. cbn [length_ data_]. fold n. rewrite Hdig, dv_app, dv_repeat_zero.
    unfold Zlen. rewrite repeat_length. rewrite Z2Nat.id by lia. lia.
Qed.

Lemma shl_within_digit : forall t k,
  well_formed t = true -> 0 < k < 32 -> length_ t + 1 <= 65533 ->
  exists t', (t1 <- incr_length junk_word t (length t + 1) ;;
              d <- shl_bits_loop (Z.to_nat (length t1)) (length t1 - 1) k
                     (basic_type_bits - k) (u32 (Z.shiftl 1 k - 1)) (data_ t1) ;;
              Ok (with_data t1 d)) = Ok t' /\
    well_formed t' = true /\ neg_ t' = neg_ t /\
    magnitude t' = 2 ^ k * magnitude t.
Proof.
  intros t k Hw Hk Hn. destruct (well_formed_facts t Hw) as (Hl & Hc & Hd).
  unfold length. change basic_type_bits with 32. rewrite mask_ones by lia.
  destruct (incr_length_spec junk_word t (length_ t + 1) Hw ltac:(lia))
    as (t1 & Ht1 & Htl & Htn & Htd & Htw).
  rewrite Ht1. cbn [bind].
  destruct (well_formed_facts t1 Htw) as (Hl1 & Hc1 & Hd1).
  set (n := Z.to_nat (length_ t1)).
  destruct (shl_bits_spec n (data_ t1) k Hk) as (d' & Hr & Hlen & Hsk & Hdig & Hval).
  { unfold n, Zlen in *. lia. }
  { exact Hd1. }
  replace (length_ t1 - 1) with (Z.of_nat n - 1) by (unfold n; lia).
  rewrite Hr. cbn [bind]. eexists. split; [reflexivity|].
  unfold with_data. cbn [length_ neg_ data_].
  split; [|split; [exact Htn|]].
  - apply well_formed_intro; cbn [length_ data_].
    + unfold Zlen in *. lia.
    + unfold Zlen in *. lia.
    + exact Hdig.
  - unfold magnitude. cbn [length_ data_]. fold n.
    replace (length_ t + 1 - length_ t) with 1 in Htd by lia.
    change (repeat 0 (Z.to_nat 1)) with [0] in Htd.
    assert (Hn1 : n = S (Z.to_nat (length_ t))) by (unfold n; lia).
    rewrite Hn1 in Hval.
    assert (Htop : nth (Z.to_nat (length_ t)) (data_ t1) 0 = 0).
    { rewrite <- (firstn_skipn n (data_ t1)). fold n in Htd. rewrite Htd.
      rewrite <- app_assoc. rewrite app_nth2 by (rewrite length_firstn; unfold Zlen in *; lia).
      rewrite length_firstn. replace (Nat.min _ _) with (Z.to_nat (length_ t))
        by (unfold Zlen in *; lia).
      rewrite Nat.sub_diag. reflexivity. }
    rewrite Htop in Hval. rewrite Z.div_0_l in Hval
      by (apply Z.pow_nonzero; lia).
    rewrite <- Hn1 in Hval. fold n in Htd. rewrite Htd in Hval.
    rewrite dv_app in Hval. cbn [digits_value] in Hval. lia.
Qed.

Lemma value_scaled : forall a b c,
  neg_ a = neg_ b -> magnitude a = c * magnitude b -> value a = value b * c.
Proof.
  intros a b c Hn Hm. rewrite !value_of_magnitude, Hn, Hm.
  destruct (neg_ b); lia.
Qed.

(** operator<<=(unsigned k) multiplies by 2^k. *)
Lemma shl_assign_spec : forall this k,
  well_formed this = true -> 0 <= k -> length_ this + k / 32 + 1 <= 65533 ->
  exists r, operator_shl_assign junk_word this k = Ok r /\
    value r = value this * 2 ^ k /\ well_formed r = true /\ canonical r = true.
Proof.
  intros this k Hw Hk Hn. unfold operator_shl_assign. change basic_type_bits with 32.
  pose proof (Z.div_mod k 32 ltac:(lia)) as Hdm.
  pose proof (Z.mod_pos_bound k 32 ltac:(lia)) as Hmod.
  assert (Hq0 : 0 <= k / 32) by (apply Z.div_pos; lia).
  (* the whole digits *)
  assert (H1 : exists t,
    (if negb (k / 32 =? 0)
     then t0 <- incr_length junk_word this (length this + k / 32) ;;
          d <- shl_digits_loop (Z.to_nat (length t0)) (length t0 - 1) (k / 32) (data_ t0) ;;
          Ok (with_data t0 d, k mod 32)
     else Ok (this, k)) = Ok (t, k mod 32) /\
    well_formed t = true /\ neg_ t = neg_ this /\ length_ t = length_ this + k / 32 /\
    magnitude t = 2 ^ (32 * (k / 32)) * magnitude this).
  { destruct (Z.eqb_spec (k / 32) 0) as [H0|Hne]; cbn [negb].
    - exists this. rewrite H0 in *. split; [do 2 f_equal; lia|].
      repeat split; try assumption; lia.
    - destruct (shl_whole_digits this (k / 32) Hw ltac:(lia) ltac:(lia))
        as (t & Ht & Htw & Htn & Htl & Htm).
      exists t. split; [|repeat split; assumption].
      destruct (incr_length junk_word this (length this + k / 32)) as [t0|f];
        cbn [bind] in *; [|discriminate].
      destruct (shl_digits_loop (Z.to_nat (length t0)) (length t0 - 1) (k / 32)
                  (data_ t0)) as [d|f]; cbn [bind] in *; [|discriminate].
      congruence. }
  destruct H1 as (t & Ht & Htw & Htn & Htl & Htm). rewrite Ht. cbn [bind].
  (* the bits within a digit *)
  assert (H2 : exists t',
    (if negb (k mod 32 =? 0)
     then t1 <- incr_length junk_word t (length t + 1) ;;
          d <- shl_bits_loop (Z.to_nat (length t1)) (length t1 - 1) (k mod 32)
                 (32 - k mod 32) (u32 (Z.shiftl 1 (k mod 32) - 1)) (data_ t1) ;;
          Ok (with_data t1 d)
     else Ok t) = Ok t' /\
    well_formed t' = true /\ neg_ t' = neg_ t /\
    magnitude t' = 2 ^ (k mod 32) * magnitude t).
  { destruct (Z.eqb_spec (k mod 32) 0) as [H0|Hne]; cbn [negb].
    - exists t. rewrite H0. split; [reflexivity|]. repeat split; try assumption. lia.
    - apply (shl_within_digit t (k mod 32) Htw); lia. }
  destruct H2 as (t' & Ht' & Htw' & Htn' & Htm'). rewrite Ht'. cbn [bind].
  destruct (reduce_spec t' Htw') as (r & Hr & Hcan & Hv & Hrw & _).
  exists r. split; [exact Hr|]. split; [|split; assumption].
  rewrite Hv. apply value_scaled; [congruence|].
  rewrite Htm', Htm. rewrite Hdm at 3. rewrite Z.pow_add_r by lia. ring.
Qed.

(* the value after a shift to the right: the magnitude divided, the sign kept *)
Local Abbreviation shifted b k :=
  (if neg_ b then - (magnitude b / 2 ^ k) else magnitude b / 2 ^ k).

Lemma shifted_quot : forall b k,
  well_formed b = true -> 0 <= k -> shifted b k = Z.quot (value b) (2 ^ k).
Proof.
  intros b k Hw Hk. pose proof (magnitude_nonneg b Hw) as Hm.
  assert (Hp : 0 < 2 ^ k) by (apply Z.pow_pos_nonneg; lia).
  rewrite value_of_magnitude. destruct (neg_ b).
  - rewrite Z.quot_opp_l by lia. rewrite Z.quot_div_nonneg by lia. reflexivity.
  - rewrite Z.quot_div_nonneg by lia. reflexivity.
Qed.

Lemma shr_bits_op : forall t k,
  well_formed t = true -> 0 <= k < 32 ->
  exists r, shr_bits t k = Ok r /\ well_formed r = true /\ canonical r = true /\
            value r = shifted t k.
Proof.
  intros t k Hw Hk. destruct (well_formed_facts t Hw) as (Hl & Hc & Hd).
  unfold shr_bits, length. change basic_type_bits with 32. rewrite mask_ones by lia.
  set (m := Z.to_nat (length_ t)).
  destruct (shr_bits_spec m 0%nat (data_ t) k Hk) as (d' & Hr & Hlen & _ & _ & Hdig & Hval).
  { unfold m, Zlen in *. lia. }
  { exact Hd. }
  cbn [Nat.add Z.of_nat skipn] in Hr, Hdig, Hval.
  replace (Z.to_nat (length_ t - 1 + 1)) with m by (unfold m; lia).
  replace (length_ t - 1) with (Z.of_nat m - 1) by (unfold m; lia).
  rewrite Hr. cbn [bind].
  assert (Hw' : well_formed (with_data t d') = true).
  { apply well_formed_intro; cbn [with_data length_ data_]; unfold Zlen in *;
      [lia|lia|exact Hdig]. }
  destruct (reduce_spec (with_data t d') Hw') as (r & Hrr & Hcan & Hv & Hrw & _).
  exists r. split; [exact Hrr|]. split; [exact Hrw|]. split; [exact Hcan|].
  rewrite Hv, value_of_magnitude. unfold magnitude. cbn [with_data neg_ length_ data_].
  fold m. rewrite Hval. reflexivity.
Qed.

(** operator>>=(unsigned k) divides the magnitude by 2^k and keeps the sign. *)
Lemma shr_assign_spec : forall this k,
  well_formed this = true -> length_ this <= 65535 -> 0 <= k ->
  exists r, operator_shr_assign junk_word this k = Ok r /\
    value r = Z.quot (value this) (2 ^ k) /\ well_formed r = true /\
    (k / 32 < length_ this \/ neg_ this = false -> canonical r = true).
Proof.
  intros this k Hw Hn Hk. destruct (well_formed_facts this Hw) as (Hl & Hc & Hd).
  pose proof (magnitude_nonneg this Hw) as Hm.
  rewrite <- (shifted_quot this k Hw Hk).
  unfold operator_shr_assign, length. change basic_type_bits with 32.
  pose proof (Z.div_mod k 32 ltac:(lia)) as Hdm.
  pose proof (Z.mod_pos_bound k 32 ltac:(lia)) as Hmod.
  assert (Hq0 : 0 <= k / 32) by (apply Z.div_pos; lia).
  destruct (Z.geb_spec (k / 32) (length_ this)) as [Hge|Hlt].
  - (* everything is shifted out *)
    unfold set_length, capacity. change (u16 0) with 0.
    replace (0 >? Zlen (data_ this)) with false by (symmetry; rewrite Z.gtb_ltb; apply Z.ltb_ge; lia).
    eexists. split; [reflexivity|].
    assert (Hsmall : magnitude this / 2 ^ k = 0).
    { apply Z.div_small. split; [exact Hm|].
      pose proof (dv_firstn_range (data_ this) (Z.to_nat (length_ this))
                    ltac:(unfold Zlen in *; lia) Hd) as Hr.
      fold (magnitude this) in Hr. rewrite Z2Nat.id in Hr by lia.
      assert (2 ^ (32 * length_ this) <= 2 ^ k) by (apply Z.pow_le_mono_r; lia).
      lia. }
    rewrite Hsmall. split; [|split].
    + rewrite value_of_magnitude. unfold magnitude. cbn [with_length length_ data_ neg_].
      change (Z.to_nat 0) with 0%nat. cbn [firstn digits_value].
      destruct (neg_ this); reflexivity.
    + apply well_formed_intro; cbn [with_length length_ data_]; [lia|lia|reflexivity].
    + intros [Hc1|Hc1]; [lia|].
      unfold canonical, zero_is_unsigned, top_digit_nonzero.
      cbn [with_length length_ neg_ data_]. rewrite Hc1. reflexivity.
  - destruct (Z.eqb_spec (k / 32) 0) as [H0|Hne]; cbn [negb].
    + (* less than a digit *)
      destruct (shr_bits_op this k Hw ltac:(lia)) as (r & Hr & Hrw & Hcan & Hv).
      exists r. split; [exact Hr|]. split; [exact Hv|]. split; [exact Hrw|].
      intros _. exact Hcan.
    + (* whole digits first *)
      set (q := Z.to_nat (k / 32)).
      set (n := Z.to_nat (length_ this - k / 32)).
      pose proof (copy_words_from n (data_ this) (data_ this) 0 q
                    ltac:(unfold n, q, Zlen in *; lia)
                    ltac:(unfold n, q, Zlen in *; lia)) as Hcopy.
      cbn [Nat.add Z.of_nat firstn app] in Hcopy.
      replace (Z.of_nat q) with (k / 32) in Hcopy by (unfold q; lia).
      rewrite Hcopy. cbn [bind].
      set (d := firstn n (skipn q (data_ this)) ++ skipn n (data_ this)).
      assert (Hdlen : List.length d = List.length (data_ this)).
      { unfold d. rewrite length_app, length_firstn, !length_skipn.
        unfold n, q, Zlen in *. lia. }
      assert (Hset : set_length junk_word (with_data this d) (length_ this - k / 32)
                     = mk_bignum d (neg_ this) (length_ this - k / 32)).
      { unfold set_length, capacity. cbn [with_data data_ length_ neg_].
        rewrite u16_small by lia.
        replace (length_ this - k / 32 >? Zlen d) with false
          by (symmetry; rewrite Z.gtb_ltb; apply Z.ltb_ge; unfold Zlen in *; lia).
        reflexivity. }
      rewrite Hset. set (t := mk_bignum d (neg_ this) (length_ this - k / 32)).
      assert (Hdig : digits_of t = firstn n (skipn q (data_ this))).
      { cbn [t length_ data_]. fold n. unfold d. apply firstn_app_exact.
        rewrite length_firstn, length_skipn. unfold n, q, Zlen in *. lia. }
      assert (Hsplit : magnitude this
                       = digits_value (firstn q (data_ this))
                         + 2 ^ (32 * (k / 32)) * magnitude t).
      { unfold magnitude. rewrite Hdig.
        replace (Z.to_nat (length_ this)) with (q + n)%nat by (unfold q, n; lia).
        rewrite dv_firstn_split.
        replace (Z.of_nat q) with (k / 32) by (unfold q; lia). reflexivity. }
      pose proof (dv_firstn_range (data_ this) q ltac:(unfold q, Zlen in *; lia)
                    (digits_firstn_le (data_ this) q (Z.to_nat (length_ this))
                       ltac:(unfold q; lia) Hd)) as Hlow.
      replace (Z.of_nat q) with (k / 32) in Hlow by (unfold q; lia).
      assert (Hp : 0 < 2 ^ (32 * (k / 32))) by (apply Z.pow_pos_nonneg; lia).
      assert (Hmt : magnitude t = magnitude this / 2 ^ (32 * (k / 32))).
      { rewrite Hsplit. rewrite Z.mul_comm, Z.div_add by lia.
        rewrite Z.div_small by lia. reflexivity. }
      assert (Htw : well_formed t = true).
      { apply well_formed_intro.
        - cbn [t length_ data_]. unfold Zlen in *. lia.
        - cbn [t data_]. unfold Zlen in *. lia.
        - rewrite Hdig. rewrite <- (firstn_skipn q (digits_of this)) in Hd.
          rewrite forallb_app in Hd. apply andb_true_iff in Hd. destruct Hd as [_ Hd2].
          replace (firstn n (skipn q (data_ this)))
            with (skipn q (digits_of this)); [exact Hd2|].
          rewrite skipn_firstn_comm. f_equal. unfold n, q. lia. }
      assert (Hquot : magnitude this / 2 ^ k
                      = magnitude t / 2 ^ (k mod 32)).
      { rewrite Hmt. rewrite Z.div_div by (try lia; apply Z.pow_pos_nonneg; lia).
        rewrite <- Z.pow_add_r by lia. f_equal. f_equal. lia. }
      destruct (Z.eqb_spec (k mod 32) 0) as [Hk0|Hkne].
      * destruct (reduce_spec t Htw) as (r & Hr & Hcan & Hv & Hrw & _).
        exists r. split; [exact Hr|]. split; [|split; [exact Hrw|intros _; exact Hcan]].
        rewrite Hv, value_of_magnitude. cbn [t neg_]. fold t.
        rewrite Hquot, Hk0. change (2 ^ 0) with 1. rewrite Z.div_1_r. reflexivity.
      * destruct (shr_bits_op t (k mod 32) Htw ltac:(lia)) as (r & Hr & Hrw & Hcan & Hv).
        exists r. split; [exact Hr|]. split; [|split; [exact Hrw|intros _; exact Hcan]].
        rewrite Hv. cbn [t neg_]. fold t. rewrite Hquot. reflexivity.
Qed.

End Junk.

End BignumShift.

Module BignumBitwise.
Import Bignum.
Import BignumMore BignumArith BignumOrder BignumOrder2 BignumBlocks BignumAssign BignumLoops BignumOps BignumParse BignumShift.

Local Abbreviation digits_of b := (firstn (Z.to_nat (length_ b)) (data_ b)).

(** *** Digit by digit *)

Lemma testbit_digit_cons : forall x X n,
  0 <= x < 2 ^ 32 -> 0 <= n ->
  Z.testbit (x + 2 ^ 32 * X) n
  = if n <? 32 then Z.testbit x n else Z.testbit X (n - 32).
Proof.
  intros x X n Hx Hn.
  replace (x + 2 ^ 32 * X) with (X * 2 ^ 32 + x) by ring.
  rewrite <- lor_shifted_low by lia. rewrite Z.lor_spec.
  rewrite <- Z.shiftl_mul_pow2 by lia.
  destruct (Z.ltb_spec n 32) as [Hlt|Hge].
  - rewrite Z.shiftl_spec_low by lia. reflexivity.
  - rewrite Z.shiftl_spec by lia.
    rewrite <- (Z.mod_small x (2 ^ 32)) by lia.
    rewrite Z.mod_pow2_bits_high by lia. apply orb_false_r.
Qed.

Lemma firstn_add : forall (A : Type) (d : list A) q n,
  firstn (q + n) d = firstn q d ++ firstn n (skipn q d).
Proof.
  intros A d q n. rewrite <- (firstn_skipn q d) at 1. rewrite firstn_app, length_firstn.
  destruct (Nat.le_gt_cases q (List.length d)) as [Hle|Hgt].
  - rewrite Nat.min_l by lia. rewrite firstn_firstn.
    rewrite Nat.min_r by lia. f_equal. f_equal. lia.
  - rewrite Nat.min_r by lia.
    rewrite (skipn_all2 d) by lia. rewrite !firstn_nil, !app_nil_r.
    rewrite firstn_firstn. f_equal. lia.
Qed.

Section Bitwise.
Variable junk_word : Z.
Variable op : Z -> Z -> Z.
Variable f : bool -> bool -> bool.
Hypothesis op_spec : forall a b n, Z.testbit (op a b) n = f (Z.testbit a n) (Z.testbit b n).
Hypothesis op_nonneg : forall a b, 0 <= a -> 0 <= b -> 0 <= op a b.
Hypothesis f_false : forall b, f b false = b.

(* the digits of two numbers combined pairwise *)
Local Abbreviation zipw l1 l2 := (map (fun p => op (fst p) (snd p)) (combine l1 l2)).

Lemma op_zero_r : forall a, op a 0 = a.
Proof.
  intros a. apply Z.bits_inj'. intros n Hn.
  rewrite op_spec, Z.bits_0. apply f_false.
Qed.

Lemma op_digit : forall x y,
  0 <= x < 2 ^ 32 -> 0 <= y < 2 ^ 32 -> 0 <= op x y < 2 ^ 32.
Proof.
  intros x y Hx Hy. split; [apply op_nonneg; lia|].
  assert (H : op x y = op x y mod 2 ^ 32).
  { apply Z.bits_inj'. intros n Hn.
    destruct (Z.ltb_spec n 32) as [Hlt|Hge].
    - rewrite Z.mod_pow2_bits_low by lia. reflexivity.
    - rewrite Z.mod_pow2_bits_high by lia. rewrite op_spec.
      rewrite <- (Z.mod_small x (2 ^ 32)) by lia.
      rewrite <- (Z.mod_small y (2 ^ 32)) by lia.
      rewrite !Z.mod_pow2_bits_high by lia. apply f_false. }
  rewrite H. apply Z.mod_pos_bound. lia.
Qed.

Lemma op_cons : forall x y X Y,
  0 <= x < 2 ^ 32 -> 0 <= y < 2 ^ 32 ->
  op (x + 2 ^ 32 * X) (y + 2 ^ 32 * Y) = op x y + 2 ^ 32 * op X Y.
Proof.
  intros x y X Y Hx Hy. apply Z.bits_inj'. intros n Hn.
  rewrite op_spec. rewrite !testbit_digit_cons by (try lia; apply op_digit; lia).
  destruct (n <? 32); rewrite op_spec; reflexivity.
Qed.

Lemma dv_zipw : forall l1 l2,
  List.length l1 = List.length l2 ->
  forallb is_digit l1 = true -> forallb is_digit l2 = true ->
  digits_value (zipw l1 l2) = op (digits_value l1) (digits_value l2) /\
  forallb is_digit (zipw l1 l2) = true.
Proof.
  induction l1 as [|x l1 IH]; intros [|y l2] Hlen H1 H2; try discriminate Hlen.
  - cbn [combine map digits_value forallb]. split; [|reflexivity].
    symmetry. apply op_zero_r.
  - cbn [combine map digits_value forallb fst snd] in *.
    apply andb_true_iff in H1. destruct H1 as [Hx H1].
    apply andb_true_iff in H2. destruct H2 as [Hy H2].
    apply is_digit_range in Hx. apply is_digit_range in Hy.
    cbn [List.length] in Hlen.
    destruct (IH l2 ltac:(lia) H1 H2) as (Hv & Hd).
    rewrite Hv, Hd, andb_true_r. split.
    + symmetry. apply op_cons; assumption.
    + apply is_digit_range. apply op_digit; assumption.
Qed.

Lemma zipw_zeros : forall l n,
  n = List.length l -> zipw l (repeat 0 n) = l.
Proof.
  induction l as [|x l IH]; intros n Hn; subst n; [reflexivity|].
  cbn [List.length repeat combine map fst snd]. rewrite op_zero_r. f_equal.
  apply IH. reflexivity.
Qed.

Lemma zipw_app : forall l1 l2 r1 r2,
  List.length l1 = List.length r1 ->
  zipw (l1 ++ l2) (r1 ++ r2) = zipw l1 r1 ++ zipw l2 r2.
Proof.
  induction l1 as [|x l1 IH]; intros l2 [|y r1] r2 Hlen; try discriminate Hlen.
  - reflexivity.
  - cbn [app combine map]. f_equal. apply IH. cbn [List.length] in Hlen. lia.
Qed.

(** *** The loop of operator|= and operator^= *)

Lemma bitwise_loop_spec : forall n d ad,
  (n <= List.length d)%nat -> (n <= List.length ad)%nat ->
  exists d', bitwise_loop op n (Z.of_nat n - 1) d ad = Ok d' /\
    List.length d' = List.length d /\ skipn n d' = skipn n d /\
    firstn n d' = zipw (firstn n d) (firstn n ad).
Proof.
  induction n as [|n IH]; intros d ad Hd Ha.
  - exists d. repeat split; reflexivity.
  - cbn [bitwise_loop]. replace (Z.of_nat (S n) - 1) with (Z.of_nat n) by lia.
    rewrite !rd_in by (unfold Zlen; lia). cbn [bind].
    rewrite wr_in by (unfold Zlen; lia). cbn [bind]. rewrite Nat2Z.id.
    set (v := op (nth n d 0) (nth n ad 0)).
    destruct (IH (upd d n v) ad) as (d' & Hr & Hlen & Hsk & Hfi);
      [rewrite upd_length; lia|lia|].
    exists d'. split; [exact Hr|]. rewrite upd_length in Hlen.
    split; [exact Hlen|]. split.
    + rewrite (skipn_succ_eq Z n d' (upd d n v) Hsk). apply skipn_upd_below. lia.
    + rewrite firstn_upd_above in Hfi by lia.
      rewrite (firstn_succ_nth Z d' n 0) by lia.
      rewrite (nth_after_loop d d' n v ltac:(lia) Hsk).
      rewrite (firstn_succ_nth Z d n 0) by lia.
      rewrite (firstn_succ_nth Z ad n 0) by lia.
      rewrite zipw_app by (rewrite !length_firstn; lia).
      rewrite Hfi. reflexivity.
Qed.

Lemma bitwise_assign_spec : forall this a,
  well_formed this = true -> well_formed a = true -> length_ a <= 65533 ->
  exists r, bitwise_assign junk_word op this a = Ok r /\
    value r = (if neg_ this then - op (magnitude this) (magnitude a)
               else op (magnitude this) (magnitude a)) /\
    well_formed r = true /\ canonical r = true.
Proof.
  intros this a Hw Hwa Hn.
  destruct (well_formed_facts this Hw) as (Hl & Hc & Hd).
  destruct (well_formed_facts a Hwa) as (Hla & Hca & Hda).
  unfold bitwise_assign, length.
  set (n := Z.to_nat (length_ a)).
  (* the block the loop works on *)
  assert (H1 : exists t pad_this pad_a,
    (if length_ this <? length_ a then incr_length junk_word this (length_ a)
     else Ok this) = Ok t /\
    well_formed t = true /\ neg_ t = neg_ this /\ length_ a <= length_ t /\
    digits_of t = digits_of this ++ repeat 0 pad_this /\
    List.length (digits_of t) = List.length (digits_of a ++ repeat 0 pad_a)).
  { destruct (Z.ltb_spec (length_ this) (length_ a)) as [Hlt|Hge].
    - destruct (incr_length_spec junk_word this (length_ a) Hw ltac:(lia))
        as (t & Ht & Htl & Htn & Htd & Htw).
      exists t, (Z.to_nat (length_ a - length_ this)), 0%nat.
      split; [exact Ht|]. split; [exact Htw|]. split; [exact Htn|]. split; [lia|].
      split; [exact Htd|].
      destruct (well_formed_facts t Htw) as (Hlt' & _ & _).
      rewrite length_app, !length_firstn. cbn [repeat List.length].
      unfold Zlen in *. lia.
    - exists this, 0%nat, (Z.to_nat (length_ this - length_ a)).
      split; [reflexivity|]. split; [exact Hw|]. split; [reflexivity|]. split; [lia|].
      split; [cbn [repeat]; rewrite app_nil_r; reflexivity|].
      rewrite length_app, !length_firstn, repeat_length. unfold Zlen in *. lia. }
  destruct H1 as (t & pad_this & pad_a & Ht & Htw & Htn & Htl & Htd & Hlen).
  rewrite Ht. cbn [bind].
  destruct (well_formed_facts t Htw) as (Hlt & Hct & Hdt).
  destruct (bitwise_loop_spec n (data_ t) (data_ a)) as (d' & Hr & Hdlen & Hsk & Hfi).
  { unfold n, Zlen in *. lia. }
  { unfold n, Zlen in *. lia. }
  replace (length_ a - 1) with (Z.of_nat n - 1) by (unfold n; lia).
  rewrite Hr. cbn [bind].
  (* the digits written *)
  assert (Hdig : firstn (Z.to_nat (length_ t)) d'
                 = zipw (digits_of t) (digits_of a ++ repeat 0 pad_a)).
  { replace (Z.to_nat (length_ t)) with (n + (Z.to_nat (length_ t) - n))%nat
      by (unfold n; lia).
    rewrite !firstn_add. rewrite Hfi, Hsk.
    rewrite zipw_app by (rewrite !length_firstn; unfold n, Zlen in *; lia).
    f_equal. fold n. symmetry.
    assert (Hpad : pad_a = List.length (firstn (Z.to_nat (length_ t) - n)
                                           (skipn n (data_ t)))).
    { rewrite length_app, !length_firstn, repeat_length in Hlen.
      rewrite length_firstn, length_skipn. unfold n, Zlen in *. lia. }
    rewrite Hpad. apply zipw_zeros. reflexivity. }
  assert (Hda' : forallb is_digit (digits_of a ++ repeat 0 pad_a) = true)
    by (rewrite forallb_app, Hda, forallb_repeat_zero; reflexivity).
  destruct (dv_zipw (digits_of t) (digits_of a ++ repeat 0 pad_a) Hlen Hdt Hda')
    as (Hval & Hdigs).
  assert (Hw' : well_formed (with_data t d') = true).
  { apply well_formed_intro; cbn [with_data length_ data_].
    - unfold Zlen in *. lia.
    - unfold Zlen in *. lia.
    - rewrite Hdig. exact Hdigs. }
  destruct (reduce_spec (with_data t d') Hw') as (r & Hrr & Hcan & Hv & Hrw & _).
  exists r. split; [exact Hrr|]. split; [|split; assumption].
  rewrite Hv, value_of_magnitude. unfold magnitude at 1 2.
  cbn [with_data neg_ length_ data_]. rewrite Hdig, Hval, Htn.
  rewrite Htd, !dv_app, !dv_repeat_zero. rewrite !Z.mul_0_r, !Z.add_0_r.
  reflexivity.
Qed.

End Bitwise.

Section Junk.
Variable junk_word : Z.

(** operator|= and operator^= work on the magnitudes and keep the sign of the
    left operand. *)
Lemma or_xor_spec : forall this a,
  well_formed this = true -> well_formed a = true -> length_ a <= 65533 ->
  (exists r, operator_or_assign junk_word this a = Ok r /\
     value r = (if neg_ this then - Z.lor (magnitude this) (magnitude a)
                else Z.lor (magnitude this) (magnitude a)) /\
     well_formed r = true /\ canonical r = true) /\
  (exists r, operator_xor_assign junk_word this a = Ok r /\
     value r = (if neg_ this then - Z.lxor (magnitude this) (magnitude a)
                else Z.lxor (magnitude this) (magnitude a)) /\
     well_formed r = true /\ canonical r = true).
Proof.
  intros this a Hw Hwa Hn. split.
  - apply (bitwise_assign_spec junk_word Z.lor orb); try assumption.
    + intros x y n. apply Z.lor_spec.
    + intros x y Hx Hy. apply Z.lor_nonneg. split; assumption.
    + intros b. apply orb_false_r.
  - apply (bitwise_assign_spec junk_word Z.lxor xorb); try assumption.
    + intros x y n. apply Z.lxor_spec.
    + intros x y Hx Hy. apply Z.lxor_nonneg. lia.
    + intros b. apply xorb_false_r.
Qed.

End Junk.

End BignumBitwise.

Module BignumProduct.
Import Bignum.
Import BignumMore BignumArith BignumOrder BignumOrder2 BignumBlocks BignumAssign BignumLoops BignumOps BignumParse BignumSub BignumSigned BignumAddSub BignumShift.

Local Abbreviation win d k n := (digits_value (firstn n (skipn k d))).
Local Abbreviation digits_of b := (firstn (Z.to_nat (length_ b)) (data_ b)).

(** *** The three-word accumulator of operator*= *)

Lemma DDproduct_high : forall a b,
  0 <= a < 2 ^ 32 -> 0 <= b < 2 ^ 32 -> fst (DDproduct a b) <= 2 ^ 32 - 2.
Proof.
  intros a b Ha Hb. destruct (DDproduct_value a b Ha Hb) as (Hp & Hh & Hl).
  assert (a * b <= (2 ^ 32 - 1) * (2 ^ 32 - 1)) by nia. lia.
Qed.

Lemma accumulate_step : forall sumLo sumHi carry Hi Lo,
  0 <= sumLo < 2 ^ 32 -> 0 <= sumHi < 2 ^ 32 -> 0 <= carry -> carry + 1 < 2 ^ 32 ->
  0 <= Hi <= 2 ^ 32 - 2 -> 0 <= Lo < 2 ^ 32 ->
  let sumLo' := u32 (sumLo + Lo) in
  let sumHi1 := if sumLo' <? sumLo then u32 (sumHi + 1) else sumHi in
  let sumHi' := u32 (sumHi1 + Hi) in
  let carry' := u32 (carry + b2z (sumHi' <? sumHi)) in
  0 <= sumLo' < 2 ^ 32 /\ 0 <= sumHi' < 2 ^ 32 /\ carry <= carry' <= carry + 1 /\
  sumLo' + 2 ^ 32 * sumHi' + 2 ^ 64 * carry'
  = sumLo + 2 ^ 32 * sumHi + 2 ^ 64 * carry + (Hi * 2 ^ 32 + Lo).
Proof.
  intros sumLo sumHi carry Hi Lo HLo HHi Hc Hc1 HH HL sumLo' sumHi1 sumHi' carry'.
  pose proof (add_carry sumLo Lo HLo HL) as Hadd. fold sumLo' in Hadd.
  pose proof (u32_range (sumLo + Lo)) as Hr1. fold sumLo' in Hr1.
  set (c1 := b2z (sumLo' <? sumLo)) in *.
  assert (Hc1r : c1 = 0 \/ c1 = 1) by (unfold c1; destruct (sumLo' <? sumLo); auto).
  assert (HsumHi' : sumHi' = (sumHi + c1 + Hi) mod 2 ^ 32).
  { unfold sumHi', sumHi1, c1, u32. destruct (sumLo' <? sumLo); cbn [b2z].
    - rewrite Zplus_mod_idemp_l. reflexivity.
    - f_equal. lia. }
  pose proof (Z.mod_pos_bound (sumHi + c1 + Hi) (2 ^ 32) ltac:(lia)) as Hr2.
  rewrite <- HsumHi' in Hr2.
  set (c2 := b2z (sumHi' <? sumHi)).
  assert (Hc2 : sumHi + c1 + Hi = sumHi' + 2 ^ 32 * c2).
  { unfold c2. rewrite HsumHi'.
    destruct (Z_lt_ge_dec (sumHi + c1 + Hi) (2 ^ 32)) as [Hlt|Hge].
    - rewrite Z.mod_small by lia.
      replace (sumHi + c1 + Hi <? sumHi) with false by (symmetry; apply Z.ltb_ge; lia).
      cbn [b2z]. lia.
    - assert (Hm : (sumHi + c1 + Hi) mod 2 ^ 32 = sumHi + c1 + Hi - 2 ^ 32).
      { symmetry. apply Z.mod_unique with (q := 1); lia. }
      rewrite Hm.
      replace (sumHi + c1 + Hi - 2 ^ 32 <? sumHi) with true
        by (symmetry; apply Z.ltb_lt; lia).
      cbn [b2z]. lia. }
  assert (Hc2r : c2 = 0 \/ c2 = 1) by (unfold c2; destruct (sumHi' <? sumHi); auto).
  assert (Hcarry : carry' = carry + c2).
  { unfold carry'. fold c2. apply u32_small. lia. }
  rewrite Hcarry. repeat split; try lia.
Qed.

(** *** Sums over an index *)

Section Product.
Variable junk_word : Z.

Let sumz : (nat -> Z) -> nat -> Z :=
  fix sumz (f : nat -> Z) (n : nat) : Z :=
    match n with
    | O => 0
    | S m => sumz f m + f m
    end.

Lemma sumz_succ : forall f n, sumz f (S n) = sumz f n + f n.
Proof. reflexivity. Qed.

Lemma sumz_zero : forall f, sumz f 0 = 0.
Proof. reflexivity. Qed.

Lemma sumz_ext : forall f g n,
  (forall j, (j < n)%nat -> f j = g j) -> sumz f n = sumz g n.
Proof.
  intros f g n. induction n as [|n IH]; intros H; [reflexivity|].
  rewrite !sumz_succ. rewrite IH by (intros j Hj; apply H; lia).
  rewrite H by lia. reflexivity.
Qed.

Lemma sumz_add : forall f g n,
  sumz (fun j => f j + g j) n = sumz f n + sumz g n.
Proof.
  intros f g n. induction n as [|n IH]; [reflexivity|].
  rewrite !sumz_succ, IH. ring.
Qed.

Lemma sumz_scale : forall c f n, sumz (fun j => f j * c) n = sumz f n * c.
Proof.
  intros c f n. induction n as [|n IH]; [reflexivity|].
  rewrite !sumz_succ, IH. ring.
Qed.

Lemma sumz_all_zero : forall f n,
  (forall j, (j < n)%nat -> f j = 0) -> sumz f n = 0.
Proof.
  intros f n. induction n as [|n IH]; intros H; [reflexivity|].
  rewrite sumz_succ, IH by (intros j Hj; apply H; lia). rewrite H by lia. reflexivity.
Qed.

Lemma dv_sumz : forall d n,
  digits_value (firstn n d) = sumz (fun j => nth j d 0 * 2 ^ (32 * Z.of_nat j)) n.
Proof.
  intros d n. induction n as [|n IH]; [reflexivity|].
  rewrite sumz_succ, dv_firstn_succ, IH. ring.
Qed.

(** *** The column sums *)

Variables xd yd : list Z.
Variables xlen ylen : nat.
Hypothesis xlen_in : (xlen <= List.length xd)%nat.
Hypothesis ylen_in : (ylen <= List.length yd)%nat.
Hypothesis x_digits : forallb is_digit (firstn xlen xd) = true.
Hypothesis y_digits : forallb is_digit (firstn ylen yd) = true.

(* the product that row [jA] adds to column [i] *)
Let col (i jA : nat) : Z :=
  if (jA <=? i)%nat && (i - jA <? ylen)%nat
  then nth jA xd 0 * nth (i - jA) yd 0
  else 0.

(* column [i], with its weight *)
Let colw (i : nat) : Z := sumz (col i) xlen * 2 ^ (32 * Z.of_nat i).

Lemma x_digit : forall j, (j < xlen)%nat -> 0 <= nth j xd 0 < 2 ^ 32.
Proof.
  intros j Hj. apply (digits_firstn_succ xd j ltac:(lia)).
  apply (digits_firstn_le xd (S j) xlen ltac:(lia) x_digits).
Qed.

Lemma y_digit : forall j, (j < ylen)%nat -> 0 <= nth j yd 0 < 2 ^ 32.
Proof.
  intros j Hj. apply (digits_firstn_succ yd j ltac:(lia)).
  apply (digits_firstn_le yd (S j) ylen ltac:(lia) y_digits).
Qed.

Lemma mul_inner_spec : forall n i jA sumLo sumHi carry,
  (jA + n <= xlen)%nat ->
  0 <= sumLo < 2 ^ 32 -> 0 <= sumHi < 2 ^ 32 -> 0 <= carry ->
  carry + Z.of_nat n < 2 ^ 32 ->
  exists lo hi c,
    mul_inner_loop n (Z.of_nat jA) (Z.of_nat i) xd yd (Z.of_nat ylen) sumLo sumHi carry
    = Ok (lo, hi, c) /\
    0 <= lo < 2 ^ 32 /\ 0 <= hi < 2 ^ 32 /\ carry <= c <= carry + Z.of_nat n /\
    lo + 2 ^ 32 * hi + 2 ^ 64 * c
    = sumLo + 2 ^ 32 * sumHi + 2 ^ 64 * carry
      + (sumz (col i) (jA + n) - sumz (col i) jA).
Proof.
  induction n as [|n IH]; intros i jA sumLo sumHi carry Hn HLo HHi Hc Hcn.
  - exists sumLo, sumHi, carry. cbn [mul_inner_loop]. rewrite Nat.add_0_r.
    repeat split; try lia.
  - cbn [mul_inner_loop].
    replace (Z.of_nat jA + 1) with (Z.of_nat (S jA)) by lia.
    replace (jA + S n)%nat with (S jA + n)%nat by lia.
    assert (Hcol : sumz (col i) (S jA + n) - sumz (col i) jA
                   = col i jA + (sumz (col i) (S jA + n) - sumz (col i) (S jA))).
    { rewrite (sumz_succ (col i) jA). ring. }
    rewrite Hcol.
    destruct ((Z.of_nat i - Z.of_nat jA >=? 0)
              && (Z.of_nat i - Z.of_nat jA <? Z.of_nat ylen)) eqn:Hin.
    + apply andb_true_iff in Hin. destruct Hin as [Hge Hlt].
      rewrite Z.geb_leb in Hge. apply Z.leb_le in Hge. apply Z.ltb_lt in Hlt.
      rewrite !rd_in by (unfold Zlen; lia). cbn [bind].
      replace (Z.to_nat (Z.of_nat i - Z.of_nat jA)) with (i - jA)%nat by lia.
      rewrite Nat2Z.id.
      set (a := nth jA xd 0). set (b := nth (i - jA) yd 0).
      assert (Ha : 0 <= a < 2 ^ 32) by (apply x_digit; lia).
      assert (Hb : 0 <= b < 2 ^ 32) by (apply y_digit; lia).
      destruct (DDproduct_value a b Ha Hb) as (Hp & Hh & Hl).
      pose proof (DDproduct_high a b Ha Hb) as Hh2.
      destruct (DDproduct a b) as [Hi Lo]. cbn [fst snd] in *.
      destruct (accumulate_step sumLo sumHi carry Hi Lo HLo HHi Hc ltac:(lia)
                  ltac:(lia) Hl) as (Hr1 & Hr2 & Hr3 & Hacc).
      cbv zeta in Hr1, Hr2, Hr3, Hacc.
      set (lo1 := u32 (sumLo + Lo)) in *.
      set (hi1 := u32 ((if lo1 <? sumLo then u32 (sumHi + 1) else sumHi) + Hi)) in *.
      set (c1 := u32 (carry + b2z (hi1 <? sumHi))) in *.
      destruct (IH i (S jA) lo1 hi1 c1 ltac:(lia) Hr1 Hr2 ltac:(lia) ltac:(lia))
        as (lo & hi & c & Hrun & Hlo & Hhi & Hcr & Hval).
      exists lo, hi, c. split; [exact Hrun|]. split; [exact Hlo|]. split; [exact Hhi|].
      split; [lia|].
      assert (Hc1 : col i jA = a * b).
      { unfold col.
        replace (jA <=? i)%nat with true by (symmetry; apply Nat.leb_le; lia).
        replace (i - jA <? ylen)%nat with true by (symmetry; apply Nat.ltb_lt; lia).
        reflexivity. }
      rewrite Hc1. lia.
    + destruct (IH i (S jA) sumLo sumHi carry ltac:(lia) HLo HHi Hc ltac:(lia))
        as (lo & hi & c & Hrun & Hlo & Hhi & Hcr & Hval).
      exists lo, hi, c. split; [exact Hrun|]. split; [exact Hlo|]. split; [exact Hhi|].
      split; [lia|].
      assert (Hc0 : col i jA = 0).
      { unfold col. apply andb_false_iff in Hin.
        destruct (Nat.leb_spec jA i) as [Hle|Hgt]; [|reflexivity].
        destruct (Nat.ltb_spec (i - jA) ylen) as [Hlt|Hge]; [|reflexivity].
        exfalso. destruct Hin as [Hin|Hin].
        - rewrite Z.geb_leb in Hin. apply Z.leb_gt in Hin. lia.
        - apply Z.ltb_ge in Hin. lia. }
      rewrite Hc0. lia.
Qed.

Lemma mul_outer_spec : forall n i d sumHi carry,
  (i + n <= List.length d)%nat -> Z.of_nat xlen < 2 ^ 32 ->
  0 <= sumHi < 2 ^ 32 -> 0 <= carry < 2 ^ 32 ->
  exists d' Cf,
    mul_outer_loop n (Z.of_nat i) xd (Z.of_nat xlen) yd (Z.of_nat ylen) sumHi carry d
    = Ok d' /\
    List.length d' = List.length d /\ firstn i d' = firstn i d /\
    skipn (i + n) d' = skipn (i + n) d /\
    forallb is_digit (firstn n (skipn i d')) = true /\ 0 <= Cf /\
    2 ^ (32 * Z.of_nat i) * (win d' i n + 2 ^ (32 * Z.of_nat n) * Cf)
    = 2 ^ (32 * Z.of_nat i) * (sumHi + 2 ^ 32 * carry)
      + (sumz colw (i + n) - sumz colw i).
Proof.
  induction n as [|n IH]; intros i d sumHi carry Hn Hx HHi Hc.
  - exists d, (sumHi + 2 ^ 32 * carry). cbn [mul_outer_loop firstn digits_value forallb].
    rewrite Nat.add_0_r. repeat split; try reflexivity; try lia.
  - cbn [mul_outer_loop]. rewrite Nat2Z.id.
    destruct (mul_inner_spec xlen i 0 sumHi carry 0 ltac:(lia) HHi Hc ltac:(lia)
                ltac:(lia)) as (lo & hi & c & Hrun & Hlo & Hhi & Hcr & Hval).
    cbn [Z.of_nat Nat.add] in Hrun, Hval. rewrite Hrun. cbn [bind].
    rewrite wr_in by (unfold Zlen; lia). cbn [bind]. rewrite Nat2Z.id.
    replace (Z.of_nat i + 1) with (Z.of_nat (S i)) by lia.
    destruct (IH (S i) (upd d i lo) hi c) as (d' & Cf & Hr & Hlen & Hfi & Hsk & Hdig & HCf & Hv).
    { rewrite upd_length. lia. }
    { exact Hx. }
    { exact Hhi. }
    { lia. }
    exists d', Cf. split; [exact Hr|]. rewrite upd_length in Hlen.
    rewrite firstn_succ_upd in Hfi by lia.
    pose proof (nth_from_prefix d d' i lo Hfi ltac:(lia)) as Hnth.
    split; [exact Hlen|]. split; [|split; [|split; [|split; [exact HCf|]]]].
    + apply (firstn_prefix_app Z d' (firstn i d) [lo] (S i) i Hfi).
      rewrite length_firstn. lia.
    + replace (i + S n)%nat with (S i + n)%nat by lia.
      rewrite Hsk. apply skipn_upd_below. lia.
    + rewrite (firstn_succ_skipn Z d' i n 0) by lia. cbn [forallb].
      rewrite Hdig, Hnth, andb_true_r. apply is_digit_range. exact Hlo.
    + rewrite win_succ by lia. rewrite Hnth.
      replace (i + S n)%nat with (S i + n)%nat by lia.
      rewrite pow32_succ in Hv |- *.
      assert (Hw : sumz colw (S i) = sumz colw i + sumz (col i) xlen * 2 ^ (32 * Z.of_nat i))
        by reflexivity.
      rewrite sumz_zero in Hval.
      set (P := 2 ^ (32 * Z.of_nat i)) in *.
      set (Q := 2 ^ (32 * Z.of_nat n)) in *.
      set (W := win d' (S i) n) in *.
      set (S1 := sumz colw (S i + n)) in *.
      rewrite Hw in Hv.
      set (S0 := sumz colw i) in *.
      set (Si := sumz (col i) xlen) in *.
      nia.
Qed.

(* the columns up to [k], by rows *)
Lemma columns_by_rows : forall k,
  sumz colw k
  = sumz (fun jA => nth jA xd 0 * 2 ^ (32 * Z.of_nat jA)
                    * digits_value (firstn (k - jA) (firstn ylen yd))) xlen.
Proof.
  induction k as [|k IH].
  - rewrite sumz_zero. symmetry. apply sumz_all_zero.
    intros j Hj. cbn [Nat.sub firstn digits_value]. ring.
  - rewrite sumz_succ, IH. unfold colw. rewrite <- sumz_scale, <- sumz_add.
    apply sumz_ext. intros j Hj. unfold col.
    destruct (Nat.leb_spec j k) as [Hle|Hgt].
    + replace (S k - j)%nat with (S (k - j)) by lia.
      rewrite dv_firstn_succ, nth_firstn. cbn [andb].
      replace (2 ^ (32 * Z.of_nat k))
        with (2 ^ (32 * Z.of_nat j) * 2 ^ (32 * Z.of_nat (k - j)))
        by (rewrite <- Z.pow_add_r by lia; f_equal; lia).
      destruct (k - j <? ylen)%nat; ring.
    + replace (S k - j)%nat with 0%nat by lia.
      replace (k - j)%nat with 0%nat by lia. cbn [andb firstn digits_value]. ring.
Qed.

Lemma columns_product : forall k,
  (xlen + ylen <= k)%nat ->
  sumz colw k = digits_value (firstn xlen xd) * digits_value (firstn ylen yd).
Proof.
  intros k Hk. rewrite columns_by_rows. rewrite dv_sumz, <- sumz_scale.
  apply sumz_ext. intros j Hj.
  rewrite (firstn_all2 (n := (k - j)%nat)) by (rewrite length_firstn; lia).
  reflexivity.
Qed.

(** The general case of operator*=: all the columns. *)
Lemma mul_columns_spec : forall d,
  (xlen + ylen <= List.length d)%nat -> Z.of_nat xlen < 2 ^ 32 ->
  exists d',
    mul_outer_loop (xlen + ylen) 0 xd (Z.of_nat xlen) yd (Z.of_nat ylen) 0 0 d = Ok d' /\
    List.length d' = List.length d /\
    forallb is_digit (firstn (xlen + ylen) d') = true /\
    digits_value (firstn (xlen + ylen) d')
    = digits_value (firstn xlen xd) * digits_value (firstn ylen yd).
Proof.
  intros d Hd Hx.
  destruct (mul_outer_spec (xlen + ylen) 0 d 0 0 ltac:(lia) Hx ltac:(lia) ltac:(lia))
    as (d' & Cf & Hr & Hlen & _ & _ & Hdig & HCf & Hv).
  cbn [Z.of_nat Nat.add skipn] in Hr, Hdig, Hv.
  exists d'. split; [exact Hr|]. split; [exact Hlen|]. split; [exact Hdig|].
  rewrite sumz_zero in Hv. change (2 ^ (32 * 0)) with 1 in Hv.
  rewrite (columns_product (xlen + ylen) (le_n _)) in Hv.
  pose proof (dv_firstn_range xd xlen xlen_in x_digits) as HX.
  pose proof (dv_firstn_range yd ylen ylen_in y_digits) as HY.
  pose proof (dv_firstn_range d' (xlen + ylen) ltac:(lia) Hdig) as HD.
  assert (Hpow : 2 ^ (32 * Z.of_nat (xlen + ylen))
                 = 2 ^ (32 * Z.of_nat xlen) * 2 ^ (32 * Z.of_nat ylen)).
  { rewrite <- Z.pow_add_r by lia. f_equal. lia. }
  set (X := digits_value (firstn xlen xd)) in *.
  set (Y := digits_value (firstn ylen yd)) in *.
  set (D := digits_value (firstn (xlen + ylen) d')) in *.
  set (PX := 2 ^ (32 * Z.of_nat xlen)) in *.
  set (PY := 2 ^ (32 * Z.of_nat ylen)) in *.
  rewrite Hpow in Hv, HD.
  assert (HXY : X * Y < PX * PY) by nia.
  assert (Cf = 0) by nia. subst Cf. lia.
Qed.

End Product.

(** *** operator*=(basic_bignum) *)

Section Operator.
Variable junk_word : Z.

Lemma magnitude_abs : forall b, well_formed b = true -> magnitude b = Z.abs (value b).
Proof.
  intros b Hw. pose proof (magnitude_nonneg b Hw). rewrite value_of_magnitude.
  destruct (neg_ b); lia.
Qed.

Lemma magnitude_zero_length : forall b, length_ b = 0 -> magnitude b = 0.
Proof. intros b H. unfold magnitude. rewrite H. reflexivity. Qed.

Lemma signs_multiply : forall x y,
  value x * value y
  = if negb (Bool.eqb (neg_ x) (neg_ y)) then - (magnitude x * magnitude y)
    else magnitude x * magnitude y.
Proof.
  intros x y. rewrite !value_of_magnitude.
  destruct (neg_ x), (neg_ y); cbn [Bool.eqb negb]; ring.
Qed.

(* reduce, then the sign of the product *)
Lemma reduce_then_sign : forall t (s : bool) M,
  well_formed t = true -> magnitude t = M -> M <> 0 ->
  exists r, reduce t = Ok r /\
    value (with_neg r s) = (if s then - M else M) /\
    well_formed (with_neg r s) = true /\ canonical (with_neg r s) = true.
Proof.
  intros t s M Hw HM Hne.
  destruct (reduce_spec t Hw) as (r & Hr & Hcan & Hv & Hrw & _).
  exists r. split; [exact Hr|].
  assert (Hmr : magnitude r = M).
  { rewrite (magnitude_abs r Hrw), Hv, <- (magnitude_abs t Hw). exact HM. }
  destruct (with_neg_facts r s Hrw) as (Hw' & Ht' & Hm').
  split; [|split; [exact Hw'|]].
  - rewrite value_of_magnitude, Hm', Hmr. reflexivity.
  - unfold canonical. rewrite Ht', (top_of_canonical r Hcan), andb_true_r.
    unfold zero_is_unsigned. cbn [with_neg length_].
    destruct (Z.eqb_spec (length_ r) 0) as [H0|]; [|reflexivity].
    rewrite (magnitude_zero_length r H0) in Hmr. congruence.
Qed.

Lemma top_digit_positive : forall b,
  well_formed b = true -> top_digit_nonzero b = true -> 0 < length_ b ->
  0 < magnitude b.
Proof.
  intros b Hw Ht Hl.
  destruct (magnitude_bounds_top b Hw Ht) as [(H0 & _)|(_ & Hlo & _)]; [lia|].
  assert (0 < 2 ^ (32 * (length_ b - 1))) by (apply Z.pow_pos_nonneg; lia). lia.
Qed.

Lemma single_digit : forall b,
  well_formed b = true -> length_ b = 1 ->
  magnitude b = nth 0 (data_ b) 0 /\ 0 <= nth 0 (data_ b) 0 < 2 ^ 32.
Proof.
  intros b Hw Hl. destruct (well_formed_facts b Hw) as (Hlen & Hc & Hd).
  unfold magnitude. rewrite Hl in *. change (Z.to_nat 1) with 1%nat in *.
  destruct (data_ b) as [|x l]; [unfold Zlen in Hc; cbn in Hc; lia|].
  cbn [firstn digits_value nth forallb] in *. rewrite andb_true_r in Hd.
  apply is_digit_range in Hd. split; lia.
Qed.

(* the two one-digit operands *)
Lemma mul_single_digits : forall (this y : bignum) (s : bool),
  well_formed this = true -> well_formed y = true ->
  top_digit_nonzero this = true -> top_digit_nonzero y = true ->
  length_ this = 1 -> length_ y = 1 ->
  exists r,
    (a <- rd (data_ this) 0 ;;
     b <- rd (data_ y) 0 ;;
     let p := u32 (a * b) in
     d <- wr (data_ this) 0 p ;;
     q <- udiv p a ;;
     if negb (q =? b)
     then
       let t := set_length junk_word (with_data this d) 2 in
       let '(Hi, Lo) := DDproduct a b in
       d1 <- wr (data_ t) 1 Hi ;;
       d0 <- wr d1 0 Lo ;;
       Ok (mk_bignum d0 s (length_ t))
     else Ok (mk_bignum d s (length_ this))) = Ok r /\
    value r = (if s then - (magnitude this * magnitude y)
               else magnitude this * magnitude y) /\
    well_formed r = true /\ canonical r = true.
Proof.
  intros this y s Hw Hwy Ht Hty Hl Hly.
  destruct (well_formed_facts this Hw) as (Hlen & Hc & Hd).
  destruct (well_formed_facts y Hwy) as (Hleny & Hcy & Hdy).
  destruct (single_digit this Hw Hl) as (Hma & Ha).
  destruct (single_digit y Hwy Hly) as (Hmb & Hb).
  pose proof (top_digit_positive this Hw Ht ltac:(lia)) as Hpa.
  pose proof (top_digit_positive y Hwy Hty ltac:(lia)) as Hpb.
  rewrite Hma, Hmb in *.
  rewrite !rd_in by lia. cbn [bind]. change (Z.to_nat 0) with 0%nat.
  set (a := nth 0 (data_ this) 0) in *. set (b := nth 0 (data_ y) 0) in *.
  cbv zeta. rewrite wr_in by lia. cbn [bind]. change (Z.to_nat 0) with 0%nat.
  unfold udiv. replace (a =? 0) with false by (symmetry; apply Z.eqb_neq; lia).
  cbn [bind].
  pose proof (u32_range (a * b)) as Hp.
  assert (Hdata : exists x0 rest, data_ this = x0 :: rest /\ (1 <= List.length rest)%nat).
  { destruct (data_ this) as [|x0 rest]; [unfold Zlen in Hc; cbn in Hc; lia|].
    exists x0, rest. split; [reflexivity|]. unfold Zlen in Hc. cbn in Hc. lia. }
  destruct Hdata as (x0 & rest & Hdt & Hrest).
  destruct (Z_lt_ge_dec (a * b) (2 ^ 32)) as [Hsmall|Hbig].
  - (* the product fits a digit *)
    rewrite (u32_small (a * b)) by nia.
    replace (a * b / a) with b by (rewrite Z.mul_comm, Z.div_mul; lia).
    rewrite Z.eqb_refl. cbn [negb]. eexists. split; [reflexivity|].
    rewrite Hdt. cbn [upd].
    split; [|split].
    + rewrite value_of_magnitude. unfold magnitude. cbn [neg_ length_ data_].
      rewrite Hl. change (Z.to_nat 1) with 1%nat. cbn [firstn digits_value].
      destruct s; lia.
    + apply well_formed_intro; cbn [length_ data_]; rewrite ?Hl.
      * unfold Zlen. cbn [List.length]. lia.
      * unfold Zlen. cbn [List.length]. lia.
      * change (Z.to_nat 1) with 1%nat. cbn [firstn forallb]. rewrite andb_true_r.
        apply is_digit_range. nia.
    + unfold canonical, zero_is_unsigned, top_digit_nonzero. cbn [length_ data_ neg_].
      rewrite Hl. cbn [Z.eqb Z.gtb Z.compare Z.sub Z.add Z.opp Z.pos_sub Z.to_nat nth andb].
      replace (a * b =? 0) with false by (symmetry; apply Z.eqb_neq; nia). reflexivity.
  - (* the product needs two digits *)
    assert (Hq : (u32 (a * b) / a =? b) = false).
    { apply Z.eqb_neq. intros Heq.
      assert (Hlt : u32 (a * b) < a * b).
      { unfold u32. pose proof (Z.mod_pos_bound (a * b) (2 ^ 32) ltac:(lia)).
        pose proof (Z.div_mod (a * b) (2 ^ 32) ltac:(lia)).
        assert (1 <= a * b / 2 ^ 32) by (apply Z.div_le_lower_bound; lia). lia. }
      assert (Hdiv : u32 (a * b) / a < b) by (apply Z.div_lt_upper_bound; lia).
      lia. }
    rewrite Hq. cbn [negb].
    destruct (DDproduct_value a b Ha Hb) as (Hprod & HHi & HLo).
    destruct (DDproduct a b) as [Hi Lo]. cbn [fst snd] in *.
    unfold set_length, capacity. cbn [with_data data_ length_ neg_].
    change (u16 2) with 2. rewrite Zlen_upd.
    replace (2 >? Zlen (data_ this)) with false
      by (symmetry; rewrite Z.gtb_ltb; apply Z.ltb_ge; lia).
    cbn [with_length with_data data_ length_ neg_].
    rewrite wr_in by (rewrite Zlen_upd; lia). cbn [bind].
    rewrite wr_in by (rewrite !Zlen_upd; lia). cbn [bind].
    eexists. split; [reflexivity|].
    rewrite Hdt. destruct rest as [|x1 rest']; [cbn in Hrest; lia|].
    change (Z.to_nat 1) with 1%nat. change (Z.to_nat 0) with 0%nat. cbn [upd].
    assert (HHi1 : 1 <= Hi) by nia.
    split; [|split].
    + rewrite value_of_magnitude. unfold magnitude. cbn [neg_ length_ data_].
      change (Z.to_nat 2) with 2%nat. cbn [firstn digits_value].
      destruct s; lia.
    + apply well_formed_intro; cbn [length_ data_].
      * unfold Zlen. cbn [List.length]. lia.
      * unfold Zlen. cbn [List.length]. lia.
      * change (Z.to_nat 2) with 2%nat. cbn [firstn forallb]. rewrite andb_true_r.
        apply andb_true_iff. split; apply is_digit_range; lia.
    + unfold canonical, zero_is_unsigned, top_digit_nonzero. cbn [length_ data_ neg_].
      change (2 =? 0) with false. change (2 >? 0) with true.
      change (Z.to_nat (2 - 1)) with 1%nat. cbn [nth andb].
      replace (Hi =? 0) with false by (symmetry; apply Z.eqb_neq; lia). reflexivity.
Qed.

(* operands of two digits or more each *)
Lemma mul_long_operands : forall this y,
  well_formed this = true -> well_formed y = true ->
  length_ this + length_ y <= 65533 ->
  exists t,
    (let lenProd := length this + length y in
     x <- basic_bignum_copy junk_word this ;;
     let t1 := set_length junk_word this lenProd in
     d <- mul_outer_loop (Z.to_nat lenProd) 0 (data_ x) (length x)
            (data_ y) (length y) 0 0 (data_ t1) ;;
     Ok (with_data t1 d)) = Ok t /\
    well_formed t = true /\ magnitude t = magnitude this * magnitude y.
Proof.
  intros this y Hw Hwy Hn.
  destruct (well_formed_facts this Hw) as (Hl & Hc & Hd).
  destruct (well_formed_facts y Hwy) as (Hly & Hcy & Hdy).
  cbv zeta. unfold length.
  destruct (copy_spec junk_word this Hw) as (x & Hx & Hxl & Hxn & Hxd & Hxw).
  rewrite Hx. cbn [bind].
  destruct (well_formed_facts x Hxw) as (Hlx & Hcx & Hdx).
  set (n := length_ this + length_ y).
  (* the block of the product *)
  assert (Hblock : exists blk, set_length junk_word this n = mk_bignum blk (neg_ this) n /\
                               n <= Zlen blk /\ 2 <= Zlen blk).
  { unfold set_length, capacity. rewrite u16_small by (unfold n; lia).
    destruct (Z.gtb_spec n (Zlen (data_ this))) as [Hgt|Hle].
    - destruct (round_up_bounds n ltac:(unfold n; lia)) as (Hr1 & Hr2).
      eexists. split; [reflexivity|]. rewrite alloc_length by lia. lia.
    - exists (data_ this). split; [reflexivity|]. lia. }
  destruct Hblock as (blk & Hset & Hb1 & Hb2). rewrite Hset. cbn [data_].
  destruct (mul_columns_spec (data_ x) (data_ y)
              (Z.to_nat (length_ x)) (Z.to_nat (length_ y))
              ltac:(unfold Zlen in *; lia) ltac:(unfold Zlen in *; lia) Hdx Hdy blk)
    as (d' & Hr & Hlen & Hdig & Hval).
  { unfold Zlen, n in *. lia. }
  { lia. }
  rewrite !Z2Nat.id in Hr by lia. rewrite Hxl in Hr, Hdig, Hval.
  replace (Z.to_nat n) with (Z.to_nat (length_ this) + Z.to_nat (length_ y))%nat
    by (unfold n; lia).
  rewrite Hxl, Hr. cbn [bind]. eexists. split; [reflexivity|].
  unfold with_data. cbn [length_ data_ neg_].
  split.
  - apply well_formed_intro; cbn [length_ data_].
    + unfold Zlen, n in *. lia.
    + unfold Zlen in *. lia.
    + replace (Z.to_nat n) with (Z.to_nat (length_ this) + Z.to_nat (length_ y))%nat
        by (unfold n; lia). exact Hdig.
  - unfold magnitude at 1. cbn [length_ data_].
    replace (Z.to_nat n) with (Z.to_nat (length_ this) + Z.to_nat (length_ y))%nat
      by (unfold n; lia).
    rewrite Hval. unfold magnitude. rewrite <- Hxd, Hxl. reflexivity.
Qed.

(** operator*=(basic_bignum) multiplies the values. *)
Lemma mul_assign_spec : forall this y0,
  well_formed this = true -> well_formed y0 = true ->
  top_digit_nonzero this = true -> top_digit_nonzero y0 = true ->
  length_ this + length_ y0 <= 65532 ->
  exists r, operator_mul_assign junk_word this y0 = Ok r /\
    value r = value this * value y0 /\ well_formed r = true /\ canonical r = true.
Proof.
  intros this y0 Hw Hwy0 Ht Hty0 Hn.
  destruct (well_formed_facts this Hw) as (Hl & Hc & Hd).
  unfold operator_mul_assign.
  destruct (copy_spec junk_word y0 Hwy0) as (y & Hy & Hyl & Hyn & Hyd & Hwy).
  rewrite Hy. cbn [bind].
  destruct (copy_value y0 y Hyl Hyn Hyd) as (Hyv & Hym & Hyt & _).
  rewrite <- Hyv. rewrite <- Hyt in Hty0. rewrite <- Hyl in Hn.
  clear Hy Hyv Hym Hyt Hyl Hyn Hyd Hwy0. rename Hty0 into Hty.
  destruct (well_formed_facts y Hwy) as (Hly & Hcy & Hdy).
  rewrite signs_multiply. unfold length.
  set (s := negb (Bool.eqb (neg_ this) (neg_ y))).
  destruct ((length_ this =? 0) || (length_ y =? 0)) eqn:Hzero.
  - (* a zero operand *)
    destruct (small_int_facts junk_word 0 ltac:(lia)) as (Hzw & Hzn & Hzv & Hzl & Hzc).
    destruct (assign_spec junk_word this (basic_bignum_i32 junk_word 0)
                ltac:(unfold capacity; lia) Hzw ltac:(lia))
      as (r & Hr & Hrl & Hrn & Hrd & Hrw).
    exists r. split; [exact Hr|].
    destruct (copy_value (basic_bignum_i32 junk_word 0) r Hrl Hrn Hrd)
      as (Hv & _ & _ & Hcan).
    rewrite Hv, Hzv, Hcan, Hzc. split; [|split; [exact Hrw|reflexivity]].
    assert (Hm0 : magnitude this * magnitude y = 0).
    { apply orb_true_iff in Hzero. destruct Hzero as [H0|H0]; apply Z.eqb_eq in H0;
        rewrite (magnitude_zero_length _ H0); ring. }
    rewrite Hm0. destruct s; reflexivity.
  - apply orb_false_iff in Hzero. destruct Hzero as [Hx0 Hy0].
    apply Z.eqb_neq in Hx0. apply Z.eqb_neq in Hy0.
    pose proof (top_digit_positive this Hw Ht ltac:(lia)) as Hpx.
    pose proof (top_digit_positive y Hwy Hty ltac:(lia)) as Hpy.
    destruct (Z.eqb_spec (length_ this + length_ y) 2) as [H2|H2].
    + (* one digit each *)
      apply (mul_single_digits this y s); try assumption; lia.
    + (* the product, before reduce and the sign *)
      assert (Hprod : exists t,
        (if length_ this =? 1
         then digit <- rd (data_ this) 0 ;;
              t1 <- operator_assign junk_word this y ;;
              operator_mul_assign_unsigned junk_word t1 digit
         else if length_ y =? 1
         then y0' <- rd (data_ y) 0 ;;
              operator_mul_assign_unsigned junk_word this y0'
         else
           x <- basic_bignum_copy junk_word this ;;
           d <- mul_outer_loop (Z.to_nat (length_ this + length_ y)) 0 (data_ x)
                  (length_ x) (data_ y) (length_ y) 0 0
                  (data_ (set_length junk_word this (length_ this + length_ y))) ;;
           Ok (with_data (set_length junk_word this (length_ this + length_ y)) d))
        = Ok t /\
        well_formed t = true /\ magnitude t = magnitude this * magnitude y).
      { destruct (Z.eqb_spec (length_ this) 1) as [Hx1|Hx1].
        - destruct (single_digit this Hw Hx1) as (Hma & Ha).
          rewrite rd_in by lia. cbn [bind]. change (Z.to_nat 0) with 0%nat.
          destruct (assign_spec junk_word this y ltac:(unfold capacity; lia) Hwy
                      ltac:(lia)) as (t1 & Ht1 & Htl & Htn & Htd & Htw).
          rewrite Ht1. cbn [bind].
          destruct (mul_assign_unsigned_spec junk_word t1 (nth 0 (data_ this) 0) Htw
                      ltac:(lia) Ha) as (t & Hrt & Hv & Htw' & _).
          exists t. split; [exact Hrt|]. split; [exact Htw'|].
          destruct (copy_value y t1 Htl Htn Htd) as (Hv1 & Hm1 & _).
          rewrite (magnitude_abs t Htw'), Hv, Hv1, Hma.
          rewrite Z.abs_mul, <- (magnitude_abs y Hwy). lia.
        - destruct (Z.eqb_spec (length_ y) 1) as [Hy1|Hy1].
          + destruct (single_digit y Hwy Hy1) as (Hmb & Hb).
            rewrite rd_in by lia. cbn [bind]. change (Z.to_nat 0) with 0%nat.
            destruct (mul_assign_unsigned_spec junk_word this (nth 0 (data_ y) 0) Hw
                        ltac:(lia) Hb) as (t & Hrt & Hv & Htw' & _).
            exists t. split; [exact Hrt|]. split; [exact Htw'|].
            rewrite (magnitude_abs t Htw'), Hv, Hmb.
            rewrite Z.abs_mul, <- (magnitude_abs this Hw). lia.
          + apply (mul_long_operands this y Hw Hwy). lia. }
      destruct Hprod as (t & Hrt & Htw & Htm). rewrite Hrt. cbn [bind].
      destruct (reduce_then_sign t s (magnitude this * magnitude y) Htw Htm
                  ltac:(nia)) as (r & Hr & Hv & Hrw & Hcan).
      rewrite Hr. cbn [bind]. eexists. split; [reflexivity|].
      split; [exact Hv|]. split; [exact Hrw|exact Hcan].
Qed.

(** operator*(x, y) *)
Lemma mul_spec : forall x y,
  well_formed x = true -> well_formed y = true ->
  top_digit_nonzero x = true -> top_digit_nonzero y = true ->
  length_ x + length_ y <= 65532 ->
  exists r, operator_mul junk_word x y = Ok r /\
    value r = value x * value y /\ well_formed r = true /\ canonical r = true.
Proof.
  intros x y Hw Hwy Ht Hty Hn. unfold operator_mul.
  destruct (copy_spec junk_word x Hw) as (c & Hc & Hcl & Hcn & Hcd & Hcw).
  rewrite Hc. cbn [bind].
  destruct (copy_value x c Hcl Hcn Hcd) as (Hcv & _ & Hct & _).
  destruct (mul_assign_spec c y Hcw Hwy ltac:(congruence) Hty ltac:(lia))
    as (t & Hrt & Hv & Htw & Hcan).
  rewrite Hrt. cbn [bind].
  destruct (copy_spec junk_word t Htw) as (r & Hr & Hrl & Hrn & Hrd & Hrw).
  exists r. split; [exact Hr|].
  destruct (copy_value t r Hrl Hrn Hrd) as (Hrv & _ & _ & Hrc).
  rewrite Hrv, Hv, Hcv, Hrc. repeat split; assumption.
Qed.

End Operator.

End BignumProduct.

Module BignumDivision.
Import Bignum.
Import BignumMore BignumArith BignumOrder BignumOrder2 BignumBlocks BignumAssign BignumLoops BignumOps BignumParse BignumSub BignumSigned BignumAddSub BignumShift BignumProduct.

Local Abbreviation digits_of b := (firstn (Z.to_nat (length_ b)) (data_ b)).

(** *** Division by a half word *)

(* one digit of the dividend, in two halves *)
Lemma divide_half_step : forall divisor dHi w,
  0 < divisor < 2 ^ 16 -> 0 <= dHi < divisor -> 0 <= w < 2 ^ 32 ->
  let dividend1 := Z.lor (u32 (Z.shiftl dHi basic_type_halfBits))
                         (Z.shiftr w basic_type_halfBits) in
  let q1 := dividend1 / divisor in
  let r := dividend1 mod divisor in
  let dividend2 := Z.lor (u32 (Z.shiftl r basic_type_halfBits)) (Z.land w r_mask) in
  let q2 := dividend2 / divisor in
  let dHi' := dividend2 mod divisor in
  let digit := Z.lor (u32 (Z.shiftl q1 basic_type_halfBits)) q2 in
  0 <= digit < 2 ^ 32 /\ 0 <= dHi' < divisor /\
  dHi * 2 ^ 32 + w = divisor * digit + dHi'.
Proof.
  intros divisor dHi w Hdiv HdHi Hw.
  destruct (half_split w Hw) as (Hsplit & Hhi & Hlo).
  change basic_type_halfBits with 16 in *.
  assert (Hshl : forall x, 0 <= x < 2 ^ 16 -> u32 (Z.shiftl x 16) = x * 2 ^ 16).
  { intros x Hx. rewrite Z.shiftl_mul_pow2 by lia. apply u32_small. lia. }
  cbv zeta.
  rewrite (Hshl dHi) by lia. rewrite lor_shifted_low by lia.
  set (wHi := Z.shiftr w 16) in *. set (wLo := Z.land w r_mask) in *.
  set (dividend1 := dHi * 2 ^ 16 + wHi).
  assert (Hd1 : 0 <= dividend1 < divisor * 2 ^ 16) by (unfold dividend1; nia).
  pose proof (Z.div_mod dividend1 divisor ltac:(lia)) as Hdm1.
  pose proof (Z.mod_pos_bound dividend1 divisor ltac:(lia)) as Hr.
  assert (Hq1 : 0 <= dividend1 / divisor < 2 ^ 16).
  { split; [apply Z.div_pos; lia|]. apply Z.div_lt_upper_bound; lia. }
  set (q1 := dividend1 / divisor) in *. set (r := dividend1 mod divisor) in *.
  rewrite (Hshl r) by lia. rewrite lor_shifted_low by lia.
  set (dividend2 := r * 2 ^ 16 + wLo).
  assert (Hd2 : 0 <= dividend2 < divisor * 2 ^ 16) by (unfold dividend2; nia).
  pose proof (Z.div_mod dividend2 divisor ltac:(lia)) as Hdm2.
  pose proof (Z.mod_pos_bound dividend2 divisor ltac:(lia)) as Hr2.
  assert (Hq2 : 0 <= dividend2 / divisor < 2 ^ 16).
  { split; [apply Z.div_pos; lia|]. apply Z.div_lt_upper_bound; lia. }
  set (q2 := dividend2 / divisor) in *. set (r2 := dividend2 mod divisor) in *.
  rewrite (Hshl q1) by lia. rewrite lor_shifted_low by lia.
  split; [lia|]. split; [lia|].
  unfold dividend1, dividend2 in *. nia.
Qed.

Lemma divide_half_spec : forall n divisor dHi td qd,
  0 < divisor < 2 ^ 16 -> 0 <= dHi < divisor ->
  (n <= List.length td)%nat -> (n <= List.length qd)%nat ->
  forallb is_digit (firstn n td) = true ->
  exists qd' dHi',
    divide_half_loop n (Z.of_nat n - 1) divisor dHi td qd = Ok (qd', dHi') /\
    List.length qd' = List.length qd /\ skipn n qd' = skipn n qd /\
    forallb is_digit (firstn n qd') = true /\ 0 <= dHi' < divisor /\
    dHi * 2 ^ (32 * Z.of_nat n) + digits_value (firstn n td)
    = divisor * digits_value (firstn n qd') + dHi'.
Proof.
  induction n as [|n IH]; intros divisor dHi td qd Hdiv HdHi Htd Hqd Hdig.
  - exists qd, dHi. cbn [divide_half_loop firstn digits_value forallb].
    repeat split; try reflexivity; lia.
  - cbn [divide_half_loop]. replace (Z.of_nat (S n) - 1) with (Z.of_nat n) by lia.
    destruct (digits_firstn_succ td n ltac:(lia) Hdig) as (Hdig0 & Hw).
    rewrite rd_in by (unfold Zlen; lia). cbn [bind]. rewrite Nat2Z.id.
    set (w := nth n td 0) in *.
    destruct (divide_half_step divisor dHi w Hdiv HdHi Hw) as (Hdigit & HdHi' & Hstep).
    cbv zeta in Hdigit, HdHi', Hstep.
    unfold udiv, umod.
    replace (divisor =? 0) with false by (symmetry; apply Z.eqb_neq; lia).
    cbn [bind].
    set (r := Z.lor (u32 (Z.shiftl dHi basic_type_halfBits))
                    (Z.shiftr w basic_type_halfBits) mod divisor) in *.
    set (dHi1 := Z.lor (u32 (Z.shiftl r basic_type_halfBits)) (Z.land w r_mask)
                 mod divisor) in *.
    set (digit := Z.lor (u32 (Z.shiftl _ basic_type_halfBits)) (_ / divisor)) in *.
    rewrite wr_in by (unfold Zlen; lia). cbn [bind]. rewrite Nat2Z.id.
    destruct (IH divisor dHi1 td (upd qd n digit) Hdiv HdHi' ltac:(lia)
                ltac:(rewrite upd_length; lia) Hdig0)
      as (qd' & dHi' & Hr & Hlen & Hsk & Hqdig & Hrange & Hval).
    exists qd', dHi'. split; [exact Hr|]. rewrite upd_length in Hlen.
    pose proof (nth_after_loop qd qd' n digit ltac:(lia) Hsk) as Hnth.
    split; [exact Hlen|]. split; [|split; [|split; [exact Hrange|]]].
    + rewrite (skipn_succ_eq Z n qd' (upd qd n digit) Hsk). apply skipn_upd_below. lia.
    + rewrite (firstn_succ_nth Z qd' n 0) by lia. rewrite forallb_app, Hqdig, Hnth.
      cbn [forallb]. rewrite andb_true_r. apply is_digit_range. exact Hdigit.
    + rewrite !dv_firstn_succ, Hnth. fold w. rewrite pow32_succ.
      set (P := 2 ^ (32 * Z.of_nat n)) in *. nia.
Qed.

(** *** The signs of quotient and remainder *)

Lemma quot_rem_signs : forall ma mb (na nb : bool),
  0 <= ma -> 0 < mb ->
  Z.quot (if na then - ma else ma) (if nb then - mb else mb)
  = (if xorb na nb then - (ma / mb) else ma / mb) /\
  Z.rem (if na then - ma else ma) (if nb then - mb else mb)
  = (if na then - (ma mod mb) else ma mod mb).
Proof.
  intros ma mb na nb Ha Hb.
  pose proof (Z.quot_div_nonneg ma mb Ha Hb) as Hq.
  pose proof (Z.rem_mod_nonneg ma mb Ha Hb) as Hr.
  destruct na, nb; cbn [xorb];
    rewrite ?Z.quot_opp_opp, ?Z.quot_opp_l, ?Z.quot_opp_r,
            ?Z.rem_opp_opp, ?Z.rem_opp_l, ?Z.rem_opp_r by lia;
    rewrite Hq, Hr; split; reflexivity.
Qed.

Section Junk.
Variable junk_word : Z.
Variable junk_flag : bool.

Lemma u32_bignum_facts : forall f q,
  0 <= q < 2 ^ 32 ->
  well_formed (initialize_u32 junk_word f q) = true /\
  magnitude (initialize_u32 junk_word f q) = q /\
  length_ (initialize_u32 junk_word f q) <= 1 /\
  top_digit_nonzero (initialize_u32 junk_word f q) = true.
Proof.
  intros f q Hq. unfold initialize_u32, well_formed, magnitude, top_digit_nonzero, capacity.
  cbn [length_ data_]. destruct (Z.eqb_spec q 0) as [->|Hne].
  - repeat split; try reflexivity. lia.
  - change (Z.to_nat 1) with 1%nat. change (Z.to_nat (1 - 1)) with 0%nat.
    cbn [firstn forallb digits_value nth Zlen List.length].
    replace (is_digit q) with true by (symmetry; apply is_digit_range; exact Hq).
    replace (q =? 0) with false by (symmetry; apply Z.eqb_neq; exact Hne).
    repeat split; try reflexivity; lia.
Qed.

Lemma unsigned_canonical : forall b,
  top_digit_nonzero b = true -> canonical (with_neg b false) = true.
Proof.
  intros b Ht. unfold canonical, zero_is_unsigned, top_digit_nonzero in *.
  cbn [with_neg length_ neg_ data_]. rewrite Ht.
  destruct (length_ b =? 0); reflexivity.
Qed.

(* a result with its sign set: the value, and when it is canonical *)
Lemma signed_result : forall b (s : bool),
  well_formed b = true ->
  well_formed (with_neg b s) = true /\
  value (with_neg b s) = (if s then - magnitude b else magnitude b) /\
  (top_digit_nonzero b = true -> 0 < magnitude b -> canonical (with_neg b s) = true).
Proof.
  intros b s Hw. destruct (with_neg_facts b s Hw) as (Hw' & Ht & Hm).
  split; [exact Hw'|]. split.
  - rewrite value_of_magnitude, Hm. reflexivity.
  - intros Htop Hpos. unfold canonical. rewrite Ht, Htop, andb_true_r.
    unfold zero_is_unsigned. cbn [with_neg length_].
    destruct (Z.eqb_spec (length_ b) 0) as [H0|]; [|reflexivity].
    rewrite (magnitude_zero_length b H0) in Hpos. lia.
Qed.

(** divide, where it does not normalise: a dividend below the divisor, two
    single digits, a divisor of a half word *)
Lemma divide_simple : forall fuel depth this denom0 quot rem remDesired,
  well_formed this = true -> well_formed denom0 = true ->
  top_digit_nonzero this = true -> top_digit_nonzero denom0 = true ->
  0 < length_ denom0 -> length_ this <= 65533 ->
  2 <= capacity quot -> 2 <= capacity rem ->
  magnitude this < magnitude denom0 \/ magnitude this < 2 ^ 32 \/
  magnitude denom0 < 2 ^ 16 ->
  exists q r,
    divide junk_word junk_flag fuel (S depth) this denom0 quot rem remDesired
    = Ok (q, r) /\
    well_formed q = true /\ well_formed r = true /\ canonical q = true /\
    value q = (if xorb (neg_ this) (neg_ denom0)
               then - (magnitude this / magnitude denom0)
               else magnitude this / magnitude denom0) /\
    value r = (if neg_ this then - (magnitude this mod magnitude denom0)
               else magnitude this mod magnitude denom0).
Proof.
  intros fuel depth this denom0 quot rem remDesired Hw Hwd0 Ht Htd0 Hd0pos Hn
         Hcq Hcr Hcase.
  cbn [divide].
  destruct (copy_spec junk_word denom0 Hwd0) as (denom & Hden & Hdl & Hdn & Hdd & Hwd).
  rewrite Hden. cbn [bind].
  destruct (copy_value denom0 denom Hdl Hdn Hdd) as (_ & Hdm & Hdt & _).
  rewrite <- Hdm, <- Hdn. rewrite <- Hdm in Hcase. rewrite <- Hdt in Htd0.
  rewrite <- Hdl in Hd0pos.
  clear Hden Hdl Hdn Hdd Hdm Hdt Hwd0. rename Htd0 into Htd. rename Hd0pos into Hdpos.
  unfold length.
  replace (length_ denom =? 0) with false by (symmetry; apply Z.eqb_neq; lia).
  destruct (copy_spec junk_word this Hw) as (num & Hnum & Hnl & Hnn & Hnd & Hwn).
  rewrite Hnum. cbn [bind].
  destruct (copy_value this num Hnl Hnn Hnd) as (_ & Hnm & Hnt & _).
  rewrite Ht in Hnt.
  (* the two magnitudes *)
  pose proof (magnitude_nonneg this Hw) as Hma.
  pose proof (top_digit_positive denom Hwd Htd Hdpos) as Hmb.
  destruct (signed_result num false Hwn) as (Hwn' & Hvn & _).
  destruct (signed_result denom false Hwd) as (Hwd' & Hvd & _).
  destruct (comparison_of_values (with_neg num false) (with_neg denom false) Hwn' Hwd'
              (unsigned_canonical num Hnt) (unsigned_canonical denom Htd))
    as (Hlt & _).
  rewrite Hlt. cbn [bind]. rewrite Hvn, Hvd, Hnm.
  set (ma := magnitude this) in *. set (mb := magnitude denom) in *.
  destruct (Z.ltb_spec ma mb) as [Hsmall|Hbig].
  - (* the dividend is below the divisor *)
    destruct (small_int_facts junk_word 0 ltac:(lia)) as (Hzw & Hzn & Hzv & Hzl & Hzc).
    destruct (assign_spec junk_word quot (basic_bignum_i32 junk_word 0) Hcq Hzw
                ltac:(lia)) as (q & Hq & Hql & Hqn & Hqd & Hqw).
    rewrite Hq. cbn [bind].
    destruct (assign_spec junk_word rem (with_neg num false) Hcr Hwn'
                ltac:(cbn [with_neg length_]; lia)) as (r & Hr & Hrl & Hrn & Hrd & Hrw).
    rewrite Hr. cbn [bind].
    exists q, (with_neg r (neg_ this)). split; [reflexivity|].
    destruct (copy_value (basic_bignum_i32 junk_word 0) q Hql Hqn Hqd)
      as (Hqv & _ & _ & Hqc).
    destruct (copy_value (with_neg num false) r Hrl Hrn Hrd) as (_ & Hrm & _).
    destruct (signed_result r (neg_ this) Hrw) as (Hrw' & Hrv & _).
    split; [exact Hqw|]. split; [exact Hrw'|]. split; [congruence|].
    rewrite Z.div_small, Z.mod_small by lia.
    split.
    + rewrite Hqv, Hzv. destruct (xorb (neg_ this) (neg_ denom)); reflexivity.
    + rewrite Hrv, Hrm. destruct (with_neg_facts num false Hwn) as (_ & _ & Hm').
      rewrite Hm', Hnm. reflexivity.
  - assert (Hlen_this : 0 < length_ this).
    { destruct (Z_le_gt_dec (length_ this) 0) as [H0|]; [|lia].
      destruct (well_formed_facts this Hw) as (Hl & _).
      assert (H00 : length_ this = 0) by lia.
      pose proof (magnitude_zero_length this H00). unfold ma in Hbig. lia. }
    cbn [with_neg length_ data_].
    destruct (Z.eqb_spec (length_ denom) 1) as [Hd1|Hd1];
      destruct (Z.eqb_spec (length_ num) 1) as [Hn1|Hn1]; cbn [andb].
    + (* two single digits *)
      destruct (single_digit num Hwn Hn1) as (Hmn & Hn0).
      destruct (single_digit denom Hwd Hd1) as (Hmd & Hd0).
      rewrite !rd_in
        by (destruct (well_formed_facts num Hwn), (well_formed_facts denom Hwd); lia).
      cbn [bind]. change (Z.to_nat 0) with 0%nat.
      rewrite <- Hmn, <- Hmd, Hnm. fold ma mb.
      unfold udiv, umod. replace (mb =? 0) with false by (symmetry; apply Z.eqb_neq; lia).
      cbn [bind].
      assert (Hma32 : ma < 2 ^ 32) by (rewrite <- Hnm, Hmn; lia).
      assert (Hmb32 : mb < 2 ^ 32) by (unfold mb; rewrite Hmd; lia).
      assert (Hq : 0 <= ma / mb < 2 ^ 32).
      { split; [apply Z.div_pos; lia|]. apply Z.div_lt_upper_bound; [lia|]. nia. }
      assert (Hr : 0 <= ma mod mb < 2 ^ 32).
      { pose proof (Z.mod_pos_bound ma mb ltac:(lia)). lia. }
      unfold basic_bignum_u32.
      destruct (u32_bignum_facts junk_flag (ma / mb) Hq) as (Hqw0 & Hqm0 & Hql0 & Hqt0).
      destruct (u32_bignum_facts junk_flag (ma mod mb) Hr) as (Hrw0 & Hrm0 & Hrl0 & Hrt0).
      destruct (assign_spec junk_word quot _ Hcq Hqw0 ltac:(lia))
        as (q & Hqa & Hql & Hqn & Hqd & Hqw).
      rewrite Hqa. cbn [bind].
      destruct (assign_spec junk_word rem _ Hcr Hrw0 ltac:(lia))
        as (r & Hra & Hrl & Hrn & Hrd & Hrw).
      rewrite Hra. cbn [bind].
      eexists. eexists. split; [reflexivity|].
      destruct (copy_value _ q Hql Hqn Hqd) as (_ & Hqm & Hqt & _).
      destruct (copy_value _ r Hrl Hrn Hrd) as (_ & Hrm & _).
      destruct (signed_result q (xorb (neg_ this) (neg_ denom)) Hqw) as (Hqw' & Hqv & Hqc).
      destruct (signed_result r (neg_ this) Hrw) as (Hrw' & Hrv & _).
      rewrite Hqm0 in Hqm. rewrite Hrm0 in Hrm.
      split; [exact Hqw'|]. split; [exact Hrw'|]. split; [|split].
      * apply Hqc; [congruence|]. rewrite Hqm.
        apply Z.div_str_pos. lia.
      * rewrite Hqv, Hqm. reflexivity.
      * rewrite Hrv, Hrm. reflexivity.
    + (* a single-digit divisor *)
      destruct (single_digit denom Hwd Hd1) as (Hmd & Hd0).
      rewrite rd_in by (destruct (well_formed_facts denom Hwd); lia).
      cbn [bind]. change (Z.to_nat 0) with 0%nat. rewrite <- Hmd. fold mb.
      assert (Hhalf : mb < 2 ^ 16).
      { destruct Hcase as [Hc|[Hc|Hc]]; [lia| |exact Hc].
        exfalso. apply Hn1.
        destruct (magnitude_bounds_top num Hwn Hnt) as [(H0 & _)|(Hpos & Hlo & _)];
          [lia|].
        destruct (Z_le_gt_dec (length_ num) 1) as [|Hgt]; [lia|].
        assert (2 ^ 32 <= 2 ^ (32 * (length_ num - 1)))
          by (apply Z.pow_le_mono_r; lia).
        rewrite Hnm in Hlo. fold ma in Hlo. lia. }
      assert (Hmask : (Z.land mb l_mask =? 0) = true).
      { apply Z.eqb_eq. change l_mask with (65535 * 2 ^ 16).
        rewrite Z.land_comm. apply land_shifted_low; lia. }
      rewrite Hmask. cbn [andb].
      (* the block of the quotient *)
      assert (Hblock : exists blk,
                set_length junk_word quot (length_ this)
                = mk_bignum blk (neg_ quot) (length_ this) /\
                length_ this <= Zlen blk /\ 2 <= Zlen blk).
      { unfold set_length. rewrite u16_small by lia.
        destruct (Z.gtb_spec (length_ this) (capacity quot)) as [Hgt|Hle].
        - destruct (round_up_bounds (length_ this) ltac:(lia)) as (Hr1 & Hr2).
          eexists. split; [reflexivity|]. rewrite alloc_length by lia. lia.
        - exists (data_ quot). split; [reflexivity|]. unfold capacity in *. lia. }
      destruct Hblock as (blk & Hset & Hb1 & Hb2). rewrite Hset. cbn [data_ length_].
      destruct (well_formed_facts this Hw) as (Hl & Hc & Hd).
      destruct (divide_half_spec (Z.to_nat (length_ this)) mb 0 (data_ this) blk
                  ltac:(lia) ltac:(lia) ltac:(unfold Zlen in *; lia)
                  ltac:(unfold Zlen in *; lia) Hd)
        as (qd & dHi & Hloop & Hqlen & _ & Hqdig & HdHi & Hval).
      rewrite Z2Nat.id in Hloop by lia. rewrite Hloop. cbn [bind].
      fold (magnitude this) in Hval. fold ma in Hval.
      assert (Hwq : well_formed (with_data (mk_bignum blk (neg_ quot) (length_ this)) qd)
                    = true).
      { apply well_formed_intro; unfold with_data; cbn [length_ data_];
          unfold Zlen in *; [lia|lia|exact Hqdig]. }
      set (Q := digits_value (firstn (Z.to_nat (length_ this)) qd)) in *.
      assert (HQ : Q = ma / mb) by (apply Z.div_unique with (r := dHi); lia).
      assert (HR : dHi = ma mod mb) by (apply Z.mod_unique with (q := Q); lia).
      assert (HQpos : 0 < ma / mb) by (apply Z.div_str_pos; lia).
      destruct (reduce_then_sign _ (xorb (neg_ this) (neg_ denom)) Q Hwq eq_refl
                  ltac:(lia)) as (q & Hq & Hqv & Hqw & Hqc).
      rewrite Hq. cbn [bind].
      unfold basic_bignum_u32.
      destruct (u32_bignum_facts junk_flag dHi ltac:(lia)) as (Hrw0 & Hrm0 & Hrl0 & _).
      destruct (assign_spec junk_word rem _ Hcr Hrw0 ltac:(lia))
        as (r & Hra & Hrl & Hrn & Hrd & Hrw).
      rewrite Hra. cbn [bind].
      eexists. eexists. split; [reflexivity|].
      destruct (copy_value _ r Hrl Hrn Hrd) as (_ & Hrm & _).
      destruct (signed_result r (neg_ this) Hrw) as (Hrw' & Hrv & _).
      split; [exact Hqw|]. split; [exact Hrw'|]. split; [exact Hqc|]. split.
      * rewrite Hqv, HQ. reflexivity.
      * rewrite Hrv, Hrm, Hrm0, HR. reflexivity.
    + (* a longer divisor is above a single digit *)
      exfalso.
      destruct (single_digit num Hwn Hn1) as (Hmn & Hn0).
      destruct (magnitude_bounds_top denom Hwd Htd) as [(H0 & _)|(Hpos & Hlo & _)];
        [lia|].
      destruct (well_formed_facts denom Hwd) as (Hl & _).
      assert (2 ^ 32 <= 2 ^ (32 * (length_ denom - 1)))
        by (apply Z.pow_le_mono_r; lia).
      fold mb in Hlo. rewrite <- Hnm, Hmn in Hbig. lia.
    + (* outside the cases *)
      exfalso.
      destruct (magnitude_bounds_top denom Hwd Htd) as [(H0 & _)|(Hpos & Hlo & _)];
        [lia|].
      destruct (well_formed_facts denom Hwd) as (Hl & _).
      assert (2 ^ 32 <= 2 ^ (32 * (length_ denom - 1)))
        by (apply Z.pow_le_mono_r; lia).
      fold mb in Hlo. destruct Hcase as [Hc|[Hc|Hc]]; lia.
Qed.

(** operator/ and operator%, where divide does not normalise *)
Lemma div_mod_simple : forall x y,
  well_formed x = true -> well_formed y = true ->
  top_digit_nonzero x = true -> top_digit_nonzero y = true ->
  0 < length_ y -> length_ x <= 65533 ->
  magnitude x < magnitude y \/ magnitude x < 2 ^ 32 \/ magnitude y < 2 ^ 16 ->
  (exists q, operator_div junk_word junk_flag x y = Ok q /\
     value q = Z.quot (value x) (value y) /\
     well_formed q = true /\ canonical q = true) /\
  (exists r, operator_mod junk_word junk_flag x y = Ok r /\
     value r = Z.rem (value x) (value y) /\ well_formed r = true).
Proof.
  intros x y Hw Hwy Ht Hty Hypos Hn Hcase.
  pose proof (magnitude_nonneg x Hw) as Hma.
  pose proof (top_digit_positive y Hwy Hty Hypos) as Hmb.
  destruct (quot_rem_signs (magnitude x) (magnitude y) (neg_ x) (neg_ y) Hma Hmb)
    as (Hquot & Hrem).
  rewrite <- !value_of_magnitude in Hquot, Hrem.
  destruct (copy_spec junk_word x Hw) as (c & Hc & Hcl & Hcn & Hcd & Hcw).
  destruct (copy_value x c Hcl Hcn Hcd) as (_ & Hcm & Hct & _).
  destruct (well_formed_facts c Hcw) as (_ & Hcc & _).
  unfold operator_div, operator_mod, operator_div_assign, operator_mod_assign, call_depth.
  rewrite Hc. cbn [bind]. split.
  - destruct (divide_simple loop_fuel 3 c y c (basic_bignum_default) false Hcw Hwy
                ltac:(congruence) Hty Hypos ltac:(lia) ltac:(unfold capacity; lia)
                ltac:(vm_compute; discriminate) ltac:(rewrite Hcm; exact Hcase))
      as (q & r & Hdiv & Hqw & _ & Hqc & Hqv & _).
    rewrite Hdiv. cbn [bind].
    destruct (copy_spec junk_word q Hqw) as (q' & Hq' & Hql & Hqn & Hqd & Hqw').
    exists q'. split; [exact Hq'|].
    destruct (copy_value q q' Hql Hqn Hqd) as (Hv & _ & _ & Hcan).
    rewrite Hv, Hqv, Hcan, Hcm, Hcn, Hquot. repeat split; assumption.
  - destruct (divide_simple loop_fuel 3 c y (basic_bignum_default) c true Hcw Hwy
                ltac:(congruence) Hty Hypos ltac:(lia) ltac:(vm_compute; discriminate)
                ltac:(unfold capacity; lia) ltac:(rewrite Hcm; exact Hcase))
      as (q & r & Hdiv & _ & Hrw & _ & _ & Hrv).
    rewrite Hdiv. cbn [bind].
    destruct (copy_spec junk_word r Hrw) as (r' & Hr' & Hrl & Hrn & Hrd & Hrw').
    exists r'. split; [exact Hr'|].
    destruct (copy_value r r' Hrl Hrn Hrd) as (Hv & _).
    rewrite Hv, Hrv, Hcm, Hcn, Hrem. split; [reflexivity|exact Hrw'].
Qed.

End Junk.

End BignumDivision.

Module BignumAnd.
Import Bignum.
Import BignumMore BignumArith BignumOrder BignumOrder2 BignumBlocks BignumAssign BignumLoops BignumOps BignumParse BignumShift BignumBitwise.

Local Abbreviation digits_of b := (firstn (Z.to_nat (length_ b)) (data_ b)).
Local Abbreviation zip_and l1 l2 := (map (fun p => Z.land (fst p) (snd p)) (combine l1 l2)).

(** *** Digit by digit *)

Lemma land_digit : forall x y,
  0 <= x < 2 ^ 32 -> 0 <= y < 2 ^ 32 -> 0 <= Z.land x y < 2 ^ 32.
Proof.
  intros x y Hx Hy. split; [apply Z.land_nonneg; lia|].
  assert (H : Z.land x y = Z.land x y mod 2 ^ 32).
  { apply Z.bits_inj'. intros n Hn.
    destruct (Z.ltb_spec n 32) as [Hlt|Hge].
    - rewrite Z.mod_pow2_bits_low by lia. reflexivity.
    - rewrite Z.mod_pow2_bits_high by lia. rewrite Z.land_spec.
      rewrite <- (Z.mod_small x (2 ^ 32)) by lia.
      rewrite Z.mod_pow2_bits_high by lia. reflexivity. }
  rewrite H. apply Z.mod_pos_bound. lia.
Qed.

Lemma land_cons : forall x y X Y,
  0 <= x < 2 ^ 32 -> 0 <= y < 2 ^ 32 ->
  Z.land (x + 2 ^ 32 * X) (y + 2 ^ 32 * Y) = Z.land x y + 2 ^ 32 * Z.land X Y.
Proof.
  intros x y X Y Hx Hy. apply Z.bits_inj'. intros n Hn.
  rewrite Z.land_spec.
  rewrite !testbit_digit_cons by (try lia; apply land_digit; lia).
  destruct (n <? 32); rewrite Z.land_spec; reflexivity.
Qed.

(* the shorter list decides: the digits the longer one has beyond it meet
   zeros *)
Lemma dv_zip_and : forall l1 l2,
  forallb is_digit l1 = true -> forallb is_digit l2 = true ->
  digits_value (zip_and l1 l2) = Z.land (digits_value l1) (digits_value l2) /\
  forallb is_digit (zip_and l1 l2) = true.
Proof.
  induction l1 as [|x l1 IH]; intros l2 H1 H2.
  - cbn [combine map digits_value forallb]. split; reflexivity.
  - destruct l2 as [|y l2].
    + cbn [combine map digits_value forallb]. rewrite Z.land_0_r. split; reflexivity.
    + cbn [combine map digits_value forallb fst snd] in *.
      apply andb_true_iff in H1. destruct H1 as [Hx H1].
      apply andb_true_iff in H2. destruct H2 as [Hy H2].
      apply is_digit_range in Hx. apply is_digit_range in Hy.
      destruct (IH l2 H1 H2) as (Hv & Hd).
      rewrite Hv, Hd, andb_true_r. split.
      * symmetry. apply land_cons; assumption.
      * apply is_digit_range. apply land_digit; assumption.
Qed.

Lemma combine_shorter : forall (A : Type) (l1 l2 : list A) a b,
  combine (firstn (Nat.min a b) l1) (firstn (Nat.min a b) l2)
  = combine (firstn a l1) (firstn b l2).
Proof.
  intros A. induction l1 as [|x l1 IH]; intros l2 a b.
  - rewrite !firstn_nil. reflexivity.
  - destruct a as [|a].
    + cbn [Nat.min firstn combine]. reflexivity.
    + destruct b as [|b].
      * cbn [Nat.min firstn combine]. destruct (firstn (S a) (x :: l1)); reflexivity.
      * destruct l2 as [|y l2].
        -- rewrite !firstn_nil. cbn [Nat.min firstn combine]. reflexivity.
        -- cbn [Nat.min firstn combine]. f_equal. apply IH.
Qed.

Lemma zip_and_app : forall l1 l2 r1 r2,
  List.length l1 = List.length r1 ->
  zip_and (l1 ++ l2) (r1 ++ r2) = zip_and l1 r1 ++ zip_and l2 r2.
Proof.
  induction l1 as [|x l1 IH]; intros l2 [|y r1] r2 Hlen; try discriminate Hlen.
  - reflexivity.
  - cbn [app combine map]. f_equal. apply IH. cbn [List.length] in Hlen. lia.
Qed.

Section Junk.
Variable junk_word : Z.
Variable clear_bytes : Z -> Z -> Z.

(** *** The loop of operator&= *)

Lemma and_loop_spec : forall n d ad,
  (n <= List.length d)%nat -> (n <= List.length ad)%nat ->
  exists d', bitwise_loop Z.land n (Z.of_nat n - 1) d ad = Ok d' /\
    List.length d' = List.length d /\ skipn n d' = skipn n d /\
    firstn n d' = zip_and (firstn n d) (firstn n ad).
Proof.
  induction n as [|n IH]; intros d ad Hd Ha.
  - exists d. repeat split; reflexivity.
  - cbn [bitwise_loop]. replace (Z.of_nat (S n) - 1) with (Z.of_nat n) by lia.
    rewrite !rd_in by (unfold Zlen; lia). cbn [bind].
    rewrite wr_in by (unfold Zlen; lia). cbn [bind]. rewrite Nat2Z.id.
    set (v := Z.land (nth n d 0) (nth n ad 0)).
    destruct (IH (upd d n v) ad) as (d' & Hr & Hlen & Hsk & Hfi);
      [rewrite upd_length; lia|lia|].
    exists d'. split; [exact Hr|]. rewrite upd_length in Hlen.
    split; [exact Hlen|]. split.
    + rewrite (skipn_succ_eq Z n d' (upd d n v) Hsk). apply skipn_upd_below. lia.
    + rewrite firstn_upd_above in Hfi by lia.
      rewrite (firstn_succ_nth Z d' n 0) by lia.
      rewrite (nth_after_loop d d' n v ltac:(lia) Hsk).
      rewrite (firstn_succ_nth Z d n 0) by lia.
      rewrite (firstn_succ_nth Z ad n 0) by lia.
      rewrite zip_and_app by (rewrite !length_firstn; lia).
      rewrite Hfi. reflexivity.
Qed.

(** The memset clears bytes where the cells it was meant for are words: it
    stays inside the block and below the cells it leaves alone. *)
Lemma memset_bytes_spec : forall fuel d off nbytes,
  0 <= off -> off + nbytes <= Zlen d ->
  exists d', memset_bytes clear_bytes fuel d off nbytes = Ok d' /\
    List.length d' = List.length d /\
    firstn (Z.to_nat off) d' = firstn (Z.to_nat off) d.
Proof.
  induction fuel as [|fuel IH]; intros d off nbytes Hoff Hlen.
  - exists d. repeat split; reflexivity.
  - cbn [memset_bytes].
    destruct (Z.geb_spec nbytes 4) as [Hge|Hlt].
    + rewrite wr_in by lia. cbn [bind].
      destruct (IH (upd d (Z.to_nat off) 0) (off + 1) (nbytes - 4)) as (d' & Hr & Hl & Hf).
      { lia. }
      { unfold Zlen in *. rewrite upd_length. lia. }
      exists d'. split; [exact Hr|]. rewrite upd_length in Hl. split; [exact Hl|].
      replace (Z.to_nat off) with (Nat.min (Z.to_nat off) (Z.to_nat (off + 1))) by lia.
      rewrite <- !firstn_firstn. rewrite Hf.
      rewrite firstn_firstn.
      replace (Nat.min (Z.to_nat off) (Z.to_nat (off + 1))) with (Z.to_nat off) by lia.
      rewrite firstn_firstn.
      replace (Nat.min (Z.to_nat off) (Z.to_nat (off + 1))) with (Z.to_nat off) by lia.
      apply firstn_upd_above. lia.
    + destruct (Z.gtb_spec nbytes 0) as [Hpos|H0].
      * rewrite rd_in by lia. cbn [bind]. rewrite wr_in by lia.
        eexists. split; [reflexivity|]. rewrite upd_length. split; [reflexivity|].
        apply firstn_upd_above. lia.
      * exists d. repeat split; reflexivity.
Qed.

(** operator&= works on the magnitudes and keeps the sign of the left
    operand. *)
Lemma and_assign_spec : forall this a,
  well_formed this = true -> well_formed a = true -> length_ this <= 65535 ->
  exists r, operator_and_assign junk_word clear_bytes this a = Ok r /\
    value r = (if neg_ this then - Z.land (magnitude this) (magnitude a)
               else Z.land (magnitude this) (magnitude a)) /\
    well_formed r = true /\ canonical r = true.
Proof.
  intros this a Hw Hwa Hn.
  destruct (well_formed_facts this Hw) as (Hl & Hc & Hd).
  destruct (well_formed_facts a Hwa) as (Hla & Hca & Hda).
  unfold operator_and_assign, length.
  set (m := Z.min (length_ this) (length_ a)).
  assert (Hset : set_length junk_word this m = with_length this m).
  { unfold set_length, capacity. rewrite u16_small by (unfold m; lia).
    replace (m >? Zlen (data_ this)) with false
      by (symmetry; rewrite Z.gtb_ltb; apply Z.ltb_ge; unfold m; lia).
    reflexivity. }
  rewrite Hset. cbn [with_length length_ data_ neg_].
  set (n := Z.to_nat m).
  destruct (and_loop_spec n (data_ this) (data_ a)) as (d' & Hr & Hdlen & Hsk & Hfi).
  { unfold n, m, Zlen in *. lia. }
  { unfold n, m, Zlen in *. lia. }
  replace (m - 1) with (Z.of_nat n - 1) by (unfold n, m; lia).
  rewrite Hr. cbn [bind].
  assert (Hmem : exists d'',
    (if length_ this >? m
     then memset_bytes clear_bytes (Z.to_nat (length_ this - m)) d' m (length_ this - m)
     else Ok d') = Ok d'' /\
    List.length d'' = List.length d' /\ firstn n d'' = firstn n d').
  { destruct (length_ this >? m).
    - apply memset_bytes_spec; [unfold m; lia|]. unfold Zlen in *. lia.
    - exists d'. repeat split; reflexivity. }
  destruct Hmem as (d'' & Hm & Hl'' & Hf''). rewrite Hm. cbn [bind].
  assert (Hzip : firstn n d'' = zip_and (digits_of this) (digits_of a)).
  { rewrite Hf'', Hfi. f_equal.
    replace n with (Nat.min (Z.to_nat (length_ this)) (Z.to_nat (length_ a)))
      by (unfold n, m; lia).
    apply combine_shorter. }
  destruct (dv_zip_and (digits_of this) (digits_of a) Hd Hda) as (Hval & Hdigs).
  assert (Hw' : well_formed (with_data (with_length this m) d'') = true).
  { apply well_formed_intro; cbn [with_data with_length length_ data_].
    - unfold m, Zlen in *. lia.
    - unfold Zlen in *. lia.
    - fold n. rewrite Hzip. exact Hdigs. }
  destruct (reduce_spec _ Hw') as (r & Hrr & Hcan & Hv & Hrw & _).
  exists r. split; [exact Hrr|]. split; [|split; assumption].
  rewrite Hv, value_of_magnitude. unfold magnitude at 1 2.
  cbn [with_data with_length neg_ length_ data_]. fold n. rewrite Hzip, Hval.
  reflexivity.
Qed.

End Junk.

End BignumAnd.

Module BignumPower.
Import Bignum.
Import BignumMore BignumArith BignumOrder BignumOrder2 BignumBlocks BignumAssign BignumLoops BignumOps BignumParse BignumSub BignumSigned BignumAddSub BignumShift BignumBitwise BignumProduct.

(** *** Powers of integers *)

Lemma pow_ge_self : forall a k, 0 <= a -> 1 <= k -> a <= a ^ k.
Proof.
  intros a k Ha Hk. replace k with (1 + (k - 1)) by ring.
  rewrite Z.pow_add_r by lia. rewrite Z.pow_1_r.
  assert (H : 0 <= a ^ (k - 1)) by (apply Z.pow_nonneg; exact Ha).
  destruct (Z.eq_dec a 0) as [->|Hne]; [lia|].
  assert (H1 : 0 < a ^ (k - 1)) by (apply Z.pow_pos_nonneg; lia).
  nia.
Qed.

Lemma pow_double : forall a k, 0 <= k -> a ^ (2 * k) = (a * a) ^ k.
Proof.
  intros a k Hk. rewrite Z.pow_mul_r by lia. rewrite Z.pow_2_r. reflexivity.
Qed.

Lemma half_of : forall n, 0 <= n ->
  Z.shiftr n 1 = n / 2 /\ Z.land n 1 = n mod 2 /\ n = 2 * (n / 2) + n mod 2 /\
  0 <= n mod 2 < 2.
Proof.
  intros n Hn. split; [|split; [|split]].
  - rewrite Z.shiftr_div_pow2 by lia. reflexivity.
  - change 1 with (Z.ones 1) at 1. rewrite Z.land_ones by lia. reflexivity.
  - apply Z.div_mod. lia.
  - apply Z.mod_pos_bound. lia.
Qed.

Section Bound.
Variable junk_word : Z.
Variable m : Z.
Hypothesis m_range : 1 <= m <= 32766.

Local Abbreviation M := (2 ^ (32 * m)).

Lemma operands_fit : forall a b n,
  0 <= a -> 0 <= b -> 1 <= n -> (b = 0 -> a = 0) ->
  b * a ^ (2 * n) < M -> a * a < M /\ b * a < M.
Proof.
  intros a b n Ha Hb Hn Hz Hlt.
  assert (HM : 0 < M) by (apply Z.pow_pos_nonneg; lia).
  destruct (Z.eq_dec a 0) as [->|Hane]; [lia|].
  assert (Hb1 : 1 <= b) by (destruct (Z.eq_dec b 0) as [H0|]; [apply Hz in H0|]; lia).
  pose proof (pow_ge_self (a * a) n ltac:(nia) Hn) as H2.
  rewrite <- pow_double in H2 by lia.
  pose proof (pow_ge_self a (2 * n) Ha ltac:(lia)) as H1.
  assert (H0 : 0 <= a ^ (2 * n)) by (apply Z.pow_nonneg; exact Ha).
  split; nia.
Qed.

Lemma bound_kept : forall a b n,
  0 <= a -> 0 <= b -> 1 <= n ->
  b * a ^ (2 * n) < M ->
  (if negb (n mod 2 =? 0) then b * a else b) * (a * a) ^ (2 * (n / 2)) < M.
Proof.
  intros a b n Ha Hb Hn Hlt.
  destruct (half_of n ltac:(lia)) as (_ & _ & Hdm & Hr).
  set (h := n / 2) in *. set (r := n mod 2) in *.
  assert (Hh : 0 <= h) by (unfold h; apply Z.div_pos; lia).
  rewrite <- pow_double by lia.
  assert (Hp : 0 <= a ^ (2 * (2 * h))) by (apply Z.pow_nonneg; exact Ha).
  destruct (Z.eqb_spec r 0) as [H0|H1]; cbn [negb].
  - replace (2 * n) with (2 * (2 * h)) in Hlt by lia. exact Hlt.
  - replace (2 * n) with (2 + 2 * (2 * h)) in Hlt by lia.
    rewrite Z.pow_add_r in Hlt by lia. rewrite Z.pow_2_r in Hlt.
    destruct (Z.eq_dec a 0) as [->|Hane].
    + rewrite Z.mul_0_r, Z.mul_0_l. apply Z.pow_pos_nonneg; lia.
    + nia.
Qed.

Lemma fits : forall b,
  well_formed b = true -> canonical b = true ->
  Z.abs (value b) < M -> length_ b <= m.
Proof.
  intros b Hw Hc Hlt. apply length_from_value; try assumption; [lia|].
  rewrite magnitude_abs by assumption. exact Hlt.
Qed.

(** *** The loop of power *)

Lemma power_loop_spec : forall fuel x y n,
  well_formed x = true -> well_formed y = true ->
  canonical x = true -> canonical y = true ->
  0 <= n < 2 ^ Z.of_nat fuel ->
  Z.abs (value y) * Z.abs (value x) ^ (2 * n) < M ->
  (value y = 0 -> value x = 0) ->
  length_ x <= m -> length_ y <= m ->
  exists r, power_loop junk_word fuel x y n = Ok r /\
    value r = value y * value x ^ n /\
    well_formed r = true /\ canonical r = true.
Proof.
  induction fuel as [|fuel IH]; intros x y n Wx Wy Cx Cy Hn Hlt Hz Lx Ly.
  - assert (n = 0) by (change (2 ^ Z.of_nat 0) with 1 in Hn; lia). subst n.
    exists y. cbn [power_loop Z.eqb]. rewrite Z.pow_0_r, Z.mul_1_r.
    repeat split; assumption.
  - cbn [power_loop]. destruct (Z.eqb_spec n 0) as [->|Hn0].
    + exists y. rewrite Z.pow_0_r, Z.mul_1_r. repeat split; assumption.
    + destruct (half_of n ltac:(lia)) as (Hsh & Hand & Hdm & Hr).
      rewrite Hsh, Hand.
      pose proof (top_of_canonical x Cx) as Tx.
      pose proof (top_of_canonical y Cy) as Ty.
      assert (Hz' : Z.abs (value y) = 0 -> Z.abs (value x) = 0) by lia.
      destruct (operands_fit (Z.abs (value x)) (Z.abs (value y)) n
                  ltac:(lia) ltac:(lia) ltac:(lia) Hz' Hlt) as (Hxx & Hyx).
      pose proof (bound_kept (Z.abs (value x)) (Z.abs (value y)) n
                    ltac:(lia) ltac:(lia) ltac:(lia) Hlt) as Hkept.
      (* y *= x when the low bit of n is set *)
      assert (Hy' : exists y',
        (if negb (n mod 2 =? 0) then operator_mul_assign junk_word y x else Ok y) = Ok y' /\
        value y' = (if negb (n mod 2 =? 0) then value y * value x else value y) /\
        well_formed y' = true /\ canonical y' = true /\ length_ y' <= m).
      { destruct (negb (n mod 2 =? 0)).
        - destruct (mul_assign_spec junk_word y x Wy Wx Ty Tx ltac:(lia))
            as (y' & Ey & Vy & Wy' & Cy').
          exists y'. repeat split; try assumption.
          apply fits; try assumption. rewrite Vy, Z.abs_mul. exact Hyx.
        - exists y. repeat split; assumption. }
      destruct Hy' as (y' & Ey & Vy & Wy' & Cy' & Ly'). rewrite Ey. cbn [bind].
      (* x *= x *)
      destruct (mul_assign_spec junk_word x x Wx Wx Tx Tx ltac:(lia))
        as (x' & Ex & Vx & Wx' & Cx').
      rewrite Ex. cbn [bind].
      assert (Hh : 0 <= n / 2) by (apply Z.div_pos; lia).
      assert (Habs : Z.abs (value y')
                     = (if negb (n mod 2 =? 0)
                        then Z.abs (value y) * Z.abs (value x) else Z.abs (value y))).
      { rewrite Vy. destruct (negb (n mod 2 =? 0)); [apply Z.abs_mul|reflexivity]. }
      destruct (IH x' y' (n / 2)) as (r & Er & Vr & Wr & Cr); try assumption.
      * split; [exact Hh|].
        rewrite Nat2Z.inj_succ, Z.pow_succ_r in Hn by lia.
        apply Z.div_lt_upper_bound; lia.
      * rewrite Habs, Vx, Z.abs_mul. exact Hkept.
      * rewrite Vy, Vx. destruct (negb (n mod 2 =? 0)); intros H0.
        -- apply Z.mul_eq_0 in H0. destruct H0 as [H0|H0].
           ++ rewrite (Hz H0). reflexivity.
           ++ rewrite H0. reflexivity.
        -- rewrite (Hz H0). reflexivity.
      * apply fits; try assumption. rewrite Vx, Z.abs_mul. exact Hxx.
      * exists r. split; [exact Er|]. split; [|split; assumption].
        rewrite Vr, Vy, Vx. rewrite <- Z.pow_2_r, <- Z.pow_mul_r by lia.
        rewrite Hdm at 3.
        destruct (Z.eqb_spec (n mod 2) 0) as [H0|H1]; cbn [negb].
        -- rewrite H0, Z.add_0_r. reflexivity.
        -- replace (n mod 2) with 1 by lia.
           rewrite Z.pow_add_r by lia. rewrite Z.pow_1_r. ring.
Qed.

End Bound.

Section Junk.
Variable junk_word : Z.

Lemma power_bounded : forall m x n,
  1 <= m <= 32766 ->
  well_formed x = true -> canonical x = true ->
  0 <= n < 2 ^ 32 -> 2 * n * length_ x <= m ->
  exists r, power junk_word x n = Ok r /\ value r = value x ^ n /\
    well_formed r = true /\ canonical r = true.
Proof.
  intros m x n Hm Wx Cx Hn Hlen. unfold power.
  destruct (copy_spec junk_word x Wx) as (c & Hcopy & Hcl & Hcn & Hcd & Wc).
  destruct (copy_value x c Hcl Hcn Hcd) as (Vc & _ & _ & Cc).
  rewrite Hcopy. cbn [bind].
  destruct (small_int_facts junk_word 1 ltac:(lia)) as (W1 & _ & V1 & L1 & C1).
  assert (Hloop : exists y, power_loop junk_word 32 c (basic_bignum_i32 junk_word 1) n = Ok y /\
            value y = value x ^ n /\ well_formed y = true /\ canonical y = true).
  { destruct (Z.eq_dec n 0) as [->|Hn0].
    - exists (basic_bignum_i32 junk_word 1). cbn [power_loop Z.eqb].
      rewrite Z.pow_0_r. repeat split; assumption.
    - destruct (well_formed_facts x Wx) as (Hl & _).
      assert (Lx : length_ x <= m) by nia.
      assert (Hmag : Z.abs (value x) < 2 ^ (32 * length_ x)).
      { rewrite <- magnitude_abs by assumption.
        destruct (magnitude_bounds x Wx Cx) as [(H0 & Hm0 & _)|(_ & _ & Hhi)].
        - rewrite H0, Hm0. reflexivity.
        - exact Hhi. }
      assert (Hc : canonical c = true) by congruence.
      assert (Hfuel : 0 <= n < 2 ^ Z.of_nat 32) by exact Hn.
      assert (Hbound : Z.abs (value (basic_bignum_i32 junk_word 1))
                       * Z.abs (value c) ^ (2 * n) < 2 ^ (32 * m)).
      { rewrite V1, Vc. change (Z.abs 1) with 1. rewrite Z.mul_1_l.
        apply (Z.lt_le_trans _ ((2 ^ (32 * length_ x)) ^ (2 * n))).
        * apply Z.pow_lt_mono_l; lia.
        * rewrite <- Z.pow_mul_r by lia. apply Z.pow_le_mono_r; nia. }
      assert (Hz : value (basic_bignum_i32 junk_word 1) = 0 -> value c = 0)
        by (rewrite V1; discriminate).
      destruct (power_loop_spec junk_word m Hm 32 c (basic_bignum_i32 junk_word 1) n
                  Wc W1 Hc C1 Hfuel Hbound Hz ltac:(lia) ltac:(lia))
        as (y & Ey & Vy & Wy & Cy).
      exists y. split; [exact Ey|]. split; [|split; assumption].
      rewrite Vy, V1, Vc. ring. }
  destruct Hloop as (y & Ey & Vy & Wy & Cy). rewrite Ey. cbn [bind].
  destruct (copy_spec junk_word y Wy) as (r & Hcopy2 & Hrl & Hrn & Hrd & Wr).
  destruct (copy_value y r Hrl Hrn Hrd) as (Vr & _ & _ & Cr).
  exists r. split; [exact Hcopy2|]. split; [congruence|]. split; [exact Wr|]. congruence.
Qed.

(** power(x, n) is exact while the squares it forms fit. *)
Lemma power_spec : forall x n,
  well_formed x = true -> canonical x = true ->
  0 <= n < 2 ^ 32 -> 2 * n * length_ x <= 32766 ->
  exists r, power junk_word x n = Ok r /\ value r = value x ^ n /\
    well_formed r = true /\ canonical r = true.
Proof.
  intros x n. apply (power_bounded 32766). lia.
Qed.

End Junk.

End BignumPower.

Module BignumProperties.
Import Bignum.
Import BignumMore BignumArith BignumOrder BignumOrder2 BignumBlocks BignumAssign BignumLoops BignumOps BignumParse BignumSub BignumSigned BignumAddSub BignumShift BignumBitwise BignumProduct BignumDivision BignumAnd BignumPower.

Section Junk.
Variable junk_word : Z.
Variable junk_flag : bool.
Variable clear_bytes : Z -> Z -> Z.

Local Abbreviation digits_of b := (firstn (Z.to_nat (length_ b)) (data_ b)).

(** X1. reduce() succeeds on every bignum whose length is within its block,
    keeps the integer denoted and the block, never lengthens, and leaves the
    bignum canonical: no zero digit at the top, and zero not negative. *)
Theorem reduce_canonicalises : forall b,
  0 <= length_ b <= capacity b ->
  exists b', reduce b = Ok b' /\ canonical b' = true /\ value b' = value b /\
             data_ b' = data_ b /\ length_ b' <= length_ b.
Proof. exact reduce_total. Qed.

(** X2. DDproduct multiplies two 32-bit digits exactly: the high and the low
    word it returns are digits, and together they are the 64-bit product. *)
Theorem DDproduct_correct : forall A B,
  0 <= A < 2 ^ 32 -> 0 <= B < 2 ^ 32 ->
  fst (DDproduct A B) * 2 ^ 32 + snd (DDproduct A B) = A * B /\
  0 <= fst (DDproduct A B) < 2 ^ 32 /\ 0 <= snd (DDproduct A B) < 2 ^ 32.
Proof. exact DDproduct_value. Qed.

(** X4. On well-formed canonical operands the six comparison operators
    never fail and decide the order of the integers denoted. *)
Theorem comparison_decides_order : forall x y,
  well_formed x = true -> well_formed y = true ->
  canonical x = true -> canonical y = true ->
  operator_lt x y = Ok (value x <? value y) /\
  operator_gt x y = Ok (value x >? value y) /\
  operator_eq x y = Ok (value x =? value y) /\
  operator_ne x y = Ok (negb (value x =? value y)) /\
  operator_le x y = Ok (value x <=? value y) /\
  operator_ge x y = Ok (value x >=? value y).
Proof. exact comparison_of_values. Qed.

(** X6. Multiplying by a machine integer is exact: operator*=(unsigned) with
    any 32-bit [u], and operator*(x, int) with any [i] but INT_MIN, succeed
    on a well-formed bignum of at most 65532 digits and denote the product;
    the result is well formed and has no zero digit at the top. *)
Theorem multiplication_by_machine_integer : forall x u i,
  well_formed x = true -> length_ x <= 65532 ->
  0 <= u < 2 ^ 32 -> - 2 ^ 31 < i < 2 ^ 31 ->
  (exists r, operator_mul_assign_unsigned junk_word x u = Ok r /\
             value r = value x * u /\ well_formed r = true /\ canonical r = true) /\
  (exists r, operator_mul_int junk_word x i = Ok r /\
             value r = value x * i /\ well_formed r = true /\
             top_digit_nonzero r = true).
Proof.
  intros x u i Hw Hn Hu Hi. split.
  - destruct (mul_assign_unsigned_spec junk_word x u Hw Hn Hu)
      as (r & Hr & Hv & Hrw & Hc & _).
    exists r. repeat split; assumption.
  - destruct (mul_int_spec junk_word x i Hw Hn Hi) as (r & Hr & Hv & Hrw & _ & Ht & _).
    exists r. repeat split; assumption.
Qed.

(** X7. operator+ and operator- are exact: on well-formed canonical
    operands of at most 65532 digits, of any signs, they succeed, the
    results denote the sum and the difference of the integers, and are well
    formed and canonical. *)
Theorem addition_and_subtraction : forall x y,
  well_formed x = true -> well_formed y = true ->
  canonical x = true -> canonical y = true ->
  length_ x <= 65532 -> length_ y <= 65532 ->
  (exists r, operator_add junk_word x y = Ok r /\ value r = value x + value y /\
             well_formed r = true /\ canonical r = true) /\
  (exists r, operator_sub junk_word x y = Ok r /\ value r = value x - value y /\
             well_formed r = true /\ canonical r = true).
Proof. exact (add_sub_spec junk_word). Qed.

(** X10. On a well-formed bignum unary minus and abs succeed and denote the
    opposite and the absolute value; abs is never negative. *)
Theorem negation_and_abs : forall b,
  well_formed b = true ->
  (exists r, operator_neg junk_word b = Ok r /\ value r = - value b /\
             well_formed r = true) /\
  (exists r, abs junk_word b = Ok r /\ value r = Z.abs (value b) /\
             neg_ r = false /\ well_formed r = true).
Proof.
  intros b Hw.
  destruct (neg_spec junk_word b Hw) as (r & Hr & Hrl & Hrn & Hrd & Hrw & Hrv).
  split.
  - exists r. repeat split; assumption.
  - pose proof (magnitude_nonneg b Hw) as Hm.
    unfold abs. destruct (neg_ b) eqn:Hneg.
    + exists r. split; [exact Hr|]. rewrite Hrv, Hrn. cbn [negb].
      repeat split; try assumption.
      unfold value. rewrite Hneg. lia.
    + destruct (copy_spec junk_word b Hw) as (c & Hc & Hcl & Hcn & Hcd & Hcw).
      exists c. split; [exact Hc|].
      destruct (copy_value b c Hcl Hcn Hcd) as (Hv & _).
      rewrite Hv, Hcn. repeat split; try assumption.
      unfold value. rewrite Hneg. lia.
Qed.

(** X11. The copy constructor and operator= give a bignum that denotes the
    same integer: the copy of any well-formed bignum, the assignment of one
    of at most 65533 digits. *)
Theorem copy_and_assign_keep_value : forall this y,
  2 <= capacity this -> well_formed y = true ->
  (exists c, basic_bignum_copy junk_word y = Ok c /\ value c = value y /\
             canonical c = canonical y /\ well_formed c = true) /\
  (length_ y <= 65533 ->
   exists r, operator_assign junk_word this y = Ok r /\ value r = value y /\
             canonical r = canonical y /\ well_formed r = true).
Proof.
  intros this y Hcap Hw. split.
  - destruct (copy_spec junk_word y Hw) as (c & Hc & Hcl & Hcn & Hcd & Hcw).
    destruct (copy_value y c Hcl Hcn Hcd) as (Hv & _ & _ & Hcan).
    exists c. repeat split; assumption.
  - intros Hn.
    destruct (assign_spec junk_word this y Hcap Hw Hn) as (r & Hr & Hrl & Hrn & Hrd & Hrw).
    destruct (copy_value y r Hrl Hrn Hrd) as (Hv & _ & _ & Hcan).
    exists r. repeat split; assumption.
Qed.

(** X12. Division and remainder by a bignum of length 0 throw
    "Zero divide.", for every well-formed dividend. *)
Theorem division_by_zero_throws : forall x y,
  well_formed x = true -> well_formed y = true -> length_ y = 0 ->
  operator_div junk_word junk_flag x y = Err zero_divide /\
  operator_mod junk_word junk_flag x y = Err zero_divide.
Proof.
  intros x y Hwx Hwy Hlen.
  destruct (copy_spec junk_word x Hwx) as (c & Hc & _).
  destruct (well_formed_facts y Hwy) as (_ & Hcap & _).
  unfold operator_div, operator_mod, operator_div_assign, operator_mod_assign.
  rewrite Hc. cbn [bind]. unfold call_depth.
  rewrite !(BignumFacts.divide_by_zero_throws junk_word junk_flag) by assumption.
  split; reflexivity.
Qed.

(** X24. The shifts scale by powers of two.  operator<<=(k) multiplies by
    2^k: on a well-formed bignum that has room for the k/32 + 1 more digits
    it succeeds, the result denotes value * 2^k and is well formed and
    canonical.  operator>>=(k) divides by 2^k towards zero: it shifts the
    magnitude and keeps the sign; the result is canonical unless all the
    digits of a negative number are shifted out, which leaves a zero that is
    flagged negative. *)
Theorem shifts_scale_by_powers_of_two : forall this k,
  well_formed this = true -> 0 <= k ->
  (length_ this + k / 32 + 1 <= 65533 ->
   exists r, operator_shl_assign junk_word this k = Ok r /\
     value r = value this * 2 ^ k /\ well_formed r = true /\ canonical r = true) /\
  (length_ this <= 65535 ->
   exists r, operator_shr_assign junk_word this k = Ok r /\
     value r = Z.quot (value this) (2 ^ k) /\ well_formed r = true /\
     (k / 32 < length_ this \/ neg_ this = false -> canonical r = true) /\
     (length_ this <= k / 32 -> r = with_length this 0)).
Proof.
  intros this k Hw Hk. split.
  - intros Hn. apply shl_assign_spec; assumption.
  - intros Hn.
    destruct (shr_assign_spec junk_word this k Hw Hn Hk) as (r & Hr & Hv & Hrw & Hcan).
    exists r. split; [exact Hr|]. split; [exact Hv|]. split; [exact Hrw|].
    split; [exact Hcan|].
    intros Hout. unfold operator_shr_assign, length in Hr.
    change basic_type_bits with 32 in Hr.
    replace (k / 32 >=? length_ this) with true in Hr
      by (symmetry; rewrite Z.geb_leb; apply Z.leb_le; exact Hout).
    destruct (well_formed_facts this Hw) as (_ & Hc & _).
    unfold set_length, capacity in Hr. change (u16 0) with 0 in Hr.
    replace (0 >? Zlen (data_ this)) with false in Hr
      by (symmetry; rewrite Z.gtb_ltb; apply Z.ltb_ge; lia).
    congruence.
Qed.

(** X25. power(x, n) is exact: for a well-formed canonical x and an unsigned
    n with 2 * n * length(x) at most 32766, so that every square the loop
    forms fits, it succeeds and the result denotes x^n (1 for n = 0, also
    when x is zero); it is well formed and canonical. *)
Theorem power_is_exact : forall x n,
  well_formed x = true -> canonical x = true ->
  0 <= n < 2 ^ 32 -> 2 * n * length_ x <= 32766 ->
  exists r, power junk_word x n = Ok r /\ value r = value x ^ n /\
    well_formed r = true /\ canonical r = true.
Proof. exact (power_spec junk_word). Qed.

(** X26. operator|=, operator^= and operator&= work on the magnitudes and
    keep the sign of the left operand: the result denotes the bitwise or
    (exclusive or, and) of the two magnitudes, negated when the left operand
    is negative, whatever the sign of the right operand; it is well formed
    and canonical.  For operator&= this holds whatever bytes the memset of
    the cells it drops clears. *)
Theorem bitwise_assignments_on_magnitudes : forall this a,
  well_formed this = true -> well_formed a = true ->
  (length_ a <= 65533 ->
   exists r, operator_or_assign junk_word this a = Ok r /\
     value r = (if neg_ this then - Z.lor (magnitude this) (magnitude a)
                else Z.lor (magnitude this) (magnitude a)) /\
     well_formed r = true /\ canonical r = true) /\
  (length_ a <= 65533 ->
   exists r, operator_xor_assign junk_word this a = Ok r /\
     value r = (if neg_ this then - Z.lxor (magnitude this) (magnitude a)
                else Z.lxor (magnitude this) (magnitude a)) /\
     well_formed r = true /\ canonical r = true) /\
  (length_ this <= 65535 ->
   exists r, operator_and_assign junk_word clear_bytes this a = Ok r /\
     value r = (if neg_ this then - Z.land (magnitude this) (magnitude a)
                else Z.land (magnitude this) (magnitude a)) /\
     well_formed r = true /\ canonical r = true).
Proof.
  intros this a Hw Hwa. split; [|split]; intros Hn.
  - apply (or_xor_spec junk_word this a Hw Hwa Hn).
  - apply (or_xor_spec junk_word this a Hw Hwa Hn).
  - apply and_assign_spec; assumption.
Qed.

(** X27. operator*= and operator* of two bignums are exact: on well-formed
    canonical operands whose lengths add up to at most 65532 digits they
    succeed, the result denotes the product, and is well formed and
    canonical. *)
Theorem multiplication_is_exact : forall x y,
  well_formed x = true -> well_formed y = true ->
  canonical x = true -> canonical y = true ->
  length_ x + length_ y <= 65532 ->
  (exists r, operator_mul_assign junk_word x y = Ok r /\
     value r = value x * value y /\ well_formed r = true /\ canonical r = true) /\
  (exists r, operator_mul junk_word x y = Ok r /\
     value r = value x * value y /\ well_formed r = true /\ canonical r = true).
Proof.
  intros x y Hw Hwy Hc Hcy Hn.
  pose proof (top_of_canonical x Hc) as Ht. pose proof (top_of_canonical y Hcy) as Hty.
  split.
  - apply mul_assign_spec; assumption.
  - apply mul_spec; assumption.
Qed.

(** X28. Where divide does not normalise, operator/ and operator% are exact:
    for well-formed canonical operands, a divisor that is not zero, and a
    dividend below the divisor in magnitude, or below 2^32, or a divisor
    below 2^16, the quotient is the quotient truncated towards zero and the
    remainder has the sign of the dividend. *)
Theorem division_is_exact_without_normalising : forall x y,
  well_formed x = true -> well_formed y = true ->
  canonical x = true -> canonical y = true ->
  value y <> 0 -> length_ x <= 65533 ->
  Z.abs (value x) < Z.abs (value y) \/ Z.abs (value x) < 2 ^ 32 \/
  Z.abs (value y) < 2 ^ 16 ->
  (exists q, operator_div junk_word junk_flag x y = Ok q /\
     value q = Z.quot (value x) (value y) /\
     well_formed q = true /\ canonical q = true) /\
  (exists r, operator_mod junk_word junk_flag x y = Ok r /\
     value r = Z.rem (value x) (value y) /\ well_formed r = true).
Proof.
  intros x y Hw Hwy Hc Hcy Hy0 Hn Hcase.
  rewrite <- !magnitude_abs in Hcase by assumption.
  apply div_mod_simple; try assumption; try (apply top_of_canonical; assumption).
  destruct (well_formed_facts y Hwy) as (Hl & _).
  destruct (Z.eq_dec (length_ y) 0) as [H0|]; [|lia].
  exfalso. apply Hy0. rewrite value_of_magnitude, (magnitude_zero_length y H0).
  destruct (neg_ y); reflexivity.
Qed.

Lemma int_bignum_facts : forall i,
  - 2 ^ 31 < i < 2 ^ 31 ->
  well_formed (basic_bignum_i32 junk_word i) = true /\
  canonical (basic_bignum_i32 junk_word i) = true /\
  value (basic_bignum_i32 junk_word i) = i /\
  length_ (basic_bignum_i32 junk_word i) <= 1.
Proof.
  intros i Hi. destruct (Z.ltb_spec i 0) as [Hneg|Hpos].
  - unfold basic_bignum_i32.
    replace (i <? 0) with true by (symmetry; apply Z.ltb_lt; lia).
    rewrite (u32_small (- i)) by lia.
    destruct (u32_bignum_facts junk_word true (- i) ltac:(lia)) as (Hw & Hm & Hl & Ht).
    split; [exact Hw|]. split; [|split; [|exact Hl]].
    + unfold canonical. rewrite Ht, andb_true_r. unfold zero_is_unsigned, initialize_u32.
      cbn [length_ neg_].
      replace (- i =? 0) with false by (symmetry; apply Z.eqb_neq; lia). reflexivity.
    + rewrite value_of_magnitude, Hm. unfold initialize_u32. cbn [neg_]. lia.
  - destruct (small_int_facts junk_word i ltac:(lia)) as (Hw & _ & Hv & Hl & Hc).
    repeat split; assumption.
Qed.

(** X29. operator+(x, int) and operator-(x, int) are exact for every int but
    INT_MIN, on a well-formed canonical bignum of at most 65532 digits, and
    there operator++ adds one and operator-- subtracts one. *)
Theorem int_operands_add_and_subtract : forall x i,
  well_formed x = true -> canonical x = true -> length_ x <= 65532 ->
  - 2 ^ 31 < i < 2 ^ 31 ->
  (exists r, operator_add_int junk_word x i = Ok r /\ value r = value x + i /\
             well_formed r = true /\ canonical r = true) /\
  (exists r, operator_sub_int junk_word x i = Ok r /\ value r = value x - i /\
             well_formed r = true /\ canonical r = true) /\
  (exists r, operator_inc junk_word x = Ok r /\ value r = value x + 1 /\
             well_formed r = true /\ canonical r = true) /\
  (exists r, operator_dec junk_word x = Ok r /\ value r = value x - 1 /\
             well_formed r = true /\ canonical r = true).
Proof.
  intros x i Hw Hc Hn Hi.
  destruct (int_bignum_facts i Hi) as (Hiw & Hic & Hiv & Hil).
  destruct (int_bignum_facts 1 ltac:(lia)) as (H1w & H1c & H1v & H1l).
  pose proof (top_of_canonical x Hc) as Tx.
  pose proof (top_of_canonical _ H1c) as T1.
  unfold operator_add_int, operator_sub_int.
  destruct (add_sub_spec junk_word x (basic_bignum_i32 junk_word i)
              Hw Hiw Hc Hic Hn ltac:(lia)) as (Hadd & Hsub).
  rewrite Hiv in Hadd, Hsub. split; [exact Hadd|]. split; [exact Hsub|].
  split.
  - unfold operator_inc, operator_add_assign.
    destruct (plus_minus_spec junk_word 1 false x (basic_bignum_i32 junk_word 1)
                Hw H1w Tx T1 Hn ltac:(lia)) as (r & Hr & Hv & Hrw & Hrc & _).
    exists r. rewrite H1v in Hv. repeat split; assumption.
  - unfold operator_dec, operator_sub_assign.
    destruct (plus_minus_spec junk_word 1 true x (basic_bignum_i32 junk_word 1)
                Hw H1w Tx T1 Hn ltac:(lia)) as (r & Hr & Hv & Hrw & Hrc & _).
    exists r. rewrite H1v in Hv. repeat split; assumption.
Qed.

(** X30. On a well-formed canonical bignum operator bool tells whether the
    integer is not zero, and operator! whether it is zero. *)
Theorem truth_tests_zero : forall b,
  well_formed b = true -> canonical b = true ->
  operator_bool b = negb (value b =? 0) /\ operator_not b = (value b =? 0).
Proof.
  intros b Hw Hc. unfold operator_bool, operator_not, length.
  rewrite value_of_magnitude.
  destruct (magnitude_bounds b Hw Hc) as [(H0 & Hm & Hneg)|(Hpos & Hlo & _)].
  - rewrite H0, Hm, Hneg. split; reflexivity.
  - assert (0 < 2 ^ (32 * (length_ b - 1))) by (apply Z.pow_pos_nonneg; lia).
    replace (length_ b =? 0) with false by (symmetry; apply Z.eqb_neq; lia).
    destruct (neg_ b).
    + replace (- magnitude b =? 0) with false by (symmetry; apply Z.eqb_neq; lia).
      split; reflexivity.
    + replace (magnitude b =? 0) with false by (symmetry; apply Z.eqb_neq; lia).
      split; reflexivity.
Qed.

End Junk.

Lemma reduce_canonicalises_witness :
  let b := mk_bignum [7; 0; 0; 0] true 3 in
  0 <= length_ b <= capacity b /\
  exists b', reduce b = Ok b' /\ canonical b' = true /\ value b' = value b /\
             data_ b' = data_ b /\ length_ b' <= length_ b.
Proof.
  intros b.
  assert (H : 0 <= length_ b <= capacity b) by (vm_compute; split; discriminate).
  exact (conj H (reduce_canonicalises b H)).
Defined.

Lemma DDproduct_correct_witness :
  (0 <= 4294967295 < 2 ^ 32 /\ 0 <= 65537 < 2 ^ 32) /\
  fst (DDproduct 4294967295 65537) * 2 ^ 32 + snd (DDproduct 4294967295 65537)
    = 4294967295 * 65537 /\
  0 <= fst (DDproduct 4294967295 65537) < 2 ^ 32 /\
  0 <= snd (DDproduct 4294967295 65537) < 2 ^ 32.
Proof.
  assert (HA : 0 <= 4294967295 < 2 ^ 32) by lia.
  assert (HB : 0 <= 65537 < 2 ^ 32) by lia.
  exact (conj (conj HA HB) (DDproduct_correct 4294967295 65537 HA HB)).
Defined.

Lemma comparison_decides_order_witness :
  let x := mk_bignum [5; 1] true 2 in
  let y := mk_bignum [9; 0] false 1 in
  (well_formed x = true /\ well_formed y = true /\
   canonical x = true /\ canonical y = true) /\
  operator_lt x y = Ok (value x <? value y) /\
  operator_gt x y = Ok (value x >? value y) /\
  operator_eq x y = Ok (value x =? value y) /\
  operator_ne x y = Ok (negb (value x =? value y)) /\
  operator_le x y = Ok (value x <=? value y) /\
  operator_ge x y = Ok (value x >=? value y).
Proof.
  intros x y.
  exact (conj (conj eq_refl (conj eq_refl (conj eq_refl eq_refl)))
              (comparison_decides_order x y eq_refl eq_refl eq_refl eq_refl)).
Defined.

Lemma multiplication_by_machine_integer_witness :
  let x := mk_bignum [4294967295; 3] true 2 in
  (well_formed x = true /\ length_ x <= 65532 /\
   0 <= 4294967295 < 2 ^ 32 /\ - 2 ^ 31 < -10 < 2 ^ 31) /\
  (exists r, operator_mul_assign_unsigned 0 x 4294967295 = Ok r /\
             value r = value x * 4294967295 /\ well_formed r = true /\
             canonical r = true) /\
  (exists r, operator_mul_int 0 x (-10) = Ok r /\
             value r = value x * (-10) /\ well_formed r = true /\
             top_digit_nonzero r = true).
Proof.
  intros x.
  assert (Hn : length_ x <= 65532) by (vm_compute; discriminate).
  assert (Hu : 0 <= 4294967295 < 2 ^ 32) by lia.
  assert (Hi : - 2 ^ 31 < -10 < 2 ^ 31) by lia.
  exact (conj (conj eq_refl (conj Hn (conj Hu Hi)))
              (multiplication_by_machine_integer 0 x 4294967295 (-10) eq_refl Hn Hu Hi)).
Defined.

Lemma negation_and_abs_witness :
  let b := mk_bignum [1; 2; 3; 0] true 3 in
  well_formed b = true /\
  (exists r, operator_neg 0 b = Ok r /\ value r = - value b /\
             well_formed r = true) /\
  (exists r, abs 0 b = Ok r /\ value r = Z.abs (value b) /\
             neg_ r = false /\ well_formed r = true).
Proof.
  intros b. exact (conj eq_refl (negation_and_abs 0 b eq_refl)).
Defined.

Lemma copy_and_assign_keep_value_witness :
  let this := mk_bignum [0; 0] false 0 in
  let y := mk_bignum [1; 2; 3; 0] true 3 in
  (2 <= capacity this /\ well_formed y = true) /\
  (exists c, basic_bignum_copy 0 y = Ok c /\ value c = value y /\
             canonical c = canonical y /\ well_formed c = true) /\
  (length_ y <= 65533 ->
   exists r, operator_assign 0 this y = Ok r /\ value r = value y /\
             canonical r = canonical y /\ well_formed r = true).
Proof.
  intros this y.
  assert (Hc : 2 <= capacity this) by (vm_compute; discriminate).
  exact (conj (conj Hc eq_refl) (copy_and_assign_keep_value 0 this y Hc eq_refl)).
Defined.

Lemma division_by_zero_throws_witness :
  let x := mk_bignum [1; 2; 3; 0] true 3 in
  let y := mk_bignum [0; 0] false 0 in
  (well_formed x = true /\ well_formed y = true /\ length_ y = 0) /\
  operator_div 0 false x y = Err zero_divide /\
  operator_mod 0 false x y = Err zero_divide.
Proof.
  intros x y.
  exact (conj (conj eq_refl (conj eq_refl eq_refl))
              (division_by_zero_throws 0 false x y eq_refl eq_refl eq_refl)).
Defined.

Lemma addition_and_subtraction_witness :
  let x := mk_bignum [4294967295; 4294967295] false 2 in
  let y := mk_bignum [7; 0] true 1 in
  (well_formed x = true /\ well_formed y = true /\
   canonical x = true /\ canonical y = true /\
   length_ x <= 65532 /\ length_ y <= 65532) /\
  (exists r, operator_add 0 x y = Ok r /\ value r = value x + value y /\
             well_formed r = true /\ canonical r = true) /\
  (exists r, operator_sub 0 x y = Ok r /\ value r = value x - value y /\
             well_formed r = true /\ canonical r = true).
Proof.
  intros x y.
  assert (Hx : length_ x <= 65532) by (vm_compute; discriminate).
  assert (Hy : length_ y <= 65532) by (vm_compute; discriminate).
  exact (conj (conj eq_refl (conj eq_refl (conj eq_refl (conj eq_refl (conj Hx Hy)))))
              (addition_and_subtraction 0 x y eq_refl eq_refl eq_refl eq_refl Hx Hy)).
Defined.

Lemma shifts_scale_by_powers_of_two_witness :
  let this := mk_bignum [2147483649; 5; 7; 0; 0; 0; 0; 0] true 3 in
  (well_formed this = true /\ 0 <= 70 /\
   length_ this + 70 / 32 + 1 <= 65533 /\ length_ this <= 65535) /\
  (exists r, operator_shl_assign 0 this 70 = Ok r /\
     value r = value this * 2 ^ 70 /\ well_formed r = true /\ canonical r = true) /\
  (exists r, operator_shr_assign 0 this 70 = Ok r /\
     value r = Z.quot (value this) (2 ^ 70) /\ well_formed r = true /\
     (70 / 32 < length_ this \/ neg_ this = false -> canonical r = true) /\
     (length_ this <= 70 / 32 -> r = with_length this 0)).
Proof.
  intros this.
  assert (Hk : 0 <= 70) by lia.
  assert (Hl : length_ this + 70 / 32 + 1 <= 65533) by (vm_compute; discriminate).
  assert (Hr : length_ this <= 65535) by (vm_compute; discriminate).
  exact (conj (conj eq_refl (conj Hk (conj Hl Hr)))
              (conj (proj1 (shifts_scale_by_powers_of_two 0 this 70 eq_refl Hk) Hl)
                    (proj2 (shifts_scale_by_powers_of_two 0 this 70 eq_refl Hk) Hr))).
Defined.

Lemma power_is_exact_witness :
  let x := mk_bignum [4294967295; 1] true 2 in
  (well_formed x = true /\ canonical x = true /\ 0 <= 5 < 2 ^ 32 /\
   2 * 5 * length_ x <= 32766) /\
  exists r, power 0 x 5 = Ok r /\ value r = value x ^ 5 /\
    well_formed r = true /\ canonical r = true.
Proof.
  intros x.
  assert (Hn : 0 <= 5 < 2 ^ 32) by lia.
  assert (Hl : 2 * 5 * length_ x <= 32766) by (vm_compute; discriminate).
  exact (conj (conj eq_refl (conj eq_refl (conj Hn Hl)))
              (power_is_exact 0 x 5 eq_refl eq_refl Hn Hl)).
Defined.

Lemma bitwise_assignments_on_magnitudes_witness :
  let this := mk_bignum [12; 6; 9; 0] true 3 in
  let a := mk_bignum [10; 3; 0; 0] false 2 in
  let clear := fun w k => Z.land w (Z.lnot (Z.ones (8 * k))) in
  (well_formed this = true /\ well_formed a = true /\
   length_ a <= 65533 /\ length_ this <= 65535) /\
  (exists r, operator_or_assign 0 this a = Ok r /\
     value r = (if neg_ this then - Z.lor (magnitude this) (magnitude a)
                else Z.lor (magnitude this) (magnitude a)) /\
     well_formed r = true /\ canonical r = true) /\
  (exists r, operator_xor_assign 0 this a = Ok r /\
     value r = (if neg_ this then - Z.lxor (magnitude this) (magnitude a)
                else Z.lxor (magnitude this) (magnitude a)) /\
     well_formed r = true /\ canonical r = true) /\
  (exists r, operator_and_assign 0 clear this a = Ok r /\
     value r = (if neg_ this then - Z.land (magnitude this) (magnitude a)
                else Z.land (magnitude this) (magnitude a)) /\
     well_formed r = true /\ canonical r = true).
Proof.
  intros this a clear.
  assert (Ha : length_ a <= 65533) by (vm_compute; discriminate).
  assert (Ht : length_ this <= 65535) by (vm_compute; discriminate).
  destruct (bitwise_assignments_on_magnitudes 0 clear this a eq_refl eq_refl)
    as (Hor & Hxor & Hand).
  exact (conj (conj eq_refl (conj eq_refl (conj Ha Ht)))
              (conj (Hor Ha) (conj (Hxor Ha) (Hand Ht)))).
Defined.

Lemma multiplication_is_exact_witness :
  let x := mk_bignum [4294967295; 4294967295; 1; 0] true 3 in
  let y := mk_bignum [4294967295; 2] false 2 in
  (well_formed x = true /\ well_formed y = true /\
   canonical x = true /\ canonical y = true /\ length_ x + length_ y <= 65532) /\
  (exists r, operator_mul_assign 0 x y = Ok r /\
     value r = value x * value y /\ well_formed r = true /\ canonical r = true) /\
  (exists r, operator_mul 0 x y = Ok r /\
     value r = value x * value y /\ well_formed r = true /\ canonical r = true).
Proof.
  intros x y.
  assert (Hn : length_ x + length_ y <= 65532) by (vm_compute; discriminate).
  exact (conj (conj eq_refl (conj eq_refl (conj eq_refl (conj eq_refl Hn))))
              (multiplication_is_exact 0 x y eq_refl eq_refl eq_refl eq_refl Hn)).
Defined.

Lemma division_is_exact_without_normalising_witness :
  let x := mk_bignum [4294967295; 4294967295; 1; 0] true 3 in
  let y := mk_bignum [1000; 0] false 1 in
  (well_formed x = true /\ well_formed y = true /\
   canonical x = true /\ canonical y = true /\
   value y <> 0 /\ length_ x <= 65533 /\
   (Z.abs (value x) < Z.abs (value y) \/ Z.abs (value x) < 2 ^ 32 \/
    Z.abs (value y) < 2 ^ 16)) /\
  (exists q, operator_div 0 false x y = Ok q /\
     value q = Z.quot (value x) (value y) /\
     well_formed q = true /\ canonical q = true) /\
  (exists r, operator_mod 0 false x y = Ok r /\
     value r = Z.rem (value x) (value y) /\ well_formed r = true).
Proof.
  intros x y.
  assert (Hy : value y <> 0) by (vm_compute; discriminate).
  assert (Hn : length_ x <= 65533) by (vm_compute; discriminate).
  assert (Hc : Z.abs (value x) < Z.abs (value y) \/ Z.abs (value x) < 2 ^ 32 \/
               Z.abs (value y) < 2 ^ 16)
    by (right; right; vm_compute; reflexivity).
  exact (conj (conj eq_refl (conj eq_refl (conj eq_refl (conj eq_refl
                 (conj Hy (conj Hn Hc))))))
              (division_is_exact_without_normalising 0 false x y eq_refl eq_refl
                 eq_refl eq_refl Hy Hn Hc)).
Defined.

Lemma int_operands_add_and_subtract_witness :
  let x := mk_bignum [5; 1] false 2 in
  (well_formed x = true /\ canonical x = true /\ length_ x <= 65532 /\
   - 2 ^ 31 < -7 < 2 ^ 31) /\
  (exists r, operator_add_int 0 x (-7) = Ok r /\ value r = value x + -7 /\
             well_formed r = true /\ canonical r = true) /\
  (exists r, operator_sub_int 0 x (-7) = Ok r /\ value r = value x - -7 /\
             well_formed r = true /\ canonical r = true) /\
  (exists r, operator_inc 0 x = Ok r /\ value r = value x + 1 /\
             well_formed r = true /\ canonical r = true) /\
  (exists r, operator_dec 0 x = Ok r /\ value r = value x - 1 /\
             well_formed r = true /\ canonical r = true).
Proof.
  intros x.
  assert (Hn : length_ x <= 65532) by (vm_compute; discriminate).
  assert (Hi : - 2 ^ 31 < -7 < 2 ^ 31) by lia.
  exact (conj (conj eq_refl (conj eq_refl (conj Hn Hi)))
              (int_operands_add_and_subtract 0 x (-7) eq_refl eq_refl Hn Hi)).
Defined.

Lemma truth_tests_zero_witness :
  let b := mk_bignum [0; 3] true 2 in
  (well_formed b = true /\ canonical b = true) /\
  operator_bool b = negb (value b =? 0) /\ operator_not b = (value b =? 0).
Proof.
  intros b. exact (conj (conj eq_refl eq_refl) (truth_tests_zero b eq_refl eq_refl)).
Defined.

End BignumProperties.

Module BignumPrint.
Import Bignum.
Import BignumMore BignumArith BignumOrder BignumOrder2 BignumBlocks BignumAssign BignumLoops BignumOps BignumParse BignumCtor BignumSub BignumSigned BignumAddSub BignumShift BignumBitwise BignumProduct BignumDivision.

(** *** Decimal digits *)

Lemma horner_snoc : forall base l d, horner base (l ++ [d]) = horner base l * base + d.
Proof.
  intros base l d. unfold horner. rewrite fold_left_app. reflexivity.
Qed.

Lemma horner_from : forall base l a,
  fold_left (fun v d => v * base + d) l a
  = a * base ^ Zlen l + horner base l.
Proof.
  intros base. unfold horner, Zlen.
  induction l as [|d l IH]; intros a.
  - cbn. lia.
  - cbn [fold_left List.length]. rewrite IH, (IH (0 * base + d)).
    rewrite Nat2Z.inj_succ, Z.pow_succ_r by lia. ring.
Qed.

Lemma horner_app : forall base l1 l2,
  horner base (l1 ++ l2) = horner base l1 * base ^ Zlen l2 + horner base l2.
Proof.
  intros base l1 l2. unfold horner at 1. rewrite fold_left_app.
  apply horner_from.
Qed.

Lemma skipn_upd_at : forall (A : Type) (d : list A) i v,
  (i < List.length d)%nat -> skipn i (upd d i v) = v :: skipn (S i) d.
Proof.
  intros A d i v Hi. rewrite upd_split by exact Hi.
  rewrite skipn_app, length_firstn. rewrite Nat.min_l by lia.
  rewrite Nat.sub_diag. cbn [skipn].
  rewrite skipn_firstn_comm. rewrite Nat.sub_diag. reflexivity.
Qed.

Lemma skipn_nth_cons : forall (d : list Z) n,
  (n < List.length d)%nat -> skipn n d = nth n d 0 :: skipn (S n) d.
Proof.
  induction d as [|x d IH]; intros n Hn; [cbn in Hn; lia|].
  destruct n as [|n]; [reflexivity|].
  cbn [skipn nth]. cbn [List.length] in Hn. rewrite IH by lia. reflexivity.
Qed.

Lemma ten_powers : p10 = 10 ^ 9 /\ ip10 = 9.
Proof. split; vm_compute; reflexivity. Qed.

Section Digits.
Variable junk_word : Z.
Variable junk_flag : bool.

(* the [k] low decimal digits of [r], the most significant first *)
Let padded := fix padded (k : nat) (r : Z) : list Z :=
  match k with
  | O => []
  | S k' => padded k' (r / 10) ++ [r mod 10]
  end.

Local Abbreviation chars l := (map (fun d => d + char_0) l).

Lemma padded_succ : forall k r, padded (S k) r = padded k (r / 10) ++ [r mod 10].
Proof. reflexivity. Qed.

Lemma padded_length : forall k r, List.length (padded k r) = k.
Proof.
  induction k as [|k IH]; intros r; [reflexivity|].
  rewrite padded_succ, length_app, IH. cbn [List.length]. lia.
Qed.

Lemma padded_digits : forall k r, Forall (fun d => 0 <= d <= 9) (padded k r).
Proof.
  induction k as [|k IH]; intros r; [constructor|].
  rewrite padded_succ. apply Forall_app. split; [apply IH|].
  constructor; [|constructor]. pose proof (Z.mod_pos_bound r 10 ltac:(lia)). lia.
Qed.

Lemma padded_value : forall k r,
  0 <= r < 10 ^ Z.of_nat k -> horner 10 (padded k r) = r.
Proof.
  induction k as [|k IH]; intros r Hr.
  - change (10 ^ Z.of_nat 0) with 1 in Hr. cbn. lia.
  - rewrite padded_succ, horner_snoc.
    rewrite Nat2Z.inj_succ, Z.pow_succ_r in Hr by lia.
    rewrite IH.
    + pose proof (Z.div_mod r 10 ltac:(lia)). lia.
    + split; [apply Z.div_pos; lia|]. apply Z.div_lt_upper_bound; lia.
Qed.

Lemma padded_leading : forall k r,
  10 ^ Z.of_nat k <= r < 10 ^ Z.of_nat (S k) -> nth 0 (padded (S k) r) 0 <> 0.
Proof.
  induction k as [|k IH]; intros r Hr.
  - change (10 ^ Z.of_nat 0) with 1 in Hr. change (10 ^ Z.of_nat 1) with 10 in Hr.
    cbn. rewrite Z.mod_small by lia. lia.
  - rewrite padded_succ.
    rewrite app_nth1 by (rewrite padded_length; lia).
    apply IH.
    rewrite !Nat2Z.inj_succ in *. rewrite !Z.pow_succ_r in * by lia.
    split; [apply Z.div_le_lower_bound; lia|apply Z.div_lt_upper_bound; lia].
Qed.

(** *** The loops of to_string *)

(* while there is more of the number to come, a block of [m] digits *)
Lemma digits_loop_block : forall m r vlen (n : nat) data,
  0 <= r -> 0 < vlen -> (m <= n <= List.length data)%nat ->
  to_string_digits_loop m r vlen (Z.of_nat n) data
  = Ok (firstn (n - m) data ++ chars (padded m r) ++ skipn n data, Z.of_nat (n - m)).
Proof.
  induction m as [|m IH]; intros r vlen n data Hr Hv Hn.
  - cbn [to_string_digits_loop padded map app]. rewrite Nat.sub_0_r, firstn_skipn.
    reflexivity.
  - cbn [to_string_digits_loop].
    replace (Z.of_nat n - 1) with (Z.of_nat (n - 1)) by lia.
    rewrite wr_in by (unfold Zlen; lia). cbn [bind]. rewrite Nat2Z.id.
    assert (Hq : 0 <= r / 10) by (apply Z.div_pos; lia).
    replace (r / 10 + vlen =? 0) with false by (symmetry; apply Z.eqb_neq; lia).
    rewrite IH; [|exact Hq|exact Hv|rewrite upd_length; lia].
    f_equal. f_equal.
    + replace (n - 1 - m)%nat with (n - S m)%nat by lia.
      rewrite firstn_upd_above by lia.
      rewrite skipn_upd_at by lia. replace (S (n - 1)) with n by lia.
      rewrite padded_succ, map_app, <- !app_assoc. reflexivity.
    + f_equal. lia.
Qed.

(* at the top of the number the loop stops with its first digit *)
Lemma digits_loop_top : forall k m r (n : nat) data,
  10 ^ Z.of_nat k <= r < 10 ^ Z.of_nat (S k) ->
  (S k <= m)%nat -> (S k <= n <= List.length data)%nat ->
  to_string_digits_loop m r 0 (Z.of_nat n) data
  = Ok (firstn (n - S k) data ++ chars (padded (S k) r) ++ skipn n data,
        Z.of_nat (n - S k)).
Proof.
  induction k as [|k IH]; intros m r n data Hr Hm Hn;
    (destruct m as [|m]; [lia|]); cbn [to_string_digits_loop];
    replace (Z.of_nat n - 1) with (Z.of_nat (n - 1)) by lia;
    rewrite wr_in by (unfold Zlen; lia); cbn [bind]; rewrite Nat2Z.id.
  - change (10 ^ Z.of_nat 0) with 1 in Hr. change (10 ^ Z.of_nat 1) with 10 in Hr.
    rewrite (Z.div_small r 10) by lia. cbn [Z.add Z.eqb].
    f_equal. f_equal.
    rewrite upd_split by lia. replace (S (n - 1)) with n by lia.
    reflexivity.
  - rewrite !Nat2Z.inj_succ in Hr. rewrite !Z.pow_succ_r in Hr by lia.
    assert (Hp : 0 < 10 ^ Z.of_nat k) by (apply Z.pow_pos_nonneg; lia).
    assert (Hq : 10 ^ Z.of_nat k <= r / 10 < 10 ^ Z.of_nat (S k)).
    { rewrite Nat2Z.inj_succ, Z.pow_succ_r by lia.
      split; [apply Z.div_le_lower_bound; lia|apply Z.div_lt_upper_bound; lia]. }
    replace (r / 10 + 0 =? 0) with false by (symmetry; apply Z.eqb_neq; lia).
    rewrite IH; [|exact Hq|lia|rewrite upd_length; lia].
    f_equal. f_equal.
    + replace (n - 1 - S k)%nat with (n - S (S k))%nat by lia.
      rewrite firstn_upd_above by lia.
      rewrite skipn_upd_at by lia. replace (S (n - 1)) with n by lia.
      rewrite (padded_succ (S k)), map_app, <- !app_assoc. reflexivity.
    + f_equal. lia.
Qed.

(* while ( n < len ) data[i++] = data[n++]; *)
Lemma move_loop_spec : forall m (i n : nat) data,
  (i <= n)%nat -> (n + m <= List.length data)%nat ->
  exists data', to_string_move_loop m (Z.of_nat i) (Z.of_nat n) data
                = Ok (data', Z.of_nat (i + m)) /\
    firstn (i + m) data' = firstn i data ++ firstn m (skipn n data).
Proof.
  induction m as [|m IH]; intros i n data Hi Hn.
  - exists data. cbn [to_string_move_loop firstn]. rewrite Nat.add_0_r, app_nil_r.
    split; reflexivity.
  - cbn [to_string_move_loop].
    rewrite rd_in by (unfold Zlen; lia). cbn [bind].
    rewrite wr_in by (unfold Zlen; lia). cbn [bind]. rewrite !Nat2Z.id.
    replace (Z.of_nat i + 1) with (Z.of_nat (S i)) by lia.
    replace (Z.of_nat n + 1) with (Z.of_nat (S n)) by lia.
    destruct (IH (S i) (S n) (upd data i (nth n data 0))) as (data' & Hr & Hf);
      [lia|rewrite upd_length; lia|].
    exists data'. replace (i + S m)%nat with (S i + m)%nat by lia.
    split; [exact Hr|]. rewrite Hf.
    rewrite firstn_succ_upd by lia.
    rewrite skipn_upd_below by lia.
    rewrite <- app_assoc. f_equal.
    rewrite (skipn_nth_cons data n) by lia. reflexivity.
Qed.

Lemma digit_count : forall m r,
  0 < r < 10 ^ Z.of_nat m ->
  exists k, (S k <= m)%nat /\ 10 ^ Z.of_nat k <= r < 10 ^ Z.of_nat (S k).
Proof.
  induction m as [|m IH]; intros r Hr.
  - change (10 ^ Z.of_nat 0) with 1 in Hr. lia.
  - destruct (Z.lt_ge_cases r (10 ^ Z.of_nat m)) as [Hlt|Hge].
    + destruct (IH r ltac:(lia)) as (k & Hk & Hb). exists k. split; [lia|exact Hb].
    + exists m. split; [lia|]. lia.
Qed.

(* unsigned r = R.length() ? R.data_[0] : 0 *)
Lemma low_digit_of_small : forall b,
  well_formed b = true -> magnitude b < 2 ^ 32 ->
  (if negb (length b =? 0) then rd (data_ b) 0 else Ok 0) = Ok (magnitude b).
Proof.
  intros b Hw Hm. destruct (well_formed_facts b Hw) as (Hl & Hc & Hd).
  unfold length, magnitude in *.
  destruct (Z.eqb_spec (length_ b) 0) as [H0|Hne]; cbn [negb].
  - rewrite H0. reflexivity.
  - rewrite rd_in by lia. f_equal.
    destruct (data_ b) as [|d0 rest]; [unfold Zlen in Hc; cbn in Hc; lia|].
    replace (Z.to_nat (length_ b)) with (S (Z.to_nat (length_ b - 1))) in * by lia.
    cbn [firstn digits_value forallb nth Z.to_nat] in *.
    apply andb_true_iff in Hd. destruct Hd as [Hd0 Hd].
    apply is_digit_range in Hd0.
    pose proof (dv_range _ Hd) as Hnn. lia.
Qed.

Lemma divide_by_p10 : forall v R,
  well_formed v = true -> canonical v = true -> magnitude v < 2 ^ 32 ->
  well_formed R = true ->
  exists q R',
    divide junk_word junk_flag loop_fuel call_depth v (basic_bignum_u32 junk_word junk_flag p10)
           v R true = Ok (q, R') /\
    well_formed q = true /\ well_formed R' = true /\ canonical q = true /\
    magnitude q = magnitude v / 10 ^ 9 /\ magnitude R' = magnitude v mod 10 ^ 9.
Proof.
  intros v R Hw Hc Hm HwR.
  destruct (ten_powers) as (Hp & _). rewrite Hp.
  destruct (u32_bignum_facts junk_word junk_flag (10 ^ 9) ltac:(lia)) as (Hwd & Hmd & _ & Htd).
  destruct (well_formed_facts v Hw) as (Hl & Hcap & _).
  destruct (well_formed_facts R HwR) as (_ & HcapR & _).
  pose proof (magnitude_nonneg v Hw) as Hnn.
  assert (Hlen : length_ v <= 1) by (apply length_from_value; try assumption; lia).
  change call_depth with (S 3).
  destruct (divide_simple junk_word junk_flag loop_fuel 3 v
              (basic_bignum_u32 junk_word junk_flag (10 ^ 9)) v R true
              Hw Hwd (top_of_canonical v Hc) Htd)
    as (q & R' & Hdiv & Hwq & HwR' & Hcq & Vq & VR).
  { reflexivity. }
  { lia. }
  { exact Hcap. }
  { exact HcapR. }
  { right. left. exact Hm. }
  exists q, R'. split; [exact Hdiv|]. split; [exact Hwq|]. split; [exact HwR'|].
  split; [exact Hcq|].
  unfold basic_bignum_u32 in Vq, VR. rewrite Hmd in Vq, VR.
  assert (Hq : 0 <= magnitude v / 10 ^ 9) by (apply Z.div_pos; lia).
  pose proof (Z.mod_pos_bound (magnitude v) (10 ^ 9) ltac:(lia)) as Hr.
  rewrite (magnitude_abs q Hwq), (magnitude_abs R' HwR'), Vq, VR.
  split.
  - destruct (xorb _ _); lia.
  - destruct (neg_ v); lia.
Qed.

Lemma zero_length_of_zero : forall b,
  well_formed b = true -> canonical b = true ->
  (length b =? 0) = (magnitude b =? 0).
Proof.
  intros b Hw Hc. unfold length.
  destruct (magnitude_bounds b Hw Hc) as [(H0 & Hm & _)|(Hpos & Hlo & _)].
  - rewrite H0, Hm. reflexivity.
  - assert (0 < 2 ^ (32 * (length_ b - 1))) by (apply Z.pow_pos_nonneg; lia).
    replace (length_ b =? 0) with false by (symmetry; apply Z.eqb_neq; lia).
    symmetry. apply Z.eqb_neq. lia.
Qed.

(* do { v.divide( LP10, v, R, true ); ... } while ( v.length() ); *)
Lemma do_loop_spec : forall fuel v R (n : nat) data,
  well_formed v = true -> canonical v = true -> 0 < magnitude v < 2 ^ 32 ->
  well_formed R = true -> (10 <= n <= List.length data)%nat ->
  exists ds,
    to_string_do_loop junk_word junk_flag (S (S fuel)) v R
      (basic_bignum_u32 junk_word junk_flag p10) (Z.of_nat n) data
    = Ok (firstn (n - List.length ds) data ++ chars ds ++ skipn n data,
          Z.of_nat (n - List.length ds)) /\
    (1 <= List.length ds <= 10)%nat /\
    Forall (fun d => 0 <= d <= 9) ds /\ horner 10 ds = magnitude v /\
    nth 0 ds 0 <> 0.
Proof.
  intros fuel v R n data Hw Hc Hm HwR Hn.
  destruct ten_powers as (_ & Hip).
  cbn [to_string_do_loop].
  destruct (divide_by_p10 v R Hw Hc ltac:(lia) HwR)
    as (q & R' & Hdiv & Hwq & HwR' & Hcq & Mq & MR).
  rewrite Hdiv. cbn [bind].
  pose proof (Z.mod_pos_bound (magnitude v) (10 ^ 9) ltac:(lia)) as Hr.
  pose proof (Z.div_mod (magnitude v) (10 ^ 9) ltac:(lia)) as Hdm.
  rewrite (low_digit_of_small R' HwR') by lia. cbn [bind].
  rewrite (zero_length_of_zero q Hwq Hcq). rewrite Hip.
  change (Z.to_nat 9) with 9%nat.
  destruct (Z.lt_ge_cases (magnitude v) (10 ^ 9)) as [Hlt|Hge].
  - (* one block: the quotient is zero *)
    assert (Hq0 : magnitude q = 0) by (rewrite Mq; apply Z.div_small; lia).
    assert (Hlq : length q = 0).
    { pose proof (zero_length_of_zero q Hwq Hcq) as Hz. rewrite Hq0 in Hz.
      apply Z.eqb_eq in Hz. exact Hz. }
    rewrite Hlq, Hq0, MR. rewrite Z.mod_small by lia.
    destruct (digit_count 9 (magnitude v) ltac:(change (Z.of_nat 9) with 9; lia))
      as (k & Hk & Hb).
    rewrite (digits_loop_top k 9 (magnitude v) n data Hb Hk ltac:(lia)).
    cbn [bind Z.eqb negb].
    exists (padded (S k) (magnitude v)). rewrite padded_length.
    split; [reflexivity|]. split; [lia|]. split; [apply padded_digits|].
    split; [apply padded_value; lia|apply padded_leading; exact Hb].
  - (* two blocks: nine digits of the remainder, then the quotient *)
    assert (Hq : 1 <= magnitude q < 10).
    { rewrite Mq. split.
      - apply Z.div_le_lower_bound; lia.
      - apply Z.div_lt_upper_bound; lia. }
    assert (Hlq : 0 < length q).
    { pose proof (zero_length_of_zero q Hwq Hcq) as Hz.
      destruct (well_formed_facts q Hwq) as (Hl & _).
      destruct (Z.eqb_spec (length q) 0) as [H0|Hne]; [|unfold length in *; lia].
      symmetry in Hz. apply Z.eqb_eq in Hz. lia. }
    rewrite MR.
    rewrite (digits_loop_block 9 (magnitude v mod 10 ^ 9) (length q) n data
               ltac:(lia) Hlq ltac:(lia)).
    cbn [bind].
    replace (magnitude q =? 0) with false by (symmetry; apply Z.eqb_neq; lia).
    cbn [negb to_string_do_loop].
    destruct (divide_by_p10 q R' Hwq Hcq ltac:(lia) HwR')
      as (q2 & R2 & Hdiv2 & Hwq2 & HwR2 & Hcq2 & Mq2 & MR2).
    rewrite Hdiv2. cbn [bind].
    rewrite (low_digit_of_small R2 HwR2) by (rewrite MR2, Z.mod_small; lia).
    cbn [bind].
    rewrite (zero_length_of_zero q2 Hwq2 Hcq2).
    assert (Hq20 : magnitude q2 = 0) by (rewrite Mq2; apply Z.div_small; lia).
    assert (Hlq2 : length q2 = 0).
    { pose proof (zero_length_of_zero q2 Hwq2 Hcq2) as Hz. rewrite Hq20 in Hz.
      apply Z.eqb_eq in Hz. exact Hz. }
    rewrite Hlq2, Hq20, MR2. rewrite (Z.mod_small (magnitude q)) by lia.
    set (low := padded 9 (magnitude v mod 10 ^ 9)).
    set (data1 := firstn (n - 9) data ++ chars low ++ skipn n data).
    assert (Hlow : List.length low = 9%nat) by apply padded_length.
    assert (Hlen1 : List.length data1 = List.length data).
    { unfold data1. rewrite !length_app, length_map, length_firstn, length_skipn. lia. }
    rewrite (digits_loop_top 0 9 (magnitude q) (n - 9) data1
               ltac:(change (10 ^ Z.of_nat 0) with 1; change (10 ^ Z.of_nat 1) with 10; lia)
               ltac:(lia) ltac:(lia)).
    cbn [bind Z.eqb negb].
    exists (padded 1 (magnitude q) ++ low).
    rewrite length_app, padded_length, Hlow.
    split; [|split; [lia|split; [|split]]].
    + f_equal. f_equal; [|f_equal; lia].
      replace (n - 9 - 1)%nat with (n - (1 + 9))%nat by lia.
      unfold data1. rewrite firstn_app, length_firstn.
      replace (n - (1 + 9) - Nat.min (n - 9) (List.length data))%nat with 0%nat by lia.
      rewrite firstn_firstn. replace (Nat.min (n - (1 + 9)) (n - 9)) with (n - (1 + 9))%nat by lia.
      cbn [firstn]. rewrite app_nil_r.
      rewrite skipn_app, length_firstn.
      replace (n - 9 - Nat.min (n - 9) (List.length data))%nat with 0%nat by lia.
      rewrite (skipn_all2 (firstn (n - 9) data)) by (rewrite length_firstn; lia).
      cbn [skipn app]. rewrite map_app, <- !app_assoc. reflexivity.
    + apply Forall_app. split; apply padded_digits.
    + rewrite horner_app. unfold Zlen. rewrite Hlow.
      rewrite padded_value by (change (10 ^ Z.of_nat 1) with 10; lia).
      unfold low. rewrite padded_value by (change (Z.of_nat 9) with 9; lia).
      change (Z.of_nat 9) with 9. rewrite Mq. lia.
    + rewrite app_nth1 by (rewrite padded_length; lia).
      apply (padded_leading 0).
      change (10 ^ Z.of_nat 0) with 1. change (10 ^ Z.of_nat 1) with 10. lia.
Qed.

Lemma string_of_digits : forall (neg : bool) ds,
  string_of_chars ((if neg then [char_minus] else []) ++ chars ds)
  = decimal_string neg ds.
Proof.
  intros neg ds. unfold string_of_chars, decimal_string.
  rewrite map_app, map_map. destruct neg; reflexivity.
Qed.

Lemma to_string_spec : forall b,
  well_formed b = true -> canonical b = true -> Z.abs (value b) < 2 ^ 32 ->
  exists ds,
    to_string junk_word junk_flag b = Ok (decimal_string (neg_ b) ds) /\
    Forall (fun d => 0 <= d <= 9) ds /\ horner 10 ds = Z.abs (value b) /\
    (1 <= List.length ds <= 10)%nat /\ (value b <> 0 -> nth 0 ds 0 <> 0) /\
    (value b = 0 -> ds = [0]).
Proof.
  intros b Hw Hc Hm. rewrite <- (magnitude_abs b Hw) in *.
  destruct (copy_spec junk_word b Hw) as (v & Hcopy & Hvl & Hvn & Hvd & Hwv).
  destruct (copy_value b v Hvl Hvn Hvd) as (Vv & Mv & _ & Cv).
  rewrite Hc in Cv.
  pose proof (magnitude_nonneg b Hw) as Hnn.
  assert (Hlen : length_ b <= 1) by (apply length_from_value; try assumption; lia).
  destruct (well_formed_facts b Hw) as (Hl & _).
  unfold to_string. rewrite Hcopy. cbn [bind]. unfold length.
  rewrite Hvl, Hvn.
  pose proof (zero_length_of_zero b Hw Hc) as Hz. unfold length in Hz.
  destruct (Z.eq_dec (magnitude b) 0) as [H0|Hne].
  - (* zero prints as one digit *)
    rewrite H0 in Hz. apply Z.eqb_eq in Hz. rewrite Hz.
    assert (Hneg : neg_ b = false).
    { destruct (magnitude_bounds b Hw Hc) as [(_ & _ & Hn)|(Hpos & _)]; [exact Hn|lia]. }
    rewrite Hneg. exists [0]. split; [reflexivity|].
    split; [repeat constructor; lia|]. split; [rewrite H0; reflexivity|].
    split; [cbn; lia|]. split; [|reflexivity]. intros Hv. exfalso. apply Hv.
    rewrite value_of_magnitude, H0. destruct (neg_ b); reflexivity.
  - assert (Hl1 : length_ b = 1).
    { destruct (Z.eq_dec (length_ b) 0) as [E|]; [|lia].
      rewrite E in Hz. cbn [Z.eqb] in Hz. symmetry in Hz. apply Z.eqb_eq in Hz. lia. }
    rewrite Hl1. change (1 * basic_type_bits / 3 + 2) with 12.
    change (1 =? 0) with false. cbv iota.
    change (Z.to_nat 12) with 12%nat.
    set (data := repeat 0 12).
    assert (Hsign : exists data1 (i : nat),
      (if neg_ b then ' data' <- wr data 0 char_minus;; Ok (data', 1) else Ok (data, 0))
      = Ok (data1, Z.of_nat i) /\ List.length data1 = 12%nat /\ (i <= 1)%nat /\
      firstn i data1 = (if neg_ b then [char_minus] else [])).
    { destruct (neg_ b).
      - exists (upd data 0 char_minus), 1%nat. repeat split. lia.
      - exists data, 0%nat. repeat split. lia. }
    destruct Hsign as (data1 & i & Hs & Hlen1 & Hi & Hf1). rewrite Hs. cbn [bind].
    destruct (do_loop_spec 10 v basic_bignum_default 12 data1 Hwv Cv
                ltac:(lia) eq_refl ltac:(lia))
      as (ds & Hdo & Hk & Hds & Hval & Hlead).
    change (Z.of_nat 12) with 12 in Hdo. rewrite Hdo. cbn [bind].
    set (k := List.length ds) in *.
    set (data2 := firstn (12 - k) data1 ++ chars ds ++ skipn 12 data1).
    replace (Z.to_nat (12 - Z.of_nat (12 - k))) with k by lia.
    assert (Hsk : skipn 12 data1 = []) by (apply skipn_all2; lia).
    destruct (move_loop_spec k i (12 - k) data2) as (data3 & Hmove & Hf3).
    { lia. }
    { unfold data2. rewrite !length_app, length_map, length_firstn, Hsk.
      cbn [List.length]. fold k. lia. }
    rewrite Hmove. cbn [bind]. rewrite Nat2Z.id, Hf3.
    assert (Hpre : firstn i data2 = firstn i data1).
    { unfold data2. rewrite firstn_app, length_firstn.
      replace (i - Nat.min (12 - k) (List.length data1))%nat with 0%nat by lia.
      rewrite firstn_firstn. replace (Nat.min i (12 - k)) with i by lia.
      cbn [firstn]. apply app_nil_r. }
    assert (Hdig : firstn k (skipn (12 - k) data2) = chars ds).
    { unfold data2. rewrite Hsk, app_nil_r. rewrite skipn_app, length_firstn.
      replace (12 - k - Nat.min (12 - k) (List.length data1))%nat with 0%nat by lia.
      rewrite (skipn_all2 (firstn (12 - k) data1)) by (rewrite length_firstn; lia).
      rewrite skipn_O. cbn [app].
      apply firstn_all2. rewrite length_map. fold k. lia. }
    rewrite Hpre, Hdig, Hf1. rewrite string_of_digits.
    exists ds. split; [reflexivity|]. split; [exact Hds|].
    split; [rewrite Hval; exact Mv|]. split; [exact Hk|].
    split; [intros _; exact Hlead|].
    intros Hv. exfalso. apply Hne. rewrite (magnitude_abs b Hw), Hv. reflexivity.
Qed.

End Digits.

Section Junk.
Variable junk_word : Z.
Variable junk_flag : bool.

(** X18. to_string prints a canonical bignum below 2^32 in magnitude as
    its decimal numeral: a minus sign when it is negative, then the digits of
    the magnitude, the first of them not 0, and the single digit 0 for zero;
    and the string constructor reads the numeral back to the same integer. *)
Theorem to_string_round_trip_below_2_32 : forall b,
  well_formed b = true -> canonical b = true -> Z.abs (value b) < 2 ^ 32 ->
  exists ds,
    to_string junk_word junk_flag b = Ok (decimal_string (neg_ b) ds) /\
    Forall (fun d => 0 <= d <= 9) ds /\ horner 10 ds = Z.abs (value b) /\
    (value b = 0 -> neg_ b = false /\ ds = [0]) /\
    (value b <> 0 -> nth 0 ds 0 <> 0) /\
    exists b', basic_bignum_str junk_word (decimal_string (neg_ b) ds) = Ok b' /\
      value b' = value b /\ well_formed b' = true.
Proof.
  intros b Hw Hc Hm.
  destruct (to_string_spec junk_word junk_flag b Hw Hc Hm)
    as (ds & Hs & Hds & Hval & Hk & Hlead & Hzero).
  exists ds. split; [exact Hs|]. split; [exact Hds|]. split; [exact Hval|].
  split; [|split; [exact Hlead|]].
  - intros Hv. split; [|exact (Hzero Hv)].
    destruct (magnitude_bounds b Hw Hc) as [(_ & _ & Hn)|(Hpos & Hlo & _)]; [exact Hn|].
    exfalso. assert (0 < 2 ^ (32 * (length_ b - 1))) by (apply Z.pow_pos_nonneg; lia).
    assert (Hm0 : magnitude b = 0) by (rewrite (magnitude_abs b Hw), Hv; reflexivity).
    lia.
  - destruct (decimal_constructor_spec junk_word (neg_ b) ds Hds)
      as (b' & Hb' & Vb' & Wb').
    { unfold Zlen. lia. }
    exists b'. split; [exact Hb'|]. split; [|exact Wb'].
    rewrite Vb', Hval. rewrite <- (magnitude_abs b Hw). symmetry.
    apply value_of_magnitude.
Qed.

End Junk.

Lemma to_string_round_trip_below_2_32_witness :
  let b := mk_bignum [4294967295; 0] true 1 in
  (well_formed b = true /\ canonical b = true /\ Z.abs (value b) < 2 ^ 32) /\
  exists ds,
    to_string 0 false b = Ok (decimal_string (neg_ b) ds) /\
    Forall (fun d => 0 <= d <= 9) ds /\ horner 10 ds = Z.abs (value b) /\
    (value b = 0 -> neg_ b = false /\ ds = [0]) /\
    (value b <> 0 -> nth 0 ds 0 <> 0) /\
    exists b', basic_bignum_str 0 (decimal_string (neg_ b) ds) = Ok b' /\
      value b' = value b /\ well_formed b' = true.
Proof.
  intros b.
  assert (Hm : Z.abs (value b) < 2 ^ 32) by (vm_compute; reflexivity).
  exact (conj (conj eq_refl (conj eq_refl Hm))
              (to_string_round_trip_below_2_32 0 false b eq_refl eq_refl Hm)).
Defined.

End BignumPrint.

Module Staj2More.
Import Staj2.
Import Staj2Facts.

(** *** Typed arrays *)

(** X13. Each of the ten typed_array overloads that take a span becomes one
    begin_array with the tag of the call, one scalar event per element, of
    the family of the element type and in element order, and one end_array;
    then the expansion state is cleared. *)
Theorem span_overloads_expand_elementwise : forall v data tag context,
  expand_typed_array v data tag context
  = (event_of_type staj2_event_type.begin_array tag
       :: span_events data
       ++ [event_of_type staj2_event_type.end_array semantic_tag.none],
     cleared v (event_of_type staj2_event_type.end_array semantic_tag.none)).
Proof. exact typed_array_expansion. Qed.

(** *** Multi-dimensional arrays *)

(* the state a finished shape leaves *)
Local Abbreviation after_shape v :=
  (mk_visitor (pred_ v) (event_of_type staj2_event_type.end_array semantic_tag.none)
              staj2_cursor_state.idle (data_ v) [] 0).

Lemma advance_in_shape : forall v,
  state_ v = staj2_cursor_state.shape -> Zlen (shape_ v) <> 0 ->
  index_ v < Zlen (shape_ v) ->
  advance_multi_dim v
  = mk_visitor (pred_ v)
      (event_of_uint64 (nth (Z.to_nat (index_ v)) (shape_ v) 0) semantic_tag.none)
      (state_ v) (data_ v) (shape_ v) (index_ v + 1).
Proof.
  intros [p e s d sh i] Hst Hne Hlt. cbn [state_ shape_ index_] in *. subst s.
  unfold advance_multi_dim. cbn [state_ shape_ index_ pred_ event_ data_].
  replace (Zlen sh =? 0) with false by (symmetry; apply Z.eqb_neq; exact Hne).
  replace (i <? Zlen sh) with true by (symmetry; apply Z.ltb_lt; lia).
  reflexivity.
Qed.

Lemma advance_at_shape_end : forall v,
  state_ v = staj2_cursor_state.shape -> Zlen (shape_ v) <> 0 ->
  Zlen (shape_ v) <= index_ v ->
  advance_multi_dim v = after_shape v.
Proof.
  intros [p e s d sh i] Hst Hne Hge. cbn [state_ shape_ index_] in *. subst s.
  unfold advance_multi_dim. cbn [state_ shape_ index_ pred_ event_ data_].
  replace (Zlen sh =? 0) with false by (symmetry; apply Z.eqb_neq; exact Hne).
  replace (i <? Zlen sh) with false by (symmetry; apply Z.ltb_ge; lia).
  reflexivity.
Qed.

Lemma drain_shape : forall k v,
  state_ v = staj2_cursor_state.shape -> Zlen (shape_ v) <> 0 ->
  Zlen (shape_ v) = index_ v + Z.of_nat k ->
  drain (k + 1) v
  = (map (fun i => event_of_uint64 (nth (Z.to_nat i) (shape_ v) 0) semantic_tag.none)
         (indices (index_ v) k)
       ++ [event_of_type staj2_event_type.end_array semantic_tag.none],
     after_shape v).
Proof.
  induction k as [|k IH]; intros v Hst Hne Hsize.
  - cbn [Nat.add drain]. unfold send_available. rewrite Hst.
    rewrite advance_at_shape_end by (try assumption; lia). reflexivity.
  - cbn [Nat.add drain]. unfold send_available at 1 2. rewrite Hst.
    rewrite advance_in_shape by (try assumption; lia).
    rewrite IH; [|exact Hst|exact Hne|cbn [index_ shape_]; lia].
    rewrite indices_succ. reflexivity.
Qed.

Lemma advance_from_multi_dim : forall v,
  state_ v = staj2_cursor_state.multi_dim -> Zlen (shape_ v) <> 0 ->
  advance_multi_dim v
  = mk_visitor (pred_ v)
      (event_of_type_length staj2_event_type.begin_array (Zlen (shape_ v))
                            semantic_tag.none)
      staj2_cursor_state.shape (data_ v) (shape_ v) (index_ v).
Proof.
  intros [p e s d sh i] Hst Hne. cbn [state_ shape_ index_] in *. subst s.
  unfold advance_multi_dim. cbn [state_ shape_ index_ pred_ event_ data_].
  replace (Zlen sh =? 0) with false by (symmetry; apply Z.eqb_neq; exact Hne).
  reflexivity.
Qed.

Lemma begin_multi_dim_state : forall v shape tag context,
  fst (visit_begin_multi_dim v shape tag context)
  = mk_visitor (pred_ v) (event_of_type_length staj2_event_type.begin_array 2 tag)
               staj2_cursor_state.multi_dim (data_ v) shape (index_ v).
Proof. intros [p e s d sh i] shape tag context. reflexivity. Qed.

(** X15. A begin_multi_dim call with a shape of [n] extents, on a visitor
    whose index is 0, becomes: begin_array
    of length 2 with the tag of the call, begin_array of length [n], one
    uint64 event per extent in order, end_array; then the visitor is idle,
    with its shape cleared and its index at 0. *)
Theorem multi_dim_expansion : forall v shape tag context,
  shape <> [] -> index_ v = 0 ->
  expand_multi_dim v shape tag context
  = (event_of_type_length staj2_event_type.begin_array 2 tag
       :: event_of_type_length staj2_event_type.begin_array (Zlen shape) semantic_tag.none
       :: map (fun x => event_of_uint64 x semantic_tag.none) shape
       ++ [event_of_type staj2_event_type.end_array semantic_tag.none],
     after_shape v).
Proof.
  intros v shape tag context Hne Hidx. unfold expand_multi_dim.
  assert (Hlen : Zlen shape <> 0).
  { unfold Zlen. destruct shape; [congruence|]. cbn [List.length]. lia. }
  rewrite begin_multi_dim_state, Hidx.
  replace (List.length shape + 2)%nat with (S (List.length shape + 1)) by lia.
  cbn [drain]. unfold send_available at 1 2. cbn [state_].
  rewrite advance_from_multi_dim by (first [reflexivity|exact Hlen]).
  cbn [pred_ event_ data_ shape_ index_].
  rewrite drain_shape.
  - cbn [event event_ index_ shape_ pred_ data_].
    rewrite (map_nth_indices Z _ (fun x => event_of_uint64 x semantic_tag.none) 0 shape).
    reflexivity.
  - reflexivity.
  - exact Hlen.
  - cbn [shape_ index_]. unfold Zlen. lia.
Qed.

(** X16. After a begin_multi_dim call with an empty shape the visitor never
    leaves the multi_dim state: its event stays the begin_array of the call,
    in_available() stays true and send_available changes nothing. *)
Theorem multi_dim_empty_shape_sticks : forall v tag context n,
  let v1 := fst (visit_begin_multi_dim v [] tag context) in
  in_available v1 = true /\ send_available v1 = v1 /\
  drain n v1 = (repeat (event v1) n, v1).
Proof.
  intros v tag context n v1. split; [reflexivity|]. split; [reflexivity|].
  induction n as [|n IH]; [reflexivity|].
  cbn [drain repeat]. change (send_available v1) with v1. rewrite IH. reflexivity.
Qed.

(** *** What the visitor captures, dump replays *)

(** X14. What dump does with a typed-array view of one of the ten kinds it
    has a case for, and any sink.  Just entered (index 0), it makes one bulk
    typed_array call with the whole span, without a tag, and clears the view
    whatever the sink answers.  Past [i] elements it sends the current event
    again, then one scalar call per remaining element and end_array, for as
    long as the sink answers true; the view is cleared when all of these but
    end_array have been answered true, and stays when the sink has stopped
    dump before that. *)
Theorem dump_forwards_to_any_sink : forall (V : Type) (H : basic_json_visitor2 V)
    pr data ev st sh (sink : V) context,
  let view := typed_array_view_of data (span_size data) in
  let after := mk_visitor pr ev staj2_cursor_state.idle typed_array_view_default sh 0 in
  dump (mk_visitor pr ev st view sh 0) sink context
    = (after,
       fst (visit sink (call_typed_array data semantic_tag.none ser_context_default)),
       snd (visit sink (call_typed_array data semantic_tag.none ser_context_default))) /\
  (forall i : nat, (0 < i)%nat ->
   let r := dump (mk_visitor pr ev st view sh (Z.of_nat i)) sink context in
   let sent := event_call ev context :: skipn i (span_calls data) in
   (snd (fst r), snd r) = feed sink true (sent ++ [call_end_array ser_context_default]) /\
   (snd (feed sink true sent) = true -> fst (fst r) = after) /\
   (snd (feed sink true sent) = false -> data_ (fst (fst r)) = view)).
Proof. exact dump_to_sink. Qed.

(** X17. dump replays the call the visitor took last, to any sink.  On a
    visitor that holds no typed array, a call without a length and without an
    ext_tag goes out as it came, with the context given to dump.  The other
    calls do not: begin_object and begin_array lose their length, a byte
    string with an ext_tag goes out with the tag ext and without the ext_tag,
    begin_multi_dim goes out as begin_array and end_multi_dim as end_array.
    A typed array goes out whole, in one bulk call, without the tag and the
    context of the call that brought it, and a half-float array as a uint16
    array. *)
Theorem dump_replays_last_call : forall (V : Type) (H : basic_json_visitor2 V) v
    (sink : V) context,
  let replayed c c' :=
    dump (fst (receive v c)) sink context
    = (fst (receive v c), fst (visit sink c'), snd (visit sink c')) in
  let bulk data tag data' :=
    dump (fst (receive v data)) sink context
    = (mk_visitor (pred_ v) (event_of_type staj2_event_type.begin_array tag)
                  staj2_cursor_state.idle typed_array_view_default (shape_ v) 0,
       fst (visit sink (call_typed_array data' semantic_tag.none ser_context_default)),
       snd (visit sink (call_typed_array data' semantic_tag.none ser_context_default))) in
  (is_typed_array v = false ->
   (forall c, plain_call c = true -> replayed c (with_context c context)) /\
   (forall length tag context0,
      replayed (call_begin_object_length length tag context0)
               (call_begin_object tag context)) /\
   (forall length tag context0,
      replayed (call_begin_array_length length tag context0)
               (call_begin_array tag context)) /\
   (forall s ext_tag context0,
      replayed (call_byte_string_value_ext s ext_tag context0)
               (call_byte_string_value s semantic_tag.ext context)) /\
   (forall shape tag context0,
      replayed (call_begin_multi_dim shape tag context0)
               (call_begin_array tag context)) /\
   (forall context0,
      replayed (call_end_multi_dim context0) (call_end_array context))) /\
  (forall data tag context0, bulk (call_typed_array data tag context0) tag data) /\
  (forall data tag context0,
     bulk (call_typed_array_half data tag context0) tag (span_uint16 data)).
Proof.
  intros V H v sink context replayed bulk. subst replayed bulk. cbv beta.
  assert (Hone : forall v' c',
    is_typed_array v' = false -> event_call (event v') context = c' ->
    dump v' sink context = (v', fst (visit sink c'), snd (visit sink c'))).
  { intros v' c' Hta Hc. unfold dump, staj2_to_saj_event. rewrite Hta, Hc.
    destruct (visit sink c'); reflexivity. }
  split; [|split].
  - intros Hta. split; [|split; [|split; [|split; [|split]]]].
    + intros c Hp. apply Hone; destruct c; try discriminate Hp; try exact Hta; reflexivity.
    + intros length tag context0. apply Hone; [exact Hta|reflexivity].
    + intros length tag context0. apply Hone; [exact Hta|reflexivity].
    + intros s ext_tag context0. apply Hone; [exact Hta|reflexivity].
    + intros shape tag context0. apply Hone; [exact Hta|reflexivity].
    + intros context0. apply Hone; [exact Hta|reflexivity].
  - intros data tag context0.
    destruct (dump_to_sink V H (pred_ v)
                data (event_of_type staj2_event_type.begin_array tag)
                staj2_cursor_state.typed_array (shape_ v) sink context) as [H0 _].
    exact H0.
  - intros data tag context0.
    destruct (dump_to_sink V H (pred_ v)
                (span_uint16 data) (event_of_type staj2_event_type.begin_array tag)
                staj2_cursor_state.typed_array (shape_ v) sink context) as [H0 _].
    exact H0.
Qed.

Lemma multi_dim_expansion_witness :
  let v := basic_staj2_visitor_default in
  let shape := [2; 3] in
  (shape <> [] /\ index_ v = 0) /\
  expand_multi_dim v shape semantic_tag.row_major ser_context_default
  = (event_of_type_length staj2_event_type.begin_array 2 semantic_tag.row_major
       :: event_of_type_length staj2_event_type.begin_array (Zlen shape) semantic_tag.none
       :: map (fun x => event_of_uint64 x semantic_tag.none) shape
       ++ [event_of_type staj2_event_type.end_array semantic_tag.none],
     mk_visitor (pred_ v) (event_of_type staj2_event_type.end_array semantic_tag.none)
                staj2_cursor_state.idle (data_ v) [] 0).
Proof.
  intros v shape.
  assert (Hne : shape <> []) by discriminate.
  exact (conj (conj Hne eq_refl)
              (multi_dim_expansion v shape semantic_tag.row_major
                 ser_context_default Hne eq_refl)).
Defined.

Lemma dump_replays_last_call_witness :
  let v := basic_staj2_visitor_default in
  let c := call_string_value "a" semantic_tag.none (mk_ser_context 3 1 4) in
  let context := mk_ser_context 9 2 1 in
  (is_typed_array v = false /\ plain_call c = true) /\
  dump (fst (receive v c)) (mk_stopper []) context
  = (fst (receive v c),
     fst (visit (mk_stopper []) (with_context c context)),
     snd (visit (mk_stopper []) (with_context c context))) /\
  dump (fst (receive v (call_begin_array_length 3 semantic_tag.none ser_context_default)))
       ([] : recorder) context
  = (fst (receive v (call_begin_array_length 3 semantic_tag.none ser_context_default)),
     fst (visit ([] : recorder) (call_begin_array semantic_tag.none context)),
     snd (visit ([] : recorder) (call_begin_array semantic_tag.none context))).
Proof.
  intros v c context.
  exact (conj (conj eq_refl eq_refl)
          (conj
             (proj1 (proj1 (dump_replays_last_call stopper _ v (mk_stopper []) context)
                           eq_refl) c eq_refl)
             (proj1 (proj2 (proj2 (proj1 (dump_replays_last_call recorder _ v [] context)
                                         eq_refl)))
                3 semantic_tag.none ser_context_default))).
Defined.

End Staj2More.

Module FilterMore.
Import Staj2.
Import FilterFacts.

(** *** Walks *)

Section Walks.
Context {D : Type} `{HD : basic_staj2_cursor D} `{HBD : bounded_cursor D}.
Hypothesis law : cursor_law D.

Lemma done_no_budget : forall d : D, remaining d = 0%nat -> done d = true.
Proof.
  intros d Hr. destruct (done d) eqn:Hd; [reflexivity|].
  pose proof (proj1 (law d Hd)). lia.
Qed.

(* with the bound as budget a walk reaches done(): more budget adds nothing *)
Lemma walk_fuel : forall n m (d : D),
  (remaining d <= n)%nat -> (remaining d <= m)%nat -> walk n d = walk m d.
Proof.
  induction n as [|n IH]; intros m d Hn Hm.
  - assert (Hd : done d = true) by (apply done_no_budget; lia).
    destruct m; cbn [walk]; [reflexivity|]. rewrite Hd. reflexivity.
  - destruct (done d) eqn:Hd.
    + destruct m; cbn [walk]; rewrite ?Hd; reflexivity.
    + pose proof (proj1 (law d Hd)) as Hlow.
      destruct m as [|m]; [lia|]. cbn [walk]. rewrite Hd. f_equal.
      apply IH; lia.
Qed.

End Walks.

(** *** A filter view rests on accepted events *)

Section Rests.
Context {C : Type} `{HC : basic_staj2_cursor C} `{HB : bounded_cursor C}.
Hypothesis law : cursor_law C.

Lemma law_next : forall c : C,
  done c = false -> (remaining (fst (next c)) < remaining c)%nat.
Proof. intros c Hd. apply (law c Hd). Qed.

Lemma law_next_clear : forall c : C,
  done c = false -> (remaining (fst (next_clear c)) < remaining c)%nat.
Proof. intros c Hd. apply (law c Hd). Qed.

Lemma rests_after_loop : forall step (c : C) (p : predicate) ec,
  (forall c, done c = false -> (remaining (fst (step c)) < remaining c)%nat) ->
  let r := advance_until done (accepts p) step (remaining c) c ec in
  ec_set (snd r) = false -> at_rest (mk_filter_view (fst r) p).
Proof.
  intros step c p ec Hstep r Hec.
  destruct (until_stops done step remaining Hstep (accepts p) (remaining c) c ec
              (le_n _)) as [Hd|[Ha|He]].
  - left. exact Hd.
  - right. exact Ha.
  - fold r in He. congruence.
Qed.

(** X19. Whenever the constructor, next() or next(ec) of a filter view
    over a bounded cursor returns without an error, the view is done or its current event passes the
    predicate. *)
Theorem filter_view_rests_on_accepted : forall (c : C) (p : predicate),
  (ec_set (snd (pipe c p)) = false -> at_rest (fst (pipe c p))) /\
  (forall v : basic_staj2_filter_view C,
     ec_set (snd (next v)) = false -> at_rest (fst (next v))) /\
  (forall (v : basic_staj2_filter_view C) ec,
     ec_set (snd (next_ec v ec)) = false -> at_rest (fst (next_ec v ec))).
Proof.
  intros c p. split; [|split].
  - unfold pipe. rewrite make_filter_view_until. cbn [fst snd].
    apply rests_after_loop. exact law_next.
  - intros [c0 p0]. cbn [next filter_view_cursor]. rewrite filter_next_round.
    cbn [fst snd]. unfold filter_round. destruct (next c0) as [c1 e1].
    apply rests_after_loop. exact law_next.
  - intros [c0 p0] ec. cbn [next_ec filter_view_cursor]. rewrite filter_next_ec_first.
    cbn [fst snd]. apply rests_after_loop. exact law_next_clear.
Qed.

(** *** What a walk over a filter view reads *)

Hypothesis next_succeeds : forall c : C, snd (next c) = ec_clear.

Lemma skip_loop_halted : forall n (p : predicate) (c : C),
  done c = true \/ p (current c) (context c) = true ->
  skip_loop n p c = (c, ec_clear).
Proof.
  intros [|n] p c Hh; cbn [skip_loop]; [reflexivity|].
  destruct Hh as [Hh|Hh]; rewrite Hh; cbn [negb andb]; [reflexivity|].
  rewrite andb_false_r. reflexivity.
Qed.

Lemma skip_loop_fuel : forall n m (p : predicate) (c : C),
  (remaining c <= n)%nat -> (remaining c <= m)%nat ->
  skip_loop n p c = skip_loop m p c.
Proof.
  intros n m p c Hn Hm. rewrite !skip_loop_until.
  apply (until_fuel done next remaining law_next); assumption.
Qed.

Lemma skip_loop_bound : forall n (p : predicate) (c : C),
  (remaining (fst (skip_loop n p c)) <= remaining c)%nat.
Proof.
  intros n p c. rewrite skip_loop_until.
  apply (until_bound done next remaining law_next).
Qed.

Lemma skip_loop_clear : forall n (p : predicate) (c : C),
  snd (skip_loop n p c) = ec_clear.
Proof.
  induction n as [|n IH]; intros p c; cbn [skip_loop]; [reflexivity|].
  destruct (negb (done c) && negb (p (current c) (context c))); [|reflexivity].
  pose proof (next_succeeds c) as Hn. destruct (next c) as [c1 e1].
  cbn [snd] in Hn. subst e1. cbn [ec_set]. apply IH.
Qed.

(* a filter view over a bounded cursor is bounded *)
Lemma view_law : cursor_law (basic_staj2_filter_view C).
Proof.
  intros [c p] Hd. cbn [done filter_view_cursor cursor_] in Hd.
  cbn [next next_ec remaining filter_view_cursor filter_view_bounded cursor_].
  rewrite filter_next_round, filter_next_ec_round. cbn [fst cursor_].
  unfold filter_round. split.
  - pose proof (law_next c Hd) as Hlow. destruct (next c) as [c1 e1]. cbn [fst] in Hlow.
    pose proof (until_bound done next remaining law_next (accepts p)
                  (remaining c1) c1 e1). lia.
  - pose proof (law_next_clear c Hd) as Hlow. destruct (next_clear c) as [c1 e1].
    cbn [fst] in Hlow.
    pose proof (until_bound done next_clear remaining law_next_clear (accepts p)
                  (remaining c1) c1 e1). lia.
Qed.

(* the view a filter makes of a cursor *)
Local Abbreviation view_of p c := (mk_filter_view (fst (skip_loop (remaining c) p c)) p).

Lemma walk_view : forall n (p : predicate) (c : C),
  (remaining c <= n)%nat ->
  walk n (view_of p c) = filter (fun x => p (fst x) (snd x)) (walk n c).
Proof.
  induction n as [|n IH]; intros p c Hn; [reflexivity|].
  destruct (done c) eqn:Hd.
  { rewrite skip_loop_halted by (left; exact Hd). cbn [fst walk].
    cbn [done filter_view_cursor cursor_]. rewrite Hd. reflexivity. }
  pose proof (law_next c Hd) as Hlow.
  pose proof (next_succeeds c) as Hclear.
  destruct (p (current c) (context c)) eqn:Hp.
  - rewrite skip_loop_halted by (right; exact Hp). cbn [fst].
    assert (Hnext : fst (next (mk_filter_view c p)) = view_of p (fst (next c))).
    { cbn [next filter_view_cursor]. unfold filter_next. cbn [cursor_ filter_pred_].
      destruct (next c) as [c1 e1]. cbn [snd fst] in *. subst e1. cbn [ec_set].
      destruct (skip_loop (remaining c1) p c1). reflexivity. }
    cbn [walk]. cbn [done current context filter_view_cursor cursor_].
    rewrite Hd. cbn [filter fst snd]. rewrite Hp. f_equal.
    change (filter_next (mk_filter_view c p)) with (next (mk_filter_view c p)).
    rewrite Hnext. apply IH. lia.
  - assert (Hskip : skip_loop (remaining c) p c
                    = skip_loop (remaining (fst (next c))) p (fst (next c))).
    { destruct (remaining c) as [|k] eqn:Hk; [lia|].
      cbn [skip_loop]. rewrite Hd, Hp. cbn [negb andb].
      destruct (next c) as [c1 e1]. cbn [snd fst] in *. subst e1. cbn [ec_set].
      apply skip_loop_fuel; lia. }
    rewrite Hskip.
    pose proof (skip_loop_bound (remaining (fst (next c))) p (fst (next c))) as Hb.
    rewrite (walk_fuel view_law (S n) n)
      by (cbn [remaining filter_view_bounded cursor_]; lia).
    rewrite IH by lia. cbn [walk]. rewrite Hd. cbn [filter fst snd]. rewrite Hp.
    reflexivity.
Qed.

(** X20. Over a bounded cursor whose next() does not fail, a walk over a
    filter view reads
    the events that pass the predicate, in the order of the cursor, and
    making the view raises no error. *)
Theorem filter_view_walk : forall (c : C) (p : predicate) n,
  (remaining c <= n)%nat ->
  snd (pipe c p) = ec_clear /\
  walk n (fst (pipe c p)) = filter (fun x => p (fst x) (snd x)) (walk n c).
Proof.
  intros c p n Hn. unfold pipe, make_filter_view.
  pose proof (skip_loop_clear (remaining c) p c) as Hc.
  pose proof (walk_view n p c Hn) as Hw.
  destruct (skip_loop (remaining c) p c) as [c1 e1]. cbn [fst snd] in *.
  split; assumption.
Qed.

End Rests.

Lemma filter_view_rests_on_accepted_witness :
  let c : list_cursor :=
    [(event_of_type staj2_event_type.begin_array semantic_tag.none, ser_context_default);
     (event_of_uint64 1 semantic_tag.none, mk_ser_context 1 1 2);
     (event_of_null semantic_tag.none, mk_ser_context 3 1 4);
     (event_of_type staj2_event_type.end_array semantic_tag.none, mk_ser_context 7 1 8)] in
  let p : predicate := fun ev _ =>
    match event_type ev with staj2_event_type.null_value => true | _ => false end in
  cursor_law list_cursor /\
  (ec_set (snd (pipe c p)) = false -> at_rest (fst (pipe c p))) /\
  (forall v : basic_staj2_filter_view list_cursor,
     ec_set (snd (next v)) = false -> at_rest (fst (next v))) /\
  (forall (v : basic_staj2_filter_view list_cursor) ec,
     ec_set (snd (next_ec v ec)) = false -> at_rest (fst (next_ec v ec))).
Proof.
  intros c p.
  exact (conj list_cursor_law (filter_view_rests_on_accepted list_cursor_law c p)).
Defined.

Lemma filter_view_walk_witness :
  let c : list_cursor :=
    [(event_of_type staj2_event_type.begin_array semantic_tag.none, ser_context_default);
     (event_of_uint64 1 semantic_tag.none, mk_ser_context 1 1 2);
     (event_of_null semantic_tag.none, mk_ser_context 3 1 4);
     (event_of_uint64 0 semantic_tag.none, mk_ser_context 8 1 9);
     (event_of_type staj2_event_type.end_array semantic_tag.none, mk_ser_context 9 1 10)] in
  let p : predicate := fun ev _ =>
    match event_type ev with staj2_event_type.uint64_value => true | _ => false end in
  (cursor_law list_cursor /\ (forall c : list_cursor, snd (next c) = ec_clear) /\
   (remaining c <= 5)%nat) /\
  snd (pipe c p) = ec_clear /\
  walk 5 (fst (pipe c p)) = filter (fun x => p (fst x) (snd x)) (walk 5 c).
Proof.
  intros c p.
  assert (Hn : (remaining c <= 5)%nat) by (vm_compute; repeat constructor).
  exact (conj (conj list_cursor_law (conj (fun _ => eq_refl) Hn))
              (filter_view_walk list_cursor_law (fun _ => eq_refl) c p 5 Hn)).
Defined.
End FilterMore.

Module FilterAccept.
Import Staj2.
Import FilterFacts.

Section Transparent.
Context {C : Type} `{HC : basic_staj2_cursor C} `{HB : bounded_cursor C}.

Lemma skip_loop_accept : forall n (c : C), skip_loop n accept c = (c, ec_clear).
Proof.
  intros [|n] c; cbn [skip_loop]; [reflexivity|].
  unfold accept. cbn [negb]. rewrite andb_false_r. reflexivity.
Qed.

Lemma skip_loop_ec_accept : forall n (c : C) ec, skip_loop_ec n accept c ec = (c, ec).
Proof.
  intros [|n] c ec; cbn [skip_loop_ec]; [reflexivity|].
  unfold accept. cbn [negb]. rewrite andb_false_r. reflexivity.
Qed.

Lemma advance_accept : forall (c : C) (pl : pull),
  advance (mk_filter_view c accept) pl
  = (mk_filter_view (fst (advance c pl)) accept, snd (advance c pl)).
Proof.
  intros c [|ec]; cbn [advance next next_ec filter_view_cursor].
  - unfold filter_next. cbn [cursor_ filter_pred_].
    destruct (next c) as [c1 e1]. cbn [fst snd].
    destruct (ec_set e1) eqn:He; [reflexivity|].
    apply ec_set_false in He. subst e1. rewrite skip_loop_accept. reflexivity.
  - unfold filter_next_ec. cbn [cursor_ filter_pred_].
    destruct (next_ec c ec) as [c1 e1]. cbn [fst snd].
    rewrite skip_loop_ec_accept. reflexivity.
Qed.

Lemma observe_accept : forall pulls (c : C) code,
  observe (mk_filter_view c accept) code pulls = observe c code pulls.
Proof.
  induction pulls as [|pl pulls IH]; intros c code; [reflexivity|].
  cbn [observe]. rewrite advance_accept.
  cbn [done current context filter_view_cursor cursor_]. f_equal.
  destruct (advance c pl) as [c1 e1]. cbn [fst snd]. apply IH.
Qed.

(** X21. A filter view with the predicate [accept] shows what its cursor
    shows:
    making it moves nothing and raises no error, and along any sequence of
    next() and next(ec) calls done(), current(), context() and the error
    codes are those of the cursor. *)
Theorem accept_filter_is_transparent : forall (c : C) (pulls : list pull) code,
  pipe c accept = (mk_filter_view c accept, ec_clear) /\
  observe (fst (pipe c accept)) code pulls = observe c code pulls.
Proof.
  intros c pulls code. unfold pipe, make_filter_view. rewrite skip_loop_accept.
  split; [reflexivity|]. apply observe_accept.
Qed.

End Transparent.
End FilterAccept.

Module JsonDecoderRoundTrip.
Import JsonDecoder.

Section RoundTrip.
Context {Json : Type} `{HJ : json_value Json}.

(** Induction on documents, with the items and the members of the document
    at hand. *)
Lemma document_nested_ind : forall P : document Json -> Prop,
  P doc_null ->
  (forall b, P (doc_bool b)) ->
  (forall v, P (doc_int64 v)) ->
  (forall v, P (doc_uint64 v)) ->
  (forall v fmt, P (doc_double v fmt)) ->
  (forall s, P (doc_string s)) ->
  (forall s, P (doc_byte_string s)) ->
  (forall s, P (doc_bignum s)) ->
  (forall items, Forall P items -> P (doc_array items)) ->
  (forall members, Forall (fun m => P (snd m)) members -> P (doc_object members)) ->
  forall doc, P doc.
Proof.
  intros P Hnull Hbool Hi Hu Hd Hs Hbs Hbn Harr Hobj.
  fix IH 1. intros [ |b|v|v|v fmt|s|s|s|items|members].
  - exact Hnull.
  - apply Hbool.
  - apply Hi.
  - apply Hu.
  - apply Hd.
  - apply Hs.
  - apply Hbs.
  - apply Hbn.
  - apply Harr. induction items as [|a items IHitems]; constructor.
    + apply IH.
    + exact IHitems.
  - apply Hobj. induction members as [|[k a] members IHmembers]; constructor.
    + apply IH.
    + exact IHmembers.
Qed.

Lemma run_app : forall (a b : list (call Json)) (d : json_decoder Json),
  run d (a ++ b) = (d' <- run d a ;; run d' b).
Proof.
  induction a as [|c a IH]; intros b d; [reflexivity|].
  cbn [app run]. destruct (step d c) as [d1|f]; [|reflexivity]. apply IH.
Qed.

Lemma back_last : forall (A : Type) (l : list A) (x : A), back (l ++ [x]) = Ok x.
Proof. intros A l x. unfold back. rewrite rev_unit. reflexivity. Qed.

Lemma set_back_value_last : forall (st : list (stack_item Json)) x v,
  set_back_value (st ++ [x]) v = Ok (st ++ [mk_item (name_ x) v]).
Proof.
  intros st x v. unfold set_back_value. rewrite rev_unit.
  cbn [rev]. rewrite rev_involutive. reflexivity.
Qed.

Lemma skipn_length_app : forall (A : Type) (l r : list A),
  skipn (List.length l) (l ++ r) = r.
Proof. induction l as [|x l IH]; intros r; [reflexivity|apply IH]. Qed.

Lemma firstn_length_app : forall (A : Type) (l r : list A),
  firstn (List.length l) (l ++ r) = l.
Proof.
  induction l as [|x l IH]; intros r; [reflexivity|].
  cbn [List.length app firstn]. rewrite IH. reflexivity.
Qed.

Lemma firstn_one_more : forall (A : Type) (l r : list A) (x : A),
  firstn (Z.to_nat (Zlen l + 1)) (l ++ x :: r) = l ++ [x].
Proof.
  intros A l r x.
  replace (Z.to_nat (Zlen l + 1)) with (List.length (l ++ [x]))
    by (unfold Zlen; rewrite length_app; cbn [List.length]; lia).
  replace (l ++ x :: r) with ((l ++ [x]) ++ r) by (rewrite <- app_assoc; reflexivity).
  apply firstn_length_app.
Qed.

(* the decoder after put_value: the stack ends with the value *)
Let with_top (d : json_decoder Json) (st : list (stack_item Json)) (nm : string)
  (v : Json) : json_decoder Json :=
  mk_decoder (result_ d) (st ++ [mk_item nm v]) (stack_offsets_ d) (is_valid_ d).

(* put_value succeeds at [d], and leaves [st] under the value *)
Let takes_value (d : json_decoder Json) (st : list (stack_item Json)) (nm : string)
  : Prop :=
  forall v, put_value d v = Ok (with_top d st nm v).

Lemma takes_value_pushing : forall (d : json_decoder Json) top,
  back (stack_offsets_ d) = Ok top -> type_ top <> object_t ->
  takes_value d (stack_ d) EmptyString.
Proof.
  intros d top Hb Ht v. unfold put_value. rewrite Hb. cbn.
  destruct (type_ top); [reflexivity|reflexivity|congruence].
Qed.

Lemma takes_value_named : forall (d : json_decoder Json) top st x,
  back (stack_offsets_ d) = Ok top -> type_ top = object_t ->
  stack_ d = st ++ [x] ->
  takes_value d st (name_ x).
Proof.
  intros d top st x Hb Ht Hst v. unfold put_value. rewrite Hb. cbn. rewrite Ht.
  rewrite Hst, set_back_value_last. reflexivity.
Qed.

(* the decoder inside a structure just opened *)
Let opened (d : json_decoder Json) (st : list (stack_item Json)) (nm : string)
  (j : Json) (t : structure_type) (members : list (stack_item Json))
  : json_decoder Json :=
  mk_decoder (result_ d) (st ++ mk_item nm j :: members)
             (stack_offsets_ d ++ [mk_offset (Zlen st) t]) (is_valid_ d).

Lemma push_structure_opened : forall (d : json_decoder Json) st nm j t,
  takes_value d st nm ->
  push_structure d j t = Ok (opened d st nm j t []).
Proof.
  intros d st nm j t Htv. unfold push_structure. rewrite (Htv j).
  unfold with_top, opened. cbn [bind result_ stack_ stack_offsets_ is_valid_].
  replace (Zlen (st ++ [mk_item nm j]) - 1) with (Zlen st); [reflexivity|].
  unfold Zlen. rewrite length_app. cbn [List.length]. lia.
Qed.

Lemma end_then_pop_opened : forall (d : json_decoder Json) st nm j t members,
  (d1 <- end_structure (opened d st nm j t members) ;; pop_structure d1)
  = Ok (with_top d st nm
          match t with
          | object_t => json_insert j (map (fun it => (name_ it, value_ it)) members)
          | _ => fold_left (fun j it => json_push_back j (value_ it)) members j
          end).
Proof.
  intros d st nm j t members. unfold end_structure, opened.
  cbn [stack_offsets_ stack_ result_ is_valid_].
  replace (Zlen (stack_offsets_ d ++ [mk_offset (Zlen st) t]) >? 0) with true
    by (symmetry; apply Z.gtb_lt; unfold Zlen; rewrite length_app; cbn [List.length]; lia).
  cbn [negb]. rewrite back_last. cbn [bind offset_ type_].
  replace (Zlen (st ++ mk_item nm j :: members) >? Zlen st) with true
    by (symmetry; apply Z.gtb_lt; unfold Zlen; rewrite length_app; cbn [List.length]; lia).
  cbn [negb]. unfold Zlen at 1 2. rewrite Nat2Z.id.
  rewrite skipn_length_app, firstn_length_app.
  cbn [bind]. unfold pop_structure. cbn [stack_offsets_ stack_ result_ is_valid_].
  rewrite back_last. cbn [bind offset_].
  replace ((0 <=? Zlen st + 1) && (Zlen st + 1 <=? Zlen (st ++ _ :: _))) with true.
  2:{ symmetry. apply andb_true_iff. split; apply Z.leb_le; unfold Zlen.
      - lia.
      - rewrite length_app. cbn [List.length]. lia. }
  rewrite removelast_last, firstn_one_more. reflexivity.
Qed.

(* what a decoder does with a document wherever it takes a value *)
Let decodes (doc : document Json) : Prop :=
  forall d st nm, takes_value d st nm ->
    run d (events_of doc) = Ok (with_top d st nm (build doc)).

Lemma items_pushed : forall items : list (document Json),
  Forall decodes items ->
  forall d top, back (stack_offsets_ d) = Ok top -> type_ top <> object_t ->
  run d (flat_map events_of items)
  = Ok (mk_decoder (result_ d)
          (stack_ d ++ map (fun i => item_of_value (build i)) items)
          (stack_offsets_ d) (is_valid_ d)).
Proof.
  intros items Hall. induction Hall as [|a items Ha Hall IH]; intros d top Hb Ht.
  - cbn [flat_map run map]. rewrite app_nil_r. destruct d; reflexivity.
  - cbn [flat_map map]. rewrite run_app.
    rewrite (Ha d (stack_ d) EmptyString (takes_value_pushing d top Hb Ht)).
    cbn [bind]. rewrite (IH _ top) by assumption.
    unfold with_top. cbn [result_ stack_ stack_offsets_ is_valid_].
    rewrite <- app_assoc. reflexivity.
Qed.

Lemma members_named : forall members : list (string * document Json),
  Forall (fun m => decodes (snd m)) members ->
  forall d top, back (stack_offsets_ d) = Ok top -> type_ top = object_t ->
  run d (flat_map (fun m => name (fst m) :: events_of (snd m)) members)
  = Ok (mk_decoder (result_ d)
          (stack_ d ++ map (fun m => mk_item (fst m) (build (snd m))) members)
          (stack_offsets_ d) (is_valid_ d)).
Proof.
  intros members Hall. induction Hall as [|[k a] members Ha Hall IH]; intros d top Hb Ht.
  - cbn [flat_map run map]. rewrite app_nil_r. destruct d; reflexivity.
  - cbn [flat_map map fst snd app run step bind]. rewrite run_app.
    cbn [snd] in Ha.
    rewrite (Ha (do_name d k) (stack_ d) k).
    + cbn [bind]. rewrite (IH _ top) by assumption.
      unfold with_top. cbn [result_ stack_ stack_offsets_ is_valid_ do_name].
      rewrite <- app_assoc. reflexivity.
    + apply (takes_value_named (do_name d k) top (stack_ d) (item_of_name k));
        [exact Hb|exact Ht|reflexivity].
Qed.

Lemma fold_push_back_items : forall (vs : list Json) (j : Json),
  fold_left (fun j it => json_push_back j (value_ it)) (map item_of_value vs) j
  = fold_left (fun j v => json_push_back j v) vs j.
Proof. induction vs as [|v vs IH]; intros j; [reflexivity|apply IH]. Qed.

Lemma document_decoded : forall doc : document Json, decodes doc.
Proof.
  induction doc as [ |b|v|v|v fmt|s|s|s|items IH|members IH] using document_nested_ind;
    intros d st nm Htv;
    try (cbn [events_of run step bind build];
         cbv [do_null_value do_bool do_int64_value do_uint64_value do_double_value
              do_string_value do_byte_string_value do_bignum_value];
         rewrite Htv; reflexivity).
  - cbn [events_of run step]. unfold do_begin_array, push_array.
    rewrite (push_structure_opened d st nm json_empty_array array_t Htv).
    cbn [bind]. rewrite run_app.
    rewrite (items_pushed items IH _ (mk_offset (Zlen st) array_t))
      by (first [apply back_last|discriminate]).
    cbn [bind run step]. unfold do_end_array, pop_array.
    unfold opened at 1 2 3 4. cbn [result_ stack_ stack_offsets_ is_valid_].
    rewrite <- app_assoc. cbn [app].
    change (mk_decoder (result_ d)
              (st ++ mk_item nm json_empty_array
                  :: map (fun i => item_of_value (build i)) items)
              (stack_offsets_ d ++ [mk_offset (Zlen st) array_t]) (is_valid_ d))
      with (opened d st nm json_empty_array array_t
              (map (fun i => item_of_value (build i)) items)).
    rewrite end_then_pop_opened. cbn [bind build].
    rewrite <- (map_map build item_of_value), fold_push_back_items. reflexivity.
  - cbn [events_of run step]. unfold do_begin_object, push_object.
    rewrite (push_structure_opened d st nm json_empty_object object_t Htv).
    cbn [bind]. rewrite run_app.
    rewrite (members_named members IH _ (mk_offset (Zlen st) object_t))
      by (first [apply back_last|reflexivity]).
    cbn [bind run step]. unfold do_end_object, pop_object.
    unfold opened at 1 2 3 4. cbn [result_ stack_ stack_offsets_ is_valid_].
    rewrite <- app_assoc. cbn [app].
    change (mk_decoder (result_ d)
              (st ++ mk_item nm json_empty_object
                  :: map (fun m => mk_item (fst m) (build (snd m))) members)
              (stack_offsets_ d ++ [mk_offset (Zlen st) object_t]) (is_valid_ d))
      with (opened d st nm json_empty_object object_t
              (map (fun m => mk_item (fst m) (build (snd m))) members)).
    rewrite end_then_pop_opened. cbn [bind build]. rewrite map_map. reflexivity.
Qed.

(** X22. From begin_document to end_document the decoder turns the calls of
    a document into its value, whatever state it was in before: the calls all
    succeed, is_valid() holds, get_result() returns the value; the stack is
    left empty. *)
Theorem document_round_trip : forall (doc : document Json) (d0 : json_decoder Json),
  exists d,
    run d0 (begin_document :: events_of doc ++ [end_document]) = Ok d /\
    is_valid d = true /\
    fst (get_result d) = build doc /\
    stack_ d = [].
Proof.
  intros doc d0. cbn [run step bind]. rewrite run_app.
  rewrite (document_decoded doc (do_begin_document d0) [] EmptyString).
  - cbn [bind run step app]. eexists. split; [reflexivity|].
    repeat split.
  - apply (takes_value_pushing (do_begin_document d0) (mk_offset 0 root_t));
      [reflexivity|discriminate].
Qed.

(** X23. A decoder that holds no structure offset, as one fresh from its
    constructor, cannot take a value: every value call and every begin_object
    and begin_array reads back() of the empty vector, and end_object and
    end_array fail their assertion.  begin_document, end_document, a name and
    get_result() do not need one. *)
Theorem calls_before_begin_document_fault : forall (d : json_decoder Json) (c : call Json),
  stack_offsets_ d = [] ->
  match c with
  | begin_document | end_document | name _ | retrieve => exists d', step d c = Ok d'
  | end_object | end_array => step d c = Err assertion_failed
  | _ => step d c = Err out_of_bounds
  end.
Proof.
  intros d c Hoff.
  destruct c; cbn [step]; try (eexists; reflexivity);
    cbv [do_begin_object do_begin_array push_object push_array push_structure
         do_end_object do_end_array end_structure
         do_null_value do_bool do_int64_value do_uint64_value do_double_value
         do_string_value do_byte_string_value do_bignum_value put_value];
    rewrite Hoff; reflexivity.
Qed.

End RoundTrip.

Lemma calls_before_begin_document_fault_witness :
  stack_offsets_ (json_decoder_new (Json := tree)) = [] /\
  step (json_decoder_new (Json := tree)) (int64_value 1) = Err out_of_bounds.
Proof.
  exact (conj eq_refl
           (calls_before_begin_document_fault json_decoder_new (int64_value 1) eq_refl)).
Defined.
End JsonDecoderRoundTrip.
